(* ===== verification/_CoqProject ===== *)
-Q . S2P
Prelude.v
GoStrings.v
GoValue.v
GoTime.v
External.v
Base64.v
Token.v
Keys.v
Issuance.v
LocalVerifier.v
Fetch.v
SdkVerify.v
Authn.v
Instances.v
AuthnProps.v
TTSHandler.v
TTSProps.v
Api.v
PolicyRules.v
CelVerify.v
Controller.v
GoSort.v
RulesProto.v
RuleServer.v
RuleServerProps.v
RuleClient.v
Pipeline.v
Delivery.v
TTSRuleClient.v
RunLoop.v
GoUrl.v
SdkClient.v
SdkProps.v
ControllerProps.v
Identity.v
ExtAuth.v
ExtAuthProps.v
AdapterProps.v
TTSServer.v
TTSMain.v
ExtAuthMain.v
ReconcileSteps.v
ControllerMain.v
GoHeap.v
DeepCopy.v
Feeds.v
System.v
Watches.v
MockIdp.v
Demo.v
Agents.v
