(* ===== verification/Prelude.v ===== *)
(** * kontxt: transaction tokens for Kubernetes

    ** The program

    A transaction token (TxToken) is a short-lived JWT that carries the subject,
    scope and context of one request along the services that handle it.  The
    repository has three binaries and an SDK:

    - the token service (TTS, [src/cmd/tts], [src/pkg/tts]) exchanges a subject
      token for a TxToken, or a TxToken for a narrower one;
    - the adapter ([src/cmd/extauth], [src/pkg/extauth]) answers Envoy's ext_authz
      checks: it verifies the TxToken of a request, or has one generated;
    - the controller ([src/cmd/controller], [src/internal/controller]) reconciles
      three custom resources into rules and streams them to the other two;
    - the SDK ([src/sdk]) verifies and propagates TxTokens in Go services and
      calls the TTS.

    The controller's rule server keeps, for each of three kinds of rules, the
    rules, a version and a bounded channel per client; the rule clients of the
    adapter and of the TTS rebuild the rules in a map and hand them to a setter,
    which compiles them; the handlers read the compiled rules on every request.

    ** Files, in dependency order

    Language and libraries: [Prelude] (results, errors, lists, hints), [GoStrings],
    [GoValue], [GoTime], [GoSort], [GoUrl], [Base64] model what the code uses of
    Go and its standard library.  [External] has a class for each library outside
    the repository ([Unicode], [JSON], [CEL], [Crypto], [JWT], [Documents],
    [HttpClient]) and classes of the documented laws the theorems rely on;
    [Instances] has concrete libraries that satisfy the laws, used by the
    examples.  [Fetch] is the network: a function from URLs to responses.

    Token service: [Token] (pkg/token), [Keys] (pkg/keys), [Issuance]
    (pkg/tts/cel.go), [LocalVerifier] (pkg/tts/local_verifier.go), [Authn] and
    [AuthnProps] (pkg/authn), [TTSHandler] and [TTSProps] (pkg/tts/handler.go),
    [TTSServer] (pkg/tts/config.go, server.go), [TTSMain] (cmd/tts).

    Control plane: [Api] (api/v1alpha1/types.go, internal/controller/rules.go),
    [PolicyRules] (rules.go), [Controller] and [ControllerProps] (controller.go,
    policy_reconciler.go), [RulesProto] (the generated messages, as records),
    [RuleServer] and [RuleServerProps] (ruleserver/server.go), [RuleClient],
    [TTSRuleClient], [RunLoop] (pkg/extauth/ruleclient, pkg/tts/ruleclient),
    [Pipeline] and [Delivery] (the link between a server and a client),
    [ReconcileSteps] (the reconcilers again, call by call, with the cluster
    changing in between), [ControllerMain] (cmd/controller and the
    registrations of the reconcilers), [Watches] (how old the published rules
    are).

    Adapter and SDK: [CelVerify] (pkg/extauth/celverify), [Identity], [ExtAuth],
    [ExtAuthProps], [AdapterProps] (pkg/extauth), [ExtAuthMain] (cmd/extauth),
    [SdkVerify] (sdk/verify), [SdkClient] (sdk/tts, sdk/middleware), [SdkProps].

    API objects: [GoHeap] (values, cells and allocation, and the shapes of copy
    the generator emits), [DeepCopy] (the layout of every struct of
    api/v1alpha1/types.go and every function of zz_generated.deepcopy.go).

    Composition: [Feeds] (the log of a feed and the connection of a client),
    [System] (the three processes and the streams between them).

    Demonstrations: [MockIdp] (examples/agents/mock-idp), [Demo] (the chain of
    examples/demo), [Agents] (orchestrator, retriever and analyzer of
    examples/agents).

    ** How the code is represented

    A struct is a record, an interface a class, a Go function a definition of the
    same name (with the file's prefix where two packages share a name).  A
    function that returns an error returns [result]; a panic is [GoPanic] and a
    handler that panics has no reply.  A method that changes its receiver
    returns the new one; an object two parts share is kept once, in the state of
    the process ([TTSProcess], [AdapterProcess], [ControllerProcess]).  Clocks,
    UUIDs, generated keys, file contents, network replies and the outcomes of
    listening are arguments.  The order in which Go visits a map is a function
    [range] of the map, about which the theorems assume at most that it is a
    permutation of the entries ([range_order]).

    ** Steps and interleaving

    Code under a mutex is one step.  A reconciliation is not: it is a sequence of
    calls to the API server that ends with one publication, and the cluster, the
    streams and the reconciliations of the other kinds move between any two of its
    calls ([ReconcileSteps], [ControllerMain]); each reconciler runs one at a time,
    as controller-runtime does by default, and the cluster is what the manager's
    client answers from.  The functions [*_Reconcile] of [Controller] are a
    reconciliation that nothing disturbs ([undisturbed_reconcile]); the theorems of
    ControllerProps, ExtAuthProps and AdapterProps that follow one reconciliation
    to the far end are about these.  A message at a rule client is two steps, the
    setter and the store of the flag behind it, with requests and checks in
    between.  A request of the token service and a check of the adapter are one
    step each: they read the rules once, through an atomic pointer, except in the
    adapter's generating mode, where the rules are a plain field that
    [SetGenerationRules] writes without a lock while a check reads it by index.
    That race is outside [GenerationServer_Check]; the loop it is in is modelled by
    [findMatchingRuleRacing], which agrees with [findMatchingRule] when the rules
    stay and can panic when they get fewer.

    ** What the theorems show

    - Exchange (TTSProps, Issuance, AuthnProps, Token, Keys): tokens are issued
      only for authenticated subjects that pass the issuance rules; replacement
      only narrows; what is signed verifies until it expires, also across a
      rotation; each status goes with its error code; malformed requests change
      nothing.
    - Clients of the TTS (SdkProps): requests are parsed as sent and tokens are
      accepted and propagated by downstream services.
    - Checks (ExtAuthProps, AdapterProps, Identity): a request passes only with
      a verified token that satisfies every rule or to an excluded endpoint;
      generated and narrowed tokens are what the rules ask for.
    - Distribution (Pipeline, Delivery, RuleServerProps, ControllerProps,
      AdapterProps, RunLoop): reconciled resources are enforced at the far end,
      whatever the map orders; published rules are those of the last successful
      reconciliation of their kind (Watches); the server's state is well-formed;
      under a fair schedule the last rules are eventually delivered, if no
      publication since the client was last sent everything was dropped; the
      clients run until cancelled, with the stated delays.
    - Processes (TTSMain, ExtAuthMain, ControllerMain): reachability invariants of
      the three binaries, from [main] on: what the controller publishes, what the
      token service and the adapter enforce given the messages they heard, and
      what their readiness routes say of it.
    - The whole system (System): whatever the processes do together and however
      often their streams break, the clients run with sets the controller
      published, in order; each is made of the cluster at one moment, but for the
      lifetimes of generation rules, which the policies of later moments may cap.
    - API objects (DeepCopy): a deep copy equals the original and shares no
      mutable memory with it, for every type of the API.
    - Whole transactions (MockIdp, Demo, Agents): an access token of the identity
      provider authenticates its user; a token obtained for it is verified on
      every hop of the demonstration services, which see one transaction.
    - What goes wrong (the theorems on dropped updates, duplicate rule names,
      label selectors, targeted rules, exclusions across services, several
      scopes, overlapping endpoints, path fields, workload subjects and IPv6
      pods, and the loop that races): behaviour of the code that its documentation
      does not lead to expect, proved as it is.

    ** Bounds and termination

    Recursions follow the data, with two exceptions: [duration_loop] has the
    length of its string as fuel, which [duration_loop_fuel] shows to be enough,
    and [bytes_go] the bit length of its integer, enough for its bytes.  Lists of
    requests, events and connection attempts stand for prefixes of unbounded
    runs, and the theorems hold for all of them; [Delivery] quantifies over
    infinite schedules.  Channels hold 64 messages, as in the code.  Version and
    subscription counters wrap at 2^64; theorems about them assume fewer steps.
    Durations and times are 64-bit nanoseconds where the code's arithmetic can
    overflow ([GoTime]).

    ** Not modelled

    The gRPC stubs and the scheme registration, which only call grpc-go and
    controller-runtime; the text of log lines and of rendered errors; flag
    parsing; controller-runtime and the gRPC transport, which are the
    environment of the steps; how the binaries stop (signals, [Shutdown] and
    [GracefulStop] of net/http and grpc-go); tool pins and version strings. *)

From stdpp Require Export base gmap strings list fin_maps sorting.
From Stdlib Require Export ZArith Ascii Lia.
#[global] Set Warnings "-register-all,-clear-no-such-hyp".
#[global] Set Default Goal Selector "!".

(** ** Results and errors

    A Go function returning [(T, error)] is a function into [result T].  An
    error value keeps the format string of the [fmt.Errorf] that made it, the
    textual arguments it is applied to and the error it wraps; rendering it to
    a message is not modelled.  The two typed errors of the program are
    constructors of their own.  A run-time panic (a failed type assertion, a
    nil dereference) is [GoPanic]: no caller wraps it, so [wrapf] passes it on
    unchanged, as unwinding does. *)
Inductive error : Type :=
  | Errorf (format : string) (args : list string) (cause : option error)
  | IssuanceDeniedError (RuleName Message : string)
  | DeniedError (RuleName Message : string)
  | GoPanic (what : string).

Definition errorf (format : string) (args : list string) : error := Errorf format args None.
Definition wrapf (format : string) (args : list string) (e : error) : error :=
  match e with GoPanic _ => e | _ => Errorf format args (Some e) end.

Inductive result (A : Type) : Type :=
  | Ok (a : A)
  | Err (e : error).
Arguments Ok {_} _.
Arguments Err {_} _.

Definition is_ok {A} (r : result A) : bool := match r with Ok _ => true | Err _ => false end.

(** [map_err f r]: the early return [return ..., fmt.Errorf("...: %w", err)]. *)
Definition map_err {A} (f : error → error) (r : result A) : result A :=
  match r with Ok a => Ok a | Err e => Err (f e) end.

Declare Scope go_scope.
Delimit Scope go_scope with go.
#[global] Open Scope go_scope.

Notation "'try!' x := e 'in' k" :=
  (match e with Ok x => k | Err err => Err err end)
  (at level 10, x pattern, e at level 100, k at level 200,
   format "'[v' 'try!'  x  :=  e  'in' '/' k ']'") : go_scope.

(** ** Tactics *)

(** Case analysis on the condition or the scrutinee the goal is blocked on. *)
Ltac split_match :=
  match goal with
  | |- context [match ?x with _ => _ end] => destruct x eqn:?
  end.

Ltac split_match_in H :=
  match type of H with
  | context [match ?x with _ => _ end] => destruct x eqn:?
  end.

(** Follow the early returns of an operation that ended with the result in [H]. *)
Ltac run_result H :=
  repeat (split_match_in H; try discriminate H); simplify_eq H.

Ltac bool_to_prop :=
  repeat match goal with
  | H : bool_decide _ = true |- _ => apply bool_decide_eq_true in H
  | H : bool_decide _ = false |- _ => apply bool_decide_eq_false in H
  | H : _ && _ = true |- _ => apply andb_true_iff in H; destruct H
  | H : _ || _ = false |- _ => apply orb_false_iff in H; destruct H
  | H : negb _ = true |- _ => apply negb_true_iff in H
  | H : negb _ = false |- _ => apply negb_false_iff in H
  end.

Create HintDb kontxt.
#[global] Hint Constants Opaque : kontxt.
#[global] Hint Variables Opaque : kontxt.

(** ** Lists *)

(** [traverse f l]: a loop that appends [f x] for every [x] and returns at the
    first error. *)
Fixpoint traverse {A B} (f : A → result B) (l : list A) : result (list B) :=
  match l with
  | [] => Ok []
  | x :: l => try! y := f x in try! ys := traverse f l in Ok (y :: ys)
  end.

Lemma traverse_ok {A B} (f : A → result B) l l' :
  traverse f l = Ok l' ↔ Forall2 (λ x y, f x = Ok y) l l'.
Proof.
  revert l'. induction l as [|x l IH]; intros l'; simpl.
  - split; [intros [= <-]; constructor | by inversion 1].
  - split.
    + intros H. destruct (f x) eqn:?; [|done]. destruct (traverse f l); [|done].
      simplify_eq. constructor; [done|]. by apply IH.
    + inversion 1; subst. by rewrite H2, (proj2 (IH _) H4).
Qed.

Lemma traverse_err {A B} (f : A → result B) l e :
  traverse f l = Err e ↔
  ∃ l1 x l2, l = l1 ++ x :: l2 ∧ (∀ y, y ∈ l1 → is_ok (f y) = true) ∧ f x = Err e.
Proof.
  induction l as [|x l IH]; simpl.
  { split; [done|]. by intros ([|??] & ? & ? & ? & _). }
  destruct (f x) as [y|e'] eqn:Hx.
  - destruct (traverse f l) as [ys|e''] eqn:Hl.
    + split; [done|]. intros ([|x' l1] & z & l2 & Heq & Hpre & Hz); simplify_eq/=; [congruence|].
      assert ((Ok ys : result (list B)) = Err e); [apply IH|done].
      exists l1, z, l2. split_and!; [done| |done]. intros w Hw. apply Hpre. by right.
    + split.
      * intros [= <-]. destruct (proj1 IH eq_refl) as (l1 & z & l2 & -> & Hpre & Hz).
        exists (x :: l1), z, l2. split_and!; [done| |done].
        intros w [->|Hw]%elem_of_cons; [by rewrite Hx|by apply Hpre].
      * intros ([|x' l1] & z & l2 & Heq & Hpre & Hz); simplify_eq/=; [congruence|].
        assert ((Err e'' : result (list B)) = Err e) as [= ->]; [apply IH|done].
        exists l1, z, l2. split_and!; [done| |done]. intros w Hw. apply Hpre. by right.
  - split.
    + intros [= <-]. exists [], x, l. split_and!; [done| |done]. by intros y ?%elem_of_nil.
    + intros ([|x' l1] & z & l2 & Heq & Hpre & Hz); simplify_eq/=; [congruence|].
      specialize (Hpre x' (list_elem_of_here _ _)). by rewrite Hx in Hpre.
Qed.

Lemma traverse_is_ok {A B} (f : A → result B) l :
  is_ok (traverse f l) = true ↔ ∀ x, x ∈ l → is_ok (f x) = true.
Proof.
  induction l as [|x l IH]; simpl; [split; [by intros _ ? ?%elem_of_nil|done]|].
  setoid_rewrite elem_of_cons.
  destruct (f x) eqn:Hf; simpl; [|split; [done|intros HH; specialize (HH x); rewrite Hf in HH; naive_solver]].
  destruct (traverse f l); simpl in *; [|naive_solver].
  split; [|done]. intros _ y [->|Hy]; [by rewrite Hf|by apply IH].
Qed.

(** [existsb]/[forallb] as loops with an early [return]. *)
Lemma existsb_elem {A} (f : A → bool) l : existsb f l = true ↔ ∃ x, x ∈ l ∧ f x = true.
Proof. rewrite existsb_exists. by setoid_rewrite list_elem_of_In. Qed.

Lemma forallb_elem {A} (f : A → bool) l : forallb f l = true ↔ ∀ x, x ∈ l → f x = true.
Proof. rewrite forallb_forall. by setoid_rewrite list_elem_of_In. Qed.

(** Loops that append: [for _, x := range l { out = append(out, f(x)...) }]. *)
Lemma elem_of_concat_map {A B} (f : A → list B) l y :
  y ∈ concat (map f l) ↔ ∃ x, x ∈ l ∧ y ∈ f x.
Proof.
  rewrite list_elem_of_In, in_concat. setoid_rewrite in_map_iff.
  setoid_rewrite list_elem_of_In. naive_solver.
Qed.

Lemma concat_map_nil {A B} (f : A → list B) l : concat (map f l) = [] ↔ ∀ x, x ∈ l → f x = [].
Proof.
  induction l as [|x l IH]; simpl; [split; [by intros _ ? ?%elem_of_nil|done]|].
  rewrite app_nil, IH. setoid_rewrite elem_of_cons. naive_solver.
Qed.

Lemma find_ext_dead {A} (f g : A → bool) l :
  (∀ x, g x = true → f x = true) → find f l = None → find g l = None.
Proof.
  intros Hfg. induction l as [|x l IH]; simpl; [done|].
  destruct (f x) eqn:Hf; [done|]. destruct (g x) eqn:Hg; [|done].
  apply Hfg in Hg. congruence.
Qed.

(** [range_order m l]: [l] is a possible order in which Go's [range] visits [m]. *)
Definition range_order {K V} `{Countable K} (m : gmap K V) (l : list (K * V)) : Prop :=
  l ≡ₚ map_to_list m.

Lemma range_order_elem {K V} `{Countable K} (m : gmap K V) l k v :
  range_order m l → (k, v) ∈ l ↔ m !! k = Some v.
Proof. intros ->. apply elem_of_map_to_list. Qed.

Lemma range_order_NoDup {K V} `{Countable K} (m : gmap K V) l :
  range_order m l → NoDup l.*1.
Proof. intros Hl. rewrite Hl. apply NoDup_fst_map_to_list. Qed.
