(* ===== verification/GoStrings.v ===== *)
(** * Go's [strings] package on byte strings

    A Go string is a sequence of bytes: a Rocq [string].  This file holds the
    functions of [strings] and [net/textproto] the program calls, on every byte
    string, and the lemmas about them the components share.  Where Go consults
    the Unicode case tables (only for strings with bytes above 0x7f) the tables
    are a parameter, the class [Unicode]. *)

From S2P Require Import Prelude.

Definition byte (a : ascii) : N := N_of_ascii a.

Definition in_range (lo hi : N) (b : N) : bool := (lo <=? b)%N && (b <=? hi)%N.

Definition is_ascii_byte (a : ascii) : bool := (byte a <? 0x80)%N.

Fixpoint string_forallb (f : ascii → bool) (s : string) : bool :=
  match s with "" => true | String a s => f a && string_forallb f s end.

Definition is_ascii (s : string) : bool := string_forallb is_ascii_byte s.

(** ** [strings.Fields]

    [space_width s] is the number of bytes of the Unicode white-space rune [s]
    starts with, 0 when it starts with none.  The first bytes of the multi-byte
    spaces are never continuation bytes, so testing every byte position is the
    same as testing every rune position, also in invalid UTF-8. *)
Definition space_width (s : string) : nat :=
  match s with
  | "" => 0
  | String a s1 =>
    if in_range 9 13 (byte a) || (byte a =? 32)%N then 1 else
    match s1 with
    | "" => 0
    | String b s2 =>
      if (byte a =? 0xC2)%N && ((byte b =? 0x85)%N || (byte b =? 0xA0)%N) then 2 else
      match s2 with
      | "" => 0
      | String c _ =>
        if ((byte a =? 0xE1)%N && (byte b =? 0x9A)%N && (byte c =? 0x80)%N)
           || ((byte a =? 0xE2)%N && (byte b =? 0x80)%N
               && (in_range 0x80 0x8A (byte c) || (byte c =? 0xA8)%N
                   || (byte c =? 0xA9)%N || (byte c =? 0xAF)%N))
           || ((byte a =? 0xE2)%N && (byte b =? 0x81)%N && (byte c =? 0x9F)%N)
           || ((byte a =? 0xE3)%N && (byte b =? 0x80)%N && (byte c =? 0x80)%N)
        then 3 else 0
      end
    end
  end.

Definition flush (cur : string) : list string :=
  match cur with "" => [] | _ => [cur] end.

(** [skip]: bytes of the current space rune still to pass; [cur]: the field read
    so far. *)
Fixpoint fields_go (skip : nat) (cur : string) (s : string) : list string :=
  match s with
  | "" => flush cur
  | String a s' =>
    match skip with
    | S k => fields_go k cur s'
    | 0 => match space_width s with
           | 0 => fields_go 0 (cur +:+ String a "") s'
           | S k => flush cur ++ fields_go k "" s'
           end
    end
  end.

Definition Fields (s : string) : list string := fields_go 0 "" s.

(** ** Prefixes, suffixes, cutting and splitting *)

Definition HasPrefix (s pre : string) : bool := String.prefix pre s.

(** [s[:n]] and [s[n:]]. *)
Fixpoint take_str (n : nat) (s : string) : string :=
  match n, s with
  | S n, String a s => String a (take_str n s)
  | _, _ => ""
  end.

Fixpoint drop_str (n : nat) (s : string) : string :=
  match n, s with
  | S n, String _ s => drop_str n s
  | _, _ => s
  end.

Definition TrimPrefix (s pre : string) : string :=
  if HasPrefix s pre then drop_str (String.length pre) s else s.

Definition HasSuffix (s suf : string) : bool :=
  (String.length suf <=? String.length s) &&
  bool_decide (drop_str (String.length s - String.length suf) s = suf).

Definition TrimSuffix (s suf : string) : string :=
  if HasSuffix s suf then take_str (String.length s - String.length suf) s else s.

(** [strings.Index(s, sep)] for a one-byte [sep]; [None] is -1. *)
Fixpoint IndexByte (s : string) (c : ascii) : option nat :=
  match s with
  | "" => None
  | String a s' => if decide (a = c) then Some 0 else S <$> IndexByte s' c
  end.

(** [strings.LastIndex(s, sep)] for a one-byte [sep]; [None] is -1. *)
Fixpoint LastIndexByte (s : string) (c : ascii) : option nat :=
  match s with
  | "" => None
  | String a s' =>
    match LastIndexByte s' c with
    | Some i => Some (S i)
    | None => if decide (a = c) then Some 0 else None
    end
  end.

Definition ContainsByte (s : string) (c : ascii) : bool :=
  match IndexByte s c with Some _ => true | None => false end.

(** [strings.Split(s, sep)] for a one-byte [sep]. *)
Fixpoint split_go (c : ascii) (cur : string) (s : string) : list string :=
  match s with
  | "" => [cur]
  | String a s' =>
    if decide (a = c) then cur :: split_go c "" s' else split_go c (cur +:+ String a "") s'
  end.

Definition SplitByte (s : string) (c : ascii) : list string := split_go c "" s.

(** [strings.Join(segs, c)] for a one-byte separator. *)
Fixpoint JoinByte (c : ascii) (segs : list string) : string :=
  match segs with
  | [] => ""
  | [s] => s
  | s :: segs => s +:+ String c (JoinByte c segs)
  end.

(** [strings.Trim(s, cutset)] for a one-byte [cutset]. *)
Fixpoint trim_left (c : ascii) (s : string) : string :=
  match s with
  | "" => ""
  | String a s' => if decide (a = c) then trim_left c s' else s
  end.

Definition TrimByte (s : string) (c : ascii) : string :=
  String.rev (trim_left c (String.rev (trim_left c s))).

(** ** Case *)

Class Unicode := {
  (** [strings.Map(unicode.ToLower, s)], used for a string that is not ASCII. *)
  unicode_to_lower : string → string;
  (** The rune-wise loop of [strings.EqualFold], entered at the first position
      where either string has a byte above 0x7f. *)
  unicode_equal_fold : string → string → bool;
}.

Definition is_upper (a : ascii) : bool := in_range 65 90 (byte a).
Definition is_lower (a : ascii) : bool := in_range 97 122 (byte a).
Definition lower_byte (a : ascii) : ascii :=
  if is_upper a then ascii_of_N (byte a + 32) else a.
Definition upper_byte (a : ascii) : ascii :=
  if is_lower a then ascii_of_N (byte a - 32) else a.

Fixpoint string_map (f : ascii → ascii) (s : string) : string :=
  match s with "" => "" | String a s => String (f a) (string_map f s) end.

Definition ToLower `{Unicode} (s : string) : string :=
  if is_ascii s then string_map lower_byte s else unicode_to_lower s.

(** Two ASCII bytes that are equal up to case. *)
Definition fold_byte_eq (a b : ascii) : bool :=
  bool_decide (a = b) ||
  (let sr := N.min (byte a) (byte b) in
   let tr := N.max (byte a) (byte b) in
   in_range 65 90 sr && (tr =? sr + 32)%N).

Fixpoint EqualFold `{Unicode} (s t : string) : bool :=
  match s, t with
  | String a s', String b t' =>
    if is_ascii_byte a && is_ascii_byte b
    then (if fold_byte_eq a b then EqualFold s' t' else false)
    else unicode_equal_fold s t
  | "", "" => true
  | _, _ => false
  end.

(** ** HTTP header names ([net/textproto.CanonicalMIMEHeaderKey]) *)

(** The token characters of RFC 7230. *)
Definition is_token_byte (a : ascii) : bool :=
  let b := byte a in
  in_range 48 57 b || is_upper a || is_lower a
  || existsb (N.eqb b) [33; 35; 36; 37; 38; 39; 42; 43; 45; 46; 94; 95; 96; 124; 126]%N.

Fixpoint canonical_go (up : bool) (s : string) : string :=
  match s with
  | "" => ""
  | String a s' =>
    String (if up then upper_byte a else lower_byte a) (canonical_go (byte a =? 45)%N s')
  end.

Definition CanonicalHeaderKey (s : string) : string :=
  if string_forallb is_token_byte s then canonical_go true s else s.

(** [http.Header]: canonical names to their values. *)
Abbreviation Header := (gmap string (list string)).

Definition Header_Get (h : Header) (key : string) : string :=
  match h !! CanonicalHeaderKey key with
  | Some (v :: _) => v
  | _ => ""
  end.

Definition Header_Set (h : Header) (key v : string) : Header :=
  <[CanonicalHeaderKey key := [v]]> h.

(** [http.Request.FormValue] on a parsed form. *)
Definition FormValue (form : gmap string (list string)) (key : string) : string :=
  match form !! key with
  | Some (v :: _) => v
  | _ => ""
  end.

(** ** Lemmas *)

Lemma str_app_nil_r (s : string) : s +:+ "" = s.
Proof. induction s as [|a s IH]; [done|]. change (String a (s +:+ "") = String a s). by rewrite IH. Qed.

Lemma str_app_assoc (s t u : string) : (s +:+ t) +:+ u = s +:+ (t +:+ u).
Proof. induction s as [|a s IH]; [done|]. change (String a ((s +:+ t) +:+ u) = String a (s +:+ (t +:+ u))). by rewrite IH. Qed.

Lemma str_app_cons a (s t : string) : String a s +:+ t = String a (s +:+ t).
Proof. done. Qed.

Lemma str_app_nil_l (s : string) : "" +:+ s = s.
Proof. done. Qed.

Lemma str_app_ne_r (s t : string) : t ≠ "" → s +:+ t ≠ "".
Proof. by destruct s. Qed.

Create Rewrite HintDb str.
#[export] Hint Rewrite str_app_nil_r str_app_nil_l str_app_cons str_app_assoc : str.

Lemma HasPrefix_spec s pre : HasPrefix s pre = true ↔ ∃ t, s = pre +:+ t.
Proof.
  unfold HasPrefix. revert s. induction pre as [|a pre IH]; intros s; simpl.
  { split; [by exists s|by destruct s]. }
  destruct s as [|b s]; simpl; [by split; [|intros (t & [=])]|].
  destruct (ascii_dec a b) as [->|Hne].
  - rewrite IH. split; intros (t & Ht); exists t; rewrite ?str_app_cons in *; congruence.
  - split; [done|]. intros (t & Ht). rewrite str_app_cons in Ht. congruence.
Qed.

Lemma HasPrefix_app pre t : HasPrefix (pre +:+ t) pre = true.
Proof. apply HasPrefix_spec. by exists t. Qed.

Lemma take_str_app s t : take_str (String.length s) (s +:+ t) = s.
Proof.
  induction s as [|a s IH]; [by destruct t|]. cbn [String.length]. rewrite str_app_cons.
  cbn [take_str]. by rewrite IH.
Qed.

Lemma drop_str_app pre t : drop_str (String.length pre) (pre +:+ t) = t.
Proof. induction pre as [|a pre IH]; simpl; [by destruct t|done]. Qed.

Lemma TrimPrefix_app pre t : TrimPrefix (pre +:+ t) pre = t.
Proof. unfold TrimPrefix. by rewrite HasPrefix_app, drop_str_app. Qed.

Lemma IndexByte_None s c : IndexByte s c = None ↔ string_forallb (λ a, negb (bool_decide (a = c))) s = true.
Proof.
  induction s as [|a s IH]; simpl; [done|].
  case_decide; [by rewrite bool_decide_true by done|].
  rewrite bool_decide_false by done. simpl. rewrite <-IH. by destruct (IndexByte s c).
Qed.

Lemma IndexByte_app s t c :
  IndexByte s c = None → IndexByte (s +:+ String c t) c = Some (String.length s).
Proof.
  induction s as [|a s IH]; simpl.
  - intros _. rewrite ?str_app_nil_l. simpl. by rewrite decide_True.
  - rewrite ?str_app_cons. simpl. case_decide; [done|].
    destruct (IndexByte s c); [done|]. intros _. by rewrite IH.
Qed.

Lemma split_go_app c cur s :
  split_go c cur s = match split_go c "" s with [] => [] | x :: l => (cur +:+ x) :: l end.
Proof.
  revert cur. induction s as [|a s IH]; intros cur; simpl.
  { by rewrite str_app_nil_r. }
  case_decide; [by rewrite str_app_nil_r|].
  rewrite IH, (IH ("" +:+ _)). destruct (split_go c "" s); [done|].
  by rewrite str_app_assoc, str_app_nil_l.
Qed.

(** Splitting at a separator that the first part does not contain. *)
Lemma SplitByte_app s t c :
  IndexByte s c = None → SplitByte (s +:+ String c t) c = s :: SplitByte t c.
Proof.
  unfold SplitByte. induction s as [|a s IH]; simpl.
  - intros _. rewrite ?str_app_nil_l. simpl. by rewrite decide_True.
  - rewrite ?str_app_cons. simpl. case_decide; [done|].
    destruct (IndexByte s c); [done|]. intros _.
    by rewrite split_go_app, IH.
Qed.

Lemma SplitByte_single s c : IndexByte s c = None → SplitByte s c = [s].
Proof.
  unfold SplitByte. induction s as [|a s IH]; simpl; [done|].
  case_decide; [done|]. destruct (IndexByte s c); [done|]. intros _.
  by rewrite split_go_app, IH.
Qed.

Lemma IndexByte_append s t c : IndexByte s c = None → IndexByte t c = None → IndexByte (s +:+ t) c = None.
Proof.
  rewrite !IndexByte_None. induction s as [|a s IH]; [done|].
  rewrite str_app_cons. cbn [string_forallb]. rewrite !andb_true_iff. naive_solver.
Qed.

#[export] Hint Resolve str_app_ne_r IndexByte_append : kontxt.

Lemma JoinByte_cons c s s' segs :
  JoinByte c (s :: s' :: segs) = s +:+ String c (JoinByte c (s' :: segs)).
Proof. done. Qed.

Lemma SplitByte_join c segs :
  segs ≠ [] → (∀ s, s ∈ segs → IndexByte s c = None) → SplitByte (JoinByte c segs) c = segs.
Proof.
  induction segs as [|s segs IH]; intros Hne Hs; [done|]. destruct segs as [|s' segs].
  - apply SplitByte_single, Hs. left.
  - rewrite JoinByte_cons, SplitByte_app by (apply Hs; left). f_equal. apply IH; [done|].
    intros x Hx. apply Hs. by right.
Qed.

Lemma IndexByte_join c c' segs :
  c' ≠ c → (∀ s, s ∈ segs → IndexByte s c = None) → IndexByte (JoinByte c' segs) c = None.
Proof.
  intros Hc. induction segs as [|s segs IH]; intros Hs; [done|]. destruct segs as [|s' segs].
  - apply Hs. left.
  - rewrite JoinByte_cons. apply IndexByte_append; [apply Hs; left|].
    cbn [IndexByte]. rewrite decide_False by done. rewrite IH; [done|]. intros x Hx. apply Hs. by right.
Qed.

(** *** Trimming *)

Lemma str_snoc s : s ≠ "" → ∃ t a, s = t +:+ String a "".
Proof.
  induction s as [|a s IH]; [done|]. intros _. destruct s as [|b s]; [by exists "", a|].
  destruct IH as (t & x & Heq); [done|]. exists (String a t), x. by rewrite Heq, str_app_cons.
Qed.

Lemma rev_app_snoc t a acc : String.rev_app (t +:+ String a "") acc = String a (String.rev_app t acc).
Proof. revert acc. induction t as [|b t IH]; intros acc; [done|]. rewrite str_app_cons. apply IH. Qed.

Lemma rev_app_rev_app s t : String.rev_app (String.rev_app s t) "" = String.rev_app t s.
Proof. revert t. induction s as [|a s IH]; intros t; [done|]. apply IH. Qed.

(** A byte that is at neither end is not trimmed. *)
Lemma TrimByte_clean c s :
  (∃ a t, s = String a t ∧ a ≠ c) → (∃ t a, s = t +:+ String a "" ∧ a ≠ c) → TrimByte s c = s.
Proof.
  intros (a & t & Ha & Hac) (t' & b & Hb & Hbc). unfold TrimByte.
  assert (trim_left c s = s) as -> by (rewrite Ha; simpl; by rewrite decide_False).
  unfold String.rev. rewrite Hb, rev_app_snoc. simpl. rewrite decide_False by done.
  rewrite <-(rev_app_snoc t' b ""). by rewrite rev_app_rev_app.
Qed.

Lemma IndexByte_ends c s :
  s ≠ "" → IndexByte s c = None →
  (∃ a t, s = String a t ∧ a ≠ c) ∧ (∃ t a, s = t +:+ String a "" ∧ a ≠ c).
Proof.
  intros Hne Hi. split.
  - destruct s as [|a t]; [done|]. exists a, t. split; [done|]. simpl in Hi. by case_decide.
  - destruct (str_snoc s Hne) as (t & a & ->). exists t, a. split; [done|]. intros ->.
    rewrite IndexByte_None in Hi. revert Hi. clear. induction t as [|b t IH].
    + simpl. by rewrite bool_decide_true.
    + rewrite str_app_cons. cbn [string_forallb]. rewrite andb_true_iff. tauto.
Qed.

(** A path of non-empty segments loses only its leading slash. *)
Lemma TrimByte_join c segs :
  segs ≠ [] → (∀ s, s ∈ segs → s ≠ "" ∧ IndexByte s c = None) →
  TrimByte (String c (JoinByte c segs)) c = JoinByte c segs.
Proof.
  intros Hne Hs. transitivity (TrimByte (JoinByte c segs) c).
  { unfold TrimByte. simpl. by rewrite decide_True. }
  assert ((∃ a t, JoinByte c segs = String a t ∧ a ≠ c) ∧
          (∃ t a, JoinByte c segs = t +:+ String a "" ∧ a ≠ c)) as [H1 H2]; [|by apply TrimByte_clean].
  induction segs as [|s segs IH]; [done|].
  destruct (Hs s ltac:(left)) as [Hn Hi]. destruct (IndexByte_ends c s Hn Hi) as [Hf Hl].
  destruct segs as [|s' segs]; [done|]. rewrite JoinByte_cons. split.
  - destruct Hf as (a & t & -> & Ha). rewrite str_app_cons. eauto.
  - destruct IH as [_ (t & a & -> & Ha)]; [done|intros x Hx; apply Hs; by right|].
    exists (s +:+ String c t), a. by rewrite str_app_assoc, str_app_cons.
Qed.

(** ** Lemmas on [Fields] *)

Fixpoint spaceless (s : string) : bool :=
  match s with "" => true | String _ s' => (space_width s =? 0) && spaceless s' end.

(** No space rune starts inside [cur] when [cur] is followed by [s]. *)
Fixpoint clean (cur s : string) : Prop :=
  match cur with "" => True | String _ cur' => space_width (cur +:+ s) = 0 ∧ clean cur' s end.

Lemma space_width_app u s : u ≠ "" → space_width (u +:+ s) = 0 → space_width u = 0.
Proof.
  destruct u as [|a [|b [|c u]]]; [done|..]; intros _; rewrite ?str_app_cons, ?str_app_nil_l; simpl.
  - destruct (_ || _); done.
  - destruct (_ || _); [done|]. destruct (_ && _); done.
  - done.
Qed.

Lemma clean_spaceless cur s : clean cur s → spaceless cur = true.
Proof.
  induction cur as [|a cur IH]; [done|]. intros [Hw Hc].
  change (((space_width (String a cur) =? 0) && spaceless cur) = true).
  rewrite IH, (space_width_app _ s) by done. done.
Qed.

Lemma clean_snoc cur a s :
  space_width (String a s) = 0 → clean cur (String a s) → clean (cur +:+ String a "") s.
Proof.
  intros Ha. induction cur as [|b cur IH].
  - intros _. rewrite str_app_nil_l. split; [|done]. by rewrite str_app_cons, str_app_nil_l.
  - intros [Hw Hc]. rewrite str_app_cons. split; [|by apply IH].
    by rewrite <-str_app_cons, str_app_assoc, ?str_app_cons, ?str_app_nil_l.
Qed.

Lemma flush_elem f cur : f ∈ flush cur → f = cur ∧ cur ≠ "".
Proof. destruct cur; simpl; set_solver. Qed.

Lemma fields_go_clean skip cur s f :
  (skip = 0 ∧ clean cur s) ∨ cur = "" →
  f ∈ fields_go skip cur s → f ≠ "" ∧ spaceless f = true.
Proof.
  revert skip cur. induction s as [|a s IH]; intros skip cur Hc Hf.
  - simpl in Hf. apply flush_elem in Hf as [-> Hne]. split; [done|].
    destruct Hc as [[_ Hc]|]; [by eapply clean_spaceless|done].
  - cbn [fields_go] in Hf. destruct skip as [|k].
    + assert (clean cur (String a s)) as Hcl by (destruct Hc as [[_ ?]| ->]; done).
      destruct (space_width (String a s)) as [|k] eqn:Hw.
      * eapply IH; [|done]. left. split; [done|]. by apply clean_snoc.
      * apply elem_of_app in Hf as [Hf|Hf].
        -- apply flush_elem in Hf as [-> Hne]. split; [done|]. by eapply clean_spaceless.
        -- eapply IH; [|done]. by right.
    + destruct Hc as [[? _]| ->]; [done|]. eapply IH; [|done]. by right.
Qed.

Lemma Fields_elem s f : f ∈ Fields s → f ≠ "" ∧ spaceless f = true.
Proof. apply fields_go_clean. by right. Qed.

Lemma fields_go_spaceless cur s : spaceless s = true → fields_go 0 cur s = flush (cur +:+ s).
Proof.
  revert cur. induction s as [|a s IH]; intros cur.
  - intros _. simpl. by rewrite str_app_nil_r.
  - intros Hs. change (((space_width (String a s) =? 0) && spaceless s) = true) in Hs.
    apply andb_true_iff in Hs as [Hw%Nat.eqb_eq Hs].
    cbn [fields_go]. rewrite Hw, IH by done.
    by rewrite str_app_assoc, str_app_cons, str_app_nil_l.
Qed.

(** A field is its own only field. *)
Lemma Fields_field s f : f ∈ Fields s → Fields f = [f].
Proof.
  intros [Hne Hs]%Fields_elem. unfold Fields.
  rewrite fields_go_spaceless, str_app_nil_l by done. by destruct f.
Qed.
