(* ===== verification/GoValue.v ===== *)
(** * Dynamic values, machine integers and floats

    [any] is a Go value of interface type restricted to what the program stores
    in one: the values [encoding/json] produces, the 64-bit integers
    [token.New] puts in a claim map, and maps.  A nil [map[string]any] inside an
    interface is not the nil interface: [AMap None] and [ANil] differ, as they do
    under Go's [== nil]. *)

From Stdlib Require Import SpecFloat.
From S2P Require Import Prelude.

Local Open Scope Z_scope.

(** ** 64-bit integers *)

Definition int64_min : Z := - 2 ^ 63.
Definition int64_max : Z := 2 ^ 63 - 1.
Definition wrap64 (z : Z) : Z := (z + 2 ^ 63) `mod` 2 ^ 64 - 2 ^ 63.
Definition wrapu64 (z : Z) : Z := z `mod` 2 ^ 64.
Definition in_int64 (z : Z) : bool := (int64_min <=? z) && (z <=? int64_max).

(** ** [float64] *)

Abbreviation float64 := spec_float.

(** Conversion [float64(z)] of an integer, to nearest, ties to even. *)
Definition float64_of_Z (z : Z) : float64 := binary_normalize 53 1024 z 0 false.

Definition float64_mul : float64 → float64 → float64 := SFmul 53 1024.
Definition float64_div : float64 → float64 → float64 := SFdiv 53 1024.

(** The integer part of a finite float. *)
Definition float64_trunc (f : float64) : option Z :=
  match f with
  | S754_zero _ => Some 0
  | S754_finite s m e =>
    let a := if 0 <=? e then Zpos m * 2 ^ e else Zpos m / 2 ^ (- e) in
    Some (if s then - a else a)
  | _ => None
  end.

(** Conversion [int64(f)]: truncation; a value out of range, whose conversion
    Go leaves to the implementation, gives the smallest integer, as on amd64. *)
Definition int64_of_float64 (f : float64) : Z :=
  match float64_trunc f with
  | Some z => if in_int64 z then z else int64_min
  | None => int64_min
  end.

(** ** Values *)

Inductive any : Type :=
  | ANil
  | ABool (b : bool)
  | AFloat64 (f : float64)
  | AInt64 (z : Z)
  | AString (s : string)
  | ASlice (l : list any)
  | AMap (m : option (gmap string any)).

(** [map[string]any]: [None] is the nil map. *)
Abbreviation gomap := (option (gmap string any)).

(** Indexing a map; reading the nil map finds nothing. *)
Definition gomap_lookup (m : gomap) (k : string) : option any :=
  match m with Some m => m !! k | None => None end.

(** Type assertions [v, ok := x.(T)]. *)
Definition as_string (v : option any) : option string :=
  match v with Some (AString s) => Some s | _ => None end.
Definition as_float64 (v : option any) : option float64 :=
  match v with Some (AFloat64 f) => Some f | _ => None end.
Definition as_map (v : option any) : option gomap :=
  match v with Some (AMap m) => Some m | _ => None end.

(** Assertion with the zero value of [string] on failure: [s, _ := x.(string)]. *)
Definition string_or_zero (v : option any) : string := default "" (as_string v).

(** [x == nil] for an [x] of interface type. *)
Definition is_nil (v : any) : bool := match v with ANil => true | _ => false end.

(** ** Lemmas *)

Lemma wrap64_small z : int64_min ≤ z ≤ int64_max → wrap64 z = z.
Proof. unfold int64_min, int64_max, wrap64. intros. rewrite Z.mod_small by lia. lia. Qed.

Lemma wrap64_range z : int64_min ≤ wrap64 z ≤ int64_max.
Proof.
  unfold int64_min, int64_max, wrap64.
  pose proof (Z.mod_pos_bound (z + 2 ^ 63) (2 ^ 64) ltac:(lia)). lia.
Qed.

Lemma digits2_pos_size p : digits2_pos p = Pos.size p.
Proof. induction p as [p IH|p IH|]; simpl; by rewrite ?IH. Qed.

Lemma iter_xO_spec m p :
  Zpos (Pos.iter xO m p) = Zpos m * 2 ^ Zpos p ∧
  Pos.size (Pos.iter xO m p) = (Pos.size m + p)%positive.
Proof.
  induction p as [|p IH] using Pos.peano_ind; simpl; [split; [lia|lia]|].
  rewrite Pos.iter_succ. destruct IH as [IH1 IH2]. split.
  - rewrite Pos2Z.inj_succ, Z.pow_succ_r by lia. rewrite Pos2Z.inj_xO, IH1. lia.
  - simpl. rewrite IH2. lia.
Qed.

(** Rounding a mantissa of exactly 53 digits changes nothing. *)
Lemma binary_round_aux_exact s m e :
  digits2_pos m = 53%positive → -1074 ≤ e ≤ 971 →
  binary_round_aux 53 1024 s (Zpos m) e loc_Exact = S754_finite s m e.
Proof.
  intros Hd He.
  assert (Hshr : ∀ l, shr_fexp 53 1024 (Zpos m) e l = (shr_record_of_loc (Zpos m) l, e)).
  { intros l. unfold shr_fexp, fexp, emin. cbn [Zdigits2]. rewrite Hd.
    replace (Z.max _ _ - e) with 0 by lia. done. }
  unfold binary_round_aux. rewrite Hshr. cbn -[shr_fexp]. rewrite Hshr. cbn.
  by rewrite (proj2 (Z.leb_le e _)) by lia.
Qed.

Lemma binary_round_small s m :
  Zpos m < 2 ^ 53 → ∃ m' e, binary_round 53 1024 s m 0 = S754_finite s m' e ∧
  ((e = 0 ∧ m' = m) ∨ (e < 0 ∧ Zpos m' = Zpos m * 2 ^ (- e))).
Proof.
  intros Hm. assert (Hd : (Pos.size m ≤ 53)%positive).
  { pose proof (Pos.size_le m) as H. apply Pos2Z.pos_le_pos in H.
    rewrite Pos2Z.inj_pow in H.
    assert (2 ^ Zpos (Pos.size m) < 2 ^ 54) as H' by lia.
    apply Z.pow_lt_mono_r_iff in H'; lia. }
  unfold binary_round. rewrite digits2_pos_size. unfold shl_align, fexp, emin.
  destruct (decide (Pos.size m = 53%positive)) as [E|E].
  - rewrite E. simpl. exists m, 0. split; [|by left].
    apply binary_round_aux_exact; [by rewrite digits2_pos_size|lia].
  - replace (Z.max _ _ - 0) with (Z.neg (53 - Pos.size m)) by lia.
    destruct (iter_xO_spec m (53 - Pos.size m)) as [H1 H2].
    eexists _, _. split.
    + apply binary_round_aux_exact; [rewrite digits2_pos_size, H2; lia|lia].
    + right. split; [lia|]. rewrite H1. do 2 f_equal. lia.
Qed.

Lemma float64_trunc_exact s m m' e :
  (e = 0 ∧ m' = m) ∨ (e < 0 ∧ Zpos m' = Zpos m * 2 ^ (- e)) →
  float64_trunc (S754_finite s m' e) = Some (if s then Zneg m else Zpos m).
Proof.
  cbn [float64_trunc]. intros [[-> ->]|[He Hm]]; [by destruct s; simpl; rewrite Z.mul_1_r|].
  rewrite (proj2 (Z.leb_gt 0 e)), Hm, Z.div_mul by lia. by destruct s.
Qed.

Lemma float64_trunc_of_Z z : Z.abs z < 2 ^ 53 → float64_trunc (float64_of_Z z) = Some z.
Proof.
  intros Hz. unfold float64_of_Z. destruct z as [|m|m]; [done| |]; cbn [binary_normalize].
  - destruct (binary_round_small false m) as (m' & e & -> & He); [lia|].
    by rewrite (float64_trunc_exact _ _ _ _ He).
  - destruct (binary_round_small true m) as (m' & e & -> & He); [lia|].
    by rewrite (float64_trunc_exact _ _ _ _ He).
Qed.

(** Integers below 2^53 in absolute value survive the trip through [float64]. *)
Lemma int64_float64_roundtrip z :
  Z.abs z < 2 ^ 53 → int64_of_float64 (float64_of_Z z) = z.
Proof.
  intros Hz. unfold int64_of_float64. rewrite float64_trunc_of_Z by done.
  unfold in_int64, int64_min, int64_max.
  rewrite (proj2 (Z.leb_le _ z)), (proj2 (Z.leb_le z _)) by lia. done.
Qed.

(** ** Decidable equality *)

#[global] Instance spec_float_eq_dec : EqDecision spec_float.
Proof. solve_decision. Defined.

#[global] Instance any_eq_dec : EqDecision any.
Proof.
  refine (fix go (x y : any) {struct x} : Decision (x = y) :=
    let _ : EqDecision any := go in
    match x, y with
    | ANil, ANil | AMap None, AMap None => left eq_refl
    | ABool a, ABool b => cast_if (decide (a = b))
    | AFloat64 a, AFloat64 b => cast_if (decide (a = b))
    | AInt64 a, AInt64 b => cast_if (decide (a = b))
    | AString a, AString b => cast_if (decide (a = b))
    | ASlice a, ASlice b => cast_if (decide (a = b))
    | AMap (Some a), AMap (Some b) => cast_if (decide (a = b))
    | _, _ => right _
    end); congruence.
Defined.
