(* ===== verification/GoTime.v ===== *)
(** * Go's [time] package: durations and Unix times

    A [time.Duration] is an int64 count of nanoseconds.  [ParseDuration] is the
    library's parser with its overflow checks on uint64 and its float64
    arithmetic for fractions.  A [time.Time] is a [Z] of nanoseconds since the
    Unix epoch. *)

From Stdlib Require Import SpecFloat.
From S2P Require Import Prelude GoStrings GoValue.

Local Open Scope Z_scope.

Definition Nanosecond : Z := 1.
Definition Microsecond : Z := 1000.
Definition Millisecond : Z := 1000000.
Definition Second : Z := 1000000000.
Definition Minute : Z := 60 * Second.
Definition Hour : Z := 60 * Minute.

(** ** [time.ParseDuration] *)

Definition is_digit (a : ascii) : bool := in_range 48 57 (byte a).
Definition digit_val (a : ascii) : Z := Z.of_N (byte a) - 48.

(** [leadingInt]: the value and the rest, [None] on overflow. *)
Fixpoint leadingInt (x : Z) (s : string) : option (Z * string) :=
  match s with
  | "" => Some (x, "")
  | String c s' =>
    if negb (is_digit c) then Some (x, s) else
    if x >? 2 ^ 63 / 10 then None else
    let x := x * 10 + digit_val c in
    if x >? 2 ^ 63 then None else leadingInt x s'
  end.

(** [leadingFraction]: the digits as an integer, the scale, the rest. *)
Fixpoint leadingFraction (x : Z) (scale : float64) (overflow : bool) (s : string)
  : Z * float64 * string :=
  match s with
  | "" => (x, scale, "")
  | String c s' =>
    if negb (is_digit c) then (x, scale, s) else
    if overflow then leadingFraction x scale true s' else
    if x >? (2 ^ 63 - 1) / 10 then leadingFraction x scale true s' else
    let y := x * 10 + digit_val c in
    if y >? 2 ^ 63 then leadingFraction x scale true s' else
    leadingFraction y (float64_mul scale (float64_of_Z 10)) false s'
  end.

(** The bytes up to the next digit or period. *)
Fixpoint unit_span (s : string) : string * string :=
  match s with
  | "" => ("", "")
  | String c s' =>
    if bool_decide (c = "."%char) || is_digit c then ("", s)
    else let '(u, r) := unit_span s' in (String c u, r)
  end.

Definition micro1 : string := String (ascii_of_N 0xC2) (String (ascii_of_N 0xB5) "s").
Definition micro2 : string := String (ascii_of_N 0xCE) (String (ascii_of_N 0xBC) "s").

Definition unitMap (u : string) : option Z :=
  if bool_decide (u = "ns") then Some Nanosecond else
  if bool_decide (u = "us") || bool_decide (u = micro1) || bool_decide (u = micro2)
  then Some Microsecond else
  if bool_decide (u = "ms") then Some Millisecond else
  if bool_decide (u = "s") then Some Second else
  if bool_decide (u = "m") then Some Minute else
  if bool_decide (u = "h") then Some Hour else None.

Definition invalid_duration (orig : string) : error := errorf "time: invalid duration %q" [orig].

(** One round of the loop: a number, its fraction and its unit. *)
Definition duration_segment (orig s : string) : result (Z * string) :=
  match s with
  | "" => Err (invalid_duration orig)
  | String c _ =>
    if negb (bool_decide (c = "."%char) || is_digit c) then Err (invalid_duration orig) else
    match leadingInt 0 s with
    | None => Err (invalid_duration orig)
    | Some (v, s1) =>
      let pre := negb (String.length s =? String.length s1)%nat in
      let '(f, scale, s2, post) :=
        match s1 with
        | String "." t =>
          let '(f, scale, s2) := leadingFraction 0 (float64_of_Z 1) false t in
          (f, scale, s2, negb (String.length t =? String.length s2)%nat)
        | _ => (0, float64_of_Z 1, s1, false)
        end in
      if negb pre && negb post then Err (invalid_duration orig) else
      let '(u, s3) := unit_span s2 in
      if bool_decide (u = "") then Err (errorf "time: missing unit in duration %q" [orig]) else
      match unitMap u with
      | None => Err (errorf "time: unknown unit %q in duration %q" [u; orig])
      | Some unit =>
        if v >? 2 ^ 63 / unit then Err (invalid_duration orig) else
        let v := v * unit in
        if f >? 0 then
          let frac := float64_mul (float64_of_Z f) (float64_div (float64_of_Z unit) scale) in
          let v := wrapu64 (v + default 0 (float64_trunc frac)) in
          if v >? 2 ^ 63 then Err (invalid_duration orig) else Ok (v, s3)
        else Ok (v, s3)
      end
    end
  end.

(** The loop [for s != ""]; each round consumes at least one byte, so the length
    of [s] is enough fuel. *)
Fixpoint duration_loop (fuel : nat) (orig : string) (d : Z) (s : string) : result Z :=
  match s with
  | "" => Ok d
  | _ =>
    match fuel with
    | O => Err (errorf "fuel" [])
    | S fuel =>
      try! (v, s') := duration_segment orig s in
      let d := wrapu64 (d + v) in
      if d >? 2 ^ 63 then Err (invalid_duration orig) else duration_loop fuel orig d s'
    end
  end.

Definition ParseDuration (orig : string) : result Z :=
  let '(neg, s) :=
    match orig with
    | String "-" s => (true, s)
    | String "+" s => (false, s)
    | _ => (false, orig)
    end in
  if bool_decide (s = "0") then Ok 0 else
  if bool_decide (s = "") then Err (invalid_duration orig) else
  try! d := duration_loop (String.length s) orig 0 s in
  if neg then Ok (wrap64 (- wrap64 d)) else
  if d >? 2 ^ 63 - 1 then Err (invalid_duration orig) else Ok d.

(** ** Unix times *)

(** [t.Unix()]: whole seconds, rounded down. *)
Definition Unix (t : Z) : Z := t / Second.

(** [t.Add(d)]. *)
Definition Add (t d : Z) : Z := t + d.

(** ** Lemmas *)

Example ParseDuration_15s : ParseDuration "15s" = Ok 15000000000.
Proof. vm_compute. reflexivity. Qed.

Example ParseDuration_frac : ParseDuration "-1h2.5s" = Ok (-3602500000000).
Proof. vm_compute. reflexivity. Qed.

Example ParseDuration_bad :
  is_ok (ParseDuration "15") = false ∧ is_ok (ParseDuration "9223372036854775808ns") = false.
Proof. vm_compute. done. Qed.

Lemma leadingInt_length x s v r :
  leadingInt x s = Some (v, r) → (String.length r ≤ String.length s)%nat.
Proof.
  revert x. induction s as [|c s IH]; intros x; simpl; [intros [= <- <-]; simpl; lia|].
  destruct (negb _); [intros [= <- <-]; simpl; lia|].
  destruct (_ >? _); [done|]. destruct (_ >? _); [done|]. intros ?%IH. lia.
Qed.

Lemma leadingFraction_length x sc o s v sc' r :
  leadingFraction x sc o s = (v, sc', r) → (String.length r ≤ String.length s)%nat.
Proof.
  revert x sc o. induction s as [|c s IH]; intros x sc o; simpl; [intros [= <- <- <-]; simpl; lia|].
  destruct (negb _); [intros [= <- <- <-]; simpl; lia|].
  destruct o; [intros ?%IH; lia|]. destruct (_ >? _); [intros ?%IH; lia|].
  destruct (_ >? _); intros ?%IH; lia.
Qed.

Lemma unit_span_length s u r :
  unit_span s = (u, r) → (String.length s = String.length u + String.length r)%nat.
Proof.
  revert u r. induction s as [|c s IH]; intros u r; simpl; [by intros [= <- <-]|].
  destruct (_ || _); [by intros [= <- <-]|].
  destruct (unit_span s) as [u' r'] eqn:E. intros [= <- <-]. simpl. by rewrite (IH _ _ eq_refl).
Qed.

(** A round of the loop consumes its unit at least. *)
Lemma duration_segment_length orig s v r :
  duration_segment orig s = Ok (v, r) → (String.length r < String.length s)%nat.
Proof.
  destruct s as [|c s]; [done|]. unfold duration_segment.
  destruct (negb _); [done|].
  destruct (leadingInt 0 _) as [[v1 s1]|] eqn:H1; [|done].
  apply leadingInt_length in H1.
  destruct (match s1 with String "." t => _ | _ => _ end) as [[[f sc] s2] post] eqn:H2.
  assert (String.length s2 ≤ String.length s1)%nat as Hs2.
  { repeat (split_match_in H2; simplify_eq; simpl; try lia).
    eapply Nat.le_trans; [by eapply leadingFraction_length|lia]. }
  destruct (negb _ && _); [done|].
  destruct (unit_span s2) as [u s3] eqn:H3. apply unit_span_length in H3.
  case_bool_decide as Hu; [done|].
  assert (0 < String.length u)%nat by (destruct u; [done|simpl; lia]).
  destruct (unitMap u); [|done]. destruct (_ >? _); [done|].
  destruct (_ >? _); [destruct (_ >? _); [done|]|]; intros [= _ <-]; lia.
Qed.

(** The loop never runs out of fuel: more fuel gives the same result. *)
Lemma duration_loop_fuel n m orig d s :
  (String.length s ≤ n)%nat → (n ≤ m)%nat →
  duration_loop m orig d s = duration_loop n orig d s.
Proof.
  revert m d s. induction n as [|n IH]; intros m d s Hn Hm; destruct s as [|c s];
    try (by destruct m); [simpl in Hn; lia|].
  destruct m as [|m]; [lia|]. cbn [duration_loop].
  destruct (duration_segment orig (String c s)) as [[v r]|] eqn:Hseg; [|done].
  apply duration_segment_length in Hseg.
  destruct (_ >? _); [done|]. apply IH; lia.
Qed.

Lemma Unix_Add_bounds t d :
  Unix t * Second ≤ t < (Unix t + 1) * Second ∧
  d - Second < (Unix (Add t d) - Unix t) * Second < d + Second.
Proof. unfold Unix, Add, Second. Z.to_euclidean_division_equations. lia. Qed.
