(* ===== verification/External.v ===== *)
(** * Code outside the repository

    The program calls the CEL engine (github.com/google/cel-go), the JWT library
    (github.com/golang-jwt/jwt/v5), RSA and SHA-256 (crypto/...), and the text
    codec of encoding/json.  None of it is under src/: each is a class of
    operations the components take as a parameter.  What a theorem relies on is
    a separate class of laws, taken from the documented behaviour. *)

From S2P Require Import Prelude GoStrings GoValue GoTime.

Local Open Scope Z_scope.

(** ** CEL *)

Inductive CelType : Type :=
  | BoolType
  | StringType
  | DynType
  | OtherType (name : string).

#[global] Instance CelType_eq_dec : EqDecision CelType.
Proof. solve_decision. Defined.

(** A [ref.Val]: its run-time type and its Go value. *)
Record CelVal := { val_Type : CelType; val_Value : any }.

Class CEL := {
  CelEnv : Type;
  CelAst : Type;
  CelProgram : Type;
  cel_NewEnv : list (string * CelType) → result CelEnv;
  cel_Compile : CelEnv → string → result CelAst;
  cel_OutputType : CelAst → CelType;
  cel_Program : CelEnv → CelAst → result CelProgram;
  cel_Eval : CelProgram → gmap string any → result CelVal;
  (** [fmt.Sprintf("%v", v.Value())] of a value that is not a string. *)
  cel_Sprint : CelVal → string;
}.

(** ** JSON text *)

Class JSON := {
  (** [json.Unmarshal([]byte(s), &m)] for [var m map[string]any]; the text
      [null] leaves the nil map. *)
  json_UnmarshalMap : string → result gomap;
  (** [json.Unmarshal(payload, &claims)] for a struct with one string field
      tagged [iss]; the field's value. *)
  json_UnmarshalIss : list Z → result string;
  (** [json.Marshal(v)] as a string. *)
  json_Marshal : any → result string;
  (** The value [json.Unmarshal] gives back for the text [json.Marshal] prints. *)
  json_norm : any → any;
}.

(** A string [encoding/json] prints and reads back unchanged (it replaces the
    bytes that are not UTF-8). *)
Definition json_text `{JSON} (s : string) : Prop := json_norm (AString s) = AString s.

Class JSONLaws (J : JSON) : Prop := {
  json_norm_idem : ∀ v, json_norm (json_norm v) = json_norm v;
  json_norm_string : ∀ s, ∃ s', json_norm (AString s) = AString s';
  (** Strings are printed and read rune by rune: text is text in every field. *)
  json_text_fields : ∀ s, json_text s ↔ ∀ f, f ∈ Fields s → json_text f;
  json_norm_ascii : ∀ s, is_ascii s = true → json_text s;
  (** Every number is read back as a float64. *)
  json_norm_int : ∀ z, json_norm (AInt64 z) = AFloat64 (float64_of_Z z);
  json_norm_map : ∀ m, ∃ m', json_norm (AMap (Some m)) = AMap (Some m');
  json_norm_unmarshal : ∀ s m,
    json_UnmarshalMap s = Ok (Some m) → json_norm (AMap (Some m)) = AMap (Some m);
  (** The text of a map is not empty and is read back as the normal form. *)
  json_Marshal_map : ∀ m s, json_Marshal (AMap (Some m)) = Ok s →
    s ≠ "" ∧ ∃ m', json_UnmarshalMap s = Ok (Some m') ∧ json_norm (AMap (Some m)) = AMap (Some m');
}.

(** ** RSA keys and hashes *)

(** [rsa.PublicKey]. *)
Record RsaPublicKey := { N : Z; E : Z }.

#[global] Instance RsaPublicKey_eq_dec : EqDecision RsaPublicKey.
Proof. solve_decision. Defined.

Class Crypto := {
  RsaPrivateKey : Type;
  (** [&key.PublicKey]. *)
  private_PublicKey : RsaPrivateKey → RsaPublicKey;
  (** [sha256.Sum256], 32 bytes. *)
  sha256_Sum256 : list Z → list Z;
}.

(** ** JWT *)

(** A [jwt.Token]: [jwt_MapClaims] is [None] when the claims are not of type
    [jwt.MapClaims]; [jwt_RSA] says whether the method is a
    [*jwt.SigningMethodRSA]. *)
Record JwtToken := {
  jwt_Header : gmap string any;
  jwt_MapClaims : option (gmap string any);
  jwt_RSA : bool;
}.

#[global] Instance JwtToken_eq_dec : EqDecision JwtToken.
Proof. solve_decision. Defined.

(** [jwt.WithAudience(a)] and [jwt.WithIssuer(i)]. *)
Inductive ParserOption : Type :=
  | WithAudience (a : string)
  | WithIssuer (i : string).

(** A [jwt.Keyfunc] that may change a state of type [S]. *)
Definition Keyfunc (S : Type) : Type := JwtToken → S → result RsaPublicKey * S.

Class JWT `{Crypto} := {
  (** [jwt.NewWithClaims(jwt.SigningMethodRS256, claims)]. *)
  jwt_NewWithClaims : gmap string any → JwtToken;
  (** [token.SignedString(key)]. *)
  jwt_SignedString : JwtToken → RsaPrivateKey → result string;
  (** [jwt.Parse(tokenString, keyFunc, option)] at a time. *)
  jwt_Parse : ∀ {S : Type}, ParserOption → Z → string → Keyfunc S → S → result JwtToken * S;
  (** [MapClaims.GetAudience()]. *)
  jwt_GetAudience : gmap string any → result (list string);
}.

(** The token as it is read back from its serialisation. *)
Definition json_token `{JSON} (t : JwtToken) : JwtToken :=
  {| jwt_Header := json_norm <$> jwt_Header t;
     jwt_MapClaims := (λ m : gmap string any, json_norm <$> m) <$> jwt_MapClaims t;
     jwt_RSA := jwt_RSA t |}.

Definition ascii_keys (m : gmap string any) : Prop :=
  map_Forall (λ k _, is_ascii k = true) m.

(** The documented behaviour of the JWT library: [Parse] gives the token the
    string serialises only when the key the callback returned verifies its
    signature and the registered claims are valid; the string a key signs is
    verified by its public half; a string serialises one token; and the callback
    is called at most once. *)
Class JWTLaws `{!JSON, !Crypto} (J : JWT) := {
  (** [jwt_signed s t k]: [s] serialises [t], with a signature [k] verifies. *)
  jwt_signed : string → JwtToken → RsaPublicKey → Prop;
  (** [jwt_valid o now m]: the claims pass the validator at [now]. *)
  jwt_valid : ParserOption → Z → gmap string any → Prop;
  jwt_Parse_sound : ∀ S o now s (kf : Keyfunc S) st t st',
    jwt_Parse o now s kf st = (Ok t, st') →
    ∃ k m, kf t st = (Ok k, st') ∧ jwt_signed s t k ∧
           jwt_MapClaims t = Some m ∧ jwt_valid o now m;
  jwt_Parse_complete : ∀ S o now s (kf : Keyfunc S) st t st' k m,
    kf t st = (Ok k, st') → jwt_signed s t k →
    jwt_MapClaims t = Some m → jwt_valid o now m →
    jwt_Parse o now s kf st = (Ok t, st');
  jwt_SignedString_signed : ∀ t m k s,
    jwt_MapClaims t = Some m → ascii_keys (jwt_Header t) → ascii_keys m →
    jwt_SignedString t k = Ok s → jwt_signed s (json_token t) (private_PublicKey k);
  jwt_signed_inj : ∀ s t t' k k', jwt_signed s t k → jwt_signed s t' k' → t = t';
  (** What is parsed from a string is made of decoded JSON values. *)
  jwt_signed_json : ∀ s t k, jwt_signed s t k → json_token t = t;
  jwt_signed_nonempty : ∀ s t k, jwt_signed s t k → s ≠ "";
  jwt_NewWithClaims_fields : ∀ m,
    jwt_MapClaims (jwt_NewWithClaims m) = Some m ∧ jwt_RSA (jwt_NewWithClaims m) = true ∧
    ascii_keys (jwt_Header (jwt_NewWithClaims m));
  (** A non-empty audience claim equal to the one asked for, an expiry in the
      future and no not-before claim pass. *)
  jwt_valid_intro : ∀ a now m f exp,
    a ≠ "" → m !! "aud" = Some (AString a) → m !! "exp" = Some (AFloat64 f) →
    float64_trunc f = Some exp → now < exp * Second → m !! "nbf" = None →
    jwt_valid (WithAudience a) now m;
  (** The same for the issuer claim. *)
  jwt_valid_issuer : ∀ i now m f exp,
    m !! "iss" = Some (AString i) → m !! "exp" = Some (AFloat64 f) →
    float64_trunc f = Some exp → now < exp * Second → m !! "nbf" = None →
    jwt_valid (WithIssuer i) now m;
  (** An audience claim that is a string is a list of one. *)
  jwt_GetAudience_string : ∀ m a, m !! "aud" = Some (AString a) → jwt_GetAudience m = Ok [a];
  (** A string audience claim that passes is the one asked for. *)
  jwt_valid_aud : ∀ a b now m,
    jwt_valid (WithAudience a) now m → m !! "aud" = Some (AString b) → a = b;
  (** A string issuer claim that passes is the one asked for; the empty issuer
      asks for none. *)
  jwt_valid_iss : ∀ a b now m,
    a ≠ "" → jwt_valid (WithIssuer a) now m → m !! "iss" = Some (AString b) → a = b;
  (** A numeric expiry claim that passes is in the future; zero is no expiry. *)
  jwt_valid_exp : ∀ o now m f exp,
    jwt_valid o now m → m !! "exp" = Some (AFloat64 f) →
    float64_trunc f = Some exp → exp ≠ 0 → now < exp * Second;
  (** The callback is called at most once, and only it changes its state. *)
  jwt_Parse_calls : ∀ S o now s (kf : Keyfunc S) st,
    (jwt_Parse o now s kf st).2 = st ∨ ∃ t, (jwt_Parse o now s kf st).2 = (kf t st).2;
}.
