(* ===== verification/Base64.v ===== *)
(** * Unpadded URL-safe base64 and big-endian integers

    [encoding/base64.RawURLEncoding] (encoding, and the decoder with its skipped
    line breaks and its leniency about trailing bits) and [big.Int]'s [Bytes] and
    [SetBytes].  A byte is a [Z] between 0 and 255. *)

From S2P Require Import Prelude GoStrings.

Local Open Scope Z_scope.

Definition is_byte (b : Z) : Prop := 0 ≤ b < 256.

(** ** [big.Int] *)

Fixpoint bytes_go (fuel : nat) (z : Z) (acc : list Z) : list Z :=
  match fuel with
  | O => acc
  | S fuel => if z =? 0 then acc else bytes_go fuel (z / 256) (z `mod` 256 :: acc)
  end.

(** [x.Bytes()]: the absolute value, most significant byte first, without
    leading zeros.  An integer has at most one byte more than an eighth of its
    binary logarithm. *)
Definition Bytes (z : Z) : list Z := bytes_go (S (Z.to_nat (Z.log2 (Z.abs z)))) (Z.abs z) [].

(** [new(big.Int).SetBytes(l)]. *)
Definition SetBytes (l : list Z) : Z := fold_left (λ acc b, acc * 256 + b) l 0.

(** ** base64 *)

Definition alphabet : string :=
  "ABCDEFGHIJKLMNOPQRSTUVWXYZabcdefghijklmnopqrstuvwxyz0123456789-_".

Definition b64_char (v : Z) : ascii := default "A"%char (String.get (Z.to_nat v) alphabet).

Definition b64_val (a : ascii) : option Z :=
  let b := byte a in
  if in_range 65 90 b then Some (Z.of_N b - 65) else
  if in_range 97 122 b then Some (Z.of_N b - 71) else
  if in_range 48 57 b then Some (Z.of_N b + 4) else
  if (b =? 45)%N then Some 62 else
  if (b =? 95)%N then Some 63 else None.

Definition sextet (val n : Z) : Z := Z.land (Z.shiftr val n) 63.

Fixpoint EncodeToString (l : list Z) : string :=
  match l with
  | [] => ""
  | [a] =>
    let val := Z.lor (Z.shiftl a 16) 0 in
    String (b64_char (sextet val 18)) (String (b64_char (sextet val 12)) "")
  | [a; b] =>
    let val := Z.lor (Z.shiftl a 16) (Z.shiftl b 8) in
    String (b64_char (sextet val 18)) (String (b64_char (sextet val 12))
      (String (b64_char (sextet val 6)) ""))
  | a :: b :: c :: l =>
    let val := Z.lor (Z.lor (Z.shiftl a 16) (Z.shiftl b 8)) c in
    String (b64_char (sextet val 18)) (String (b64_char (sextet val 12))
      (String (b64_char (sextet val 6)) (String (b64_char (sextet val 0)) (EncodeToString l))))
  end.

(** The 6-bit values of the text; line breaks are skipped, any other byte outside
    the alphabet is an error. *)
Fixpoint b64_vals (s : string) : option (list Z) :=
  match s with
  | "" => Some []
  | String a s =>
    if (byte a =? 10)%N || (byte a =? 13)%N then b64_vals s else
    match b64_val a, b64_vals s with
    | Some v, Some l => Some (v :: l)
    | _, _ => None
    end
  end.

Definition octet (val n : Z) : Z := Z.land (Z.shiftr val n) 255.

Fixpoint decode_quanta (l : list Z) : option (list Z) :=
  match l with
  | [] => Some []
  | [_] => None
  | [a; b] =>
    let val := Z.lor (Z.shiftl a 18) (Z.shiftl b 12) in Some [octet val 16]
  | [a; b; c] =>
    let val := Z.lor (Z.lor (Z.shiftl a 18) (Z.shiftl b 12)) (Z.shiftl c 6) in
    Some [octet val 16; octet val 8]
  | a :: b :: c :: d :: l =>
    let val := Z.lor (Z.lor (Z.lor (Z.shiftl a 18) (Z.shiftl b 12)) (Z.shiftl c 6)) d in
    match decode_quanta l with
    | Some r => Some (octet val 16 :: octet val 8 :: octet val 0 :: r)
    | None => None
    end
  end.

Definition DecodeString (s : string) : result (list Z) :=
  match b64_vals s with
  | Some l => match decode_quanta l with
              | Some r => Ok r
              | None => Err (errorf "illegal base64 data" [s])
              end
  | None => Err (errorf "illegal base64 data" [s])
  end.

(** ** Lemmas *)

Lemma fold_SetBytes l acc :
  fold_left (λ acc b, acc * 256 + b) l acc = acc * 256 ^ Z.of_nat (length l) + SetBytes l.
Proof.
  unfold SetBytes. revert acc. induction l as [|b l IH]; intros acc; simpl; [lia|].
  rewrite IH, (IH (0 * 256 + b)), Nat2Z.inj_succ, Z.pow_succ_r by lia. lia.
Qed.

Lemma SetBytes_bytes_go fuel z acc :
  0 ≤ z < 256 ^ Z.of_nat fuel →
  SetBytes (bytes_go fuel z acc) = z * 256 ^ Z.of_nat (length acc) + SetBytes acc.
Proof.
  revert z acc. induction fuel as [|fuel IH]; intros z acc Hz; cbn [bytes_go].
  { simpl in Hz. assert (z = 0) as -> by lia. lia. }
  destruct (z =? 0) eqn:E; [assert (z = 0) as -> by lia; lia|].
  rewrite Nat2Z.inj_succ, Z.pow_succ_r in Hz by lia.
  rewrite IH by (Z.to_euclidean_division_equations; lia).
  unfold SetBytes at 1. cbn [fold_left length]. rewrite fold_SetBytes.
  rewrite Nat2Z.inj_succ, Z.pow_succ_r by lia.
  pose proof (Z.div_mod z 256 ltac:(lia)). nia.
Qed.

Lemma SetBytes_Bytes z : 0 ≤ z → SetBytes (Bytes z) = z.
Proof.
  intros Hz. unfold Bytes. rewrite Z.abs_eq by done. rewrite SetBytes_bytes_go; [simpl; rewrite Z.mul_1_r; unfold SetBytes; simpl; lia|].
  split; [done|]. rewrite Nat2Z.inj_succ, Z2Nat.id by apply Z.log2_nonneg.
  destruct (decide (z = 0)) as [->|]; [by vm_compute|].
  pose proof (Z.log2_spec z ltac:(lia)) as [_ H]. eapply Z.lt_le_trans; [exact H|].
  apply Z.pow_le_mono_l. pose proof (Z.log2_nonneg z). lia.
Qed.

Lemma bytes_go_is_byte fuel z acc :
  0 ≤ z → Forall is_byte acc → Forall is_byte (bytes_go fuel z acc).
Proof.
  revert z acc. induction fuel as [|fuel IH]; intros z acc Hz Hacc; simpl; [done|].
  destruct (z =? 0); [done|]. apply IH; [apply Z.div_pos; lia|].
  constructor; [apply Z.mod_pos_bound; lia|done].
Qed.

Lemma Bytes_is_byte z : Forall is_byte (Bytes z).
Proof. apply bytes_go_is_byte; [lia|constructor]. Qed.

Lemma b64_char_ok v :
  0 ≤ v < 64 →
  b64_val (b64_char v) = Some v ∧ (byte (b64_char v) =? 10)%N = false ∧
  (byte (b64_char v) =? 13)%N = false.
Proof.
  intros Hv.
  assert (Forall (λ n, let v := Z.of_nat n in
    b64_val (b64_char v) = Some v ∧ (byte (b64_char v) =? 10)%N = false ∧
    (byte (b64_char v) =? 13)%N = false) (seq 0 64)) as H.
  { repeat (constructor; [vm_compute; done|]). constructor. }
  rewrite Forall_forall in H. specialize (H (Z.to_nat v)). rewrite Z2Nat.id in H by lia.
  apply H. apply elem_of_seq. lia.
Qed.

Lemma sextet_range val n : 0 ≤ sextet val n < 64.
Proof. unfold sextet. change 63 with (Z.ones 6). rewrite Z.land_ones by lia. apply Z.mod_pos_bound. lia. Qed.

Lemma b64_vals_cons val n s :
  b64_vals (String (b64_char (sextet val n)) s) = cons (sextet val n) <$> b64_vals s.
Proof.
  cbn [b64_vals]. destruct (b64_char_ok _ (sextet_range val n)) as (-> & -> & ->).
  simpl. by destruct (b64_vals s).
Qed.

Lemma lor_add hi n lo : 0 ≤ n → 0 ≤ lo < 2 ^ n → Z.lor (hi * 2 ^ n) lo = hi * 2 ^ n + lo.
Proof.
  intros Hn Hlo. rewrite <-Z.add_lor_land.
  assert (Z.land (hi * 2 ^ n) lo = 0) as ->; [|lia].
  apply Z.bits_inj'. intros i Hi. rewrite Z.land_spec, Z.bits_0.
  destruct (decide (i < n)); [by rewrite Z.mul_pow2_bits_low by lia|].
  rewrite <-(Z.mod_small lo (2 ^ n)), Z.mod_pow2_bits_high by lia. apply andb_false_r.
Qed.

Lemma sextet_eq val n : 0 ≤ n → sextet val n = (val / 2 ^ n) `mod` 64.
Proof. intros. unfold sextet. change 63 with (Z.ones 6). by rewrite Z.land_ones, Z.shiftr_div_pow2 by lia. Qed.

Lemma octet_eq val n : 0 ≤ n → octet val n = (val / 2 ^ n) `mod` 256.
Proof. intros. unfold octet. change 255 with (Z.ones 8). by rewrite Z.land_ones, Z.shiftr_div_pow2 by lia. Qed.

(** Packing three bytes, or four sextets, into 24 bits. *)
Lemma pack_bytes a b c :
  is_byte a → is_byte b → is_byte c →
  Z.lor (Z.lor (Z.shiftl a 16) (Z.shiftl b 8)) c = a * 65536 + b * 256 + c.
Proof.
  unfold is_byte. intros. rewrite !Z.shiftl_mul_pow2 by lia.
  replace (a * 2 ^ 16) with (a * 256 * 2 ^ 8) by lia.
  assert (Z.lor (a * 256 * 2 ^ 8) (b * 2 ^ 8) = (a * 256 + b) * 2 ^ 8) as ->.
  { rewrite <-!(Z.shiftl_mul_pow2 _ 8), <-Z.shiftl_lor by lia. f_equal. rewrite Z.shiftl_mul_pow2 by lia. apply (lor_add a 8); lia. }
  rewrite lor_add; lia.
Qed.

Lemma pack_sextets a b c d :
  0 ≤ a < 64 → 0 ≤ b < 64 → 0 ≤ c < 64 → 0 ≤ d < 64 →
  Z.lor (Z.lor (Z.lor (Z.shiftl a 18) (Z.shiftl b 12)) (Z.shiftl c 6)) d
  = a * 262144 + b * 4096 + c * 64 + d.
Proof.
  intros. rewrite !Z.shiftl_mul_pow2 by lia.
  replace (a * 2 ^ 18) with (a * 2 ^ 18 + 0) by lia.
  rewrite Z.add_0_r, (lor_add a 18) by lia.
  replace (a * 2 ^ 18 + b * 2 ^ 12) with ((a * 64 + b) * 2 ^ 12) by lia.
  rewrite (lor_add _ 12) by lia.
  replace ((a * 64 + b) * 2 ^ 12 + c * 2 ^ 6) with ((a * 4096 + b * 64 + c) * 2 ^ 6) by lia.
  rewrite (lor_add _ 6); lia.
Qed.

Lemma unpack_octets a b c val :
  is_byte a → is_byte b → is_byte c → val = a * 65536 + b * 256 + c →
  octet val 16 = a ∧ octet val 8 = b ∧ octet val 0 = c.
Proof.
  unfold is_byte. intros. rewrite !octet_eq by lia. subst val.
  change (2 ^ 16) with 65536. change (2 ^ 8) with 256. change (2 ^ 0) with 1.
  Z.to_euclidean_division_equations. lia.
Qed.

Lemma resplit val :
  0 ≤ val < 2 ^ 24 →
  sextet val 18 * 262144 + sextet val 12 * 4096 + sextet val 6 * 64 + sextet val 0 = val.
Proof.
  intros. rewrite !sextet_eq by lia.
  change (2 ^ 18) with 262144. change (2 ^ 12) with 4096. change (2 ^ 6) with 64. change (2 ^ 0) with 1.
  Z.to_euclidean_division_equations. lia.
Qed.

Lemma list_ind3 {A} (P : list A → Prop) :
  P [] → (∀ a, P [a]) → (∀ a b, P [a; b]) → (∀ a b c l, P l → P (a :: b :: c :: l)) → ∀ l, P l.
Proof.
  intros H0 H1 H2 H3. fix go 1. intros [|a [|b [|c l]]]; [done|apply H1|apply H2|].
  apply H3, go.
Qed.

(** Three bytes are found again in the four sextets of their packing. *)
Lemma requantum a b c val :
  is_byte a → is_byte b → is_byte c → val = a * 65536 + b * 256 + c →
  ∀ val', val' = Z.lor (Z.lor (Z.lor (Z.shiftl (sextet val 18) 18) (Z.shiftl (sextet val 12) 12))
                              (Z.shiftl (sextet val 6) 6)) (sextet val 0) →
  octet val' 16 = a ∧ octet val' 8 = b ∧ octet val' 0 = c.
Proof.
  intros Ha Hb Hc Hval val' ->. apply unpack_octets; [done..|].
  rewrite pack_sextets by apply sextet_range. rewrite resplit; [done|].
  unfold is_byte in *. lia.
Qed.

Lemma low_sextets a b :
  is_byte a → is_byte b →
  sextet (a * 65536 + b * 256 + 0) 0 = 0 ∧ sextet (a * 65536 + 0 * 256 + 0) 6 = 0.
Proof.
  unfold is_byte. intros. rewrite !sextet_eq by lia. change (2 ^ 6) with 64. change (2 ^ 0) with 1.
  Z.to_euclidean_division_equations. lia.
Qed.

Lemma decode_encode_vals l :
  Forall is_byte l →
  ∃ vs, b64_vals (EncodeToString l) = Some vs ∧ decode_quanta vs = Some l.
Proof.
  assert (is_byte 0) as H0 by done.
  induction l as [|a|a b|a b c l IH] using list_ind3; intros Hl; [by exists []|..];
    inversion_clear Hl as [|?? Ha Hl'].
  - cbn [EncodeToString]. rewrite !b64_vals_cons. eexists. split; [done|]. cbn [decode_quanta].
    replace (Z.lor (Z.shiftl a 16) 0) with (a * 65536 + 0 * 256 + 0)
      by (rewrite Z.lor_0_r, Z.shiftl_mul_pow2; lia).
    edestruct (requantum a 0 0) as (E & _); [done..|].
    destruct (low_sextets a 0) as [E1 E2]; [done..|].
    rewrite E1, E2, Z.shiftl_0_l, !Z.lor_0_r in E. by rewrite E.
  - inversion_clear Hl' as [|?? Hb _].
    cbn [EncodeToString]. rewrite !b64_vals_cons. eexists. split; [done|]. cbn [decode_quanta].
    replace (Z.lor (Z.shiftl a 16) (Z.shiftl b 8)) with (a * 65536 + b * 256 + 0)
      by (rewrite <-(pack_bytes a b 0), Z.lor_0_r; done).
    edestruct (requantum a b 0) as (E1 & E2 & _); [done..|].
    destruct (low_sextets a b) as [E3 _]; [done..|].
    rewrite E3, !Z.lor_0_r in E1, E2. by rewrite E1, E2.
  - inversion_clear Hl' as [|?? Hb Hl'']. inversion_clear Hl'' as [|?? Hc Hl].
    destruct (IH Hl) as (vs & Hvs & Hq).
    cbn [EncodeToString]. rewrite !b64_vals_cons, Hvs. eexists. split; [done|].
    cbn [decode_quanta]. rewrite Hq.
    destruct (requantum a b c _ Ha Hb Hc (pack_bytes a b c Ha Hb Hc) _ eq_refl) as (E1 & E2 & E3).
    by rewrite E1, E2, E3.
Qed.

Lemma DecodeString_EncodeToString l : Forall is_byte l → DecodeString (EncodeToString l) = Ok l.
Proof.
  intros (vs & H1 & H2)%decode_encode_vals. unfold DecodeString. by rewrite H1, H2.
Qed.
