(* ===== verification/Token.v ===== *)
(** * pkg/token: the TxToken claims and their signing

    [Claims] is [token.Claims]; [New] is [token.New], with the clock reading and
    the fresh UUID it takes as arguments. *)

From S2P Require Import Prelude GoStrings GoValue GoTime External.

Local Open Scope Z_scope.

Definition HeaderName : string := "Txn-Token".
Definition TypeHeader : string := "txntoken+jwt".
Definition GrantType : string := "urn:ietf:params:oauth:grant-type:token-exchange".
Definition RequestedTokenType : string := "urn:ietf:params:oauth:token-type:txn_token".
Definition SubjectTokenTypeAccessToken : string := "urn:ietf:params:oauth:token-type:access_token".
Definition SubjectTokenTypeTxnToken : string := "urn:ietf:params:oauth:token-type:txn_token".

Record Claims := {
  Issuer : string;
  IssuedAt : Z;
  ExpiresAt : Z;
  Audience : string;
  TransactionID : string;
  Subject : string;
  Scope : string;
  RequestingWorkload : string;
  TransactionContext : gomap;
  RequesterContext : gomap;
}.

Definition validateRequired (claims : Claims) : result unit :=
  if bool_decide (Issuer claims = "") then Err (errorf "issuer (iss) is required" []) else
  if bool_decide (Audience claims = "") then Err (errorf "audience (aud) is required" []) else
  if bool_decide (Subject claims = "") then Err (errorf "subject (sub) is required" []) else
  if bool_decide (Scope claims = "") then Err (errorf "scope is required" []) else
  if bool_decide (RequestingWorkload claims = "")
  then Err (errorf "requesting workload (req_wl) is required" []) else
  Ok tt.

(** The claim map [New] signs: [now] is [time.Now()], [uuid] is
    [uuid.New().String()]. *)
Definition jwtClaims (claims : Claims) (now : Z) (uuid : string) (lifetime : Z)
  : gmap string any :=
  let txn := if bool_decide (TransactionID claims = "") then uuid else TransactionID claims in
  let m : gmap string any :=
    {[ "iss" := AString (Issuer claims);
       "iat" := AInt64 (Unix now);
       "exp" := AInt64 (Unix (Add now lifetime));
       "aud" := AString (Audience claims);
       "txn" := AString txn;
       "sub" := AString (Subject claims);
       "scope" := AString (Scope claims);
       "req_wl" := AString (RequestingWorkload claims) ]} in
  let m := match TransactionContext claims with
           | Some _ => <["tctx" := AMap (TransactionContext claims)]> m
           | None => m
           end in
  match RequesterContext claims with
  | Some _ => <["rctx" := AMap (RequesterContext claims)]> m
  | None => m
  end.

(** The unsigned token: the library's header with [typ] and [kid] set. *)
Definition newToken `{Crypto, !JWT} (m : gmap string any) (kid : string) : JwtToken :=
  let t := jwt_NewWithClaims m in
  {| jwt_Header := <["kid" := AString kid]> (<["typ" := AString TypeHeader]> (jwt_Header t));
     jwt_MapClaims := jwt_MapClaims t;
     jwt_RSA := jwt_RSA t |}.

Definition New `{Crypto, !JWT} (claims : Claims) (key : RsaPrivateKey) (kid : string)
    (lifetime now : Z) (uuid : string) : result string :=
  try! _ := validateRequired claims in
  jwt_SignedString (newToken (jwtClaims claims now uuid lifetime) kid) key.

(** ** Properties *)

Definition required_present (c : Claims) : Prop :=
  Issuer c ≠ "" ∧ Audience c ≠ "" ∧ Subject c ≠ "" ∧ Scope c ≠ "" ∧ RequestingWorkload c ≠ "".

Lemma validateRequired_ok c : validateRequired c = Ok tt ↔ required_present c.
Proof.
  unfold validateRequired, required_present.
  repeat case_bool_decide; naive_solver.
Qed.

Section jwtClaims.
Context (c : Claims) (now : Z) (uuid : string) (lifetime : Z).

Lemma jwtClaims_strings :
  let m := jwtClaims c now uuid lifetime in
  m !! "iss" = Some (AString (Issuer c)) ∧
  m !! "aud" = Some (AString (Audience c)) ∧
  m !! "sub" = Some (AString (Subject c)) ∧
  m !! "scope" = Some (AString (Scope c)) ∧
  m !! "req_wl" = Some (AString (RequestingWorkload c)) ∧
  m !! "txn" = Some (AString (if bool_decide (TransactionID c = "") then uuid
                             else TransactionID c)) ∧
  m !! "nbf" = None.
Proof.
  unfold jwtClaims. destruct (TransactionContext c), (RequesterContext c);
    split_and!; simplify_map_eq; done.
Qed.

Lemma jwtClaims_times :
  let m := jwtClaims c now uuid lifetime in
  m !! "iat" = Some (AInt64 (Unix now)) ∧
  m !! "exp" = Some (AInt64 (Unix (Add now lifetime))).
Proof.
  unfold jwtClaims. destruct (TransactionContext c), (RequesterContext c);
    split_and!; simplify_map_eq; done.
Qed.

Lemma jwtClaims_contexts :
  let m := jwtClaims c now uuid lifetime in
  m !! "tctx" = match TransactionContext c with
                | Some _ => Some (AMap (TransactionContext c)) | None => None end ∧
  m !! "rctx" = match RequesterContext c with
                | Some _ => Some (AMap (RequesterContext c)) | None => None end.
Proof.
  unfold jwtClaims. destruct (TransactionContext c), (RequesterContext c);
    split_and!; simplify_map_eq; done.
Qed.
End jwtClaims.

(** C33.  A token expires within its lifetime: [iat] and [exp] are whole seconds
    rounded down, [exp] is never after the end of the lifetime and less than one
    second before it, and the two are apart by the lifetime up to one second. *)
Theorem token_lifetime_bounds c now uuid lifetime :
  ∃ iat exp,
    jwtClaims c now uuid lifetime !! "iat" = Some (AInt64 iat) ∧
    jwtClaims c now uuid lifetime !! "exp" = Some (AInt64 exp) ∧
    iat * Second ≤ now < (iat + 1) * Second ∧
    exp * Second ≤ now + lifetime < (exp + 1) * Second ∧
    lifetime - Second < (exp - iat) * Second < lifetime + Second.
Proof.
  destruct (jwtClaims_times c now uuid lifetime) as [Hi He].
  exists (Unix now), (Unix (Add now lifetime)). split; [done|]. split; [done|].
  destruct (Unix_Add_bounds now lifetime) as [H1 H2].
  destruct (Unix_Add_bounds (Add now lifetime) 0) as [H3 _]. unfold Add in *. done.
Qed.
