(* ===== verification/Keys.v ===== *)
(** * pkg/keys: signing keys, rotation and the JWKS document

    [Manager] is [keys.Manager]; its mutex makes every method one atomic step on
    the record.  [rsa.GenerateKey]'s outcome is an argument of the operations
    that generate a key. *)

From S2P Require Import Prelude GoStrings GoValue Base64 External.

Local Open Scope Z_scope.

Record PublicKey := {
  Kty : string; Use : string; Alg : string; Kid : string; pk_N : string; pk_E : string;
}.

(** [pk.RSAPublicKey()]. *)
Definition RSAPublicKey (pk : PublicKey) : result RsaPublicKey :=
  try! nBytes := map_err (wrapf "decoding modulus: %w" []) (DecodeString (pk_N pk)) in
  try! eBytes := map_err (wrapf "decoding exponent: %w" []) (DecodeString (pk_E pk)) in
  Ok {| N := SetBytes nBytes; E := wrap64 (SetBytes eBytes) |}.

(** [%x] of a byte slice. *)
Definition hex_digit (d : Z) : ascii :=
  ascii_of_N (Z.to_N (if d <? 10 then 48 + d else 87 + d)).
Fixpoint hex (l : list Z) : string :=
  match l with
  | [] => ""
  | b :: l => String (hex_digit (b / 16)) (String (hex_digit (b `mod` 16)) (hex l))
  end.

Section keys.
Context `{Crypto}.

Record keyEntry := { privateKey : RsaPrivateKey; kid : string }.

Record Manager := {
  current : keyEntry;
  previous : option keyEntry;
  keySize : Z;
  lifetime : Z;
}.

Definition computeKid (pub : RsaPublicKey) : string :=
  hex (take 8 (sha256_Sum256 (Bytes (N pub)))).

(** [generated] is what [rsa.GenerateKey(rand.Reader, m.keySize)] returns. *)
Definition generateKey (generated : result RsaPrivateKey) : result keyEntry :=
  try! key := generated in
  Ok {| privateKey := key; kid := computeKid (private_PublicKey key) |}.

Definition NewManager (keySize rotationInterval : Z) (generated : result RsaPrivateKey)
  : result Manager :=
  try! entry := map_err (wrapf "generating initial key: %w" []) (generateKey generated) in
  Ok {| current := entry; previous := None; keySize := keySize; lifetime := rotationInterval |}.

Definition SigningKey (m : Manager) : RsaPrivateKey * string :=
  (privateKey (current m), kid (current m)).

(** The new state and the returned error, if any. *)
Definition Rotate (m : Manager) (generated : result RsaPrivateKey) : Manager * option error :=
  match generateKey generated with
  | Err e => (m, Some (wrapf "generating new key: %w" [] e))
  | Ok entry =>
    ({| current := entry; previous := Some (current m);
        keySize := keySize m; lifetime := lifetime m |}, None)
  end.

Definition newPublicKey (entry : keyEntry) : PublicKey :=
  let pub := private_PublicKey (privateKey entry) in
  {| Kty := "RSA"; Use := "sig"; Alg := "RS256"; Kid := kid entry;
     pk_N := EncodeToString (Bytes (N pub));
     pk_E := EncodeToString (Bytes (wrap64 (E pub))) |}.

Definition PublicKeys (m : Manager) : list PublicKey :=
  newPublicKey (current m) ::
  match previous m with Some p => [newPublicKey p] | None => [] end.

(** [JWKSHandler]: the status, the headers set on the response and the keys of
    the encoded [JWKSet] ([None] when the body is an error text). *)
Definition JWKSHandler (m : Manager) (method : string) : Z * Header * option (list PublicKey) :=
  if negb (bool_decide (method = "GET")) then (405, ∅, None) else
  (200, Header_Set (Header_Set ∅ "Content-Type" "application/json")
                   "Cache-Control" "public, max-age=300", Some (PublicKeys m)).

(** ** Properties *)

(** The keys a manager signs and verifies with carry the identifier of their
    own modulus. *)
Definition entry_ok (e : keyEntry) : Prop :=
  kid e = computeKid (private_PublicKey (privateKey e)).

Definition manager_ok (m : Manager) : Prop :=
  entry_ok (current m) ∧ from_option entry_ok True (previous m).

Lemma generateKey_ok g e : generateKey g = Ok e → entry_ok e ∧ g = Ok (privateKey e).
Proof. unfold generateKey. destruct g; intros [= <-]. by split. Qed.

Lemma NewManager_ok n i g m : NewManager n i g = Ok m → manager_ok m.
Proof.
  unfold NewManager. destruct (generateKey g) eqn:Hg; intros [= <-].
  apply generateKey_ok in Hg as [? _]. by split.
Qed.

Lemma Rotate_ok m g : manager_ok m → manager_ok (Rotate m g).1.
Proof.
  unfold Rotate. intros Hm. destruct (generateKey g) eqn:Hg; [|done].
  apply generateKey_ok in Hg as [? _]. split; [done|apply Hm].
Qed.

(** A key with a non-negative modulus and an exponent in the int range. *)
Definition key_in_range (k : RsaPublicKey) : Prop :=
  0 ≤ N k ∧ 0 ≤ E k ≤ int64_max.

Lemma RSAPublicKey_newPublicKey e :
  key_in_range (private_PublicKey (privateKey e)) →
  RSAPublicKey (newPublicKey e) = Ok (private_PublicKey (privateKey e)).
Proof.
  intros [HN HE]. unfold RSAPublicKey, newPublicKey. cbn [pk_N pk_E].
  rewrite !DecodeString_EncodeToString by apply Bytes_is_byte. cbn [map_err].
  rewrite (wrap64_small (E _)) by (unfold int64_min; lia).
  rewrite !SetBytes_Bytes by lia. rewrite wrap64_small by (unfold int64_min; lia).
  by destruct (private_PublicKey _).
Qed.

(** The manager after a sequence of rotations. *)
Definition rotations (m : Manager) (gs : list (result RsaPrivateKey)) : Manager :=
  fold_left (λ m g, (Rotate m g).1) gs m.

(** The keys of the successful generations, newest first. *)
Fixpoint generated_keys (gs : list (result RsaPrivateKey)) : list RsaPrivateKey :=
  match gs with
  | [] => []
  | Ok k :: gs => generated_keys gs ++ [k]
  | Err _ :: gs => generated_keys gs
  end.

(** A private key as it is published: the modulus and the exponent of its public
    key, under the identifier of that modulus. *)
Definition published_key (k : RsaPrivateKey) : PublicKey :=
  newPublicKey {| privateKey := k; kid := computeKid (private_PublicKey k) |}.

Lemma Rotate_keys m g :
  PublicKeys (Rotate m g).1 =
  match g with
  | Ok k => [published_key k; newPublicKey (current m)]
  | Err _ => PublicKeys m
  end.
Proof. destruct g; done. Qed.

Lemma rotations_keys m gs :
  PublicKeys (rotations m gs) = take 2 ((published_key <$> generated_keys gs) ++ PublicKeys m).
Proof.
  unfold rotations. revert m. induction gs as [|g gs IH]; intros m; cbn [fold_left].
  { unfold PublicKeys. by destruct (previous m). }
  rewrite IH, Rotate_keys. destruct g as [k|e]; cbn [generated_keys]; [|done].
  rewrite fmap_app, <-app_assoc. simpl.
  destruct (published_key <$> generated_keys gs) as [|x [|y l]]; done.
Qed.

Lemma rotations_ok m gs : manager_ok m → manager_ok (rotations m gs).
Proof.
  unfold rotations. revert m. induction gs as [|g gs IH]; intros m Hm; [done|]. cbn [fold_left]. by apply IH, Rotate_ok.
Qed.

Lemma rotations_signing m gs :
  (SigningKey (rotations m gs)).1 = default (privateKey (current m)) (head (generated_keys gs)).
Proof.
  unfold rotations. revert m. induction gs as [|g gs IH]; intros m; [done|]. cbn [fold_left].
  rewrite IH. destruct g as [k|e]; cbn [generated_keys]; [|done]. by destruct (generated_keys gs).
Qed.

(** C25.  At any time the key set served for verification is the last two keys
    that were generated (the first one alone before any rotation), newest first:
    for each the modulus and exponent of that very key, under the identifier of
    its modulus; the manager signs with the newest, under its identifier; and a
    rotation whose key generation fails returns the error and leaves the manager
    as it is. *)
Theorem served_keys_last_two n i k gs :
  ∃ m, NewManager n i (Ok k) = Ok m ∧
  PublicKeys (rotations m gs) = take 2 (published_key <$> generated_keys gs ++ [k]) ∧
  (SigningKey (rotations m gs)).1 = default k (head (generated_keys gs)) ∧
  (SigningKey (rotations m gs)).2 = computeKid (private_PublicKey (SigningKey (rotations m gs)).1) ∧
  ∀ e, Rotate (rotations m gs) (Err e) = (rotations m gs, Some (wrapf "generating new key: %w" [] e)).
Proof.
  eexists. split; [done|]. split_and!.
  - by rewrite rotations_keys, fmap_app.
  - apply rotations_signing.
  - apply (rotations_ok _ gs). by split.
  - done.
Qed.
End keys.
