(* ===== verification/Issuance.v ===== *)
(** * pkg/tts/cel.go: issuance rules

    Compilation of a policy's CEL rules and their evaluation before a token is
    issued.  The CEL engine is the parameter [CEL]. *)

From stdpp Require Import pretty.
From S2P Require Import Prelude GoStrings GoValue External.

(** [tts.IssuanceRuleConfig]. *)
Record IssuanceRuleConfig := {
  cfg_Name : string; cfg_CEL : string; cfg_Message : string; cfg_TargetNamespaces : list string;
}.

(** [tts.IssuanceContext]. *)
Record IssuanceContext := {
  ic_Subject : string; ic_Scope : string; ic_Tctx : gomap; ic_Rctx : gomap;
  ic_Workload : string; ic_WorkloadNS : string;
}.

Definition ruleAppliesToNamespace (targets : list string) (workloadNS : string) : bool :=
  if bool_decide (targets = []) then true else
  if bool_decide (workloadNS = "") then false else
  existsb (λ t, bool_decide (t = workloadNS)) targets.

(** [tts.ScopeContains]. *)
Definition ScopeContains (scopeString target : string) : bool :=
  existsb (λ s, bool_decide (s = target)) (Fields scopeString).

(** The activation map of [EvaluateIssuanceRules].  A nil [map[string]any] stored
    in it is an interface holding a nil map, which is not [== nil]. *)
Definition issuanceActivation (ictx : IssuanceContext) : gmap string any :=
  let activation : gmap string any :=
    {[ "subject" := AString (ic_Subject ictx);
       "scope" := AString (ic_Scope ictx);
       "tctx" := AMap (ic_Tctx ictx);
       "rctx" := AMap (ic_Rctx ictx);
       "workload" := AString (ic_Workload ictx);
       "workload_ns" := AString (ic_WorkloadNS ictx) ]} in
  let activation :=
    if is_nil (default ANil (activation !! "tctx"))
    then <["tctx" := AMap (Some ∅)]> activation else activation in
  if is_nil (default ANil (activation !! "rctx"))
  then <["rctx" := AMap (Some ∅)]> activation else activation.

Section issuance.
Context `{CEL}.

(** [tts.IssuanceRule]. *)
Record IssuanceRule := {
  ir_Name : string; ir_program : CelProgram; ir_message : string;
  ir_TargetNamespaces : list string;
}.

Definition newIssuanceCELEnv : result CelEnv :=
  cel_NewEnv [("subject", StringType); ("scope", StringType); ("tctx", DynType);
              ("rctx", DynType); ("workload", StringType); ("workload_ns", StringType)].

(** One round of the loop of [CompileIssuanceRules]. *)
Definition compileIssuanceRule (env : CelEnv) (icfg : nat * IssuanceRuleConfig)
  : result IssuanceRule :=
  let '(i, cfg) := icfg in
  if bool_decide (cfg_CEL cfg = "") then
    Err (errorf "issuance rule %d (%q): empty CEL expression" [pretty i; cfg_Name cfg])
  else
  try! ast := map_err (wrapf "compiling issuance rule %q: %w" [cfg_Name cfg])
                      (cel_Compile env (cfg_CEL cfg)) in
  if negb (bool_decide (cel_OutputType ast = BoolType)) then
    Err (errorf "issuance rule %q: expression must return bool" [cfg_Name cfg])
  else
  try! prg := map_err (wrapf "creating program for issuance rule %q: %w" [cfg_Name cfg])
                      (cel_Program env ast) in
  Ok {| ir_Name := cfg_Name cfg; ir_program := prg; ir_message := cfg_Message cfg;
        ir_TargetNamespaces := cfg_TargetNamespaces cfg |}.

Definition CompileIssuanceRules (configs : list IssuanceRuleConfig)
  : result (list IssuanceRule) :=
  if bool_decide (length configs = 0) then Ok [] else
  try! env := map_err (wrapf "creating CEL environment: %w" []) newIssuanceCELEnv in
  traverse (compileIssuanceRule env) (imap pair configs).

(** One round of the loop of [EvaluateIssuanceRules]: [Ok tt] goes on. *)
Definition evaluateIssuanceRule (activation : gmap string any) (ns : string)
    (rule : IssuanceRule) : result unit :=
  if negb (ruleAppliesToNamespace (ir_TargetNamespaces rule) ns) then Ok tt else
  try! out := map_err (wrapf "evaluating issuance rule %q: %w" [ir_Name rule])
                      (cel_Eval (ir_program rule) activation) in
  if negb (bool_decide (val_Type out = BoolType)) then
    Err (errorf "issuance rule %q returned %s, expected bool" [ir_Name rule])
  else
  match val_Value out with
  | ABool true => Ok tt
  | ABool false => Err (IssuanceDeniedError (ir_Name rule) (ir_message rule))
  | _ => Err (GoPanic "interface conversion: not a bool")
  end.

Definition EvaluateIssuanceRules (rules : list IssuanceRule) (ictx : IssuanceContext)
  : result unit :=
  if bool_decide (length rules = 0) then Ok tt else
  try! _ := traverse (evaluateIssuanceRule (issuanceActivation ictx) (ic_WorkloadNS ictx)) rules in
  Ok tt.

(** ** Properties *)

(** A rule holds in a context: its expression evaluates to true. *)
Definition rule_holds (ictx : IssuanceContext) (rule : IssuanceRule) : Prop :=
  cel_Eval (ir_program rule) (issuanceActivation ictx) =
  Ok {| val_Type := BoolType; val_Value := ABool true |}.

Definition rule_applies (ictx : IssuanceContext) (rule : IssuanceRule) : Prop :=
  ruleAppliesToNamespace (ir_TargetNamespaces rule) (ic_WorkloadNS ictx) = true.

Lemma evaluateIssuanceRule_ok ictx rule :
  is_ok (evaluateIssuanceRule (issuanceActivation ictx) (ic_WorkloadNS ictx) rule) = true ↔
  (rule_applies ictx rule → rule_holds ictx rule).
Proof.
  unfold evaluateIssuanceRule, rule_applies, rule_holds.
  destruct (ruleAppliesToNamespace _ _); simpl; [|naive_solver].
  destruct (cel_Eval _ _) as [[ty v]|e]; simpl; [|naive_solver].
  case_bool_decide; simpl; [|naive_solver].
  destruct v as [|[]| | | | |]; naive_solver.
Qed.

Lemma EvaluateIssuanceRules_ok rules ictx :
  EvaluateIssuanceRules rules ictx = Ok tt ↔
  ∀ rule, rule ∈ rules → rule_applies ictx rule → rule_holds ictx rule.
Proof.
  setoid_rewrite <-evaluateIssuanceRule_ok. rewrite <-traverse_is_ok.
  unfold EvaluateIssuanceRules. case_bool_decide as Hl.
  { destruct rules; [done|discriminate]. }
  by destruct (traverse _ _).
Qed.

Lemma ruleAppliesToNamespace_spec targets ns :
  ruleAppliesToNamespace targets ns = true ↔ targets = [] ∨ (ns ≠ "" ∧ ns ∈ targets).
Proof.
  unfold ruleAppliesToNamespace. case_bool_decide; [naive_solver|].
  case_bool_decide; [naive_solver|]. rewrite existsb_elem.
  setoid_rewrite bool_decide_eq_true. naive_solver.
Qed.

(** C26.  Issuance rules are conjunctive and fail at the first one, in order:
    evaluation succeeds exactly when every rule that applies to the workload's
    namespace evaluates to true, and fails with an error exactly when that
    error comes from a rule that all the rules before it let pass. *)
Theorem issuance_rules_first_failure rules ictx :
  (EvaluateIssuanceRules rules ictx = Ok tt ↔
     ∀ rule, rule ∈ rules → rule_applies ictx rule → rule_holds ictx rule) ∧
  (∀ e, EvaluateIssuanceRules rules ictx = Err e ↔
     ∃ l1 rule l2, rules = l1 ++ rule :: l2 ∧
       (∀ r, r ∈ l1 → rule_applies ictx r → rule_holds ictx r) ∧ rule_applies ictx rule ∧
       evaluateIssuanceRule (issuanceActivation ictx) (ic_WorkloadNS ictx) rule = Err e).
Proof.
  split; [apply EvaluateIssuanceRules_ok|]. intros e.
  assert (EvaluateIssuanceRules rules ictx = Err e ↔
    traverse (evaluateIssuanceRule (issuanceActivation ictx) (ic_WorkloadNS ictx)) rules = Err e)
    as ->.
  { unfold EvaluateIssuanceRules. case_bool_decide; [by destruct rules|].
    destruct (traverse _ _); naive_solver. }
  rewrite traverse_err. setoid_rewrite evaluateIssuanceRule_ok.
  assert (∀ rule, evaluateIssuanceRule (issuanceActivation ictx) (ic_WorkloadNS ictx) rule = Err e →
    rule_applies ictx rule).
  { unfold evaluateIssuanceRule, rule_applies. intros rule. by destruct (ruleAppliesToNamespace _ _). }
  naive_solver.
Qed.

(** The contexts of a request reach the rules as they are: a request
    without [request_details] presents a nil map to the rules, since the nil
    check after building the activation compares an interface that holds a
    map, which is never nil. *)
Theorem activation_contexts ictx :
  issuanceActivation ictx !! "tctx" = Some (AMap (ic_Tctx ictx)) ∧
  issuanceActivation ictx !! "rctx" = Some (AMap (ic_Rctx ictx)).
Proof. split; reflexivity. Qed.
End issuance.
