(* ===== verification/LocalVerifier.v ===== *)
(** * pkg/tts/local_verifier.go: verifying TxTokens inside the TTS

    The verifier reads the live key manager, so [Verify] takes the manager's
    state at the time of the call.  [extractClaims] turns the claim map of a
    parsed token into [token.Claims]. *)

From S2P Require Import Prelude GoStrings GoValue GoTime External Token Keys.

Local Open Scope Z_scope.

(** [int64(f)] when the claim is a float64, 0 otherwise. *)
Definition timeClaim (v : option any) : Z :=
  match as_float64 v with Some f => int64_of_float64 f | None => 0 end.

Definition extractClaims (mc : gmap string any) : Claims :=
  {| Issuer := string_or_zero (mc !! "iss");
     Audience := string_or_zero (mc !! "aud");
     Subject := string_or_zero (mc !! "sub");
     Scope := string_or_zero (mc !! "scope");
     RequestingWorkload := string_or_zero (mc !! "req_wl");
     TransactionID := string_or_zero (mc !! "txn");
     IssuedAt := timeClaim (mc !! "iat");
     ExpiresAt := timeClaim (mc !! "exp");
     TransactionContext := default None (as_map (mc !! "tctx"));
     RequesterContext := default None (as_map (mc !! "rctx")) |}.

(** [newLocalVerifier(km, audience)]; the manager is the one passed to [Verify]. *)
Record localVerifier := { audience : string }.
Definition newLocalVerifier (aud : string) : localVerifier := {| audience := aud |}.

Section local_verifier.
Context `{Crypto, !JWT}.

(** The loop over the live keys. *)
Fixpoint findKey (kid : string) (pks : list PublicKey) : result RsaPublicKey :=
  match pks with
  | [] => Err (errorf "unknown kid %q" [kid])
  | pk :: pks =>
    if negb (bool_decide (Kid pk = kid)) then findKey kid pks else
    map_err (wrapf "decoding key %q: %w" [kid]) (RSAPublicKey pk)
  end.

Definition keyFunc (km : Manager) (t : JwtToken) : result RsaPublicKey :=
  if negb (jwt_RSA t) then Err (errorf "unexpected signing method: %v" []) else
  match as_string (jwt_Header t !! "kid") with
  | None => Err (errorf "missing kid in token header" [])
  | Some kid =>
    if bool_decide (kid = "") then Err (errorf "missing kid in token header" []) else
    findKey kid (PublicKeys km)
  end.

Definition Verify (km : Manager) (now : Z) (v : localVerifier) (tokenString : string)
  : result Claims :=
  if bool_decide (tokenString = "") then Err (errorf "empty token" []) else
  try! parsed := map_err (wrapf "token verification failed: %w" [])
    (jwt_Parse (WithAudience (audience v)) now tokenString
               (λ t (s : unit), (keyFunc km t, s)) tt).1 in
  let typ := string_or_zero (jwt_Header parsed !! "typ") in
  if negb (bool_decide (typ = TypeHeader)) then
    Err (errorf "invalid typ header: expected %q, got %q" [TypeHeader; typ])
  else
  match jwt_MapClaims parsed with
  | None => Err (errorf "unexpected claims type" [])
  | Some mc => Ok (extractClaims mc)
  end.

(** ** Lemmas *)

Lemma findKey_ok kid pks k :
  findKey kid pks = Ok k → ∃ pk, pk ∈ pks ∧ Kid pk = kid ∧ RSAPublicKey pk = Ok k.
Proof.
  induction pks as [|pk pks IH]; simpl; [done|].
  case_bool_decide; simpl; [|intros (q & ? & ?)%IH; exists q; set_solver].
  destruct (RSAPublicKey pk) eqn:HR; [|done]. intros [= <-]. exists pk. set_solver.
Qed.

Context `{!JSON, !JWTLaws _}.

(** What a successful verification shows. *)
Lemma Verify_sound km now v s c :
  Verify km now v s = Ok c →
  ∃ t mc kid k, jwt_signed s t k ∧ jwt_MapClaims t = Some mc ∧ c = extractClaims mc ∧
    jwt_valid (WithAudience (audience v)) now mc ∧
    jwt_Header t !! "typ" = Some (AString TypeHeader) ∧
    jwt_Header t !! "kid" = Some (AString kid) ∧
    findKey kid (PublicKeys km) = Ok k.
Proof.
  unfold Verify. case_bool_decide as Hs; [done|].
  destruct (jwt_Parse _ _ _ _ _) as [[t|e] []] eqn:HP; simpl; [|done].
  apply jwt_Parse_sound in HP as (k & m & Hk & Hsig & Hm & Hval). injection Hk as Hk.
  case_bool_decide as Htyp; simpl; [|done]. rewrite Hm. intros [= <-].
  unfold keyFunc in Hk. destruct (jwt_RSA t); simpl in Hk; [|done].
  destruct (as_string _) as [kid|] eqn:Hkid; [|done]. case_bool_decide as Hk0; [done|].
  exists t, m, kid, k. split_and!; try done.
  - unfold string_or_zero, as_string in Htyp.
    destruct (jwt_Header t !! "typ") as [[]|]; simpl in Htyp; try discriminate. by subst.
  - unfold as_string in Hkid.
    destruct (jwt_Header t !! "kid") as [[]|]; simplify_eq; done.
Qed.
End local_verifier.

(** ** Issued tokens verify *)

(** The claims of the token [New] makes of [c]. *)
Definition issuedClaims (c : Claims) (now : Z) (uuid : string) (lifetime : Z) : Claims :=
  {| Issuer := Issuer c; Audience := Audience c; Subject := Subject c; Scope := Scope c;
     RequestingWorkload := RequestingWorkload c;
     TransactionID := if bool_decide (TransactionID c = "") then uuid else TransactionID c;
     IssuedAt := Unix now; ExpiresAt := Unix (Add now lifetime);
     TransactionContext := TransactionContext c; RequesterContext := RequesterContext c |}.

(** A context that JSON prints and reads back unchanged. *)
Definition json_context `{JSON} (m : gomap) : Prop :=
  match m with Some _ => json_norm (AMap m) = AMap m | None => True end.

(** Claims made of UTF-8 text and decoded JSON. *)
Record json_claims `{JSON} (c : Claims) : Prop := {
  jc_iss : json_text (Issuer c); jc_aud : json_text (Audience c);
  jc_sub : json_text (Subject c); jc_scope : json_text (Scope c);
  jc_wl : json_text (RequestingWorkload c); jc_txn : json_text (TransactionID c);
  jc_tctx : json_context (TransactionContext c); jc_rctx : json_context (RequesterContext c);
}.

(** A time in seconds float64 represents exactly. *)
Definition small_time (t : Z) : Prop := Z.abs t < 2 ^ 53.

Lemma ascii_keys_insert k v m : is_ascii k = true → ascii_keys m → ascii_keys (<[k := v]> m).
Proof. intros. by apply (map_Forall_insert_2 (λ k _, is_ascii k = true)). Qed.

Lemma ascii_keys_jwtClaims c now uuid lt : ascii_keys (jwtClaims c now uuid lt).
Proof.
  unfold jwtClaims. destruct (TransactionContext c), (RequesterContext c);
    repeat (apply ascii_keys_insert; [done|]); apply map_Forall_empty.
Qed.

Section roundtrip.
Context `{!JSON, !JSONLaws _, !Crypto, !JWT, !JWTLaws _}.

Lemma newToken_claims m kid : jwt_MapClaims (newToken m kid) = Some m.
Proof. apply (jwt_NewWithClaims_fields m). Qed.

Lemma newToken_RSA m kid : jwt_RSA (newToken m kid) = true.
Proof. apply (jwt_NewWithClaims_fields m). Qed.

Lemma newToken_header m kid :
  jwt_Header (newToken m kid) !! "typ" = Some (AString TypeHeader) ∧
  jwt_Header (newToken m kid) !! "kid" = Some (AString kid) ∧
  ascii_keys (jwt_Header (newToken m kid)).
Proof.
  unfold newToken. cbn [jwt_Header]. split_and!; [by simplify_map_eq..|].
  do 2 (apply ascii_keys_insert; [done|]). apply (jwt_NewWithClaims_fields m).
Qed.

Lemma extractClaims_issued c now uuid lt :
  json_claims c → json_text uuid →
  small_time (Unix now) → small_time (Unix (Add now lt)) →
  extractClaims (json_norm <$> jwtClaims c now uuid lt) = issuedClaims c now uuid lt.
Proof.
  intros Hc Hu Hiat Hexp.
  destruct (jwtClaims_strings c now uuid lt) as (E1 & E2 & E3 & E4 & E5 & E6 & _).
  destruct (jwtClaims_times c now uuid lt) as (E7 & E8).
  destruct (jwtClaims_contexts c now uuid lt) as (E9 & E10).
  unfold extractClaims, issuedClaims, string_or_zero, timeClaim. rewrite !lookup_fmap.
  rewrite E1, E2, E3, E4, E5, E6, E7, E8, E9, E10. destruct Hc. unfold json_text in *.
  cbn [fmap option_fmap option_map]. rewrite !json_norm_int.
  cbn [as_float64]. rewrite !int64_float64_roundtrip by done.
  f_equal; try (by rewrite ?jc_iss0, ?jc_aud0, ?jc_sub0, ?jc_scope0, ?jc_wl0).
  - case_bool_decide; by rewrite ?Hu, ?jc_txn0.
  - destruct (TransactionContext c); [|done]. simpl. by rewrite jc_tctx0.
  - destruct (RequesterContext c); [|done]. simpl. by rewrite jc_rctx0.
Qed.

(** The signed string and what it serialises. *)
Lemma New_signed c key kid lt now uuid s :
  New c key kid lt now uuid = Ok s →
  required_present c ∧
  jwt_signed s (json_token (newToken (jwtClaims c now uuid lt) kid)) (private_PublicKey key).
Proof.
  unfold New. destruct (validateRequired c) as [[]|] eqn:Hv; [|done].
  apply validateRequired_ok in Hv. intros Hs. split; [done|].
  eapply jwt_SignedString_signed; [apply newToken_claims| | |done].
  - apply newToken_header.
  - apply ascii_keys_jwtClaims.
Qed.

Lemma keyFunc_issued km m kid k :
  json_text kid → kid ≠ "" → findKey kid (PublicKeys km) = Ok k →
  keyFunc km (json_token (newToken m kid)) = Ok k.
Proof.
  intros Hj Hne Hk. unfold keyFunc, json_token. cbn [jwt_RSA jwt_Header].
  rewrite newToken_RSA, lookup_fmap. destruct (newToken_header m kid) as (_ & -> & _).
  simpl. unfold json_text in Hj. rewrite Hj. simpl. by rewrite bool_decide_false.
Qed.

(** The claims of an issued token pass the validator until it expires. *)
Lemma issued_valid c now uuid lt now' :
  Audience c ≠ "" → json_text (Audience c) → small_time (Unix (Add now lt)) →
  now' < Unix (Add now lt) * Second →
  jwt_valid (WithAudience (Audience c)) now' (json_norm <$> jwtClaims c now uuid lt).
Proof.
  intros Hne Ha Hexp Hnow.
  destruct (jwtClaims_strings c now uuid lt) as (_ & Ea & _ & _ & _ & _ & En).
  destruct (jwtClaims_times c now uuid lt) as (_ & Ee).
  eapply (jwt_valid_intro _ _ _ (float64_of_Z (Unix (Add now lt)))).
  - done.
  - rewrite lookup_fmap, Ea. simpl. f_equal. apply Ha.
  - rewrite lookup_fmap, Ee. simpl. by rewrite json_norm_int.
  - by apply float64_trunc_of_Z.
  - done.
  - by rewrite lookup_fmap, En.
Qed.

Lemma issued_typ m kid :
  jwt_Header (json_token (newToken m kid)) !! "typ" = Some (AString TypeHeader).
Proof.
  unfold json_token. cbn [jwt_Header]. rewrite lookup_fmap.
  destruct (newToken_header m kid) as (-> & _ & _). simpl. by rewrite json_norm_ascii.
Qed.

Lemma issued_MapClaims m kid :
  jwt_MapClaims (json_token (newToken m kid)) = Some (json_norm <$> m).
Proof. unfold json_token. cbn [jwt_MapClaims]. by rewrite newToken_claims. Qed.

Lemma Verify_issued km v c key kid lt now uuid s now' :
  New c key kid lt now uuid = Ok s →
  json_text kid → kid ≠ "" → findKey kid (PublicKeys km) = Ok (private_PublicKey key) →
  Audience c = audience v → audience v ≠ "" → json_claims c → json_text uuid →
  small_time (Unix now) → small_time (Unix (Add now lt)) →
  now' < Unix (Add now lt) * Second →
  Verify km now' v s = Ok (issuedClaims c now uuid lt).
Proof.
  intros [_ Hs]%New_signed Hkid Hne Hk Haud Hane Hc Hu Hiat Hexp Hnow.
  set (m := jwtClaims c now uuid lt) in *.
  assert (jwt_valid (WithAudience (audience v)) now' (json_norm <$> m)) as Hval.
  { rewrite <-Haud in *. apply issued_valid; [done|apply Hc|done..]. }
  unfold Verify. rewrite bool_decide_false by by eapply jwt_signed_nonempty.
  pose proof (issued_MapClaims m kid) as Hm. pose proof (issued_typ m kid) as Ht.
  erewrite jwt_Parse_complete; [|by rewrite (keyFunc_issued _ m _ _ Hkid Hne Hk)|done..].
  cbn [fst map_err]. rewrite Ht, Hm. cbn -[extractClaims].
  f_equal. by apply extractClaims_issued.
Qed.
End roundtrip.
