(* ===== verification/Fetch.v ===== *)
(** * Fetching documents over HTTP

    What the JWKS clients of the program see of the network: the answer to a GET
    request, a transport error or a status and a body.  The body is read by
    [encoding/json] into the struct the caller declares, the class [Documents]. *)

From S2P Require Import Prelude Keys.

Record HttpResponse := { StatusCode : Z; Body : string }.

(** The network at the moment of a call: [client.Get(url)]. *)
Definition Network : Type := string → result HttpResponse.

Class Documents := {
  (** [Decode(&jwks)] into a struct of JSON web keys. *)
  decode_JWKS : string → result (list PublicKey);
  (** [Decode(&disco)] into [oidcDiscovery]: the fields [issuer] and [jwks_uri]. *)
  decode_Discovery : string → result (string * string);
}.
