(* ===== verification/SdkVerify.v ===== *)
(** * sdk/verify: the verifier of downstream services

    The same checks as the TTS's own verifier, with the keys fetched from the
    JWKS endpoint and cached by identifier.  [Verify] returns the new cache. *)

From stdpp Require Import pretty.
From S2P Require Import Prelude GoStrings GoValue GoTime External Base64 Token Keys Fetch LocalVerifier.

Local Open Scope Z_scope.

Record Verifier := {
  vf_jwksURL : string;
  vf_audience : string;
  vf_keys : gmap string RsaPublicKey;
}.

(** [verify.New]. *)
Definition NewVerifier (jwksURL audience : string) : Verifier :=
  {| vf_jwksURL := jwksURL; vf_audience := audience; vf_keys := ∅ |}.

(** [extractClaims] of this package; its error is always nil. *)
Definition sdk_extractClaims (mc : gmap string any) : result Claims :=
  Ok {| Issuer := string_or_zero (mc !! "iss"); Audience := string_or_zero (mc !! "aud");
        Subject := string_or_zero (mc !! "sub"); Scope := string_or_zero (mc !! "scope");
        RequestingWorkload := string_or_zero (mc !! "req_wl");
        TransactionID := string_or_zero (mc !! "txn");
        IssuedAt := timeClaim (mc !! "iat"); ExpiresAt := timeClaim (mc !! "exp");
        TransactionContext := default None (as_map (mc !! "tctx"));
        RequesterContext := default None (as_map (mc !! "rctx")) |}.

(** One round of the loop of [fetchJWKS]. *)
Definition installKey (keys : gmap string RsaPublicKey) (k : PublicKey) : gmap string RsaPublicKey :=
  if negb (bool_decide (Kty k = "RSA")) || negb (bool_decide (Use k = "sig")) then keys else
  match DecodeString (pk_N k) with
  | Err _ => keys
  | Ok nBytes =>
    match DecodeString (pk_E k) with
    | Err _ => keys
    | Ok eBytes => <[Kid k := {| N := SetBytes nBytes; E := wrap64 (SetBytes eBytes) |}]> keys
    end
  end.

Section verifier.
Context `{Crypto, !JWT, Documents}.

(** The cached keys are replaced by the fetched ones. *)
Definition sdk_fetchJWKS (net : Network) (v : Verifier) : option error * Verifier :=
  match net (vf_jwksURL v) with
  | Err e => (Some (wrapf "fetching JWKS from %s: %w" [vf_jwksURL v] e), v)
  | Ok resp =>
    if negb (bool_decide (StatusCode resp = 200)) then
      (Some (errorf "JWKS endpoint returned status %d" [pretty (StatusCode resp)]), v)
    else
    match decode_JWKS (Body resp) with
    | Err e => (Some (wrapf "decoding JWKS: %w" [] e), v)
    | Ok jwks => (None, {| vf_jwksURL := vf_jwksURL v; vf_audience := vf_audience v;
                           vf_keys := fold_left installKey jwks ∅ |})
    end
  end.

Definition sdk_keyFunc (net : Network) : Keyfunc Verifier := λ t v,
  if negb (jwt_RSA t) then (Err (errorf "unexpected signing method: %v" []), v) else
  match as_string (jwt_Header t !! "kid") with
  | None => (Err (errorf "missing kid in token header" []), v)
  | Some kid =>
    if bool_decide (kid = "") then (Err (errorf "missing kid in token header" []), v) else
    match vf_keys v !! kid with
    | Some key => (Ok key, v)
    | None =>
      match sdk_fetchJWKS net v with
      | (Some e, v) => (Err (wrapf "fetching JWKS: %w" [] e), v)
      | (None, v) =>
        match vf_keys v !! kid with
        | Some key => (Ok key, v)
        | None => (Err (errorf "key %q not found in JWKS at %s" [kid; vf_jwksURL v]), v)
        end
      end
    end
  end.

Definition sdk_Verify (net : Network) (now : Z) (v : Verifier) (tokenString : string)
  : result Claims * Verifier :=
  if bool_decide (tokenString = "") then (Err (errorf "empty token" []), v) else
  let '(r, v) := jwt_Parse (WithAudience (vf_audience v)) now tokenString (sdk_keyFunc net) v in
  (try! parsed := map_err (wrapf "token verification failed: %w" []) r in
   let typ := string_or_zero (jwt_Header parsed !! "typ") in
   if negb (bool_decide (typ = TypeHeader)) then
     Err (errorf "invalid typ header: expected %q, got %q" [TypeHeader; typ])
   else
   match jwt_MapClaims parsed with
   | None => Err (errorf "unexpected claims type" [])
   | Some mapClaims => map_err (wrapf "extracting claims: %w" []) (sdk_extractClaims mapClaims)
   end, v).

(** ** Properties *)

(** The two packages read claims alike. *)
Lemma sdk_extractClaims_same mc : sdk_extractClaims mc = Ok (extractClaims mc).
Proof. done. Qed.

Lemma sdk_fetchJWKS_fields net v :
  vf_audience (sdk_fetchJWKS net v).2 = vf_audience v ∧
  vf_jwksURL (sdk_fetchJWKS net v).2 = vf_jwksURL v.
Proof.
  unfold sdk_fetchJWKS. destruct (net _) as [resp|]; [|done].
  destruct (negb _); [done|]. by destruct (decode_JWKS _).
Qed.

(** The key the callback returns is in the cache it leaves, under the token's
    identifier. *)
Lemma sdk_keyFunc_cached net t v k v' :
  sdk_keyFunc net t v = (Ok k, v') →
  vf_audience v' = vf_audience v ∧
  ∃ kid, kid ≠ "" ∧ jwt_Header t !! "kid" = Some (AString kid) ∧ vf_keys v' !! kid = Some k.
Proof.
  unfold sdk_keyFunc. destruct (jwt_RSA t); simpl; [|done].
  destruct (as_string _) as [kid|] eqn:Hkid; [|done]. case_bool_decide as Hne; [done|].
  assert (jwt_Header t !! "kid" = Some (AString kid)) as Hh.
  { unfold as_string in Hkid. by destruct (_ !! "kid") as [[]|]; simplify_eq. }
  destruct (vf_keys v !! kid) as [key|] eqn:Hk.
  { intros [= <- <-]. split; [done|]. by exists kid. }
  destruct (sdk_fetchJWKS net v) as [[e|] v1] eqn:Hf; [done|].
  destruct (vf_keys v1 !! kid) as [key|] eqn:Hk1; [|done]. intros [= <- <-].
  pose proof (sdk_fetchJWKS_fields net v) as [Ha _]. rewrite Hf in Ha. split; [done|]. by exists kid.
Qed.

Lemma sdk_keyFunc_fields net t v :
  vf_audience (sdk_keyFunc net t v).2 = vf_audience v ∧
  vf_jwksURL (sdk_keyFunc net t v).2 = vf_jwksURL v.
Proof.
  unfold sdk_keyFunc. destruct (negb _); [done|]. destruct (as_string _) as [kid|]; [|done].
  case_bool_decide; [done|]. destruct (vf_keys v !! kid); [done|].
  pose proof (sdk_fetchJWKS_fields net v). destruct (sdk_fetchJWKS net v) as [[e|] v1]; [done|].
  by destruct (vf_keys v1 !! kid).
Qed.

Context `{!JSON, !JWTLaws _}.

(** A verification changes only the cached keys. *)
Lemma sdk_Verify_fields net now v s :
  vf_audience (sdk_Verify net now v s).2 = vf_audience v ∧
  vf_jwksURL (sdk_Verify net now v s).2 = vf_jwksURL v.
Proof.
  unfold sdk_Verify. case_bool_decide; [done|].
  pose proof (jwt_Parse_calls Verifier (WithAudience (vf_audience v)) now s (sdk_keyFunc net) v) as Hc.
  destruct (jwt_Parse _ _ _ _ _) as [r v1]. simpl in *.
  destruct Hc as [->|[t ->]]; [done|apply sdk_keyFunc_fields].
Qed.

(** What a successful verification shows. *)
Lemma sdk_Verify_sound net now v s c v' :
  sdk_Verify net now v s = (Ok c, v') →
  ∃ t mc kid k, jwt_signed s t k ∧ jwt_MapClaims t = Some mc ∧ c = extractClaims mc ∧
    jwt_valid (WithAudience (vf_audience v)) now mc ∧
    jwt_Header t !! "typ" = Some (AString TypeHeader) ∧
    jwt_Header t !! "kid" = Some (AString kid) ∧ vf_keys v' !! kid = Some k.
Proof.
  unfold sdk_Verify. case_bool_decide as Hs; [done|].
  destruct (jwt_Parse _ _ _ _ _) as [r v1] eqn:HP. intros [= Hr <-].
  destruct r as [t|e]; [|done]. cbn [map_err] in Hr.
  apply jwt_Parse_sound in HP as (k & m & Hk & Hsig & Hm & Hval).
  apply sdk_keyFunc_cached in Hk as (_ & kid & _ & Hkid & Hk).
  case_bool_decide as Htyp; simpl in Hr; [|done]. rewrite Hm in Hr. injection Hr as <-.
  exists t, m, kid, k. split_and!; try done.
  unfold string_or_zero, as_string in Htyp.
  destruct (jwt_Header t !! "typ") as [[]|]; simpl in Htyp; try discriminate. by subst.
Qed.
End verifier.

(** ** Issued tokens are accepted downstream *)

Section issued.
Context `{!JSON, !JSONLaws _, !Crypto, !JWT, !JWTLaws _, !Documents}.

Lemma installKey_newPublicKey keys e :
  key_in_range (private_PublicKey (privateKey e)) →
  installKey keys (newPublicKey e) = <[kid e := private_PublicKey (privateKey e)]> keys.
Proof.
  intros Hr. pose proof (RSAPublicKey_newPublicKey e Hr) as HK. unfold installKey, RSAPublicKey in *.
  simpl in *. destruct (DecodeString _) as [nb|]; [|done]. simpl in HK.
  destruct (DecodeString _) as [eb|]; [|done]. simpl in HK. by injection HK as ->.
Qed.

(** The keys a JWKS document of the manager installs. *)
Lemma installKeys_current km :
  key_in_range (private_PublicKey (privateKey (current km))) →
  (∀ p, previous km = Some p →
     key_in_range (private_PublicKey (privateKey p)) ∧ kid p ≠ kid (current km)) →
  fold_left installKey (PublicKeys km) ∅ !! kid (current km)
  = Some (private_PublicKey (privateKey (current km))).
Proof.
  intros Hr Hp. unfold PublicKeys. cbn [fold_left].
  rewrite installKey_newPublicKey by done. destruct (previous km) as [p|]; simpl.
  - destruct (Hp p eq_refl) as [Hpr Hne]. rewrite installKey_newPublicKey by done.
    by rewrite lookup_insert_ne, lookup_insert_eq.
  - by rewrite lookup_insert_eq.
Qed.

Lemma sdk_keyFunc_issued net v m kid k :
  json_text kid → kid ≠ "" →
  (vf_keys v !! kid = Some k ∨
   vf_keys v !! kid = None ∧ ∃ v', sdk_fetchJWKS net v = (None, v') ∧ vf_keys v' !! kid = Some k) →
  ∃ v', sdk_keyFunc net (json_token (newToken m kid)) v = (Ok k, v').
Proof.
  intros Hj Hne Hk. unfold sdk_keyFunc, json_token. cbn [jwt_RSA jwt_Header].
  rewrite newToken_RSA, lookup_fmap. destruct (newToken_header m kid) as (_ & -> & _).
  simpl. unfold json_text in Hj. rewrite Hj. simpl. rewrite bool_decide_false by done.
  destruct Hk as [Hk|(Hn & v' & Hf & Hk)]; [rewrite Hk; eauto|].
  rewrite Hn, Hf, Hk. eauto.
Qed.

Lemma sdk_Verify_issued net v c key kid lt now uuid s now' :
  New c key kid lt now uuid = Ok s → json_text kid → kid ≠ "" →
  (vf_keys v !! kid = Some (private_PublicKey key) ∨
   vf_keys v !! kid = None ∧
   ∃ v', sdk_fetchJWKS net v = (None, v') ∧ vf_keys v' !! kid = Some (private_PublicKey key)) →
  Audience c = vf_audience v → vf_audience v ≠ "" → json_claims c → json_text uuid →
  small_time (Unix now) → small_time (Unix (Add now lt)) →
  now' < Unix (Add now lt) * Second →
  (sdk_Verify net now' v s).1 = Ok (issuedClaims c now uuid lt).
Proof.
  intros [_ Hs]%New_signed Hkid Hne Hk Haud Hane Hc Hu Hiat Hexp Hnow.
  set (m := jwtClaims c now uuid lt) in *.
  assert (jwt_valid (WithAudience (vf_audience v)) now' (json_norm <$> m)) as Hval.
  { rewrite <-Haud in *. apply issued_valid; [done|apply Hc|done..]. }
  unfold sdk_Verify. rewrite bool_decide_false by by eapply jwt_signed_nonempty.
  pose proof (issued_MapClaims m kid) as Hm. pose proof (issued_typ m kid) as Ht.
  destruct (sdk_keyFunc_issued net v m kid _ Hkid Hne Hk) as [v' Hkf].
  erewrite jwt_Parse_complete; [|exact Hkf|done..].
  cbn [fst map_err]. rewrite Ht, Hm. cbn -[extractClaims sdk_extractClaims].
  rewrite sdk_extractClaims_same. cbn [map_err]. f_equal. by apply extractClaims_issued.
Qed.
End issued.
