(* ===== verification/Authn.v ===== *)
(** * pkg/authn: routing a subject token to its authenticator, and OIDC

    [Router] dispatches on the unverified issuer; [OIDCAuthenticator] verifies
    the token against the provider's keys, its audiences and its CEL rules, and
    maps its claims to a subject.  The authenticators a router holds are values
    of a type with the interface [Authenticator]; their methods return the new
    state of the receiver (the key cache) beside the result. *)

From stdpp Require Import pretty.
From S2P Require Import Prelude GoStrings GoValue GoTime Base64 External Keys Fetch.

(** ** Types *)

Record SubjectInfo := { si_Subject : string; si_Extra : option (gmap string string) }.

Record IssuerConfig := {
  URL : string; DiscoveryURL : string; Audiences : list string; AudienceMatchPolicy : string;
}.
Record ClaimValidationRule := { cvr_Expression : string; cvr_Message : string }.
Record ClaimOrExpression := { coe_Claim : string; coe_Expression : string }.
Record ExtraMapping := { em_Key : string; em_ValueExpression : string }.
Record ClaimMappings := { cm_Subject : ClaimOrExpression; cm_Extra : list ExtraMapping }.
Record AuthenticatorConfig := {
  ac_Issuer : IssuerConfig;
  ac_ClaimValidationRules : list ClaimValidationRule;
  ac_ClaimMappings : ClaimMappings;
}.

(** The interface [authn.Authenticator]. *)
Class Authenticator (A : Type) := {
  Matches : A → string → bool;
  Authenticate : Z → A → string → result SubjectInfo * A;
}.

(** ** Router *)

Definition extractIssuer `{JSON} (tokenString : string) : result string :=
  let parts := SplitByte tokenString "." in
  match parts with
  | [_; p1; _] =>
    try! payload := map_err (wrapf "decoding JWT payload: %w" []) (DecodeString p1) in
    try! issuer := map_err (wrapf "parsing JWT payload: %w" []) (json_UnmarshalIss payload) in
    if bool_decide (issuer = "") then Err (errorf "token has no iss claim" []) else Ok issuer
  | _ => Err (errorf "invalid JWT: expected 3 parts, got %d" [pretty (length parts)])
  end.

Section router.
Context `{JSON} {A : Type} `{!Authenticator A}.

(** The loop over the authenticators; the one that matched is replaced by its
    new state. *)
Fixpoint route (now : Z) (issuer token : string) (l : list A) : result SubjectInfo * list A :=
  match l with
  | [] => (Err (errorf "no authenticator found for issuer %q" [issuer]), [])
  | auth :: l =>
    if Matches auth issuer
    then let '(r, auth') := Authenticate now auth token in (r, auth' :: l)
    else let '(r, l') := route now issuer token l in (r, auth :: l')
  end.

Definition Router_Authenticate (now : Z) (r : list A) (token : string)
  : result SubjectInfo * list A :=
  match map_err (wrapf "extracting issuer from token: %w" []) (extractIssuer token) with
  | Err e => (Err e, r)
  | Ok issuer => route now issuer token r
  end.
End router.

(** ** CEL claim rules (cel.go) *)

Section cel.
Context `{CEL}.

Record compiledRule := { cr_program : CelProgram; cr_message : string }.
Record compiledMapping := { cmp_program : CelProgram; cmp_key : string }.

Definition newCELEnv : result CelEnv := cel_NewEnv [("claims", DynType)].

Definition compileValidationRule (env : CelEnv) (ir : nat * ClaimValidationRule)
  : result compiledRule :=
  let '(i, rule) := ir in
  try! ast := map_err (wrapf "compiling validation rule %d (%q): %w"
                             [pretty i; cvr_Expression rule])
                      (cel_Compile env (cvr_Expression rule)) in
  if negb (bool_decide (cel_OutputType ast = BoolType)) then
    Err (errorf "validation rule %d (%q): expression must return bool, got %s"
                [pretty i; cvr_Expression rule])
  else
  try! prg := map_err (wrapf "creating program for validation rule %d: %w" [pretty i])
                      (cel_Program env ast) in
  Ok {| cr_program := prg; cr_message := cvr_Message rule |}.

Definition compileValidationRules (env : CelEnv) (rules : list ClaimValidationRule)
  : result (list compiledRule) :=
  traverse (compileValidationRule env) (imap pair rules).

Definition evaluateValidationRule (claims : gmap string any) (rule : compiledRule)
  : result unit :=
  try! out := map_err (wrapf "evaluating validation rule: %w" [])
                      (cel_Eval (cr_program rule) {[ "claims" := AMap (Some claims) ]}) in
  if negb (bool_decide (val_Type out = BoolType)) then
    Err (errorf "validation rule returned %s, expected bool" [])
  else
  match val_Value out with
  | ABool true => Ok tt
  | ABool false => Err (errorf "claim validation failed: %s" [cr_message rule])
  | _ => Err (GoPanic "interface conversion: not a bool")
  end.

Definition evaluateValidationRules (rules : list compiledRule) (claims : gmap string any)
  : result unit :=
  try! _ := traverse (evaluateValidationRule claims) rules in Ok tt.

(** [None] is the nil program of a simple claim reference. *)
Definition compileSubjectMapping (env : CelEnv) (mapping : ClaimOrExpression)
  : result (option CelProgram) :=
  if bool_decide (coe_Expression mapping = "") then Ok None else
  try! ast := map_err (wrapf "compiling subject mapping expression %q: %w"
                             [coe_Expression mapping])
                      (cel_Compile env (coe_Expression mapping)) in
  let outType := cel_OutputType ast in
  if negb (bool_decide (outType = StringType)) && negb (bool_decide (outType = DynType)) then
    Err (errorf "subject mapping expression %q must return string, got %s"
                [coe_Expression mapping])
  else
  try! prg := map_err (wrapf "creating program for subject mapping: %w" [])
                      (cel_Program env ast) in
  Ok (Some prg).

Definition evaluateSubjectMapping (mapping : ClaimOrExpression) (program : option CelProgram)
    (claims : gmap string any) : result string :=
  if negb (bool_decide (coe_Claim mapping = "")) then
    match claims !! coe_Claim mapping with
    | None => Err (errorf "subject claim %q not found in token" [coe_Claim mapping])
    | Some (AString s) => Ok s
    | Some _ => Err (errorf "subject claim %q is not a string" [coe_Claim mapping])
    end
  else
  match program with
  | None => Err (errorf "no subject mapping configured" [])
  | Some prg =>
    try! out := map_err (wrapf "evaluating subject mapping: %w" [])
                        (cel_Eval prg {[ "claims" := AMap (Some claims) ]}) in
    match val_Value out with
    | AString s => Ok s
    | _ => Err (GoPanic "interface conversion: not a string")
    end
  end.

Definition compileExtraMapping (env : CelEnv) (im : nat * ExtraMapping)
  : result compiledMapping :=
  let '(i, m) := im in
  try! ast := map_err (wrapf "compiling extra mapping %d (%q): %w"
                             [pretty i; em_ValueExpression m])
                      (cel_Compile env (em_ValueExpression m)) in
  try! prg := map_err (wrapf "creating program for extra mapping %d: %w" [pretty i])
                      (cel_Program env ast) in
  Ok {| cmp_program := prg; cmp_key := em_Key m |}.

Definition compileExtraMappings (env : CelEnv) (mappings : list ExtraMapping)
  : result (list compiledMapping) :=
  traverse (compileExtraMapping env) (imap pair mappings).

Definition refValueToString (v : CelVal) : result string :=
  if bool_decide (val_Type v = StringType) then
    match val_Value v with
    | AString s => Ok s
    | _ => Err (GoPanic "interface conversion: not a string")
    end
  else Ok (cel_Sprint v).

Fixpoint evaluateExtraLoop (mappings : list compiledMapping) (claims : gmap string any)
    (extra : gmap string string) : result (gmap string string) :=
  match mappings with
  | [] => Ok extra
  | m :: mappings =>
    try! out := map_err (wrapf "evaluating extra mapping %q: %w" [cmp_key m])
                        (cel_Eval (cmp_program m) {[ "claims" := AMap (Some claims) ]}) in
    try! s := refValueToString out in
    evaluateExtraLoop mappings claims (<[cmp_key m := s]> extra)
  end.

Definition evaluateExtraMappings (mappings : list compiledMapping) (claims : gmap string any)
  : result (option (gmap string string)) :=
  if bool_decide (length mappings = 0) then Ok None else
  try! extra := evaluateExtraLoop mappings claims ∅ in Ok (Some extra).
End cel.

(** ** OIDC (oidc.go) *)

(** [jwkToRSAPublicKey]. *)
Definition jwkToRSAPublicKey (k : PublicKey) : result RsaPublicKey :=
  try! nBytes := map_err (wrapf "decoding modulus: %w" []) (DecodeString (pk_N k)) in
  try! eBytes := map_err (wrapf "decoding exponent: %w" []) (DecodeString (pk_E k)) in
  Ok {| N := SetBytes nBytes; E := wrap64 (SetBytes eBytes) |}.

(** The loop of [fetchJWKS]: RSA signing keys are added to the cache, entries
    that do not decode are skipped. *)
Definition cacheKey (keys : gmap string RsaPublicKey) (k : PublicKey) : gmap string RsaPublicKey :=
  if negb (bool_decide (Kty k = "RSA")) || negb (bool_decide (Use k = "sig")) then keys else
  match jwkToRSAPublicKey k with
  | Ok pub => <[Kid k := pub]> keys
  | Err _ => keys
  end.

Section oidc.
Context `{CEL, Crypto, !JWT, Documents}.

Record OIDCAuthenticator := {
  config : AuthenticatorConfig;
  issuerURL : string;
  discoveryURL : string;
  audiences : gset string;
  matchAny : bool;
  validationRules : list compiledRule;
  subjectProgram : option CelProgram;
  extraMappings : list compiledMapping;
  jwksURL : string;
  keys : gmap string RsaPublicKey;
}.

Definition set_jwksURL (a : OIDCAuthenticator) (url : string) : OIDCAuthenticator :=
  {| config := config a; issuerURL := issuerURL a; discoveryURL := discoveryURL a;
     audiences := audiences a; matchAny := matchAny a; validationRules := validationRules a;
     subjectProgram := subjectProgram a; extraMappings := extraMappings a;
     jwksURL := url; keys := keys a |}.

Definition set_keys (a : OIDCAuthenticator) (ks : gmap string RsaPublicKey) : OIDCAuthenticator :=
  {| config := config a; issuerURL := issuerURL a; discoveryURL := discoveryURL a;
     audiences := audiences a; matchAny := matchAny a; validationRules := validationRules a;
     subjectProgram := subjectProgram a; extraMappings := extraMappings a;
     jwksURL := jwksURL a; keys := ks |}.

Definition NewOIDCAuthenticator (config : AuthenticatorConfig) : result OIDCAuthenticator :=
  try! env := map_err (wrapf "creating CEL environment: %w" []) newCELEnv in
  try! rules := map_err (wrapf "compiling validation rules: %w" [])
                        (compileValidationRules env (ac_ClaimValidationRules config)) in
  try! subj := map_err (wrapf "compiling subject mapping: %w" [])
                       (compileSubjectMapping env (cm_Subject (ac_ClaimMappings config))) in
  try! extra := map_err (wrapf "compiling extra mappings: %w" [])
                        (compileExtraMappings env (cm_Extra (ac_ClaimMappings config))) in
  let iss := ac_Issuer config in
  let disco := if bool_decide (DiscoveryURL iss = "")
               then TrimSuffix (URL iss) "/" +:+ "/.well-known/openid-configuration"
               else DiscoveryURL iss in
  Ok {| config := config; issuerURL := URL iss; discoveryURL := disco;
        audiences := list_to_set (Audiences iss);
        matchAny := bool_decide (AudienceMatchPolicy iss = "MatchAny")
                    || bool_decide (length (Audiences iss) = 1);
        validationRules := rules; subjectProgram := subj; extraMappings := extra;
        jwksURL := ""; keys := ∅ |}.

Definition OIDC_Matches (a : OIDCAuthenticator) (issuer : string) : bool :=
  bool_decide (issuer = issuerURL a).

Definition discoverJWKSURL (net : Network) (a : OIDCAuthenticator) : result string :=
  try! resp := map_err (wrapf "fetching OIDC discovery from %s: %w" [discoveryURL a])
                       (net (discoveryURL a)) in
  if negb (bool_decide (StatusCode resp = 200%Z)) then
    Err (errorf "OIDC discovery endpoint returned status %d" [pretty (StatusCode resp)])
  else
  try! (issuer, uri) := map_err (wrapf "decoding OIDC discovery: %w" [])
                                (decode_Discovery (Body resp)) in
  if negb (bool_decide (issuer = issuerURL a)) then
    Err (errorf "OIDC discovery issuer %q does not match configured issuer %q"
                [issuer; issuerURL a])
  else
  if bool_decide (uri = "") then Err (errorf "OIDC discovery document has no jwks_uri" [])
  else Ok uri.

Definition fetchJWKS (net : Network) (a : OIDCAuthenticator) : option error * OIDCAuthenticator :=
  match (if bool_decide (jwksURL a = "") then discoverJWKSURL net a else Ok (jwksURL a)) with
  | Err e => (Some e, a)
  | Ok url =>
    let a := if bool_decide (jwksURL a = "") then set_jwksURL a url else a in
    match net url with
    | Err e => (Some (wrapf "fetching JWKS from %s: %w" [url] e), a)
    | Ok resp =>
      if negb (bool_decide (StatusCode resp = 200%Z)) then
        (Some (errorf "JWKS endpoint returned status %d" [pretty (StatusCode resp)]), a)
      else
      match decode_JWKS (Body resp) with
      | Err e => (Some (wrapf "decoding JWKS: %w" [] e), a)
      | Ok jwks => (None, set_keys a (fold_left cacheKey jwks (keys a)))
      end
    end
  end.

Definition OIDC_keyFunc (net : Network) : Keyfunc OIDCAuthenticator := λ token a,
  if negb (jwt_RSA token) then (Err (errorf "unexpected signing method: %v" []), a) else
  match as_string (jwt_Header token !! "kid") with
  | None => (Err (errorf "missing kid in token header" []), a)
  | Some kid =>
    match keys a !! kid with
    | Some key => (Ok key, a)
    | None =>
      match fetchJWKS net a with
      | (Some e, a) => (Err (wrapf "fetching JWKS: %w" [] e), a)
      | (None, a) =>
        match keys a !! kid with
        | Some key => (Ok key, a)
        | None => (Err (errorf "key %q not found in JWKS" [kid]), a)
        end
      end
    end
  end.

Definition validateAudience (a : OIDCAuthenticator) (claims : gmap string any) : result unit :=
  try! aud := map_err (wrapf "getting audience: %w" []) (jwt_GetAudience claims) in
  if existsb (λ tokenAud, bool_decide (tokenAud ∈ audiences a)) aud then Ok tt else
  Err (errorf "token audience %v does not match any configured audience" aud).

(** What [Authenticate] does with the verified claims. *)
Definition subjectOf (a : OIDCAuthenticator) (claims : gmap string any) : result SubjectInfo :=
  try! _ := validateAudience a claims in
  try! _ := evaluateValidationRules (validationRules a) claims in
  try! subject := map_err (wrapf "extracting subject: %w" [])
                    (evaluateSubjectMapping (cm_Subject (ac_ClaimMappings (config a)))
                                            (subjectProgram a) claims) in
  try! extra := map_err (wrapf "extracting extra mappings: %w" [])
                        (evaluateExtraMappings (extraMappings a) claims) in
  Ok {| si_Subject := subject; si_Extra := extra |}.

Definition OIDC_Authenticate (net : Network) (now : Z) (a : OIDCAuthenticator)
    (tokenString : string) : result SubjectInfo * OIDCAuthenticator :=
  let '(r, a) := jwt_Parse (WithIssuer (issuerURL a)) now tokenString (OIDC_keyFunc net) a in
  match map_err (wrapf "parsing/verifying token: %w" []) r with
  | Err e => (Err e, a)
  | Ok token =>
    match jwt_MapClaims token with
    | None => (Err (errorf "unexpected claims type" []), a)
    | Some claims => (subjectOf a claims, a)
    end
  end.

Definition SetJWKSURL (a : OIDCAuthenticator) (url : string) : OIDCAuthenticator :=
  set_jwksURL a url.

Definition OIDC_Authenticator (net : Network) : Authenticator OIDCAuthenticator :=
  {| Matches := OIDC_Matches; Authenticate := OIDC_Authenticate net |}.
End oidc.

(** ** Lemmas *)

Section router_lemmas.
Context `{JSON} {A : Type} `{!Authenticator A}.

Lemma route_first now iss tok (l1 : list A) auth l2 :
  (∀ b, b ∈ l1 → Matches b iss = false) → Matches auth iss = true →
  route now iss tok (l1 ++ auth :: l2) =
  let '(r, auth') := Authenticate now auth tok in (r, l1 ++ auth' :: l2).
Proof.
  intros Hl1 Hauth. induction l1 as [|b l1 IH]; simpl.
  { by rewrite Hauth. }
  rewrite Hl1 by set_solver. rewrite IH by set_solver.
  by destruct (Authenticate now auth tok).
Qed.

Lemma route_none now iss tok (l : list A) :
  (∀ b, b ∈ l → Matches b iss = false) →
  route now iss tok l = (Err (errorf "no authenticator found for issuer %q" [iss]), l).
Proof.
  induction l as [|b l IH]; intros Hl; simpl; [done|].
  rewrite Hl by set_solver. by rewrite IH by set_solver.
Qed.

Lemma route_ok now iss tok (l : list A) info l' :
  route now iss tok l = (Ok info, l') →
  ∃ l1 auth l2 auth', l = l1 ++ auth :: l2 ∧ (∀ b, b ∈ l1 → Matches b iss = false) ∧
    Matches auth iss = true ∧ Authenticate now auth tok = (Ok info, auth') ∧
    l' = l1 ++ auth' :: l2.
Proof.
  revert l'. induction l as [|a l IH]; intros l'; simpl; [done|].
  destruct (Matches a iss) eqn:Hm.
  - destruct (Authenticate now a tok) as [r a'] eqn:Ha. intros [= -> <-].
    exists [], a, l, a'. split_and!; [done|by intros ? ?%elem_of_nil|done..].
  - destruct (route now iss tok l) as [r l0] eqn:Hr. intros [= -> <-].
    destruct (IH _ eq_refl) as (l1 & b & l2 & b' & -> & Hno & Hb & Hau & ->).
    exists (a :: l1), b, l2, b'. split_and!; try done.
    intros x [->|Hx]%elem_of_cons; [done|by apply Hno].
Qed.
End router_lemmas.

(** A token that does not have three dot-separated parts has no issuer. *)
Lemma extractIssuer_parts `{JSON} tok :
  length (SplitByte tok ".") ≠ 3 → is_ok (extractIssuer tok) = false.
Proof.
  unfold extractIssuer. by destruct (SplitByte tok ".") as [|?[|?[|?[|??]]]].
Qed.

Lemma cacheKey_dom ks k : dom ks ⊆ dom (cacheKey ks k).
Proof.
  unfold cacheKey. destruct (_ || _); [done|].
  destruct (jwkToRSAPublicKey k); [|done]. rewrite dom_insert. set_solver.
Qed.

Lemma cacheKeys_dom l ks : dom ks ⊆ dom (fold_left cacheKey l ks).
Proof.
  revert ks. induction l as [|k l IH]; intros ks; simpl; [done|].
  etrans; [apply cacheKey_dom|apply IH].
Qed.

Section oidc_lemmas.
Context `{CEL, JSON, Crypto, !JWT, !JWTLaws _, Documents}.

(** [same_rules a a']: what [a] checks and maps is unchanged in [a']. *)
Definition same_rules (a a' : OIDCAuthenticator) : Prop :=
  config a' = config a ∧ issuerURL a' = issuerURL a ∧ audiences a' = audiences a ∧
  validationRules a' = validationRules a ∧ subjectProgram a' = subjectProgram a ∧
  extraMappings a' = extraMappings a.

Lemma fetchJWKS_state net a :
  same_rules a (fetchJWKS net a).2 ∧ dom (keys a) ⊆ dom (keys (fetchJWKS net a).2).
Proof.
  unfold fetchJWKS, same_rules.
  repeat (split_match; simpl; try by (split_and!; set_solver)).
  all: split; [done|apply cacheKeys_dom].
Qed.

Lemma OIDC_keyFunc_spec net tok a r a' :
  OIDC_keyFunc net tok a = (r, a') →
  same_rules a a' ∧ dom (keys a) ⊆ dom (keys a') ∧
  ∀ key, r = Ok key →
    jwt_RSA tok = true ∧
    ∃ kid, as_string (jwt_Header tok !! "kid") = Some kid ∧ keys a' !! kid = Some key.
Proof.
  unfold OIDC_keyFunc. destruct (fetchJWKS_state net a) as [Hs Hd].
  assert (same_rules a a) by done.
  destruct (jwt_RSA tok) eqn:HR; simpl; [|by intros [= <- <-]].
  destruct (as_string _) as [kid|]; [|by intros [= <- <-]].
  destruct (keys a !! kid) as [k|] eqn:Hk.
  { intros [= <- <-]. split_and!; [done..|]. intros key [= <-]. eauto. }
  destruct (fetchJWKS net a) as [[e|] a1]; simpl in *; [by intros [= <- <-]|].
  destruct (keys a1 !! kid) as [k|] eqn:Hk1; intros [= <- <-]; split_and!; [done..| |done|done|done].
  intros key [= <-]. eauto.
Qed.

Definition validation_holds (claims : gmap string any) (rule : compiledRule) : Prop :=
  cel_Eval (cr_program rule) {[ "claims" := AMap (Some claims) ]} =
  Ok {| val_Type := BoolType; val_Value := ABool true |}.

Lemma evaluateValidationRules_ok rules claims :
  evaluateValidationRules rules claims = Ok tt ↔
  ∀ rule, rule ∈ rules → validation_holds claims rule.
Proof.
  assert (∀ rule, is_ok (evaluateValidationRule claims rule) = true ↔
                  validation_holds claims rule) as Hr.
  { intros rule. unfold evaluateValidationRule, validation_holds.
    destruct (cel_Eval _ _) as [[ty v]|e]; simpl; [|naive_solver].
    case_bool_decide; simpl; [|naive_solver]. destruct v as [|[]| | | | |]; naive_solver. }
  setoid_rewrite <-Hr. rewrite <-traverse_is_ok. unfold evaluateValidationRules.
  by destruct (traverse _ _).
Qed.

Lemma subjectOf_ok a claims info :
  subjectOf a claims = Ok info →
  (∃ aud x, jwt_GetAudience claims = Ok aud ∧ x ∈ aud ∧ x ∈ audiences a) ∧
  (∀ rule, rule ∈ validationRules a → validation_holds claims rule) ∧
  evaluateSubjectMapping (cm_Subject (ac_ClaimMappings (config a))) (subjectProgram a) claims
    = Ok (si_Subject info).
Proof.
  unfold subjectOf. intros HH.
  destruct (validateAudience a claims) as [[]|] eqn:Haud; [|done].
  destruct (evaluateValidationRules _ _) as [[]|] eqn:Hval; [|done].
  destruct (evaluateSubjectMapping _ _ _) as [s|] eqn:Hsub; [|done]. cbn [map_err] in HH.
  destruct (evaluateExtraMappings _ _) as [x|] eqn:Hext; [|done]. cbn [map_err] in HH.
  simplify_eq. split_and!; [|by apply evaluateValidationRules_ok|done].
  unfold validateAudience in Haud. destruct (jwt_GetAudience claims) as [aud|]; [|done].
  cbn [map_err] in Haud. destruct (existsb _ aud) eqn:Hex; [|done].
  apply existsb_elem in Hex as (y & Hy & Hb%bool_decide_eq_true). by exists aud, y.
Qed.
End oidc_lemmas.
