(* ===== verification/Instances.v ===== *)
(** * Concrete libraries

    Small executable stand-ins for the external libraries, with the laws the
    theorems assume: a CEL engine for the constants [true] and [false], a JSON
    codec that turns integers into floats, keys that are their own public half,
    and a JWT library that knows a given list of signed tokens.  They show that
    the hypotheses can hold, and evaluate the examples. *)

From S2P Require Import Prelude GoStrings GoValue GoTime External Token Keys Fetch LocalVerifier.

Local Open Scope Z_scope.

#[export] Instance toyUnicode : Unicode :=
  {| unicode_to_lower s := s; unicode_equal_fold s t := bool_decide (s = t) |}.

#[export] Instance toyCEL : CEL :=
  {| CelEnv := unit; CelAst := string; CelProgram := string;
     cel_NewEnv _ := Ok tt;
     cel_Compile _ s :=
       if bool_decide (s = "true") || bool_decide (s = "false") || bool_decide (s = "1")
       then Ok s else Err (errorf "syntax error" [s]);
     cel_OutputType a := if bool_decide (a = "1") then OtherType "int" else BoolType;
     cel_Program _ a := Ok a;
     cel_Eval p _ := Ok {| val_Type := BoolType; val_Value := ABool (bool_decide (p = "true")) |};
     cel_Sprint _ := "" |}.

Definition toy_norm (v : any) : any :=
  match v with AInt64 z => AFloat64 (float64_of_Z z) | _ => v end.

(** The maps it can print, with their texts. *)
Definition toy_maps : list (string * gmap string any) :=
  [("{}", ∅);
   ("{action:analyze}", {[ "action" := AString "analyze"; "datasetId" := AString "ds-1234" ]});
   ("{req_ip:10.0.0.1}", {[ "req_ip" := AString "10.0.0.1"; "authn" := AString "oidc" ]})].

#[export] Instance toyJSON : JSON :=
  {| json_UnmarshalMap s :=
       if bool_decide (s = "null") then Ok None else
       match find (λ p, bool_decide (p.1 = s)) toy_maps with
       | Some (_, m) => Ok (Some m)
       | None => Err (errorf "invalid character" [])
       end;
     json_UnmarshalIss _ := Ok "https://idp";
     json_Marshal v := match v with
                       | AMap (Some m) =>
                         match find (λ p, bool_decide (p.2 = m)) toy_maps with
                         | Some (s, _) => Ok s
                         | None => Err (errorf "unsupported value" [])
                         end
                       | _ => Err (errorf "unsupported value" [])
                       end;
     json_norm := toy_norm |}.

#[export] Instance toyJSONLaws : JSONLaws toyJSON.
Proof.
  split; try done; try (by intros []); eauto. intros m s. cbn -[toy_maps].
  destruct (find _ toy_maps) as [[s' m']|] eqn:Hf; [|done]. intros [= ->].
  apply find_some in Hf as [Hin Hm%bool_decide_eq_true]. simpl in Hm. subst m'.
  destruct Hin as [Hin|[Hin|[Hin|[]]]]; injection Hin as <- <-; (split; [done|]); eexists; by split.
Qed.

#[export] Instance toyCrypto : Crypto :=
  {| RsaPrivateKey := RsaPublicKey; private_PublicKey k := k;
     sha256_Sum256 l := take 32 (l ++ replicate 32 0) |}.

Definition toy_key : RsaPublicKey := {| N := 3233; E := 17 |}.
Definition toy_key2 : RsaPublicKey := {| N := 3127; E := 3 |}.

Section toyJWT.
(** The signed tokens, each with its serialisation. *)
Context (table : list (string * JwtToken)).

Definition toy_entry (s : string) : option JwtToken :=
  snd <$> find (λ p, bool_decide (p.1 = s)) table.

Definition toy_valid (o : ParserOption) (now : Z) (m : gmap string any) : bool :=
  match o with
  | WithAudience a => bool_decide (m !! "aud" = Some (AString a))
  | WithIssuer i => bool_decide (m !! "iss" = Some (AString i))
  end &&
  match m !! "exp" with
  | Some (AFloat64 f) => match float64_trunc f with Some e => now <? e * Second | None => false end
  | _ => true
  end.

Definition toy_Parse {S : Type} (o : ParserOption) (now : Z) (s : string) (kf : Keyfunc S) (st : S)
  : result JwtToken * S :=
  match (if bool_decide (s = "") then None else toy_entry s) with
  | None => (Err (errorf "token is malformed" []), st)
  | Some t =>
    let t := json_token t in
    match kf t st with
    | (Err e, st) => (Err (wrapf "token is unverifiable" [] e), st)
    | (Ok k, st) =>
      if negb (bool_decide (k = toy_key)) then (Err (errorf "signature is invalid" []), st) else
      match jwt_MapClaims t with
      | Some m => if toy_valid o now m then (Ok t, st)
                  else (Err (errorf "token has invalid claims" []), st)
      | None => (Err (errorf "token has invalid claims" []), st)
      end
    end
  end.

Definition toy_Sign (t : JwtToken) (k : RsaPublicKey) : result string :=
  match find (λ p, bool_decide (p.2 = t) && negb (bool_decide (p.1 = ""))) table with
  | Some (s, _) =>
    if bool_decide (k = toy_key) && bool_decide (toy_entry s = Some t) then Ok s
    else Err (errorf "invalid key" [])
  | None => Err (errorf "invalid key" [])
  end.

Definition toyJWT : JWT :=
  {| jwt_NewWithClaims m := {| jwt_Header := {[ "alg" := AString "RS256" ]};
                               jwt_MapClaims := Some m; jwt_RSA := true |};
     jwt_SignedString := toy_Sign;
     jwt_Parse := @toy_Parse;
     jwt_GetAudience m := match m !! "aud" with
                          | Some (AString a) => Ok [a]
                          | _ => Err (errorf "invalid audience" [])
                          end |}.

Definition toy_signed (s : string) (t : JwtToken) (k : RsaPublicKey) : Prop :=
  s ≠ "" ∧ k = toy_key ∧ ∃ t0, toy_entry s = Some t0 ∧ t = json_token t0.

Lemma toy_norm_idem (m : gmap string any) : toy_norm <$> (toy_norm <$> m) = toy_norm <$> m.
Proof. apply map_eq. intros k. rewrite !lookup_fmap. by destruct (m !! k) as [[]|]. Qed.

Lemma json_token_idem (t : JwtToken) : json_token (json_token t) = json_token t.
Proof.
  destruct t as [h [m|] b]; unfold json_token; simpl; by rewrite !toy_norm_idem.
Qed.

Lemma toy_valid_exp o now m f e :
  toy_valid o now m = true → m !! "exp" = Some (AFloat64 f) → float64_trunc f = Some e →
  now < e * Second.
Proof.
  unfold toy_valid. intros Hv Hm He. rewrite Hm, He in Hv. apply andb_true_iff in Hv as [_ Hv]. lia.
Qed.

Definition toyJWTLaws : JWTLaws toyJWT.
Proof.
  refine {| jwt_signed := toy_signed; jwt_valid o now m := toy_valid o now m = true |}.
  - intros S o now s kf st t st'. simpl. unfold toy_Parse, toy_signed.
    case_bool_decide; [done|]. destruct (toy_entry s) as [t0|]; [|done].
    destruct (kf _ _) as [[k|] st1] eqn:Hk; [|done]. case_bool_decide as Hkey; [|done]. simpl.
    destruct (_ <$> _) as [m|] eqn:Hm; [|done]. destruct (toy_valid _ _ _) eqn:Hv; [|done].
    intros [= <- <-]. eexists k, m. split_and!; [by rewrite Hk|done|done|eauto|done|done].
  - intros S o now s kf st t st' k m Hk (Hs & -> & t0 & He & ->) Hm Hv.
    simpl. unfold toy_Parse. rewrite bool_decide_false, He, Hk, Hm, Hv by done. done.
  - intros t m k s _ _ _. simpl. unfold toy_Sign, toy_signed.
    destruct (find _ _) as [[s' t']|] eqn:Hf; [|done]. destruct (_ && _) eqn:Hb; [|done].
    intros [= ->]. bool_to_prop. apply find_some in Hf as [_ Hf]. bool_to_prop. eauto.
  - intros s t t' k k' (_ & _ & t0 & He & ->) (_ & _ & t0' & He' & ->). congruence.
  - intros s t k (_ & _ & t0 & _ & ->). apply json_token_idem.
  - by intros s t k [? _].
  - intros m. split_and!; [done..|]. by apply map_Forall_singleton.
  - intros a now m f e _ Ha He Ht Hn _. unfold toy_valid.
    rewrite Ha, He, Ht. rewrite bool_decide_true by done. simpl. lia.
  - intros i now m f e Hi He Ht Hn _. unfold toy_valid.
    rewrite Hi, He, Ht. rewrite bool_decide_true by done. simpl. lia.
  - intros m a Ha. simpl. by rewrite Ha.
  - intros a b now m Hv Hb. unfold toy_valid in Hv. rewrite Hb in Hv. bool_to_prop. congruence.
  - intros a b now m _ Hv Hb. unfold toy_valid in Hv. rewrite Hb in Hv. bool_to_prop. congruence.
  - intros. by eapply toy_valid_exp.
  - intros S o now s kf st. simpl. unfold toy_Parse. case_bool_decide; [by left|].
    destruct (toy_entry s) as [t0|]; [|by left]. right. exists (json_token t0).
    destruct (kf _ _) as [[k|] st1]; [|done]. case_bool_decide; [|done]. simpl.
    destruct (_ <$> _); [|done]. by destruct (toy_valid _ _ _).
Defined.
End toyJWT.
