(* ===== verification/AuthnProps.v ===== *)
(** * pkg/authn: what an accepted subject token shows *)

From S2P Require Import Prelude GoStrings GoValue GoTime Base64 External Keys Fetch Authn Instances.

Local Open Scope Z_scope.

Section oidc_props.
Context `{CEL, JSON, Crypto, !JWT, !JWTLaws _, Documents}.

(** C14.  An OIDC subject is vouched for: when an authenticator accepts a token,
    the token carries an RSA signature made with the key its [kid] names in the
    (possibly refreshed) key cache, its registered claims were valid for the
    configured issuer, one of its audiences is configured, every claim
    validation rule evaluated to true, and the subject is what the claim mapping
    gives; the cache only grew. *)
Theorem oidc_subject_vouched net now a tok info a' :
  OIDC_Authenticate net now a tok = (Ok info, a') →
  ∃ t mc kid key aud x,
    jwt_signed tok t key ∧ jwt_RSA t = true ∧
    as_string (jwt_Header t !! "kid") = Some kid ∧ keys a' !! kid = Some key ∧
    jwt_MapClaims t = Some mc ∧ jwt_valid (WithIssuer (issuerURL a)) now mc ∧
    jwt_GetAudience mc = Ok aud ∧ x ∈ aud ∧ x ∈ audiences a ∧
    (∀ rule, rule ∈ validationRules a → validation_holds mc rule) ∧
    evaluateSubjectMapping (cm_Subject (ac_ClaimMappings (config a))) (subjectProgram a) mc
      = Ok (si_Subject info) ∧
    dom (keys a) ⊆ dom (keys a').
Proof.
  unfold OIDC_Authenticate. intros HA.
  destruct (jwt_Parse _ _ _ _ _) as [[t|e] a1] eqn:HP; cbn [map_err] in HA; [|done].
  destruct (jwt_MapClaims t) as [mc|] eqn:Hmc; [|done]. injection HA as Hsub <-.
  apply jwt_Parse_sound in HP as (key & m & Hk & Hsig & Hm & Hval). simplify_eq.
  apply OIDC_keyFunc_spec in Hk as ((Hc & Hi & Ha & Hv & Hp & He) & Hdom & Hkey).
  destruct (Hkey key eq_refl) as (HR & kid & Hkid & Hlook).
  apply subjectOf_ok in Hsub as ((aud & x & Haud & Hx & Hxa) & Hrules & Hmap).
  rewrite Ha in Hxa. rewrite Hv in Hrules. rewrite Hc, Hp in Hmap.
  exists t, m, kid, key, aud, x. done.
Qed.
End oidc_props.

(** C35.  The JWKS document is lossless: a public key written as a JWK by the key
    manager is read back as the same key by the manager's own decoder and by the
    OIDC authenticator's. *)
Theorem jwk_roundtrip `{Crypto} e :
  key_in_range (private_PublicKey (privateKey e)) →
  RSAPublicKey (newPublicKey e) = Ok (private_PublicKey (privateKey e)) ∧
  jwkToRSAPublicKey (newPublicKey e) = Ok (private_PublicKey (privateKey e)).
Proof. intros Hr. split; exact (RSAPublicKey_newPublicKey e Hr). Qed.

Module OIDCExample.
Definition entry : keyEntry := {| privateKey := toy_key : RsaPrivateKey; kid := "k1" |}.

#[export] Instance docs : Documents :=
  {| decode_JWKS _ := Ok [newPublicKey entry];
     decode_Discovery _ := Ok ("https://idp", "https://idp/jwks") |}.

Definition net : Network := λ url,
  if bool_decide (url = "https://idp/jwks")
     || bool_decide (url = "https://idp/.well-known/openid-configuration")
  then Ok {| StatusCode := 200; Body := "" |} else Err (errorf "no such host" []).

Definition cfg : AuthenticatorConfig :=
  {| ac_Issuer := {| URL := "https://idp"; DiscoveryURL := ""; Audiences := ["kontxt"];
                     AudienceMatchPolicy := "" |};
     ac_ClaimValidationRules := [{| cvr_Expression := "true"; cvr_Message := "" |}];
     ac_ClaimMappings := {| cm_Subject := {| coe_Claim := "sub"; coe_Expression := "" |};
                            cm_Extra := [] |} |}.

Definition auth : OIDCAuthenticator :=
  {| config := cfg; issuerURL := "https://idp";
     discoveryURL := "https://idp/.well-known/openid-configuration";
     audiences := {[ "kontxt" ]}; matchAny := true;
     validationRules := [{| cr_program := "true" : CelProgram; cr_message := "" |}];
     subjectProgram := None; extraMappings := []; jwksURL := ""; keys := ∅ |}.

Example auth_new : NewOIDCAuthenticator cfg = Ok auth.
Proof. vm_compute. reflexivity. Qed.

Definition token : JwtToken :=
  {| jwt_Header := {[ "kid" := AString "k1" ]};
     jwt_MapClaims := Some {[ "iss" := AString "https://idp"; "aud" := AString "kontxt";
                              "sub" := AString "alice" ]};
     jwt_RSA := true |}.

#[export] Instance jwt : JWT := toyJWT [("h.p.s", token)].
#[export] Instance jwt_laws : JWTLaws jwt := toyJWTLaws [("h.p.s", token)].

Definition accepted : OIDCAuthenticator :=
  set_keys (set_jwksURL auth "https://idp/jwks") {[ "k1" := toy_key ]}.

Lemma oidc_subject_vouched_witness :
  ∃ kid key, keys accepted !! kid = Some key.
Proof.
  destruct (oidc_subject_vouched net 0 auth "h.p.s" {| si_Subject := "alice"; si_Extra := None |}
    accepted) as (t & mc & kid & key & aud & x & _ & _ & _ & Hk & _);
    [vm_compute; reflexivity|]. exists kid, key. exact Hk.
Defined.

Lemma jwk_roundtrip_witness :
  RSAPublicKey (newPublicKey entry) = Ok toy_key ∧
  jwkToRSAPublicKey (newPublicKey entry) = Ok toy_key.
Proof. apply (jwk_roundtrip entry). split; vm_compute; [discriminate|split; discriminate]. Defined.
End OIDCExample.
