(* ===== verification/TTSHandler.v ===== *)
(** * pkg/tts/handler.go: the RFC 8693 token exchange endpoint

    [ServeHTTP] is the whole handler: it parses the form, dispatches between
    issuance and replacement, evaluates the issuance rules and signs the token.
    It takes the handler's state and returns the new one (the key caches of the
    authenticators and of the verifier) with the reply; the clock readings and the UUID of a request are
    the record [Env]. *)

From S2P Require Import Prelude GoStrings GoValue GoTime External Token Keys Issuance Authn.

Local Open Scope Z_scope.

(** ** Requests and replies *)

(** An incoming [*http.Request]: [req_Form] is what [ParseForm] gives. *)
Record Request := {
  req_Method : string;
  req_Form : result (gmap string (list string));
  req_Header : Header;
}.

Record TokenExchangeRequest := {
  ter_GrantType : string; ter_SubjectToken : string; ter_SubjectTokenType : string;
  ter_RequestedTokenType : string; ter_Audience : string; ter_Scope : string;
  ter_RequestDetails : gomap; ter_RequestContext : gomap;
}.

Record TokenExchangeResponse := {
  AccessToken : string; IssuedTokenType : string; TokenType : string;
}.

(** The body of a reply; an [ErrorResponse] keeps its description as the error
    it is the text of. *)
Inductive ReplyBody : Type :=
  | TokenBody (resp : TokenExchangeResponse)
  | ErrorBody (code : string) (description : error).

Record Reply := { reply_Status : Z; reply_Header : Header; reply_Body : ReplyBody }.

(** The inputs of one request: the clock when the subject token is checked, the
    clock when the new token is made, and the UUID drawn for it. *)
Record Env := { env_VerifyTime : Z; env_SignTime : Z; env_UUID : string }.

(** The interface [tts.TokenVerifier].  The TTS's own verifier reads the live key
    manager, so [Verify] is given its state; it returns the verifier's new state
    (a JWKS cache). *)
Class TokenVerifier (V : Type) `{Crypto} := {
  VerifyToken : Manager → Z → V → string → result Claims * V;
}.

(** ** Helpers *)

Definition writeError (status : Z) (errCode : string) (description : error) : Reply :=
  {| reply_Status := status;
     reply_Header := Header_Set ∅ "Content-Type" "application/json";
     reply_Body := ErrorBody errCode description |}.

Definition identifyWorkload (r : Request) : string :=
  let wl := Header_Get (req_Header r) "X-Kontxt-Workload" in
  if negb (bool_decide (wl = "")) then wl else
  let auth := Header_Get (req_Header r) "Authorization" in
  if HasPrefix auth "Bearer " then "authenticated-workload" else "unknown".

(** [existingScopes] is the set of fields of [existing]. *)
Definition isScopeSubset (requested existing : string) : bool :=
  let existingScopes : gset string := list_to_set (Fields existing) in
  forallb (λ s, bool_decide (s ∈ existingScopes)) (Fields requested).

Definition parseOptionalJSON `{JSON} (text format : string) : result gomap :=
  if bool_decide (text = "") then Ok None else
  map_err (wrapf format []) (json_UnmarshalMap text).

Definition parseRequest `{JSON} (form : gmap string (list string)) : result TokenExchangeRequest :=
  let grantType := FormValue form "grant_type" in
  if negb (bool_decide (grantType = GrantType)) then
    Err (errorf "unsupported grant_type: %s" [grantType]) else
  let subjectToken := FormValue form "subject_token" in
  if bool_decide (subjectToken = "") then Err (errorf "subject_token is required" []) else
  let subjectTokenType := FormValue form "subject_token_type" in
  if bool_decide (subjectTokenType = "") then
    Err (errorf "subject_token_type is required" []) else
  let requestedTokenType := FormValue form "requested_token_type" in
  if negb (bool_decide (requestedTokenType = RequestedTokenType)) then
    Err (errorf "unsupported requested_token_type: %s" [requestedTokenType]) else
  let scope := FormValue form "scope" in
  if bool_decide (scope = "") then Err (errorf "scope is required" []) else
  try! details := parseOptionalJSON (FormValue form "request_details")
                                    "invalid request_details JSON: %w" in
  try! rctx := parseOptionalJSON (FormValue form "request_context")
                                 "invalid request_context JSON: %w" in
  Ok {| ter_GrantType := grantType; ter_SubjectToken := subjectToken;
        ter_SubjectTokenType := subjectTokenType; ter_RequestedTokenType := requestedTokenType;
        ter_Audience := FormValue form "audience"; ter_Scope := scope;
        ter_RequestDetails := details; ter_RequestContext := rctx |}.

(** ** The handler *)

Section handler.
Context `{JSON, CEL, Crypto, !JWT} {A V : Type} `{!Authenticator A, !TokenVerifier V}.

Record Handler := {
  router : list A;
  keyManager : Manager;
  verifier : option V;
  issuer : string;
  trustDomain : string;
  h_lifetime : Z;
  issuanceRules : option (list IssuanceRule);
}.

Definition NewHandler (rt : list A) (km : Manager) (iss td : string) (lt : Z) : Handler :=
  {| router := rt; keyManager := km; verifier := None; issuer := iss; trustDomain := td;
     h_lifetime := lt; issuanceRules := None |}.

Definition SetVerifier (h : Handler) (v : V) : Handler :=
  {| router := router h; keyManager := keyManager h; verifier := Some v; issuer := issuer h;
     trustDomain := trustDomain h; h_lifetime := h_lifetime h; issuanceRules := issuanceRules h |}.

(** The stored slice is a deep copy: later changes of the argument are not
    seen. *)
Definition SetIssuanceRules (h : Handler) (rules : list IssuanceRule) : Handler :=
  {| router := router h; keyManager := keyManager h; verifier := verifier h; issuer := issuer h;
     trustDomain := trustDomain h; h_lifetime := h_lifetime h; issuanceRules := Some rules |}.

Definition loadIssuanceRules (h : Handler) : list IssuanceRule := default [] (issuanceRules h).

Definition set_router (h : Handler) (rt : list A) : Handler :=
  {| router := rt; keyManager := keyManager h; verifier := verifier h; issuer := issuer h;
     trustDomain := trustDomain h; h_lifetime := h_lifetime h; issuanceRules := issuanceRules h |}.

Definition signAndRespond (h : Handler) (env : Env) (claims : Claims) : Reply :=
  let '(signingKey, kid) := SigningKey (keyManager h) in
  match New claims signingKey kid (h_lifetime h) (env_SignTime env) (env_UUID env) with
  | Err _ => writeError 500 "server_error" (errorf "failed to create transaction token" [])
  | Ok txToken =>
    {| reply_Status := 200;
       reply_Header := Header_Set (Header_Set ∅ "Content-Type" "application/json")
                                  "Cache-Control" "no-store";
       reply_Body := TokenBody {| AccessToken := txToken; IssuedTokenType := RequestedTokenType;
                                  TokenType := "N_A" |} |}
  end.

(** The claims of a new token. *)
Definition issuanceClaims (h : Handler) (req : TokenExchangeRequest) (subject workloadID : string)
  : Claims :=
  {| Issuer := issuer h; Audience := trustDomain h; Subject := subject; Scope := ter_Scope req;
     RequestingWorkload := workloadID; TransactionContext := ter_RequestDetails req;
     RequesterContext := ter_RequestContext req;
     TransactionID := ""; IssuedAt := 0; ExpiresAt := 0 |}.

(** The claims of a replacement token. *)
Definition replacementClaims (h : Handler) (req : TokenExchangeRequest) (existing : Claims)
    (workloadID : string) : Claims :=
  {| Issuer := issuer h; Audience := trustDomain h; TransactionID := TransactionID existing;
     Subject := Subject existing; Scope := ter_Scope req; RequestingWorkload := workloadID;
     TransactionContext := TransactionContext existing;
     RequesterContext := RequesterContext existing; IssuedAt := 0; ExpiresAt := 0 |}.

Definition handleReplacement (h : Handler) (env : Env) (r : Request) (req : TokenExchangeRequest)
  : option Reply * Handler :=
  match verifier h with
  | None => (Some (writeError 500 "server_error"
               (errorf "token replacement not configured (no verifier)" [])), h)
  | Some v =>
    let '(verified, v) := VerifyToken (keyManager h) (env_VerifyTime env) v
                                      (ter_SubjectToken req) in
    let h := SetVerifier h v in
    match verified with
    | Err (GoPanic _) => (None, h)
    | Err e => (Some (writeError 401 "invalid_token"
                  (wrapf "existing TxToken verification failed: %v" [] e)), h)
    | Ok existingClaims =>
      if negb (isScopeSubset (ter_Scope req) (Scope existingClaims)) then
        (Some (writeError 403 "invalid_scope"
           (errorf "requested scope %q is not a subset of existing scope %q"
                   [ter_Scope req; Scope existingClaims])), h)
      else
        (Some (signAndRespond h env
                 (replacementClaims h req existingClaims (identifyWorkload r))), h)
    end
  end.

(** The issuance rules' verdict on a request ([workload_ns] is left empty). *)
Definition checkIssuance (h : Handler) (req : TokenExchangeRequest) (subject workloadID : string)
  : result unit :=
  let rules := loadIssuanceRules h in
  if (0 <? length rules)%nat then
    EvaluateIssuanceRules rules
      {| ic_Subject := subject; ic_Scope := ter_Scope req; ic_Tctx := ter_RequestDetails req;
         ic_Rctx := ter_RequestContext req; ic_Workload := workloadID; ic_WorkloadNS := "" |}
  else Ok tt.

(** [None]: the goroutine panicked and no reply is written. *)
Definition ServeHTTP (h : Handler) (env : Env) (r : Request) : option Reply * Handler :=
  if negb (bool_decide (req_Method r = "POST")) then
    (Some (writeError 405 "invalid_request" (errorf "method not allowed" [])), h) else
  match req_Form r with
  | Err _ => (Some (writeError 400 "invalid_request" (errorf "failed to parse form" [])), h)
  | Ok form =>
    match parseRequest form with
    | Err e => (Some (writeError 400 "invalid_request" e), h)
    | Ok req =>
      if bool_decide (ter_SubjectTokenType req = SubjectTokenTypeTxnToken) then
        handleReplacement h env r req else
      let '(auth, rt) := Router_Authenticate (env_VerifyTime env) (router h)
                                             (ter_SubjectToken req) in
      let h := set_router h rt in
      match auth with
      | Err (GoPanic _) => (None, h)
      | Err e => (Some (writeError 401 "invalid_token" e), h)
      | Ok subjectInfo =>
        let workloadID := identifyWorkload r in
        match checkIssuance h req (si_Subject subjectInfo) workloadID with
        | Err (GoPanic _) => (None, h)
        | Err e => (Some (writeError 403 "policy_denied" e), h)
        | Ok _ =>
          (Some (signAndRespond h env
                   (issuanceClaims h req (si_Subject subjectInfo) workloadID)), h)
        end
      end
    end
  end.
End handler.
Arguments Handler {_ _} A V.
