(* ===== verification/TTSProps.v ===== *)
(** * The token exchange endpoint: what a reply shows

    The TTS with its in-process verifier: issuance follows an accepted subject
    token and the issuance rules; replacement never widens the scope and keeps
    the transaction, along any chain of replacements. *)

From S2P Require Import Prelude GoStrings GoValue GoTime External Token Keys Issuance Authn.
From S2P Require Import LocalVerifier TTSHandler Instances.

Local Open Scope Z_scope.

(** ** Scopes as sets *)

Definition scope_set (s : string) : gset string := list_to_set (Fields s).

Lemma isScopeSubset_spec req ex : isScopeSubset req ex = true ↔ scope_set req ⊆ scope_set ex.
Proof.
  unfold isScopeSubset, scope_set. rewrite forallb_elem.
  setoid_rewrite bool_decide_eq_true. set_solver.
Qed.

#[export] Instance isScopeSubset_preorder : PreOrder (λ a b, isScopeSubset a b = true).
Proof. split; [intros a|intros a b c]; rewrite !isScopeSubset_spec; set_solver. Qed.

(** [localVerifier] implements the interface; it keeps no state of its own. *)
#[export] Instance localVerifier_TokenVerifier `{Crypto, !JWT} : TokenVerifier localVerifier :=
  {| VerifyToken km now v s := (Verify km now v s, v) |}.

(** ** The claims a token carries *)

Section token_claims.
Context `{!JSON, !JSONLaws _, !Crypto, !JWT, !JWTLaws _}.

Definition token_claims (s : string) (c : Claims) : Prop :=
  ∃ t mc k, jwt_signed s t k ∧ jwt_MapClaims t = Some mc ∧ c = extractClaims mc.

Lemma token_claims_inj s c c' : token_claims s c → token_claims s c' → c = c'.
Proof.
  intros (t & mc & k & Hs & Hm & ->) (t' & mc' & k' & Hs' & Hm' & ->).
  assert (t = t') as <- by by eapply jwt_signed_inj. congruence.
Qed.

Lemma token_claims_Verify km now v s c : Verify km now v s = Ok c → token_claims s c.
Proof. intros (t & mc & kid & k & ? & ? & -> & _)%Verify_sound. by exists t, mc, k. Qed.

(** A value of a parsed claim map is a decoded JSON value. *)
Lemma signed_claim_json s t k mc key v :
  jwt_signed s t k → jwt_MapClaims t = Some mc → mc !! key = Some v → json_norm v = v.
Proof.
  intros Hs%jwt_signed_json Hm Hv. apply (f_equal jwt_MapClaims) in Hs.
  unfold json_token in Hs. cbn [jwt_MapClaims] in Hs. rewrite Hm in Hs. simpl in Hs.
  injection Hs as Hs. apply (f_equal (lookup key)) in Hs. rewrite lookup_fmap, Hv in Hs.
  by injection Hs.
Qed.

(** The text and contexts of parsed claims are printed back unchanged. *)
Lemma token_claims_json s c : token_claims s c → json_claims c.
Proof.
  intros (t & mc & k & Hs & Hm & ->).
  assert (∀ key, json_text (string_or_zero (mc !! key))) as Ht.
  { intros key. unfold string_or_zero, as_string.
    destruct (mc !! key) as [[]|] eqn:E; simpl; try by apply json_norm_ascii.
    by eapply signed_claim_json. }
  assert (∀ key, json_context (default None (as_map (mc !! key)))) as Hc.
  { intros key. destruct (mc !! key) as [[| | | | | |[m|]]|] eqn:E; simpl; try done.
    by eapply signed_claim_json. }
  split; simpl; auto.
Qed.

(** The fields of a token just made by [New]. *)
Lemma New_token_claims c key kid lt now uuid s :
  New c key kid lt now uuid = Ok s →
  json_claims c → json_text uuid → small_time (Unix now) → small_time (Unix (Add now lt)) →
  token_claims s (issuedClaims c now uuid lt).
Proof.
  intros [_ Hs]%New_signed Hc Hu Hiat Hexp. eexists _, _, _. split_and!; [done| |].
  - unfold json_token. cbn [jwt_MapClaims]. by rewrite newToken_claims.
  - simpl. by rewrite extractClaims_issued.
Qed.
End token_claims.

(** ** Replacement *)

Section tts.
Context `{!JSON, !JSONLaws _, !CEL, !Crypto, !JWT, !JWTLaws _} {A : Type} `{!Authenticator A}.
Implicit Types h : Handler A localVerifier.

(** Every text the handler itself puts in a token is UTF-8, and the clock is in
    the range float64 represents. *)
Record env_ok h (env : Env) (r : Request) : Prop := {
  eo_iss : json_text (issuer h); eo_td : json_text (trustDomain h);
  eo_uuid : json_text (env_UUID env); eo_wl : json_text (identifyWorkload r);
  eo_now : small_time (Unix (env_SignTime env));
  eo_exp : small_time (Unix (Add (env_SignTime env) (h_lifetime h)));
}.

(** [replaces s s']: a running TTS answers a replacement request for [s] with
    the token [s']. *)
Inductive replaces : string → string → Prop :=
  | Replaces h env r form reply h' resp :
      env_ok h env r → req_Form r = Ok form →
      FormValue form "subject_token_type" = SubjectTokenTypeTxnToken →
      ServeHTTP h env r = (Some reply, h') → reply_Body reply = TokenBody resp →
      replaces (FormValue form "subject_token") (AccessToken resp).

Lemma signAndRespond_token h env c resp :
  reply_Body (signAndRespond h env c) = TokenBody resp →
  New c (privateKey (current (keyManager h))) (kid (current (keyManager h)))
      (h_lifetime h) (env_SignTime env) (env_UUID env) = Ok (AccessToken resp).
Proof using Type. unfold signAndRespond. simpl. destruct (New _ _ _ _ _ _); [|done]. by intros [= <-]. Qed.

Lemma parseRequest_fields form req :
  parseRequest form = Ok req →
  ter_SubjectToken req = FormValue form "subject_token" ∧
  ter_SubjectTokenType req = FormValue form "subject_token_type" ∧
  ter_Scope req = FormValue form "scope" ∧ ter_Scope req ≠ "".
Proof using Type.
  unfold parseRequest. cbv zeta. intros Hp.
  repeat (split_match_in Hp; [done|]).
  destruct (parseOptionalJSON (FormValue form "request_details") _); [|done].
  destruct (parseOptionalJSON (FormValue form "request_context") _); [|done].
  simplify_eq/=. bool_to_prop. done.
Qed.

Lemma handleReplacement_token h env r req reply h' resp :
  handleReplacement h env r req = (Some reply, h') → reply_Body reply = TokenBody resp →
  ∃ c, token_claims (ter_SubjectToken req) c ∧
       isScopeSubset (ter_Scope req) (Scope c) = true ∧
       New (replacementClaims h req c (identifyWorkload r))
           (privateKey (current (keyManager h))) (kid (current (keyManager h)))
           (h_lifetime h) (env_SignTime env) (env_UUID env) = Ok (AccessToken resp).
Proof.
  unfold handleReplacement. destruct (verifier h) as [v|]; [|by intros [= <- <-]].
  cbn [VerifyToken localVerifier_TokenVerifier].
  destruct (Verify _ _ _ _) as [c|e] eqn:Hv; [|by destruct e; intros [= <- <-]].
  destruct (isScopeSubset _ _) eqn:Hsub; [|by intros [= <- <-]].
  intros [= <- <-] Hr%signAndRespond_token. exists c.
  split_and!; [by eapply token_claims_Verify|done|done].
Qed.

(** The text of a scope made of fields of a text is text. *)
Lemma json_text_subset s s' : isScopeSubset s s' = true → json_text s' → json_text s.
Proof.
  rewrite isScopeSubset_spec. unfold scope_set. intros Hsub Hs'. apply json_text_fields.
  intros f Hf. rewrite json_text_fields in Hs'. apply Hs'. set_solver.
Qed.

Lemma replaces_claims s s' :
  replaces s s' →
  ∃ c c', token_claims s c ∧ token_claims s' c' ∧
    scope_set (Scope c') ⊆ scope_set (Scope c) ∧ Subject c' = Subject c ∧
    (TransactionID c ≠ "" → TransactionID c' = TransactionID c) ∧
    TransactionContext c' = TransactionContext c ∧ RequesterContext c' = RequesterContext c.
Proof.
  destruct 1 as [h env r form reply h' resp Henv Hform Htype Hserve Hbody].
  unfold ServeHTTP in Hserve. destruct (negb _); [by simplify_eq|]. rewrite Hform in Hserve.
  destruct (parseRequest form) as [req|] eqn:Hp; [|by simplify_eq].
  apply parseRequest_fields in Hp as (Hst & Hty & Hsc & Hne).
  rewrite bool_decide_true in Hserve by congruence.
  destruct (handleReplacement_token _ _ _ _ _ _ _ Hserve Hbody) as (c & Hc & Hsub & HN).
  rewrite <-Hst. pose proof (token_claims_json _ _ Hc) as Hj.
  destruct Henv. eexists c, _. split_and!; [done|eapply New_token_claims; [done|..]|..]; try done.
  - destruct Hj. split; simpl; try done. by eapply json_text_subset.
  - by apply isScopeSubset_spec.
  - simpl. intros. by rewrite bool_decide_false.
Qed.

(** C1.  Scope can only shrink along a transaction: however many times a token
    is exchanged for a replacement, by any sequence of TTS states (rotated keys,
    changed rules), the scopes of the last token are among those of the first,
    and subject, transaction id (when the first token has one), transaction
    context and requester context are those of the first token. *)
Theorem replacement_chain_narrows s s' c c' :
  rtc replaces s s' → token_claims s c → token_claims s' c' →
  scope_set (Scope c') ⊆ scope_set (Scope c) ∧ Subject c' = Subject c ∧
  (TransactionID c ≠ "" → TransactionID c' = TransactionID c) ∧
  TransactionContext c' = TransactionContext c ∧ RequesterContext c' = RequesterContext c.
Proof.
  intros Hrtc. revert c. induction Hrtc as [s|s s1 s2 Hstep _ IH]; intros c Hc Hc'.
  { rewrite (token_claims_inj _ _ _ Hc Hc'). done. }
  destruct (replaces_claims _ _ Hstep) as (d & d1 & Hd & Hd1 & Hscope & Hsub & Htxn & Ht & Hr).
  rewrite (token_claims_inj _ _ _ Hc Hd).
  destruct (IH d1 Hd1 Hc') as (Hscope' & Hsub' & Htxn' & Ht' & Hr').
  split_and!; [set_solver|congruence| |congruence..].
  intros Hne. rewrite Htxn' by (rewrite Htxn; done). by apply Htxn.
Qed.

(** ** Issuance *)

(** The context the handler evaluates its rules in. *)
Definition issuanceContext (req : TokenExchangeRequest) (subject wl : string) : IssuanceContext :=
  {| ic_Subject := subject; ic_Scope := ter_Scope req; ic_Tctx := ter_RequestDetails req;
     ic_Rctx := ter_RequestContext req; ic_Workload := wl; ic_WorkloadNS := "" |}.

Lemma checkIssuance_iff h req subject wl :
  checkIssuance h req subject wl = Ok tt ↔
  ∀ rule, rule ∈ loadIssuanceRules h → rule_applies (issuanceContext req subject wl) rule →
          rule_holds (issuanceContext req subject wl) rule.
Proof using Type.
  unfold checkIssuance.
  destruct (Nat.ltb_spec 0 (length (loadIssuanceRules h))) as [_|Hlen];
    [apply EvaluateIssuanceRules_ok|].
  destruct (loadIssuanceRules h); [|simpl in Hlen; lia].
  split; [|done]. by intros _ rule ?%elem_of_nil.
Qed.

Lemma rule_applies_untargeted req subject wl rule :
  rule_applies (issuanceContext req subject wl) rule ↔ ir_TargetNamespaces rule = [].
Proof using Type. unfold rule_applies. rewrite ruleAppliesToNamespace_spec. simpl. naive_solver. Qed.

(** C2.  A new token is issued only to an authenticated subject that passes the
    issuance rules: when a request that is not a replacement is answered with a
    token, the first authenticator of the router that matches the token's
    issuer accepted it with a subject, every issuance rule that targets no
    namespace evaluated to true for this request, and the token was signed from
    exactly that subject, the requested scope, the request's contexts and the
    caller's workload identity, with a fresh transaction id. *)
Theorem exchange_issues_authenticated h env r form reply h' resp :
  req_Form r = Ok form →
  FormValue form "subject_token_type" ≠ SubjectTokenTypeTxnToken →
  ServeHTTP h env r = (Some reply, h') → reply_Body reply = TokenBody resp →
  ∃ req iss l1 auth l2 info auth',
    parseRequest form = Ok req ∧ extractIssuer (ter_SubjectToken req) = Ok iss ∧
    router h = l1 ++ auth :: l2 ∧ (∀ b, b ∈ l1 → Matches b iss = false) ∧
    Matches auth iss = true ∧
    Authenticate (env_VerifyTime env) auth (ter_SubjectToken req) = (Ok info, auth') ∧
    h' = set_router h (l1 ++ auth' :: l2) ∧
    (∀ rule, rule ∈ loadIssuanceRules h → ir_TargetNamespaces rule = [] →
       rule_holds (issuanceContext req (si_Subject info) (identifyWorkload r)) rule) ∧
    New (issuanceClaims h req (si_Subject info) (identifyWorkload r))
        (privateKey (current (keyManager h))) (kid (current (keyManager h)))
        (h_lifetime h) (env_SignTime env) (env_UUID env) = Ok (AccessToken resp).
Proof using Type.
  intros Hform Htype Hserve Hbody.
  unfold ServeHTTP in Hserve. destruct (negb _); [by simplify_eq|]. rewrite Hform in Hserve.
  destruct (parseRequest form) as [req|] eqn:Hp; [|by simplify_eq].
  destruct (parseRequest_fields _ _ Hp) as (_ & Hty & _).
  rewrite bool_decide_false in Hserve by congruence.
  unfold Router_Authenticate in Hserve.
  destruct (extractIssuer _) as [iss|e] eqn:Hiss; cbn [map_err] in Hserve;
    [|by destruct e; simplify_eq/=].
  destruct (route _ _ _ _) as [[info|e] rt] eqn:Hrt; [|by destruct e; simplify_eq/=].
  destruct (route_ok _ _ _ _ _ _ Hrt) as (l1 & auth & l2 & auth' & Hl & Hno & Hma & Hau & ->).
  destruct (checkIssuance _ _ _ _) as [[]|e] eqn:Hchk; [|by destruct e; simplify_eq/=].
  injection Hserve as <- <-. apply signAndRespond_token in Hbody.
  exists req, iss, l1, auth, l2, info, auth'. split_and!; try done.
  intros rule Hin Htn. eapply checkIssuance_iff; [done..|]. by apply rule_applies_untargeted.
Qed.

(** ** Verification of what was issued *)

Lemma findKey_current (m : Manager) :
  key_in_range (private_PublicKey (privateKey (current m))) →
  findKey (kid (current m)) (PublicKeys m) = Ok (private_PublicKey (privateKey (current m))).
Proof using Type.
  intros Hr. unfold PublicKeys. cbn [findKey]. rewrite bool_decide_true by done. simpl.
  by rewrite RSAPublicKey_newPublicKey.
Qed.

Lemma findKey_rotated (m : Manager) g :
  key_in_range (private_PublicKey (privateKey (current m))) →
  (is_ok g = true → kid (current (Rotate m g).1) ≠ kid (current m)) →
  findKey (kid (current m)) (PublicKeys (Rotate m g).1)
  = Ok (private_PublicKey (privateKey (current m))).
Proof using Type.
  intros Hr. destruct g as [k|e]; [|intros _; by apply findKey_current]. simpl. intros Hne.
  rewrite bool_decide_false by (apply Hne; done). simpl. rewrite bool_decide_true by done. simpl.
  by rewrite RSAPublicKey_newPublicKey.
Qed.

(** C3.  What the TTS signs, the TTS accepts back until it expires, also after
    the next key rotation: the verifier returns exactly the claims that were
    signed, with the clock's second as [iat] and the end of the lifetime as
    [exp].  The key's numbers are in range, the two key identifiers differ, texts
    are UTF-8, and the trust domain is not empty, as the configuration requires. *)
Theorem issued_token_verifies h env c resp now' g :
  let km := keyManager h in
  let iat := env_SignTime env in
  reply_Body (signAndRespond h env c) = TokenBody resp →
  key_in_range (private_PublicKey (privateKey (current km))) →
  json_text (kid (current km)) → kid (current km) ≠ "" →
  (is_ok g = true → kid (current (Rotate km g).1) ≠ kid (current km)) →
  Audience c = trustDomain h → trustDomain h ≠ "" → json_claims c → json_text (env_UUID env) →
  small_time (Unix iat) → small_time (Unix (Add iat (h_lifetime h))) →
  now' < Unix (Add iat (h_lifetime h)) * Second →
  let issued := issuedClaims c iat (env_UUID env) (h_lifetime h) in
  Verify km now' (newLocalVerifier (trustDomain h)) (AccessToken resp) = Ok issued ∧
  Verify (Rotate km g).1 now' (newLocalVerifier (trustDomain h)) (AccessToken resp) = Ok issued.
Proof.
  intros km iat HN%signAndRespond_token Hr Hkj Hkne Hg Ha Hane Hc Hu Hi He Hnow issued.
  split; (eapply Verify_issued; [exact HN|done|done| |done..]).
  - by apply findKey_current.
  - by apply findKey_rotated.
Qed.

(** C31.  The status of a reply says what it carries: 200 exactly when a token
    was signed; otherwise the body is an OAuth error whose code goes with the
    status (405 and 400 invalid_request, 401 invalid_token, 403 policy_denied
    or invalid_scope, 500 server_error). *)
Theorem reply_status h env r reply h' :
  ServeHTTP h env r = (Some reply, h') →
  match reply_Body reply with
  | TokenBody resp => reply_Status reply = 200 ∧ IssuedTokenType resp = RequestedTokenType
  | ErrorBody code _ =>
    (reply_Status reply, code) ∈
      [(405, "invalid_request"); (400, "invalid_request"); (401, "invalid_token");
       (403, "policy_denied"); (403, "invalid_scope"); (500, "server_error")]
  end.
Proof using Type.
  assert (∀ h env c, match reply_Body (signAndRespond h env c) with
    | TokenBody resp => reply_Status (signAndRespond h env c) = 200 ∧
                        IssuedTokenType resp = RequestedTokenType
    | ErrorBody code _ => (reply_Status (signAndRespond h env c), code) = (500, "server_error")
    end) as Hsign.
  { intros h0 env0 c. unfold signAndRespond. simpl. by destruct (New _ _ _ _ _ _). }
  unfold ServeHTTP, handleReplacement. intros Hs.
  repeat (split_match_in Hs; simplify_eq/=; try (apply list_elem_of_In; simpl; by auto 10)).
  all: match goal with
    | |- context [signAndRespond ?h ?e ?c] => specialize (Hsign h e c);
        destruct (reply_Body (signAndRespond h e c)); [done|rewrite Hsign; apply list_elem_of_In; simpl; by auto 10]
    end.
Qed.

(** What the endpoint asks of a form. *)
Definition optional_json (text : string) : Prop := text = "" ∨ is_ok (json_UnmarshalMap text) = true.
Definition well_formed (form : gmap string (list string)) : Prop :=
  FormValue form "grant_type" = GrantType ∧ FormValue form "subject_token" ≠ "" ∧
  FormValue form "subject_token_type" ≠ "" ∧
  FormValue form "requested_token_type" = RequestedTokenType ∧ FormValue form "scope" ≠ "" ∧
  optional_json (FormValue form "request_details") ∧ optional_json (FormValue form "request_context").

Lemma parseOptionalJSON_ok text format :
  is_ok (parseOptionalJSON text format) = true ↔ optional_json text.
Proof using Type.
  unfold parseOptionalJSON, optional_json. case_bool_decide; [naive_solver|].
  destruct (json_UnmarshalMap text); naive_solver.
Qed.

Lemma parseRequest_well_formed form : is_ok (parseRequest form) = true ↔ well_formed form.
Proof using Type.
  unfold parseRequest, well_formed. cbv zeta.
  rewrite <-(parseOptionalJSON_ok _ "invalid request_details JSON: %w"),
    <-(parseOptionalJSON_ok _ "invalid request_context JSON: %w").
  repeat (case_bool_decide; cbn [negb]; try (split; [discriminate|tauto])).
  destruct (parseOptionalJSON (FormValue form "request_details") _); [|cbn; intuition discriminate].
  destruct (parseOptionalJSON (FormValue form "request_context") _); cbn; intuition discriminate.
Qed.

(** C32.  A request is taken exactly when it is a well-formed exchange (grant and
    token types as in RFC 8693, a subject token, a scope, contexts that are JSON
    objects or null); any other POST is answered 400 invalid_request before an
    authenticator, a verifier or a rule is consulted, and leaves no trace in the
    handler's state. *)
Theorem malformed_request_rejected h env r form :
  req_Method r = "POST" → req_Form r = Ok form →
  (well_formed form ↔ ∃ req, parseRequest form = Ok req) ∧
  (¬ well_formed form → ∃ e, ServeHTTP h env r = (Some (writeError 400 "invalid_request" e), h)).
Proof using Type.
  intros Hm Hf. rewrite <-parseRequest_well_formed. split.
  - destruct (parseRequest form); naive_solver.
  - intros Hn. unfold ServeHTTP. rewrite Hm, Hf. simpl.
    destruct (parseRequest form) as [|e]; [done|]. by exists e.
Qed.

(** C37.  The handler evaluates rules without knowing the workload's namespace,
    so rules that target namespaces are never enforced: the verdict on every
    request is the one of the rules without target namespaces alone. *)
Theorem targeted_rules_unenforced h rules req subject wl :
  checkIssuance (SetIssuanceRules h rules) req subject wl = Ok tt ↔
  checkIssuance (SetIssuanceRules h (filter (λ r, ir_TargetNamespaces r = []) rules))
                req subject wl = Ok tt.
Proof using Type.
  rewrite !checkIssuance_iff.
  cbn [loadIssuanceRules issuanceRules SetIssuanceRules default id].
  setoid_rewrite list_elem_of_filter. setoid_rewrite rule_applies_untargeted. naive_solver.
Qed.
End tts.

(** ** A running TTS

    One key, an identity provider that vouches for alice, one issuance rule; a
    token is issued for [read write] and replaced by one for [read]. *)

(** An authenticator that accepts the tokens of one issuer for one subject. *)
Record fixedAuthenticator := { fa_issuer : string; fa_subject : string }.

#[export] Instance fixedAuthenticator_Authenticator : Authenticator fixedAuthenticator :=
  {| Matches a iss := bool_decide (iss = fa_issuer a);
     Authenticate _ a _ := (Ok {| si_Subject := fa_subject a; si_Extra := None |}, a) |}.

Module TTSExample.
Definition entry : keyEntry := {| privateKey := toy_key : RsaPrivateKey; kid := "k1" |}.
Definition new_key : @RsaPrivateKey toyCrypto := toy_key2.
Definition manager : Manager :=
  {| current := entry; previous := None; keySize := 2048; lifetime := 60 * Second |}.

Definition first : Claims :=
  {| Issuer := "https://tts"; Audience := "prod"; Subject := "alice"; Scope := "read write";
     RequestingWorkload := "gateway"; TransactionContext := None; RequesterContext := None;
     TransactionID := ""; IssuedAt := 0; ExpiresAt := 0 |}.
Definition second : Claims :=
  {| Issuer := "https://tts"; Audience := "prod"; Subject := "alice"; Scope := "read";
     RequestingWorkload := "gateway"; TransactionContext := None; RequesterContext := None;
     TransactionID := "u1"; IssuedAt := 0; ExpiresAt := 0 |}.

Definition unsigned (claims : Claims) (uuid : string) : JwtToken :=
  {| jwt_Header := {[ "kid" := AString "k1"; "typ" := AString TypeHeader;
                      "alg" := AString "RS256" ]};
     jwt_MapClaims := Some (jwtClaims claims (100 * Second) uuid (60 * Second));
     jwt_RSA := true |}.
Definition table : list (string * JwtToken) :=
  [("a.b.first", unsigned first "u1"); ("a.b.second", unsigned second "u2")].

#[export] Instance jwt : JWT := toyJWT table.
#[export] Instance jwt_laws : JWTLaws jwt := toyJWTLaws table.

Definition handler : Handler fixedAuthenticator localVerifier :=
  SetIssuanceRules
    (SetVerifier
       (NewHandler [{| fa_issuer := "https://idp"; fa_subject := "alice" |}] manager
                   "https://tts" "prod" (60 * Second))
       (newLocalVerifier "prod"))
    [{| ir_Name := "allow"; ir_program := "true" : CelProgram; ir_message := "";
        ir_TargetNamespaces := [] |}].

Definition environment (uuid : string) : Env :=
  {| env_VerifyTime := 100 * Second; env_SignTime := 100 * Second; env_UUID := uuid |}.

Definition form (token type scope : string) : gmap string (list string) :=
  {[ "grant_type" := [GrantType]; "subject_token" := [token]; "subject_token_type" := [type];
     "requested_token_type" := [RequestedTokenType]; "scope" := [scope] ]}.

Definition request (token type scope : string) : Request :=
  {| req_Method := "POST"; req_Form := Ok (form token type scope);
     req_Header := Header_Set ∅ "X-Kontxt-Workload" "gateway" |}.

Definition token_reply (token : string) : Reply :=
  {| reply_Status := 200;
     reply_Header := Header_Set (Header_Set ∅ "Content-Type" "application/json")
                                "Cache-Control" "no-store";
     reply_Body := TokenBody {| AccessToken := token; IssuedTokenType := RequestedTokenType;
                                TokenType := "N_A" |} |}.

Example issues :
  ServeHTTP handler (environment "u1")
    (request "h.e30.s" SubjectTokenTypeAccessToken "read write")
  = (Some (token_reply "a.b.first"), handler).
Proof. vm_compute. reflexivity. Qed.

Example replaces_first :
  ServeHTTP handler (environment "u2") (request "a.b.first" SubjectTokenTypeTxnToken "read")
  = (Some (token_reply "a.b.second"), handler).
Proof. vm_compute. reflexivity. Qed.

Lemma replaces_step : replaces (A := fixedAuthenticator) "a.b.first" "a.b.second".
Proof.
  apply (Replaces handler (environment "u2") (request "a.b.first" SubjectTokenTypeTxnToken "read")
    (form "a.b.first" SubjectTokenTypeTxnToken "read") (token_reply "a.b.second") handler
    {| AccessToken := "a.b.second"; IssuedTokenType := RequestedTokenType;
       TokenType := "N_A" |}); try reflexivity.
  by split.
Qed.

Lemma token_claims_table s claims uuid :
  toy_entry table s = Some (unsigned claims uuid) → s ≠ "" →
  token_claims s (extractClaims
    (json_norm <$> jwtClaims claims (100 * Second) uuid (60 * Second))).
Proof.
  intros Hs Hne. eexists (json_token (unsigned claims uuid)), _, toy_key.
  split_and!; [|done..]. split_and!; [done..|]. by exists (unsigned claims uuid).
Qed.

Lemma replacement_chain_narrows_witness : scope_set "read" ⊆ scope_set "read write".
Proof.
  apply (replacement_chain_narrows (A := fixedAuthenticator) "a.b.first" "a.b.second" _ _
    (rtc_once _ _ replaces_step)
    (token_claims_table "a.b.first" first "u1" eq_refl ltac:(discriminate))
    (token_claims_table "a.b.second" second "u2" eq_refl ltac:(discriminate))).
Defined.

Lemma exchange_issues_authenticated_witness : ∃ req, ter_Scope req = "read write".
Proof.
  destruct (exchange_issues_authenticated handler (environment "u1")
    (request "h.e30.s" SubjectTokenTypeAccessToken "read write")
    (form "h.e30.s" SubjectTokenTypeAccessToken "read write") (token_reply "a.b.first") handler
    {| AccessToken := "a.b.first"; IssuedTokenType := RequestedTokenType; TokenType := "N_A" |})
    as (req & _ & _ & _ & _ & _ & _ & Hp & _);
    [reflexivity|vm_compute; discriminate|apply issues|reflexivity|].
  exists req. apply parseRequest_fields in Hp as (_ & _ & -> & _). reflexivity.
Defined.

Lemma issued_token_verifies_witness :
  Verify manager (120 * Second) (newLocalVerifier "prod") "a.b.first"
  = Ok (issuedClaims first (100 * Second) "u1" (60 * Second)) ∧
  Verify (Rotate manager (Ok new_key)).1 (120 * Second)
    (newLocalVerifier "prod") "a.b.first"
  = Ok (issuedClaims first (100 * Second) "u1" (60 * Second)).
Proof.
  apply (issued_token_verifies handler (environment "u1") first
    {| AccessToken := "a.b.first"; IssuedTokenType := RequestedTokenType; TokenType := "N_A" |}
    (120 * Second) (Ok new_key)); try reflexivity; try by split.
  - vm_compute. discriminate.
  - vm_compute. discriminate.
  - vm_compute. discriminate.
Defined.

Lemma reply_status_witness : reply_Status (token_reply "a.b.first") = 200.
Proof.
  apply (reply_status handler (environment "u1")
    (request "h.e30.s" SubjectTokenTypeAccessToken "read write") (token_reply "a.b.first") handler).
  apply issues.
Defined.

Lemma malformed_request_rejected_witness :
  ∃ e, ServeHTTP handler (environment "u1") (request "h.e30.s" SubjectTokenTypeAccessToken "")
       = (Some (writeError 400 "invalid_request" e), handler).
Proof.
  apply (malformed_request_rejected handler (environment "u1")
    (request "h.e30.s" SubjectTokenTypeAccessToken "") (form "h.e30.s" SubjectTokenTypeAccessToken ""));
    [reflexivity|reflexivity|].
  intros (_ & _ & _ & _ & Hs & _). by apply Hs.
Defined.
End TTSExample.
