(* ===== verification/Api.v ===== *)
(** * The custom resources (api/v1alpha1) and the compiled rules (internal/controller/rules.go)

    The records of the three resources the reconcilers read, with every field of
    the Go structs, and the three rule types the controller publishes.  Of
    Kubernetes' own types the model has what the resources embed: the name and
    namespace of [metav1.ObjectMeta], [metav1.Condition] and
    [metav1.LabelSelector].  A nil slice or map is the empty one: no code below
    tells them apart. *)

From S2P Require Import Prelude.

Local Open Scope Z_scope.

(** ** Kubernetes metadata *)

Record ObjectMeta := { om_Name : string; om_Namespace : string }.

(** [types.NamespacedName], the request of a reconciler. *)
Record NamespacedName := { nn_Namespace : string; nn_Name : string }.

Inductive ConditionStatus : Type := ConditionTrue | ConditionFalse | ConditionUnknown.

(** A message [fmt.Sprintf(format, items)]: the format and the texts of the list
    it renders. *)
Record Message := { msg_Format : string; msg_Items : list error }.

(** [metav1.Condition]. *)
Record Condition := {
  cond_Type : string; cond_Status : ConditionStatus; cond_Reason : string;
  cond_Message : Message; cond_LastTransitionTime : Z; cond_ObservedGeneration : Z;
}.

Record LabelSelector := {
  ls_MatchLabels : gmap string string;
  ls_MatchExpressions : list (string * string * list string);
}.

(** ** TransactionType *)

Record EndpointSpec := { ep_Path : string; ep_Method : string }.

Record TctxFieldMapping := { tfm_Source : string; tfm_Field : string; tfm_Required : bool }.

Record TctxEnrichment := { te_Field : string; te_Enricher : string }.

Record TransactionTypeSpec := {
  tts_Endpoint : EndpointSpec; tts_Purpose : string; tts_Scope : string;
  tts_TctxMapping : gmap string TctxFieldMapping; tts_TctxEnrichments : list TctxEnrichment;
  tts_RctxFields : list string; tts_TokenLifetime : string;
}.

Record TransactionTypeStatus := {
  ttst_Conditions : list Condition; ttst_ProducedTctxFields : list string;
  ttst_EffectiveTokenLifetime : string;
}.

Record TransactionType := {
  tt_ObjectMeta : ObjectMeta; tt_Spec : TransactionTypeSpec; tt_Status : TransactionTypeStatus;
}.

(** ** ServiceTokenRequirement *)

Record ServiceReference := { sr_Name : string }.

(** [v1alpha1.VerificationRule]. *)
Record ApiVerificationRule := { avr_Name : string; avr_CEL : string; avr_Message : string }.

Record VerificationSpec := {
  vs_RequiredScope : string; vs_RequiredTctxFields : list string;
  vs_Rules : list ApiVerificationRule;
}.

Record ServiceTokenRequirementSpec := {
  strs_ServiceRef : ServiceReference; strs_Verification : VerificationSpec;
  strs_ExcludedEndpoints : list EndpointSpec; strs_AutoNarrow : bool;
}.

Record ServiceTokenRequirementStatus := {
  strst_Conditions : list Condition; strst_ActiveVerificationRules : Z;
  strst_ExcludedEndpointCount : Z;
}.

Record ServiceTokenRequirement := {
  str_ObjectMeta : ObjectMeta; str_Spec : ServiceTokenRequirementSpec;
  str_Status : ServiceTokenRequirementStatus;
}.

(** ** TokenPolicy *)

Record NamespaceSelector := { ns_MatchNames : list string; ns_MatchLabels : gmap string string }.

Record RequesterRule := {
  rr_NamespaceSelector : option LabelSelector; rr_ServiceAccountNames : list string;
}.

Record PolicyConstraints := {
  pc_MaxTokenLifetime : string; pc_MandatoryTctxFields : list string;
  pc_MandatoryRctxFields : list string; pc_DisallowedEnrichers : list string;
}.

(** [v1alpha1.IssuanceRule]. *)
Record ApiIssuanceRule := { air_Name : string; air_CEL : string; air_Message : string }.

Record WebhookConfig := { wh_Enabled : bool; wh_Endpoint : string; wh_FailurePolicy : string }.

Record TokenPolicySpec := {
  tps_TargetNamespaces : option NamespaceSelector;
  tps_AuthorizedTransactionNamespaces : option LabelSelector;
  tps_AuthorizedRequesters : list RequesterRule;
  tps_Constraints : PolicyConstraints;
  tps_IssuanceRules : list ApiIssuanceRule;
  tps_AccessEvaluationWebhook : option WebhookConfig;
}.

Record TokenPolicyStatus := { tpst_Conditions : list Condition }.

Record TokenPolicy := {
  tp_ObjectMeta : ObjectMeta; tp_Spec : TokenPolicySpec; tp_Status : TokenPolicyStatus;
}.

(** ** The rules the controller publishes (internal/controller/rules.go) *)

Record GenerationRule := {
  gr_Namespace : string; gr_Name : string; gr_Endpoint : EndpointSpec; gr_Purpose : string;
  gr_Scope : string; gr_TctxMapping : gmap string TctxFieldMapping;
  gr_TctxEnrichments : list TctxEnrichment; gr_RctxFields : list string; gr_TokenLifetime : string;
}.

Record CELRule := { cel_Name : string; cel_CEL : string; cel_Message : string }.

Record VerificationRule := {
  vr_Namespace : string; vr_Name : string; vr_ServiceName : string; vr_RequiredScope : string;
  vr_RequiredTctxFields : list string; vr_CELRules : list CELRule;
  vr_ExcludedEndpoints : list EndpointSpec; vr_AutoNarrow : bool;
}.

(** [controller.IssuanceRule], the published rule ([tts.IssuanceRule] is the
    compiled one). *)
Record PublishedIssuanceRule := {
  pir_PolicyNamespace : string; pir_PolicyName : string; pir_RuleName : string;
  pir_CEL : string; pir_Message : string; pir_TargetNamespaces : list string;
}.

#[export] Instance EndpointSpec_eq_dec : EqDecision EndpointSpec.
Proof. solve_decision. Defined.
#[export] Instance TctxFieldMapping_eq_dec : EqDecision TctxFieldMapping.
Proof. solve_decision. Defined.
#[export] Instance TctxEnrichment_eq_dec : EqDecision TctxEnrichment.
Proof. solve_decision. Defined.
#[export] Instance GenerationRule_eq_dec : EqDecision GenerationRule.
Proof. solve_decision. Defined.
#[export] Instance CELRule_eq_dec : EqDecision CELRule.
Proof. solve_decision. Defined.
#[export] Instance VerificationRule_eq_dec : EqDecision VerificationRule.
Proof. solve_decision. Defined.
#[export] Instance PublishedIssuanceRule_eq_dec : EqDecision PublishedIssuanceRule.
Proof. solve_decision. Defined.
