(* ===== verification/PolicyRules.v ===== *)
(** * internal/controller/rules.go: policy validation and the lifetime ceiling *)

From S2P Require Import Prelude GoTime Api.

Local Open Scope Z_scope.

(** ** Operations *)

(** The check of the lifetime ceiling. *)
Definition lifetimeViolations (tt : TransactionType) (policy : TokenPolicy) : list error :=
  let maxLifetime := pc_MaxTokenLifetime (tps_Constraints (tp_Spec policy)) in
  let ttLifetime := tts_TokenLifetime (tt_Spec tt) in
  if negb (bool_decide (maxLifetime = "")) && negb (bool_decide (ttLifetime = "")) then
    match ParseDuration maxLifetime, ParseDuration ttLifetime with
    | Ok maxDuration, Ok ttDuration =>
      if maxDuration <? ttDuration
      then [errorf "tokenLifetime %s exceeds policy maximum %s" [ttLifetime; maxLifetime]]
      else []
    | _, _ => []
    end
  else [].

(** The check of one mandatory field: the loop over the map's keys stops at the
    field if it is a key. *)
Definition mandatoryViolation (tt : TransactionType) (required : string) : list error :=
  if bool_decide (required = "purpose") then [] else
  let found := bool_decide (required ∈ dom (tts_TctxMapping (tt_Spec tt))) in
  let found := if negb found
               then existsb (λ e, bool_decide (te_Field e = required)) (tts_TctxEnrichments (tt_Spec tt))
               else found in
  if negb found
  then [errorf "mandatory tctx field %q not produced by this TransactionType" [required]]
  else [].

(** The check of one enrichment against every disallowed enricher. *)
Definition enricherViolations (disallowed : list string) (enrichment : TctxEnrichment) : list error :=
  concat (map (λ d, if bool_decide (te_Enricher enrichment = d)
                    then [errorf "enricher %q is disallowed by policy" [te_Enricher enrichment]]
                    else []) disallowed).

Definition ValidateTransactionTypeAgainstPolicy (tt : TransactionType) (policy : option TokenPolicy)
  : list error :=
  match policy with
  | None => []
  | Some policy =>
    let constraints := tps_Constraints (tp_Spec policy) in
    lifetimeViolations tt policy
    ++ concat (map (mandatoryViolation tt) (pc_MandatoryTctxFields constraints))
    ++ concat (map (enricherViolations (pc_DisallowedEnrichers constraints))
                   (tts_TctxEnrichments (tt_Spec tt)))
  end.

(** [order] is the order in which the range over [TctxMapping] visits it. *)
Definition ComputeProducedTctxFields (tt : TransactionType)
    (order : list (string * TctxFieldMapping)) : list string :=
  ["purpose"] ++ order.*1 ++ map te_Field (tts_TctxEnrichments (tt_Spec tt)).

Definition ClampTokenLifetime (requested maxLifetime defaultLifetime : string) : string :=
  let requested := if bool_decide (requested = "") then defaultLifetime else requested in
  if bool_decide (maxLifetime = "") then requested else
  match ParseDuration requested, ParseDuration maxLifetime with
  | Ok reqDur, Ok maxDur => if maxDur <? reqDur then maxLifetime else requested
  | _, _ => requested
  end.

(** ** Properties *)

(** What a TransactionType puts in [tctx]. *)
Definition produced_fields (tt : TransactionType) : gset string :=
  {[ "purpose" ]} ∪ dom (tts_TctxMapping (tt_Spec tt))
  ∪ list_to_set (map te_Field (tts_TctxEnrichments (tt_Spec tt))).

(** [l1 <= l2] as durations, when both are durations. *)
Definition lifetime_le (l1 l2 : string) : Prop :=
  ∀ d1 d2, ParseDuration l1 = Ok d1 → ParseDuration l2 = Ok d2 → d1 ≤ d2.

(** The constraints of a policy that are checked: the maximal lifetime, the
    mandatory [tctx] fields and the disallowed enrichers.  [MandatoryRctxFields]
    and [AuthorizedTransactionNamespaces] are not looked at. *)
Definition meets_checked (tt : TransactionType) (policy : TokenPolicy) : Prop :=
  let c := tps_Constraints (tp_Spec policy) in
  (pc_MaxTokenLifetime c ≠ "" → tts_TokenLifetime (tt_Spec tt) ≠ "" →
     lifetime_le (tts_TokenLifetime (tt_Spec tt)) (pc_MaxTokenLifetime c)) ∧
  (∀ f, f ∈ pc_MandatoryTctxFields c → f ∈ produced_fields tt) ∧
  (∀ e, e ∈ tts_TctxEnrichments (tt_Spec tt) → te_Enricher e ∉ pc_DisallowedEnrichers c).

(** Policies that differ at most in what is not checked. *)
Definition same_checks (p q : TokenPolicy) : Prop :=
  let cp := tps_Constraints (tp_Spec p) in
  let cq := tps_Constraints (tp_Spec q) in
  tps_TargetNamespaces (tp_Spec p) = tps_TargetNamespaces (tp_Spec q) ∧
  pc_MaxTokenLifetime cp = pc_MaxTokenLifetime cq ∧
  pc_MandatoryTctxFields cp = pc_MandatoryTctxFields cq ∧ pc_DisallowedEnrichers cp = pc_DisallowedEnrichers cq.

Lemma same_checks_violations tt p q :
  same_checks p q →
  ValidateTransactionTypeAgainstPolicy tt (Some p) = ValidateTransactionTypeAgainstPolicy tt (Some q).
Proof.
  intros (_ & Hl & Hm & Hd). unfold ValidateTransactionTypeAgainstPolicy, lifetimeViolations.
  by rewrite Hl, Hm, Hd.
Qed.

Lemma lifetimeViolations_nil tt p :
  let c := tps_Constraints (tp_Spec p) in
  lifetimeViolations tt p = [] ↔
  (pc_MaxTokenLifetime c ≠ "" → tts_TokenLifetime (tt_Spec tt) ≠ "" →
     lifetime_le (tts_TokenLifetime (tt_Spec tt)) (pc_MaxTokenLifetime c)).
Proof.
  unfold lifetimeViolations, lifetime_le. cbv zeta.
  do 2 (case_bool_decide; [naive_solver|]). simpl.
  destruct (ParseDuration (pc_MaxTokenLifetime _)) as [d|]; [|naive_solver].
  destruct (ParseDuration (tts_TokenLifetime _)) as [d'|]; [|naive_solver].
  destruct (Z.ltb_spec d d'); split; try done.
  - intros HH. by specialize (HH ltac:(done) ltac:(done) d' d eq_refl eq_refl); lia.
  - intros _ _ _ d1 d2 [= <-] [= <-]. lia.
Qed.

Lemma mandatoryViolation_nil tt f : mandatoryViolation tt f = [] ↔ f ∈ produced_fields tt.
Proof.
  unfold mandatoryViolation, produced_fields.
  rewrite !elem_of_union, elem_of_singleton, elem_of_list_to_set, list_elem_of_fmap.
  case_bool_decide as Hp; [naive_solver|]. case_bool_decide as Hd; simpl; [naive_solver|].
  destruct (existsb _ _) eqn:E; simpl.
  - apply existsb_elem in E as (e & He & Hf). bool_to_prop. naive_solver.
  - split; [done|]. intros [[?|?]|(e & -> & He)]; [done..|].
    rewrite <-not_true_iff_false, existsb_elem in E. exfalso. apply E. exists e.
    by rewrite bool_decide_true.
Qed.

Lemma enricherViolations_nil ds e : enricherViolations ds e = [] ↔ te_Enricher e ∉ ds.
Proof.
  unfold enricherViolations. rewrite concat_map_nil. split.
  - intros HH Hin. specialize (HH _ Hin). by rewrite bool_decide_true in HH.
  - intros Hnin d Hd. rewrite bool_decide_false; [done|]. by intros <-.
Qed.

Lemma Validate_nil tt p :
  ValidateTransactionTypeAgainstPolicy tt (Some p) = [] ↔ meets_checked tt p.
Proof.
  unfold ValidateTransactionTypeAgainstPolicy, meets_checked.
  rewrite !app_nil, !concat_map_nil, lifetimeViolations_nil.
  setoid_rewrite mandatoryViolation_nil. by setoid_rewrite enricherViolations_nil.
Qed.

Lemma ClampTokenLifetime_le req mx def :
  mx ≠ "" → lifetime_le (ClampTokenLifetime req mx def) mx.
Proof.
  intros Hmx d1 d2. unfold ClampTokenLifetime. rewrite bool_decide_false by done.
  set (r := if bool_decide _ then _ else _).
  destruct (ParseDuration r) as [dr|] eqn:Hr; [|congruence].
  destruct (ParseDuration mx) as [dm|] eqn:Hm; [|done].
  destruct (Z.ltb_spec dm dr); rewrite ?Hm, ?Hr; intros; simplify_eq; lia.
Qed.
