(* ===== verification/CelVerify.v ===== *)
(** * pkg/extauth/celverify: CEL rules of a ServiceTokenRequirement

    Compiled by the controller before it publishes a rule and again by the ext
    auth server that evaluates it. *)

From stdpp Require Import pretty.
From S2P Require Import Prelude GoValue External.

(** [celverify.Rule]. *)
Record Rule := { rule_Name : string; rule_CEL : string; rule_Message : string }.

(** [celverify.Context]. *)
Record Context := { ctx_TxToken : gomap; ctx_Request : gomap }.

(** The activation: an interface that holds a nil map is not nil. *)
Definition verifyActivation (ctx : Context) : gmap string any :=
  let activation : gmap string any :=
    {[ "txtoken" := AMap (ctx_TxToken ctx); "request" := AMap (ctx_Request ctx) ]} in
  let activation :=
    if is_nil (default ANil (activation !! "txtoken"))
    then <["txtoken" := AMap (Some ∅)]> activation else activation in
  if is_nil (default ANil (activation !! "request"))
  then <["request" := AMap (Some ∅)]> activation else activation.

Section celverify.
Context `{CEL}.

(** [celverify.Program]. *)
Record Program := { prog_Name : string; prog_program : CelProgram; prog_message : string }.

Definition NewEnv : result CelEnv := cel_NewEnv [("txtoken", DynType); ("request", DynType)].

(** One round of the loop of [Compile]. *)
Definition compileRule (env : CelEnv) (ir : nat * Rule) : result Program :=
  let '(i, r) := ir in
  if bool_decide (rule_CEL r = "") then
    Err (errorf "verification rule %d (%q): empty CEL expression" [pretty i; rule_Name r]) else
  try! ast := map_err (wrapf "compiling verification rule %q: %w" [rule_Name r])
                      (cel_Compile env (rule_CEL r)) in
  if negb (bool_decide (cel_OutputType ast = BoolType)) then
    Err (errorf "verification rule %q: expression must return bool, got %s" [rule_Name r]) else
  try! prg := map_err (wrapf "creating program for verification rule %q: %w" [rule_Name r])
                      (cel_Program env ast) in
  Ok {| prog_Name := rule_Name r; prog_program := prg; prog_message := rule_Message r |}.

Definition Compile (rules : list Rule) : result (list Program) :=
  if bool_decide (length rules = 0) then Ok [] else
  try! env := map_err (wrapf "creating CEL environment: %w" []) NewEnv in
  traverse (compileRule env) (imap pair rules).

(** One round of the loop of [Evaluate]. *)
Definition evaluateProgram (activation : gmap string any) (p : Program) : result unit :=
  try! out := map_err (wrapf "evaluating verification rule %q: %w" [prog_Name p])
                      (cel_Eval (prog_program p) activation) in
  if negb (bool_decide (val_Type out = BoolType)) then
    Err (errorf "verification rule %q returned %s, expected bool" [prog_Name p]) else
  match val_Value out with
  | ABool true => Ok tt
  | ABool false => Err (DeniedError (prog_Name p) (prog_message p))
  | _ => Err (GoPanic "interface conversion: not a bool")
  end.

(** The context is a pointer, dereferenced when there is a program. *)
Definition Evaluate (programs : list Program) (ctx : Context) : result unit :=
  if bool_decide (length programs = 0) then Ok tt else
  try! _ := traverse (evaluateProgram (verifyActivation ctx)) programs in
  Ok tt.

(** ** Properties *)

(** A compiled expression holds of a token and a request. *)
Definition program_holds (ctx : Context) (p : Program) : Prop :=
  cel_Eval (prog_program p) (verifyActivation ctx) =
  Ok {| val_Type := BoolType; val_Value := ABool true |}.

Lemma evaluateProgram_ok ctx p :
  is_ok (evaluateProgram (verifyActivation ctx) p) = true ↔ program_holds ctx p.
Proof.
  unfold evaluateProgram, program_holds.
  destruct (cel_Eval _ _) as [[ty v]|e]; simpl; [|naive_solver].
  case_bool_decide; simpl; [|naive_solver]. destruct v as [|[]| | | | |]; naive_solver.
Qed.

Lemma Evaluate_ok programs ctx :
  Evaluate programs ctx = Ok tt ↔ ∀ p, p ∈ programs → program_holds ctx p.
Proof.
  setoid_rewrite <-evaluateProgram_ok. rewrite <-traverse_is_ok. unfold Evaluate.
  case_bool_decide as Hl; [by destruct programs|]. by destruct (traverse _ _).
Qed.

(** Compilation looks only at the expression: one rule compiles under any name. *)
Definition cel_valid (cel : string) : Prop :=
  cel ≠ "" ∧ ∃ env ast, NewEnv = Ok env ∧ cel_Compile env cel = Ok ast ∧
    cel_OutputType ast = BoolType ∧ is_ok (cel_Program env ast) = true.

Lemma Compile_single_ok r : is_ok (Compile [r]) = true ↔ cel_valid (rule_CEL r).
Proof.
  unfold Compile, cel_valid. simpl. split.
  - intros HC. destruct NewEnv as [env|]; [|done]. simpl in HC.
    case_bool_decide; [done|]. destruct (cel_Compile env _) as [ast|] eqn:Hc; [|done].
    simpl in HC. case_bool_decide as Ht; [|done]. simpl in HC.
    split; [done|]. exists env, ast. split_and!; [done..|]. by destruct (cel_Program env ast).
  - intros (Hne & env & ast & -> & Hc & Ht & Hp). simpl.
    rewrite bool_decide_false, Hc by done. simpl. rewrite bool_decide_true by done. simpl.
    by destruct (cel_Program env ast).
Qed.

Lemma Compile_single_name r ps :
  Compile [r] = Ok ps → ∃ prg, ps = [{| prog_Name := rule_Name r; prog_program := prg;
                                       prog_message := rule_Message r |}].
Proof.
  unfold Compile. simpl. intros HC. destruct NewEnv; [|done]. simpl in HC.
  case_bool_decide; [done|]. destruct (cel_Compile _ _); [|done]. simpl in HC.
  case_bool_decide; [|done]. simpl in HC. destruct (cel_Program _ _); [|done]. naive_solver.
Qed.
End celverify.
