(* ===== verification/Controller.v ===== *)
(** * internal/controller: the reconcilers

    [controller.go] and [policy_reconciler.go].  The Kubernetes client is the
    class [KubeClient] over a cluster state [W]: reads are functions of the
    state, a status update changes it.  The rule server is reached through the
    interfaces [RulePublisher] and [IssuancePublisher]; a nil publisher is
    [None].  A reconciler returns its error, the cluster and the publisher. *)

From S2P Require Import Prelude GoTime External Issuance Api PolicyRules CelVerify.

Local Open Scope Z_scope.

(** ** Interfaces *)

(** The outcome of [client.Get]; [NotFound] is an error [errors.IsNotFound] accepts. *)
Inductive GetResult (A : Type) : Type :=
  | Found (a : A)
  | NotFound
  | GetFailed (e : error).
Arguments Found {_} _.
Arguments NotFound {_}.
Arguments GetFailed {_} _.

(** [client.Client] on the three resources. *)
Class KubeClient (W : Type) := {
  Get_TransactionType : W → NamespacedName → GetResult TransactionType;
  List_TransactionTypes : W → result (list TransactionType);
  StatusUpdate_TransactionType : W → TransactionType → result unit * W;
  Get_ServiceTokenRequirement : W → NamespacedName → GetResult ServiceTokenRequirement;
  List_ServiceTokenRequirements : W → result (list ServiceTokenRequirement);
  StatusUpdate_ServiceTokenRequirement : W → ServiceTokenRequirement → result unit * W;
  Get_TokenPolicy : W → NamespacedName → GetResult TokenPolicy;
  List_TokenPolicies : W → result (list TokenPolicy);
  StatusUpdate_TokenPolicy : W → TokenPolicy → result unit * W;
}.

Class RulePublisher (P : Type) := {
  publish_GenerationRules : P → list GenerationRule → P;
  publish_VerificationRules : P → list VerificationRule → P;
}.

Class IssuancePublisher (P : Type) := {
  publish_IssuanceRules : P → list PublishedIssuanceRule → P;
}.

(** ** Helpers *)

Definition ConditionPolicyCompliant : string := "PolicyCompliant".
Definition ConditionReady : string := "Ready".

Definition text (s : string) : Message := {| msg_Format := s; msg_Items := [] |}.

(** [setCondition]: the first condition of the type is updated in place, and keeps
    its observed generation. *)
Fixpoint setCondition (now : Z) (conditions : list Condition) (condType : string)
    (status : ConditionStatus) (reason : string) (message : Message) : list Condition :=
  match conditions with
  | [] => [{| cond_Type := condType; cond_Status := status; cond_Reason := reason;
              cond_Message := message; cond_LastTransitionTime := now; cond_ObservedGeneration := 0 |}]
  | c :: rest =>
    if bool_decide (cond_Type c = condType)
    then {| cond_Type := cond_Type c; cond_Status := status; cond_Reason := reason; cond_Message := message;
            cond_LastTransitionTime := now; cond_ObservedGeneration := cond_ObservedGeneration c |} :: rest
    else c :: setCondition now rest condType status reason message
  end.

Definition resolveTargetNamespaces (sel : option NamespaceSelector) : list string :=
  match sel with
  | None => []
  | Some sel => if bool_decide (length (ns_MatchNames sel) = 0%nat) then [] else ns_MatchNames sel
  end.

Section cel_checks.
Context `{CEL}.

(** One round of the loop of [validateAndCompileCELRules]: the valid rules and
    the errors so far. *)
Definition checkCELRule (acc : list ApiVerificationRule * list error) (rule : ApiVerificationRule)
  : list ApiVerificationRule * list error :=
  let '(valid, errs) := acc in
  if bool_decide (avr_CEL rule = "") then
    (valid, errs ++ [errorf "rule %q has empty CEL expression" [avr_Name rule]]) else
  match Compile [{| rule_Name := avr_Name rule; rule_CEL := avr_CEL rule;
                    rule_Message := avr_Message rule |}] with
  | Err err => (valid, errs ++ [err])
  | Ok _ => (valid ++ [rule], errs)
  end.

Definition validateAndCompileCELRules (rules : list ApiVerificationRule)
  : list ApiVerificationRule * list error :=
  if bool_decide (length rules = 0%nat) then ([], []) else
  foldl checkCELRule ([], []) rules.

Definition validateCELRules (rules : list ApiVerificationRule) : list error :=
  let '(_, errs) := validateAndCompileCELRules rules in errs.

Record issuanceCELError := { ice_ruleName : string; ice_err : error }.

Definition issuanceConfig (r : ApiIssuanceRule) : IssuanceRuleConfig :=
  {| cfg_Name := air_Name r; cfg_CEL := air_CEL r; cfg_Message := air_Message r;
     cfg_TargetNamespaces := [] |}.

(** The slow path: every rule on its own. *)
Definition brokenRules (configs : list IssuanceRuleConfig) : list issuanceCELError :=
  concat (map (λ cfg, match CompileIssuanceRules [cfg] with
                      | Err err => [{| ice_ruleName := cfg_Name cfg; ice_err := err |}]
                      | Ok _ => []
                      end) configs).

Definition validateIssuanceCEL (rules : list ApiIssuanceRule) : list issuanceCELError :=
  if bool_decide (length rules = 0%nat) then [] else
  let configs := map issuanceConfig rules in
  if is_ok (CompileIssuanceRules configs) then [] else brokenRules configs.
End cel_checks.

(** ** The reconcilers *)

Section reconcilers.
Context `{CEL} {W P : Type} `{!KubeClient W, !RulePublisher P, !IssuancePublisher P}.
(** The order in which [range] visits a map of field mappings. *)
Context (range : gmap string TctxFieldMapping → list (string * TctxFieldMapping)).

(** *** TransactionType *)

Definition policyMatches (namespace : string) (policy : TokenPolicy) : bool :=
  match tps_TargetNamespaces (tp_Spec policy) with
  | None => true
  | Some sel => existsb (λ name, bool_decide (name = namespace)) (ns_MatchNames sel)
  end.

(** The loops of [findApplicablePolicy] over the policies listed. *)
Definition selectPolicy (namespace : string) (items : list TokenPolicy) : option TokenPolicy :=
  match find (policyMatches namespace) items with
  | Some policy => Some policy
  | None =>
    (* the loop for a default policy *)
    find (λ policy, match tps_TargetNamespaces (tp_Spec policy) with
                    | None => true | Some _ => false end) items
  end.

Definition findApplicablePolicy (w : W) (namespace : string) : result (option TokenPolicy) :=
  try! items := List_TokenPolicies w in Ok (selectPolicy namespace items).

(** [policy, _ := r.findApplicablePolicy(...)]: nil on an error. *)
Definition applicablePolicy (w : W) (namespace : string) : option TokenPolicy :=
  match findApplicablePolicy w namespace with Ok p => p | Err _ => None end.

Definition effectiveLifetime (policy : option TokenPolicy) (tt : TransactionType) : string :=
  match policy with
  | Some policy => ClampTokenLifetime (tts_TokenLifetime (tt_Spec tt))
                     (pc_MaxTokenLifetime (tps_Constraints (tp_Spec policy))) "15s"
  | None => tts_TokenLifetime (tt_Spec tt)
  end.

(** One round of the loop of [rebuildGenerationRules], with the policy found. *)
Definition generationRuleUnder (policy : option TokenPolicy) (tt : TransactionType) : GenerationRule :=
  let effective := effectiveLifetime policy tt in
  let effective := if bool_decide (effective = "") then "15s" else effective in
  {| gr_Namespace := om_Namespace (tt_ObjectMeta tt); gr_Name := om_Name (tt_ObjectMeta tt);
     gr_Endpoint := tts_Endpoint (tt_Spec tt); gr_Purpose := tts_Purpose (tt_Spec tt);
     gr_Scope := tts_Scope (tt_Spec tt); gr_TctxMapping := tts_TctxMapping (tt_Spec tt);
     gr_TctxEnrichments := tts_TctxEnrichments (tt_Spec tt);
     gr_RctxFields := tts_RctxFields (tt_Spec tt); gr_TokenLifetime := effective |}.

Definition generationRule (w : W) (tt : TransactionType) : GenerationRule :=
  generationRuleUnder (applicablePolicy w (om_Namespace (tt_ObjectMeta tt))) tt.

Definition rebuildGenerationRules (w : W) (publisher : option P) : result unit * option P :=
  match map_err (wrapf "listing TransactionTypes: %w" []) (List_TransactionTypes w) with
  | Err e => (Err e, publisher)
  | Ok items =>
    let rules := map (generationRule w) items in
    (Ok tt, (λ p, publish_GenerationRules p rules) <$> publisher)
  end.

(** The object as its status is written, with the policy found: [now1] and [now2]
    are the two readings of the clock. *)
Definition reconciledUnder (now1 now2 : Z) (policy : option TokenPolicy) (tt : TransactionType)
  : TransactionType :=
  let violations := ValidateTransactionTypeAgainstPolicy tt policy in
  let conditions := ttst_Conditions (tt_Status tt) in
  let conditions :=
    if (0 <? length violations)%nat
    then setCondition now1 conditions ConditionPolicyCompliant ConditionFalse "PolicyViolation"
           {| msg_Format := "violations: %v"; msg_Items := violations |}
    else setCondition now1 conditions ConditionPolicyCompliant ConditionTrue "Compliant"
           (text "all policy constraints satisfied") in
  let conditions := setCondition now2 conditions ConditionReady ConditionTrue "Reconciled"
                      (text "generation rules updated") in
  {| tt_ObjectMeta := tt_ObjectMeta tt; tt_Spec := tt_Spec tt;
     tt_Status := {| ttst_Conditions := conditions;
                     ttst_ProducedTctxFields :=
                       ComputeProducedTctxFields tt (range (tts_TctxMapping (tt_Spec tt)));
                     ttst_EffectiveTokenLifetime := effectiveLifetime policy tt |} |}.

Definition reconciledTransactionType (now1 now2 : Z) (w : W) (tt : TransactionType)
  : TransactionType :=
  reconciledUnder now1 now2 (applicablePolicy w (om_Namespace (tt_ObjectMeta tt))) tt.

Definition TransactionTypeReconciler_Reconcile (now1 now2 : Z) (w : W) (publisher : option P)
    (req : NamespacedName) : result unit * W * option P :=
  match Get_TransactionType w req with
  | NotFound => let '(r, publisher) := rebuildGenerationRules w publisher in (r, w, publisher)
  | GetFailed e => (Err e, w, publisher)
  | Found obj =>
    match StatusUpdate_TransactionType w (reconciledTransactionType now1 now2 w obj) with
    | (Err e, w) => (Err e, w, publisher)
    | (Ok _, w) => let '(r, publisher) := rebuildGenerationRules w publisher in (r, w, publisher)
    end
  end.

(** *** ServiceTokenRequirement *)

(** One round of the loop of [rebuildVerificationRules]. *)
Definition verificationRule (str : ServiceTokenRequirement) : VerificationRule :=
  let spec := str_Spec str in
  let '(validCEL, _) := validateAndCompileCELRules (vs_Rules (strs_Verification spec)) in
  {| vr_Namespace := om_Namespace (str_ObjectMeta str); vr_Name := om_Name (str_ObjectMeta str);
     vr_ServiceName := sr_Name (strs_ServiceRef spec);
     vr_RequiredScope := vs_RequiredScope (strs_Verification spec);
     vr_RequiredTctxFields := vs_RequiredTctxFields (strs_Verification spec);
     vr_CELRules := map (λ r, {| cel_Name := avr_Name r; cel_CEL := avr_CEL r;
                                 cel_Message := avr_Message r |}) validCEL;
     vr_ExcludedEndpoints := strs_ExcludedEndpoints spec; vr_AutoNarrow := strs_AutoNarrow spec |}.

Definition rebuildVerificationRules (w : W) (publisher : option P) : result unit * option P :=
  match map_err (wrapf "listing ServiceTokenRequirements: %w" [])
                (List_ServiceTokenRequirements w) with
  | Err e => (Err e, publisher)
  | Ok items =>
    let rules := map verificationRule items in
    (Ok tt, (λ p, publish_VerificationRules p rules) <$> publisher)
  end.

Definition reconciledServiceTokenRequirement (now : Z) (str : ServiceTokenRequirement)
  : ServiceTokenRequirement :=
  let rules := vs_Rules (strs_Verification (str_Spec str)) in
  let celErrors := validateCELRules rules in
  let conditions := strst_Conditions (str_Status str) in
  let conditions :=
    if (0 <? length celErrors)%nat
    then setCondition now conditions ConditionReady ConditionFalse "CELCompilationError"
           {| msg_Format := "CEL errors: %v"; msg_Items := celErrors |}
    else setCondition now conditions ConditionReady ConditionTrue "Reconciled"
           (text "verification rules updated") in
  {| str_ObjectMeta := str_ObjectMeta str; str_Spec := str_Spec str;
     str_Status := {| strst_Conditions := conditions;
                      strst_ActiveVerificationRules := Z.of_nat (length rules);
                      strst_ExcludedEndpointCount :=
                        Z.of_nat (length (strs_ExcludedEndpoints (str_Spec str))) |} |}.

Definition ServiceTokenRequirementReconciler_Reconcile (now : Z) (w : W) (publisher : option P)
    (req : NamespacedName) : result unit * W * option P :=
  match Get_ServiceTokenRequirement w req with
  | NotFound => let '(r, publisher) := rebuildVerificationRules w publisher in (r, w, publisher)
  | GetFailed e => (Err e, w, publisher)
  | Found str =>
    match StatusUpdate_ServiceTokenRequirement w (reconciledServiceTokenRequirement now str) with
    | (Err e, w) => (Err e, w, publisher)
    | (Ok _, w) => let '(r, publisher) := rebuildVerificationRules w publisher in (r, w, publisher)
    end
  end.

(** *** TokenPolicy *)

(** The rule appended for one rule of a policy. *)
Definition publishedRule (policy : TokenPolicy) (ir : ApiIssuanceRule) : PublishedIssuanceRule :=
  {| pir_PolicyNamespace := ""; pir_PolicyName := om_Name (tp_ObjectMeta policy);
     pir_RuleName := air_Name ir; pir_CEL := air_CEL ir; pir_Message := air_Message ir;
     pir_TargetNamespaces := resolveTargetNamespaces (tps_TargetNamespaces (tp_Spec policy)) |}.

(** The rules of one policy: the body of the outer loop of [rebuildIssuanceRules]. *)
Definition policyIssuanceRules (policy : TokenPolicy) : list PublishedIssuanceRule :=
  let compileErrs := validateIssuanceCEL (tps_IssuanceRules (tp_Spec policy)) in
  let broken : gset string := list_to_set (map ice_ruleName compileErrs) in
  concat (map (λ ir, if bool_decide (air_Name ir ∈ broken) then [] else [publishedRule policy ir])
              (tps_IssuanceRules (tp_Spec policy))).

Definition rebuildIssuanceRules (w : W) (publisher : option P) : result unit * option P :=
  match map_err (wrapf "listing TokenPolicies: %w" []) (List_TokenPolicies w) with
  | Err e => (Err e, publisher)
  | Ok items =>
    let rules := concat (map policyIssuanceRules items) in
    (Ok tt, (λ p, publish_IssuanceRules p rules) <$> publisher)
  end.

Definition reconciledTokenPolicy (now1 now2 : Z) (policy : TokenPolicy) : TokenPolicy :=
  let compileErrs := map (λ e, wrapf "%s: %s" [ice_ruleName e] (ice_err e))
                         (validateIssuanceCEL (tps_IssuanceRules (tp_Spec policy))) in
  let conditions := tpst_Conditions (tp_Status policy) in
  let conditions :=
    if (0 <? length compileErrs)%nat then
      setCondition now2
        (setCondition now1 conditions ConditionPolicyCompliant ConditionFalse
           "CELCompilationError" {| msg_Format := "CEL errors: %v"; msg_Items := compileErrs |})
        ConditionReady ConditionFalse "CELCompilationError"
        {| msg_Format := "one or more issuance rules failed to compile: %v"; msg_Items := compileErrs |}
    else
      setCondition now2
        (setCondition now1 conditions ConditionPolicyCompliant ConditionTrue "Compliant"
           (text "all issuance rules compiled successfully"))
        ConditionReady ConditionTrue "Reconciled" (text "issuance rules updated") in
  {| tp_ObjectMeta := tp_ObjectMeta policy; tp_Spec := tp_Spec policy;
     tp_Status := {| tpst_Conditions := conditions |} |}.

Definition TokenPolicyReconciler_Reconcile (now1 now2 : Z) (w : W) (publisher : option P)
    (req : NamespacedName) : result unit * W * option P :=
  match Get_TokenPolicy w req with
  | NotFound => let '(r, publisher) := rebuildIssuanceRules w publisher in (r, w, publisher)
  | GetFailed e => (Err e, w, publisher)
  | Found policy =>
    match StatusUpdate_TokenPolicy w (reconciledTokenPolicy now1 now2 policy) with
    | (Err e, w) => (Err e, w, publisher)
    | (Ok _, w) => let '(r, publisher) := rebuildIssuanceRules w publisher in (r, w, publisher)
    end
  end.
End reconcilers.
