(* ===== verification/GoSort.v ===== *)
(** * sort.Slice on string keys

    The program sorts rules by tuples of strings.  [sort.Slice] is any sorting
    algorithm: [sortBy] is one, and [sortBy_unique] says that when the keys are
    distinct every sorted permutation is its result, whatever order the input
    came in. *)

From S2P Require Import Prelude.

(** [a < b] on Go strings: bytewise. *)
Definition str_less (a b : string) : bool := String.ltb a b.

(** [if a1 != b1 { return a1 < b1 }; ...; return an < bn]. *)
Fixpoint lexLess (a b : list string) : bool :=
  match a, b with
  | x :: a, y :: b => if negb (bool_decide (x = y)) then str_less x y else lexLess a b
  | [], _ :: _ => true
  | _, [] => false
  end.

(** Not out of order: [less(b, a)] is false. *)
Definition key_le {A} (key : A → list string) (a b : A) : Prop :=
  lexLess (key b) (key a) = false.
#[export] Instance key_le_dec {A} (key : A → list string) : RelDecision (key_le key) :=
  λ a b, decide (lexLess _ _ = false).

Definition sortBy {A} (key : A → list string) (l : list A) : list A := merge_sort (key_le key) l.

(** ** The order *)

Lemma str_less_le a b : str_less a b = true ↔ String.le a b ∧ a ≠ b.
Proof.
  unfold str_less, String.ltb, String.le, String.leb.
  destruct (String.compare a b) eqn:E; simpl.
  - apply String.compare_eq_iff in E. naive_solver.
  - split; [|done]. intros _. split; [done|]. intros ->.
    pose proof (String.compare_antisym b b) as Ha. by rewrite E in Ha.
  - naive_solver.
Qed.

Lemma str_less_trans a b c : str_less a b = true → str_less b c = true → str_less a c = true.
Proof.
  rewrite !str_less_le. intros [Hab Hn] [Hbc Hn']. split; [by trans b|].
  intros ->. apply Hn. by apply (anti_symm String.le).
Qed.

Lemma str_less_total a b : a ≠ b → str_less a b = false → str_less b a = true.
Proof.
  rewrite <-not_true_iff_false, !str_less_le. intros Hne Hn.
  destruct (total String.le a b); naive_solver.
Qed.

Lemma str_less_asym a b : str_less a b = true → str_less b a = false.
Proof.
  rewrite <-not_true_iff_false, !str_less_le. intros [Hab Hn] [Hba _].
  apply Hn. by apply (anti_symm String.le).
Qed.

Lemma lexLess_irrefl a : lexLess a a = false.
Proof. induction a as [|x a IH]; simpl; [done|]. by rewrite bool_decide_true. Qed.

Lemma lexLess_total a b : lexLess a b = false → lexLess b a = false → a = b.
Proof.
  revert b. induction a as [|x a IH]; intros [|y b]; simpl; [done..|].
  case_bool_decide as Hxy; simpl.
  - subst y. rewrite bool_decide_true by done. simpl. intros ??. f_equal. by apply IH.
  - rewrite bool_decide_false by done. simpl. intros Hn Hn'.
    rewrite (str_less_total x y) in Hn' by done. done.
Qed.

Lemma lexLess_asym a b : lexLess a b = true → lexLess b a = false.
Proof.
  revert b. induction a as [|x a IH]; intros [|y b]; simpl; [done..|].
  case_bool_decide as Hxy; simpl.
  - subst y. rewrite bool_decide_true by done. apply IH.
  - rewrite bool_decide_false by done. apply str_less_asym.
Qed.

Lemma lexLess_trans a b c : lexLess a b = true → lexLess b c = true → lexLess a c = true.
Proof.
  revert b c. induction a as [|x a IH]; intros [|y b] [|z c]; simpl; try done.
  case_bool_decide as Hxy; case_bool_decide as Hyz; simpl; subst.
  - rewrite bool_decide_true by done. apply IH.
  - rewrite bool_decide_false by done. done.
  - rewrite bool_decide_false by done. done.
  - intros H1 H2. pose proof (str_less_trans _ _ _ H1 H2) as H3.
    rewrite bool_decide_false; [done|]. intros ->.
    rewrite (str_less_asym _ _ H1) in H2. done.
Qed.

Lemma lexLess_false_trans a b c : lexLess b a = false → lexLess c b = false → lexLess c a = false.
Proof.
  intros H1 H2. destruct (lexLess c a) eqn:E; [|done].
  destruct (lexLess a b) eqn:Hab.
  - rewrite (lexLess_trans c a b) in H2 by done. done.
  - rewrite (lexLess_total a b) in E by done. congruence.
Qed.

Section sortBy.
Context {A : Type} (key : A → list string).

#[export] Instance key_le_trans : Transitive (key_le key).
Proof. intros a b c. apply lexLess_false_trans. Qed.
#[export] Instance key_le_total : Total (key_le key).
Proof.
  intros a b. unfold key_le. destruct (lexLess (key b) (key a)) eqn:E; [|by left].
  right. by apply lexLess_asym.
Qed.

Lemma sortBy_Permutation l : sortBy key l ≡ₚ l.
Proof. apply merge_sort_Permutation. Qed.

Lemma sortBy_sorted l : StronglySorted (key_le key) (sortBy key l).
Proof. apply (StronglySorted_merge_sort (key_le key)). Qed.

(** When keys identify the elements, the sorted list depends only on which
    elements there are: any algorithm gives it from any order of the input. *)
Lemma sorted_unique l l' :
  (∀ a b, a ∈ l → b ∈ l → key a = key b → a = b) →
  StronglySorted (key_le key) l → StronglySorted (key_le key) l' → l ≡ₚ l' → l = l'.
Proof.
  intros Hinj Hl Hl' HP. apply (StronglySorted_unique_strong (key_le key)); [|done..].
  intros a b Ha Hb Hab Hba. apply Hinj; [done|by rewrite HP|]. by apply lexLess_total.
Qed.

Lemma sortBy_unique l l' :
  (∀ a b, a ∈ l → b ∈ l → key a = key b → a = b) →
  StronglySorted (key_le key) l' → l' ≡ₚ l → l' = sortBy key l.
Proof.
  intros Hinj Hs HP. apply sorted_unique; [|done|apply sortBy_sorted|].
  - intros a b. rewrite HP. apply Hinj.
  - by rewrite sortBy_Permutation.
Qed.

Lemma sortBy_Proper l l' :
  (∀ a b, a ∈ l → b ∈ l → key a = key b → a = b) →
  l ≡ₚ l' → sortBy key l = sortBy key l'.
Proof.
  intros Hinj HP. apply sorted_unique; [|apply sortBy_sorted..|by rewrite !sortBy_Permutation].
  intros a b. rewrite sortBy_Permutation. apply Hinj.
Qed.
End sortBy.
