(* ===== verification/RulesProto.v ===== *)
(** * gen/kontxt/rules/v1: the messages of the rule discovery service

    The generated structs as records.  A pointer to a message that may be nil is
    an [option]; elements of repeated fields and values of map fields are never
    nil after decoding.  The three response types differ in the rule they
    carry. *)

From S2P Require Import Prelude.

Record ProtoEndpointSpec := { pep_Path : string; pep_Method : string }.

Record ProtoTctxFieldMapping := { ptfm_Source : string; ptfm_Field : string; ptfm_Required : bool }.

Record ProtoTctxEnrichment := { pte_Field : string; pte_Enricher : string }.

Record ProtoCELRule := { pcel_Name : string; pcel_Cel : string; pcel_Message : string }.

Record ProtoGenerationRule := {
  pgr_Namespace : string; pgr_Name : string; pgr_Endpoint : option ProtoEndpointSpec;
  pgr_Purpose : string; pgr_Scope : string; pgr_TctxMapping : gmap string ProtoTctxFieldMapping;
  pgr_TctxEnrichments : list ProtoTctxEnrichment; pgr_RctxFields : list string;
  pgr_TokenLifetime : string;
}.

Record ProtoVerificationRule := {
  pvr_Namespace : string; pvr_Name : string; pvr_ServiceName : string; pvr_RequiredScope : string;
  pvr_RequiredTctxFields : list string; pvr_CelRules : list ProtoCELRule;
  pvr_ExcludedEndpoints : list ProtoEndpointSpec; pvr_AutoNarrow : bool;
}.

Record ProtoIssuanceRule := {
  pri_PolicyNamespace : string; pri_PolicyName : string; pri_RuleName : string;
  pri_Cel : string; pri_Message : string; pri_TargetNamespaces : list string;
}.

(** [RuleRef]: a rule, or for issuance rules the policy whose rules are removed. *)
Record RuleRef := { ref_Namespace : string; ref_Name : string }.

(** The [oneof update] of a response carrying rules of type [P]. *)
Inductive RuleUpdate (P : Type) : Type :=
  | Snapshot (Rules : list P)
  | Delta (Upserted : list P) (Removed : list RuleRef).
Arguments Snapshot {_} _.
Arguments Delta {_} _ _.

(** [Stream*RulesResponse]; [None] is an unset oneof. *)
Record StreamResponse (P : Type) := {
  resp_Update : option (RuleUpdate P);
  resp_VersionInfo : string;
}.
Arguments resp_Update {_} _.
Arguments resp_VersionInfo {_} _.
Arguments Build_StreamResponse {_} _ _.
