(* ===== verification/RuleServer.v ===== *)
(** * internal/controller/ruleserver: the rule distribution server

    For each of the three rule kinds the server keeps the rules, a version and
    a channel per connected client: the record [Feed] ([generationRules],
    [genVersion] and [genSubscribers] of the source are the fields of [gen], and
    so on).  A channel is the list of the messages in it, oldest first.  An
    operation runs under the server's mutex and is one step; a stream RPC is
    three: it subscribes, forwards one message at a time, and leaves. *)

From stdpp Require Import pretty.
From S2P Require Import Prelude Api RulesProto.

Local Open Scope Z_scope.

(** ** Conversions to messages *)

Definition endpointToProto (e : EndpointSpec) : ProtoEndpointSpec :=
  {| pep_Path := ep_Path e; pep_Method := ep_Method e |}.

Definition generationRuleToProto (r : GenerationRule) : ProtoGenerationRule :=
  {| pgr_Namespace := gr_Namespace r; pgr_Name := gr_Name r; pgr_Purpose := gr_Purpose r;
     pgr_Scope := gr_Scope r; pgr_RctxFields := gr_RctxFields r;
     pgr_TokenLifetime := gr_TokenLifetime r;
     pgr_Endpoint :=
       if negb (bool_decide (ep_Path (gr_Endpoint r) = ""))
          || negb (bool_decide (ep_Method (gr_Endpoint r) = ""))
       then Some (endpointToProto (gr_Endpoint r)) else None;
     pgr_TctxMapping :=
       if (0 <? size (gr_TctxMapping r))%nat
       then (λ v, {| ptfm_Source := tfm_Source v; ptfm_Field := tfm_Field v;
                     ptfm_Required := tfm_Required v |}) <$> gr_TctxMapping r
       else ∅;
     pgr_TctxEnrichments :=
       if (0 <? length (gr_TctxEnrichments r))%nat
       then map (λ e, {| pte_Field := te_Field e; pte_Enricher := te_Enricher e |})
                (gr_TctxEnrichments r)
       else [] |}.

Definition generationRulesToProto (rules : list GenerationRule) : list ProtoGenerationRule :=
  map generationRuleToProto rules.

Definition verificationRuleToProto (r : VerificationRule) : ProtoVerificationRule :=
  {| pvr_Namespace := vr_Namespace r; pvr_Name := vr_Name r; pvr_ServiceName := vr_ServiceName r;
     pvr_RequiredScope := vr_RequiredScope r; pvr_RequiredTctxFields := vr_RequiredTctxFields r;
     pvr_AutoNarrow := vr_AutoNarrow r;
     pvr_CelRules :=
       if (0 <? length (vr_CELRules r))%nat
       then map (λ c, {| pcel_Name := cel_Name c; pcel_Cel := cel_CEL c;
                         pcel_Message := cel_Message c |}) (vr_CELRules r)
       else [];
     pvr_ExcludedEndpoints :=
       if (0 <? length (vr_ExcludedEndpoints r))%nat
       then map endpointToProto (vr_ExcludedEndpoints r) else [] |}.

Definition verificationRulesToProto (rules : list VerificationRule) : list ProtoVerificationRule :=
  map verificationRuleToProto rules.

Definition issuanceRuleToProto (r : PublishedIssuanceRule) : ProtoIssuanceRule :=
  {| pri_PolicyNamespace := pir_PolicyNamespace r; pri_PolicyName := pir_PolicyName r;
     pri_RuleName := pir_RuleName r; pri_Cel := pir_CEL r; pri_Message := pir_Message r;
     pri_TargetNamespaces := pir_TargetNamespaces r |}.

Definition issuanceRulesToProto (rules : list PublishedIssuanceRule) : list ProtoIssuanceRule :=
  map issuanceRuleToProto rules.

(** ** State *)

Record Feed (R P : Type) := {
  fd_rules : list R;
  fd_version : Z;
  fd_subscribers : gmap string (list (StreamResponse P));
}.
Arguments fd_rules {_ _} _.
Arguments fd_version {_ _} _.
Arguments fd_subscribers {_ _} _.
Arguments Build_Feed {_ _} _ _ _.

Record RuleServer := {
  gen : Feed GenerationRule ProtoGenerationRule;
  ver : Feed VerificationRule ProtoVerificationRule;
  iss : Feed PublishedIssuanceRule ProtoIssuanceRule;
  subIDCounter : Z;
}.

Definition set_gen (s : RuleServer) f : RuleServer :=
  {| gen := f; ver := ver s; iss := iss s; subIDCounter := subIDCounter s |}.
Definition set_ver (s : RuleServer) f : RuleServer :=
  {| gen := gen s; ver := f; iss := iss s; subIDCounter := subIDCounter s |}.
Definition set_iss (s : RuleServer) f : RuleServer :=
  {| gen := gen s; ver := ver s; iss := f; subIDCounter := subIDCounter s |}.

Definition emptyFeed {R P} : Feed R P := Build_Feed [] 0 ∅.

Definition NewRuleServer : RuleServer :=
  {| gen := emptyFeed; ver := emptyFeed; iss := emptyFeed; subIDCounter := 0 |}.

(** ** Broadcasting *)

(** [atomic.Uint64.Add(1)]. *)
Definition addOne (v : Z) : Z := (v + 1) mod 2 ^ 64.

(** The capacity of a subscriber's channel. *)
Definition channelCapacity : nat := 64.

(** [select { case ch <- resp: default: }]: a full channel drops the message. *)
Definition trySend {M} (ch : list M) (resp : M) : list M :=
  if (length ch <? channelCapacity)%nat then ch ++ [resp] else ch.

(** The common tail of the update operations: the next version, and the message
    to every subscriber. *)
Definition broadcast {R P} (f : Feed R P) (rules : list R) (u : RuleUpdate P) : Feed R P :=
  let v := addOne (fd_version f) in
  let resp := Build_StreamResponse (Some u) (pretty v) in
  Build_Feed rules v ((λ ch, trySend ch resp) <$> fd_subscribers f).

(** The loop that replaces the first rule with the same key, or appends. *)
Fixpoint upsertRule {R} (same : R → bool) (rule : R) (rules : list R) : list R :=
  match rules with
  | [] => [rule]
  | r :: rules => if same r then rule :: rules else r :: upsertRule same rule rules
  end.

(** The loop that removes the first rule with the key. *)
Fixpoint removeFirst {R} (same : R → bool) (rules : list R) : list R :=
  match rules with
  | [] => []
  | r :: rules => if same r then rules else r :: removeFirst same rules
  end.

(** ** Generation rules *)

Definition sameGenerationRule (namespace name : string) (r : GenerationRule) : bool :=
  bool_decide (gr_Namespace r = namespace) && bool_decide (gr_Name r = name).

Definition UpdateGenerationRules (s : RuleServer) (rules : list GenerationRule) : RuleServer :=
  set_gen s (broadcast (gen s) rules (Snapshot (generationRulesToProto rules))).

Definition UpsertGenerationRule (s : RuleServer) (rule : GenerationRule) : RuleServer :=
  set_gen s (broadcast (gen s)
    (upsertRule (sameGenerationRule (gr_Namespace rule) (gr_Name rule)) rule (fd_rules (gen s)))
    (Delta (generationRulesToProto [rule]) [])).

Definition RemoveGenerationRule (s : RuleServer) (namespace name : string) : RuleServer :=
  set_gen s (broadcast (gen s)
    (removeFirst (sameGenerationRule namespace name) (fd_rules (gen s)))
    (Delta [] [{| ref_Namespace := namespace; ref_Name := name |}])).

(** ** Verification rules *)

Definition sameVerificationRule (namespace name : string) (r : VerificationRule) : bool :=
  bool_decide (vr_Namespace r = namespace) && bool_decide (vr_Name r = name).

Definition UpdateVerificationRules (s : RuleServer) (rules : list VerificationRule) : RuleServer :=
  set_ver s (broadcast (ver s) rules (Snapshot (verificationRulesToProto rules))).

Definition UpsertVerificationRule (s : RuleServer) (rule : VerificationRule) : RuleServer :=
  set_ver s (broadcast (ver s)
    (upsertRule (sameVerificationRule (vr_Namespace rule) (vr_Name rule)) rule (fd_rules (ver s)))
    (Delta (verificationRulesToProto [rule]) [])).

Definition RemoveVerificationRule (s : RuleServer) (namespace name : string) : RuleServer :=
  set_ver s (broadcast (ver s)
    (removeFirst (sameVerificationRule namespace name) (fd_rules (ver s)))
    (Delta [] [{| ref_Namespace := namespace; ref_Name := name |}])).

(** ** Issuance rules *)

Definition sameIssuanceRule (rule r : PublishedIssuanceRule) : bool :=
  bool_decide (pir_PolicyNamespace r = pir_PolicyNamespace rule)
  && bool_decide (pir_PolicyName r = pir_PolicyName rule)
  && bool_decide (pir_RuleName r = pir_RuleName rule).

Definition UpdateIssuanceRules (s : RuleServer) (rules : list PublishedIssuanceRule) : RuleServer :=
  set_iss s (broadcast (iss s) rules (Snapshot (issuanceRulesToProto rules))).

Definition UpsertIssuanceRule (s : RuleServer) (rule : PublishedIssuanceRule) : RuleServer :=
  set_iss s (broadcast (iss s) (upsertRule (sameIssuanceRule rule) rule (fd_rules (iss s)))
    (Delta (issuanceRulesToProto [rule]) [])).

(** The loop that keeps the rules of the other policies. *)
Fixpoint dropPolicy (policyNamespace policyName : string) (rules : list PublishedIssuanceRule)
  : list PublishedIssuanceRule :=
  match rules with
  | [] => []
  | r :: rules =>
    if bool_decide (pir_PolicyNamespace r = policyNamespace)
       && bool_decide (pir_PolicyName r = policyName)
    then dropPolicy policyNamespace policyName rules
    else r :: dropPolicy policyNamespace policyName rules
  end.

Definition RemoveIssuanceRule (s : RuleServer) (policyNamespace policyName : string) : RuleServer :=
  set_iss s (broadcast (iss s) (dropPolicy policyNamespace policyName (fd_rules (iss s)))
    (Delta [] [{| ref_Namespace := policyNamespace; ref_Name := policyName |}])).

(** ** Streams *)

(** The snapshot a new subscriber is sent first ([build*Snapshot]). *)
Definition buildSnapshot {R P} (toProto : list R → list P) (f : Feed R P) : StreamResponse P :=
  Build_StreamResponse (Some (Snapshot (toProto (fd_rules f)))) (pretty (fd_version f)).

Definition buildGenSnapshot (s : RuleServer) : StreamResponse ProtoGenerationRule :=
  buildSnapshot generationRulesToProto (gen s).
Definition buildVerSnapshot (s : RuleServer) : StreamResponse ProtoVerificationRule :=
  buildSnapshot verificationRulesToProto (ver s).
Definition buildIssSnapshot (s : RuleServer) : StreamResponse ProtoIssuanceRule :=
  buildSnapshot issuanceRulesToProto (iss s).

(** A subscriber joins with an empty channel, takes the oldest message of its
    channel, and leaves. *)
Definition subscribe {R P} (f : Feed R P) (id : string) : Feed R P :=
  Build_Feed (fd_rules f) (fd_version f) (<[id := []]> (fd_subscribers f)).
Definition takeMessage {R P} (f : Feed R P) (id : string) : option (StreamResponse P * Feed R P) :=
  match fd_subscribers f !! id with
  | Some (resp :: ch) =>
    Some (resp, Build_Feed (fd_rules f) (fd_version f) (<[id := ch]> (fd_subscribers f)))
  | _ => None
  end.
Definition unsubscribe {R P} (f : Feed R P) (id : string) : Feed R P :=
  Build_Feed (fd_rules f) (fd_version f) (delete id (fd_subscribers f)).

Definition nextID (prefix : string) (s : RuleServer) : string * RuleServer :=
  let n := addOne (subIDCounter s) in
  (prefix +:+ pretty n, {| gen := gen s; ver := ver s; iss := iss s; subIDCounter := n |}).

(** The opening of a stream: the client's first request was received; the
    result is the subscription and the snapshot to send. *)
Definition StreamGenerationRules (s : RuleServer)
  : string * StreamResponse ProtoGenerationRule * RuleServer :=
  let '(id, s) := nextID "gen-" s in
  let s := set_gen s (subscribe (gen s) id) in (id, buildGenSnapshot s, s).
Definition StreamVerificationRules (s : RuleServer)
  : string * StreamResponse ProtoVerificationRule * RuleServer :=
  let '(id, s) := nextID "ver-" s in
  let s := set_ver s (subscribe (ver s) id) in (id, buildVerSnapshot s, s).
Definition StreamIssuanceRules (s : RuleServer)
  : string * StreamResponse ProtoIssuanceRule * RuleServer :=
  let '(id, s) := nextID "iss-" s in
  let s := set_iss s (subscribe (iss s) id) in (id, buildIssSnapshot s, s).
