(* ===== verification/RuleServerProps.v ===== *)
(** * internal/controller/ruleserver: the server as a state machine

    Every operation takes the server's mutex, so a run of the server is a
    sequence of the steps of [server_step], in any order.  The invariant
    [server_ok] holds in every state reached in fewer than 2^64 steps, the bound
    below which the version and subscription counters do not wrap. *)

From stdpp Require Import relations pretty.
From S2P Require Import Prelude GoStrings Api RulesProto RuleServer.

Local Open Scope Z_scope.

(** ** Steps *)

Inductive server_step : relation RuleServer :=
  | step_UpdateGeneration s rules : server_step s (UpdateGenerationRules s rules)
  | step_UpsertGeneration s rule : server_step s (UpsertGenerationRule s rule)
  | step_RemoveGeneration s ns n : server_step s (RemoveGenerationRule s ns n)
  | step_UpdateVerification s rules : server_step s (UpdateVerificationRules s rules)
  | step_UpsertVerification s rule : server_step s (UpsertVerificationRule s rule)
  | step_RemoveVerification s ns n : server_step s (RemoveVerificationRule s ns n)
  | step_UpdateIssuance s rules : server_step s (UpdateIssuanceRules s rules)
  | step_UpsertIssuance s rule : server_step s (UpsertIssuanceRule s rule)
  | step_RemoveIssuance s ns n : server_step s (RemoveIssuanceRule s ns n)
  | step_StreamGeneration s : server_step s (StreamGenerationRules s).2
  | step_StreamVerification s : server_step s (StreamVerificationRules s).2
  | step_StreamIssuance s : server_step s (StreamIssuanceRules s).2
  | step_TakeGeneration s id m f : takeMessage (gen s) id = Some (m, f) → server_step s (set_gen s f)
  | step_TakeVerification s id m f : takeMessage (ver s) id = Some (m, f) → server_step s (set_ver s f)
  | step_TakeIssuance s id m f : takeMessage (iss s) id = Some (m, f) → server_step s (set_iss s f)
  | step_LeaveGeneration s id : server_step s (set_gen s (unsubscribe (gen s) id))
  | step_LeaveVerification s id : server_step s (set_ver s (unsubscribe (ver s) id))
  | step_LeaveIssuance s id : server_step s (set_iss s (unsubscribe (iss s) id)).

(** ** Well-formed feeds *)

(** The messages of a channel carry increasing versions, none above [v]. *)
Definition in_order {P} (v : Z) (ch : list (StreamResponse P)) : Prop :=
  ∃ vs, StronglySorted Z.lt vs ∧ Forall (λ u, 0 < u ≤ v) vs ∧ map resp_VersionInfo ch = map pretty vs.

(** [counter] subscriptions were made, and fewer than [bound] steps. *)
Record feed_ok {R P} (prefix : string) (counter bound : Z) (f : Feed R P) : Prop := {
  fo_version : 0 ≤ fd_version f ≤ bound;
  fo_ids : ∀ id, is_Some (fd_subscribers f !! id) → ∃ k, 1 ≤ k ≤ counter ∧ id = prefix +:+ pretty k;
  fo_channels : ∀ id ch, fd_subscribers f !! id = Some ch →
    (length ch ≤ channelCapacity)%nat ∧ in_order (fd_version f) ch;
}.

Record server_ok (bound : Z) (s : RuleServer) : Prop := {
  so_counter : 0 ≤ subIDCounter s ≤ bound;
  so_gen : feed_ok "gen-" (subIDCounter s) bound (gen s);
  so_ver : feed_ok "ver-" (subIDCounter s) bound (ver s);
  so_iss : feed_ok "iss-" (subIDCounter s) bound (iss s);
}.

Lemma in_order_mono {P} v v' (ch : list (StreamResponse P)) : v ≤ v' → in_order v ch → in_order v' ch.
Proof.
  intros Hv (vs & Hs & Hb & Hm). exists vs. split_and!; [done| |done].
  eapply Forall_impl; [exact Hb|]. simpl. lia.
Qed.

Lemma in_order_snoc {P} v (ch : list (StreamResponse P)) m :
  0 ≤ v → in_order v ch → resp_VersionInfo m = pretty (v + 1) → in_order (v + 1) (ch ++ [m]).
Proof.
  intros Hv (vs & Hs & Hb & Hm) Hver. exists (vs ++ [v + 1]). split_and!.
  - clear Hm. induction Hs as [|u vs Hs IH Hu]; simpl; [by repeat constructor|].
    apply Forall_cons in Hb as [Hub Hb]. constructor; [by apply IH|].
    apply Forall_app. split; [done|]. apply Forall_singleton. lia.
  - apply Forall_app. split; [|apply Forall_singleton; lia].
    eapply Forall_impl; [exact Hb|]. simpl. lia.
  - rewrite !map_app. simpl. by rewrite Hm, Hver.
Qed.

Lemma in_order_tail {P} v m (ch : list (StreamResponse P)) : in_order v (m :: ch) → in_order v ch.
Proof.
  intros (vs & Hs & Hb & Hm). destruct vs as [|u vs]; [done|]. injection Hm as _ Hm. exists vs.
  apply StronglySorted_inv in Hs as [Hs _]. by apply Forall_cons in Hb as [_ Hb].
Qed.

Section feed.
Context {R P : Type} (prefix : string).
Implicit Types f : Feed R P.

Lemma feed_ok_mono c c' b b' f : c ≤ c' → b ≤ b' → feed_ok prefix c b f → feed_ok prefix c' b' f.
Proof.
  intros Hc Hb [Hv Hi Hch]. split; [lia| |done]. intros id Hid.
  destruct (Hi id Hid) as (k & ? & ?). exists k. split; [lia|done].
Qed.

Lemma feed_ok_broadcast c b f rules u :
  b + 1 < 2 ^ 64 → feed_ok prefix c b f → feed_ok prefix c (b + 1) (broadcast f rules u).
Proof.
  intros Hb [Hv Hi Hch].
  assert (addOne (fd_version f) = fd_version f + 1) as Ha by (unfold addOne; rewrite Z.mod_small; lia).
  split; simpl; rewrite ?Ha; [lia| |].
  - intros id [ch Hid]. rewrite lookup_fmap_Some in Hid. destruct Hid as (ch' & _ & Hid). eauto.
  - intros id ch. rewrite lookup_fmap_Some. intros (ch' & <- & Hid).
    destruct (Hch id ch' Hid) as [Hl Ho]. unfold trySend.
    destruct (Nat.ltb_spec (length ch') channelCapacity).
    + rewrite length_app. simpl. split; [lia|]. apply in_order_snoc; [lia|done|done].
    + split; [done|]. eapply in_order_mono; [|exact Ho]. lia.
Qed.

Lemma feed_ok_take c b f id m f' :
  takeMessage f id = Some (m, f') → feed_ok prefix c b f → feed_ok prefix c b f'.
Proof.
  unfold takeMessage. destruct (fd_subscribers f !! id) as [[|m' ch]|] eqn:Hid; [done| |done].
  intros [= <- <-] [Hv Hi Hch]. split; simpl; [done| |].
  - intros id' Hid'. apply Hi. destruct (decide (id' = id)) as [->|]; [by rewrite Hid|].
    by rewrite lookup_insert_ne in Hid'.
  - intros id' ch'. rewrite lookup_insert_Some. intros [[<- <-]|[_ Hid']]; [|by apply (Hch id')].
    destruct (Hch _ _ Hid) as [Hl Ho]. simpl in Hl. split; [lia|]. by eapply in_order_tail.
Qed.

Lemma feed_ok_unsubscribe c b f id : feed_ok prefix c b f → feed_ok prefix c b (unsubscribe f id).
Proof.
  intros [Hv Hi Hch]. split; simpl; [done| |].
  - intros id' [ch Hid']. apply lookup_delete_Some in Hid' as [_ Hid']. eauto.
  - intros id' ch Hid'. apply lookup_delete_Some in Hid' as [_ Hid']. eauto.
Qed.

Lemma feed_ok_subscribe c b f :
  0 ≤ c → feed_ok prefix c b f → feed_ok prefix (c + 1) b (subscribe f (prefix +:+ pretty (c + 1))).
Proof.
  intros Hc [Hv Hi Hch]. split; simpl; [done| |].
  - intros id [ch Hid]. apply lookup_insert_Some in Hid as [[<- _]|[_ Hid]].
    + exists (c + 1). split; [lia|done].
    + destruct (Hi id) as (k & ? & ?); [eauto|]. exists k. split; [lia|done].
  - intros id ch Hid. apply lookup_insert_Some in Hid as [[_ <-]|[_ Hid]]; [|by apply (Hch id)].
    split; [simpl; lia|]. exists []. by repeat constructor.
Qed.

(** The identifier of the next subscription is not in use. *)
Lemma feed_ok_fresh c b f : feed_ok prefix c b f → fd_subscribers f !! (prefix +:+ pretty (c + 1)) = None.
Proof.
  intros [_ Hi _]. destruct (_ !! _) as [ch|] eqn:Hid; [|done].
  destruct (Hi (prefix +:+ pretty (c + 1))) as (k & Hk & Heq); [by eexists|]. exfalso.
  assert (pretty (c + 1) = pretty k) as Hp.
  { revert Heq. clear. induction prefix as [|a p IH]; [done|]. rewrite !str_app_cons. by intros [= ?%IH]. }
  apply (inj pretty) in Hp. lia.
Qed.
End feed.

(** ** Reachable states *)

Lemma server_ok_start : server_ok 0 NewRuleServer.
Proof.
  split; [simpl; lia|..]; (split; simpl; [lia|intros id [ch Hid]|intros id ch Hid]); simplify_map_eq.
Qed.

Lemma server_ok_mono b b' s : b ≤ b' → server_ok b s → server_ok b' s.
Proof.
  intros Hb [Hc Hg Hv Hi]. split; [lia|..]; by (eapply feed_ok_mono; [done|exact Hb|]).
Qed.

(** A step on one feed keeps the others. *)
Lemma server_ok_gen b s f :
  server_ok b s → feed_ok "gen-" (subIDCounter s) b f → server_ok b (set_gen s f).
Proof. by intros [Hc Hg Hv Hi] Hf. Qed.
Lemma server_ok_ver b s f :
  server_ok b s → feed_ok "ver-" (subIDCounter s) b f → server_ok b (set_ver s f).
Proof. by intros [Hc Hg Hv Hi] Hf. Qed.
Lemma server_ok_iss b s f :
  server_ok b s → feed_ok "iss-" (subIDCounter s) b f → server_ok b (set_iss s f).
Proof. by intros [Hc Hg Hv Hi] Hf. Qed.

#[local] Hint Resolve server_ok_gen server_ok_ver server_ok_iss feed_ok_broadcast feed_ok_unsubscribe
  so_gen so_ver so_iss : kontxt.

(** A subscription takes the next number. *)
Ltac subscribed :=
  unfold StreamGenerationRules, StreamVerificationRules, StreamIssuanceRules, nextID, addOne; simpl;
  rewrite Z.mod_small by lia; split; simpl; [lia|..];
  (eapply feed_ok_mono; [|apply Z.le_refl|]; [|first [by apply feed_ok_subscribe; [lia|]|eassumption]]; lia).

Lemma server_step_ok b s s' :
  b + 1 < 2 ^ 64 → server_ok b s → server_step s s' → server_ok (b + 1) s'.
Proof.
  intros Hb Hs Hstep. pose proof (server_ok_mono b (b + 1) s ltac:(lia) Hs) as Hs1.
  destruct Hstep; try (by unfold UpdateGenerationRules, UpsertGenerationRule, RemoveGenerationRule,
    UpdateVerificationRules, UpsertVerificationRule, RemoveVerificationRule,
    UpdateIssuanceRules, UpsertIssuanceRule, RemoveIssuanceRule; auto with kontxt).
  1-3: destruct Hs as [Hc _ _ _], Hs1 as [_ Hg Hv Hi]; subscribed.
  - apply server_ok_gen; [done|]. eapply feed_ok_take; [done|apply Hs1].
  - apply server_ok_ver; [done|]. eapply feed_ok_take; [done|apply Hs1].
  - apply server_ok_iss; [done|]. eapply feed_ok_take; [done|apply Hs1].
Qed.

Lemma server_reachable_ok n s :
  nsteps server_step n NewRuleServer s → Z.of_nat n < 2 ^ 64 → server_ok (Z.of_nat n) s.
Proof.
  revert s. induction n as [|n IH]; intros s Hn Hb.
  - inversion Hn; subst. apply server_ok_start.
  - apply nsteps_inv_r in Hn as (s1 & Hn & Hstep). rewrite Nat2Z.inj_succ in *. unfold Z.succ in *.
    eapply server_step_ok; [done| |done]. apply IH; [done|lia].
Qed.

(** What opening a stream does to the subscribers there are. *)
Definition joins {R P} (f f' : Feed R P) (id : string) : Prop :=
  fd_subscribers f !! id = None ∧ fd_subscribers f' !! id = Some [] ∧
  ∀ id' ch, fd_subscribers f !! id' = Some ch → fd_subscribers f' !! id' = Some ch.

Lemma subscribe_joins {R P} (f : Feed R P) id :
  fd_subscribers f !! id = None → joins f (subscribe f id) id.
Proof.
  intros Hid. split_and!; [done|apply lookup_insert_eq|]. intros id' ch Hch. simpl.
  rewrite lookup_insert_ne; [done|]. congruence.
Qed.

(** C22.  The rule server's state stays well-formed: in every state it reaches in
    fewer than 2^64 steps, through updates, deltas, streams that open, forward
    and close, in any order, no channel holds more than its capacity, the
    messages of a channel have strictly increasing versions, none above the
    server's; and a stream that opens gets an identifier no other subscriber
    has, so that it never takes over another client's channel. *)
Theorem rule_server_well_formed n s :
  nsteps server_step n NewRuleServer s → Z.of_nat n + 1 < 2 ^ 64 →
  server_ok (Z.of_nat n) s ∧
  joins (gen s) (gen (StreamGenerationRules s).2) (StreamGenerationRules s).1.1 ∧
  joins (ver s) (ver (StreamVerificationRules s).2) (StreamVerificationRules s).1.1 ∧
  joins (iss s) (iss (StreamIssuanceRules s).2) (StreamIssuanceRules s).1.1.
Proof.
  intros Hn Hb. pose proof (server_reachable_ok n s Hn ltac:(lia)) as Hs. split; [done|].
  destruct Hs as [Hc Hg Hv Hi].
  unfold StreamGenerationRules, StreamVerificationRules, StreamIssuanceRules, nextID, addOne. simpl.
  rewrite Z.mod_small by lia.
  split_and!; apply subscribe_joins; by eapply feed_ok_fresh.
Qed.

Module RuleServerExample.
(** A client connects, a rule set is published, another client connects. *)
Definition run : RuleServer :=
  (StreamGenerationRules (UpdateGenerationRules (StreamGenerationRules NewRuleServer).2 [])).2.

Lemma rule_server_well_formed_witness :
  (StreamGenerationRules run).1.1 = "gen-3" ∧
  joins (gen run) (gen (StreamGenerationRules run).2) "gen-3".
Proof.
  split; [reflexivity|].
  destruct (rule_server_well_formed 3 run) as (_ & Hj & _); [|lia|exact Hj].
  unfold run. eapply nsteps_l; [apply step_StreamGeneration|].
  eapply nsteps_l; [apply step_UpdateGeneration|]. apply nsteps_once, step_StreamGeneration.
Defined.
End RuleServerExample.
