(* ===== verification/RuleClient.v ===== *)
(** * The rule clients: pkg/extauth/ruleclient and pkg/tts/ruleclient

    A client keeps the rules of its stream in a map from keys; every message it
    receives changes the map, and the whole of it is handed to a setter
    ([install*]); then, in a second step, the client's flag is set ([mark*]).  A
    whole round of the loop is [on*Response]; opening a stream starts with an empty
    map.  [range] is the order in which Go visits the map. *)

From S2P Require Import Prelude GoStrings GoTime External Issuance Api RulesProto GoSort.

Local Open Scope Z_scope.

(** ** Conversions from messages *)

Definition protoToEndpoint (ep : ProtoEndpointSpec) : EndpointSpec :=
  {| ep_Path := pep_Path ep; ep_Method := pep_Method ep |}.

Definition protoToGenerationRule (pr : ProtoGenerationRule) : GenerationRule :=
  {| gr_Namespace := pgr_Namespace pr; gr_Name := pgr_Name pr; gr_Purpose := pgr_Purpose pr;
     gr_Scope := pgr_Scope pr; gr_RctxFields := pgr_RctxFields pr;
     gr_TokenLifetime := pgr_TokenLifetime pr;
     gr_Endpoint := match pgr_Endpoint pr with
                    | Some ep => protoToEndpoint ep
                    | None => {| ep_Path := ""; ep_Method := "" |}
                    end;
     gr_TctxMapping :=
       if (0 <? size (pgr_TctxMapping pr))%nat
       then (λ v, {| tfm_Source := ptfm_Source v; tfm_Field := ptfm_Field v;
                     tfm_Required := ptfm_Required v |}) <$> pgr_TctxMapping pr
       else ∅;
     gr_TctxEnrichments :=
       if (0 <? length (pgr_TctxEnrichments pr))%nat
       then map (λ e, {| te_Field := pte_Field e; te_Enricher := pte_Enricher e |})
                (pgr_TctxEnrichments pr)
       else [] |}.

Definition protoToVerificationRule (pr : ProtoVerificationRule) : VerificationRule :=
  {| vr_Namespace := pvr_Namespace pr; vr_Name := pvr_Name pr; vr_ServiceName := pvr_ServiceName pr;
     vr_RequiredScope := pvr_RequiredScope pr; vr_RequiredTctxFields := pvr_RequiredTctxFields pr;
     vr_AutoNarrow := pvr_AutoNarrow pr;
     vr_CELRules :=
       if (0 <? length (pvr_CelRules pr))%nat
       then map (λ c, {| cel_Name := pcel_Name c; cel_CEL := pcel_Cel c;
                         cel_Message := pcel_Message c |}) (pvr_CelRules pr)
       else [];
     vr_ExcludedEndpoints :=
       if (0 <? length (pvr_ExcludedEndpoints pr))%nat
       then map protoToEndpoint (pvr_ExcludedEndpoints pr) else [] |}.

Definition protoToIssuanceRule (pr : ProtoIssuanceRule) : PublishedIssuanceRule :=
  {| pir_PolicyNamespace := pri_PolicyNamespace pr; pir_PolicyName := pri_PolicyName pr;
     pir_RuleName := pri_RuleName pr; pir_CEL := pri_Cel pr; pir_Message := pri_Message pr;
     pir_TargetNamespaces := pri_TargetNamespaces pr |}.

(** ** Applying a message *)

(** [ruleKey{Namespace, Name}] and the TTS client's [ruleKey]. *)
Definition ruleKey : Type := string * string.
Definition issuanceKey : Type := string * string * string.

Definition generationKey (r : GenerationRule) : ruleKey := (gr_Namespace r, gr_Name r).
Definition verificationKey (r : VerificationRule) : ruleKey := (vr_Namespace r, vr_Name r).
Definition keyFor (r : PublishedIssuanceRule) : issuanceKey :=
  (pir_PolicyNamespace r, pir_PolicyName r, pir_RuleName r).

(** [for _, pr := range ... { r := convert(pr); rules[key(r)] = r }]. *)
Definition insertAll {R P K} `{Countable K} (convert : P → R) (key : R → K)
    (rules : gmap K R) (prs : list P) : gmap K R :=
  foldl (λ rules pr, let r := convert pr in <[key r := r]> rules) rules prs.

Definition applyGeneration (genRules : gmap ruleKey GenerationRule)
    (u : option (RuleUpdate ProtoGenerationRule)) : gmap ruleKey GenerationRule :=
  match u with
  | Some (Snapshot rules) => insertAll protoToGenerationRule generationKey ∅ rules
  | Some (Delta upserted removed) =>
    foldl (λ m ref, delete (ref_Namespace ref, ref_Name ref) m)
      (insertAll protoToGenerationRule generationKey genRules upserted) removed
  | None => genRules
  end.

Definition applyVerification (verRules : gmap ruleKey VerificationRule)
    (u : option (RuleUpdate ProtoVerificationRule)) : gmap ruleKey VerificationRule :=
  match u with
  | Some (Snapshot rules) => insertAll protoToVerificationRule verificationKey ∅ rules
  | Some (Delta upserted removed) =>
    foldl (λ m ref, delete (ref_Namespace ref, ref_Name ref) m)
      (insertAll protoToVerificationRule verificationKey verRules upserted) removed
  | None => verRules
  end.

(** The inner loop: every key of the policy is deleted. *)
Definition deletePolicy (ref : RuleRef) (rules : gmap issuanceKey PublishedIssuanceRule)
  : gmap issuanceKey PublishedIssuanceRule :=
  filter (λ kr, ¬ (kr.1.1.1 = ref_Namespace ref ∧ kr.1.1.2 = ref_Name ref)) rules.

Definition applyIssuance (rules : gmap issuanceKey PublishedIssuanceRule)
    (u : option (RuleUpdate ProtoIssuanceRule)) : gmap issuanceKey PublishedIssuanceRule :=
  match u with
  | Some (Snapshot prs) => insertAll protoToIssuanceRule keyFor ∅ prs
  | Some (Delta upserted removed) =>
    foldl (λ m ref, deletePolicy ref m)
      (insertAll protoToIssuanceRule keyFor rules upserted) removed
  | None => rules
  end.

(** ** The ext auth client *)

Class GenerationSetter (S : Type) := { SetGenerationRules : S → list GenerationRule → S }.
Class VerificationSetter (S : Type) := { SetVerificationRules : S → list VerificationRule → S }.

Section extauth_client.
Context {G V : Type} `{!GenerationSetter G, !VerificationSetter V}.

Record RuleClient := {
  genSet : option G; verSet : option V;
  genSynced : bool; verSynced : bool;
}.

Definition NewRuleClient : RuleClient :=
  {| genSet := None; verSet := None; genSynced := false; verSynced := false |}.

Definition SetGenerationSetter (c : RuleClient) (s : G) : RuleClient :=
  {| genSet := Some s; verSet := verSet c; genSynced := genSynced c; verSynced := verSynced c |}.
Definition SetVerificationSetter (c : RuleClient) (s : V) : RuleClient :=
  {| genSet := genSet c; verSet := Some s; genSynced := genSynced c; verSynced := verSynced c |}.

Definition Ready (c : RuleClient) : bool :=
  if bool_decide (is_Some (genSet c)) && negb (genSynced c) then false else
  if bool_decide (is_Some (verSet c)) && negb (verSynced c) then false else true.

(** A message of [streamGeneration], up to the call of the setter, with the map of
    the stream. *)
Definition installGeneration (range : gmap ruleKey GenerationRule → list (ruleKey * GenerationRule))
    (c : RuleClient) (genRules : gmap ruleKey GenerationRule)
    (resp : StreamResponse ProtoGenerationRule) : RuleClient * gmap ruleKey GenerationRule :=
  let genRules := applyGeneration genRules (resp_Update resp) in
  let rules := (range genRules).*2 in
  ({| genSet := (λ s, SetGenerationRules s rules) <$> genSet c; verSet := verSet c;
      genSynced := genSynced c; verSynced := verSynced c |}, genRules).
(** [c.genSynced.Store(true)]. *)
Definition markGeneration (c : RuleClient) : RuleClient :=
  {| genSet := genSet c; verSet := verSet c; genSynced := true; verSynced := verSynced c |}.

(** One round of the loop of [streamGeneration]. *)
Definition onGenerationResponse (range : gmap ruleKey GenerationRule → list (ruleKey * GenerationRule))
    (c : RuleClient) (genRules : gmap ruleKey GenerationRule)
    (resp : StreamResponse ProtoGenerationRule) : RuleClient * gmap ruleKey GenerationRule :=
  let '(c, genRules) := installGeneration range c genRules resp in (markGeneration c, genRules).

(** The same for [streamVerification]. *)
Definition installVerification
    (range : gmap ruleKey VerificationRule → list (ruleKey * VerificationRule))
    (c : RuleClient) (verRules : gmap ruleKey VerificationRule)
    (resp : StreamResponse ProtoVerificationRule) : RuleClient * gmap ruleKey VerificationRule :=
  let verRules := applyVerification verRules (resp_Update resp) in
  let rules := (range verRules).*2 in
  ({| genSet := genSet c; verSet := (λ s, SetVerificationRules s rules) <$> verSet c;
      genSynced := genSynced c; verSynced := verSynced c |}, verRules).
Definition markVerification (c : RuleClient) : RuleClient :=
  {| genSet := genSet c; verSet := verSet c; genSynced := genSynced c; verSynced := true |}.

Definition onVerificationResponse
    (range : gmap ruleKey VerificationRule → list (ruleKey * VerificationRule))
    (c : RuleClient) (verRules : gmap ruleKey VerificationRule)
    (resp : StreamResponse ProtoVerificationRule) : RuleClient * gmap ruleKey VerificationRule :=
  let '(c, verRules) := installVerification range c verRules resp in (markVerification c, verRules).
End extauth_client.
Arguments RuleClient : clear implicits.

(** ** The TTS client *)

Class IssuanceSetter (S : Type) :=
  { SetIssuanceRules : S → list PublishedIssuanceRule → result unit * S }.

Definition issuanceSortKey (r : PublishedIssuanceRule) : list string :=
  [pir_PolicyNamespace r; pir_PolicyName r; pir_RuleName r].

Section tts_client.
Context {S : Type} `{!IssuanceSetter S}.

Record TTSRuleClient := { setter : S; synced : bool }.

(** A message of [streamIssuance], up to the setter's result. *)
Definition installIssuance
    (range : gmap issuanceKey PublishedIssuanceRule → list (issuanceKey * PublishedIssuanceRule))
    (c : TTSRuleClient) (rules : gmap issuanceKey PublishedIssuanceRule)
    (resp : StreamResponse ProtoIssuanceRule)
  : result unit * TTSRuleClient * gmap issuanceKey PublishedIssuanceRule :=
  let rules := applyIssuance rules (resp_Update resp) in
  let flat := sortBy issuanceSortKey (range rules).*2 in
  let '(r, s) := SetIssuanceRules (setter c) flat in (r, {| setter := s; synced := synced c |}, rules).
(** [c.synced.Store(true)]. *)
Definition markIssuance (c : TTSRuleClient) : TTSRuleClient := {| setter := setter c; synced := true |}.

(** One round of the loop of [streamIssuance]. *)
Definition onIssuanceResponse
    (range : gmap issuanceKey PublishedIssuanceRule → list (issuanceKey * PublishedIssuanceRule))
    (c : TTSRuleClient) (rules : gmap issuanceKey PublishedIssuanceRule)
    (resp : StreamResponse ProtoIssuanceRule)
  : TTSRuleClient * gmap issuanceKey PublishedIssuanceRule :=
  match installIssuance range c rules resp with
  | (Err _, c, rules) => (c, rules)
  | (Ok _, c, rules) => (markIssuance c, rules)
  end.
End tts_client.
Arguments TTSRuleClient : clear implicits.

(** [qualifiedName] and the compilation of [HandlerSetter.SetIssuanceRules]. *)
Definition qualifiedName (r : PublishedIssuanceRule) : string :=
  let name := pir_RuleName r in
  let name := if negb (bool_decide (pir_PolicyName r = ""))
              then pir_PolicyName r +:+ "/" +:+ name else name in
  if negb (bool_decide (pir_PolicyNamespace r = ""))
  then pir_PolicyNamespace r +:+ "/" +:+ name else name.

Definition handlerConfig (r : PublishedIssuanceRule) : IssuanceRuleConfig :=
  {| cfg_Name := qualifiedName r; cfg_CEL := pir_CEL r; cfg_Message := pir_Message r;
     cfg_TargetNamespaces := pir_TargetNamespaces r |}.

(** ** Reconnection *)

Definition initialBackoff : Z := 500 * Millisecond.
Definition maxBackoff : Z := 30 * Second.

(** The delay after the next disconnection: [backoff = min(backoff*2, maxBackoff)]
    in the ext auth client, the nested conditions of the TTS client. *)
Definition nextBackoff (backoff : Z) : Z := Z.min (backoff * 2) maxBackoff.
Definition nextBackoffTTS (backoff : Z) : Z :=
  if backoff <? maxBackoff then
    let backoff := backoff * 2 in if maxBackoff <? backoff then maxBackoff else backoff
  else backoff.

(** The delays [Run] sleeps for, one per lost connection, while the context is
    not cancelled. *)
Fixpoint backoffs (next : Z → Z) (backoff : Z) (n : nat) : list Z :=
  match n with
  | O => []
  | Datatypes.S n => backoff :: backoffs next (next backoff) n
  end.

Lemma backoffs_capped next i n :
  (∀ b, 0 < b ≤ maxBackoff → next b = Z.min (b * 2) maxBackoff) →
  backoffs next (Z.min (initialBackoff * 2 ^ Z.of_nat i) maxBackoff) n
  = map (λ j, Z.min (initialBackoff * 2 ^ Z.of_nat j) maxBackoff) (seq i n).
Proof.
  intros Hnext. revert i. induction n as [|n IH]; intros i; [done|]. cbn [backoffs seq map]. f_equal.
  rewrite <-(IH (Datatypes.S i)). f_equal.
  assert (0 < 2 ^ Z.of_nat i) by (apply Z.pow_pos_nonneg; lia).
  rewrite Nat2Z.inj_succ, Z.pow_succ_r by lia. unfold initialBackoff, maxBackoff, Millisecond, Second in *.
  rewrite Hnext; lia.
Qed.

(** The n-th delay since the process started: half a second doubled n times, at
    most thirty seconds, in both clients. *)
Lemma backoff_schedule n :
  let schedule := map (λ i, Z.min (initialBackoff * 2 ^ Z.of_nat i) maxBackoff) (seq 0 n) in
  backoffs nextBackoff initialBackoff n = schedule ∧
  backoffs nextBackoffTTS initialBackoff n = schedule.
Proof.
  split.
  - apply (backoffs_capped nextBackoff 0 n). by intros b _.
  - apply (backoffs_capped nextBackoffTTS 0 n). intros b Hb. unfold nextBackoffTTS.
    destruct (Z.ltb_spec b maxBackoff); [|lia]. destruct (Z.ltb_spec maxBackoff (b * 2)); lia.
Qed.
