(* ===== verification/Pipeline.v ===== *)
(** * Rule distribution: from the server's rules to a client's map

    The class [RuleStream] states what the pipeline needs of a rule kind: the
    conversions are inverse, the server's comparison is key equality, and
    removing on the server is removing in the client's map.  The three kinds of
    the program are instances.  A [Link] is one client's stream against the live
    server; [link_step] interleaves the server's updates with the forwarding
    goroutine, the reception loop and reconnections in any order. *)

From stdpp Require Import pretty.
From S2P Require Import Prelude Api RulesProto RuleServer RuleClient.

Local Open Scope Z_scope.

(** ** Rule lists as maps *)

(** The rules under their keys; of two rules with one key the later. *)
Definition rules_map {R K} `{Countable K} (key : R → K) (l : list R) : gmap K R :=
  foldl (λ m r, <[key r := r]> m) ∅ l.

Section rules_map.
Context {R K : Type} `{Countable K} (key : R → K).
Implicit Types l : list R.

Lemma rules_map_snoc l r : rules_map key (l ++ [r]) = <[key r := r]> (rules_map key l).
Proof. unfold rules_map. by rewrite foldl_app. Qed.

Lemma rules_map_lookup l k r :
  NoDup (key <$> l) → rules_map key l !! k = Some r ↔ r ∈ l ∧ key r = k.
Proof.
  induction l as [|x l IH] using rev_ind.
  { intros _. unfold rules_map. simpl. rewrite lookup_empty, elem_of_nil. naive_solver. }
  rewrite rules_map_snoc, fmap_app, NoDup_app. intros (Hnd & Hdis & _).
  rewrite elem_of_app, list_elem_of_singleton, lookup_insert_Some, IH by done.
  split; [naive_solver|]. intros [[Hr| ->] <-]; [|naive_solver].
  right. split; [|done]. intros Heq. apply (Hdis (key r)); [by apply list_elem_of_fmap_2|].
  rewrite <-Heq. simpl. set_solver.
Qed.

Lemma rules_map_elem l k r : rules_map key l !! k = Some r → r ∈ l.
Proof.
  induction l as [|x l IH] using rev_ind; [unfold rules_map; simpl; by rewrite lookup_empty|].
  rewrite rules_map_snoc, lookup_insert_Some, elem_of_app, list_elem_of_singleton. naive_solver.
Qed.

Lemma rules_map_None l k : rules_map key l !! k = None ↔ k ∉ key <$> l.
Proof.
  induction l as [|x l IH] using rev_ind.
  { unfold rules_map. simpl. rewrite lookup_empty, elem_of_nil. naive_solver. }
  rewrite rules_map_snoc, fmap_app, lookup_insert_None, IH, elem_of_app. simpl.
  rewrite list_elem_of_singleton. naive_solver.
Qed.

(** Two maps agree when the lists hold the same rules. *)
Lemma rules_map_ext l (m : gmap K R) :
  NoDup (key <$> l) → (∀ k r, m !! k = Some r ↔ r ∈ l ∧ key r = k) → rules_map key l = m.
Proof.
  intros Hnd Hm. apply map_eq. intros k. apply option_eq. intros r.
  by rewrite rules_map_lookup, Hm.
Qed.

(** The values of the map, in any order, are the rules. *)
Lemma rules_map_to_list l : NoDup (key <$> l) → (map_to_list (rules_map key l)).*2 ≡ₚ l.
Proof.
  induction l as [|x l IH] using rev_ind; intros Hnd; [done|].
  rewrite fmap_app, NoDup_app in Hnd. destruct Hnd as (Hnd & Hdis & _).
  rewrite rules_map_snoc, map_to_list_insert; [|apply rules_map_None; set_solver].
  simpl. by rewrite IH, Permutation_app_comm by done.
Qed.

Lemma rules_map_inj l a b : NoDup (key <$> l) → a ∈ l → b ∈ l → key a = key b → a = b.
Proof.
  intros Hnd Ha Hb Hk.
  assert (rules_map key l !! key b = Some a) by by apply rules_map_lookup.
  assert (rules_map key l !! key b = Some b) by by apply rules_map_lookup. congruence.
Qed.

Lemma insertAll_map {P} (conv : P → R) (toP : R → P) (m : gmap K R) l :
  (∀ r, conv (toP r) = r) →
  insertAll conv key m (map toP l) = foldl (λ m r, <[key r := r]> m) m l.
Proof.
  intros Hrt. unfold insertAll. revert m. induction l as [|r l IH]; intros m; simpl; [done|].
  by rewrite Hrt.
Qed.

(** The server's upsert keeps the keys in place, or appends the new one. *)
Lemma upsertRule_keys (same : R → bool) rule l :
  (∀ r, same r = true ↔ key r = key rule) →
  key <$> upsertRule same rule l =
  (if decide (key rule ∈ key <$> l) then key <$> l else (key <$> l) ++ [key rule]).
Proof.
  intros Hsame. induction l as [|x l IH]; csimpl; [done|].
  destruct (same x) eqn:Hx.
  - apply Hsame in Hx. rewrite decide_True; [|rewrite Hx; left]. csimpl. by rewrite Hx.
  - assert (key x ≠ key rule) by (rewrite <-Hsame; congruence). csimpl. rewrite IH.
    destruct (decide (key rule ∈ key <$> l)).
    + by rewrite decide_True by by right.
    + rewrite decide_False; [done|]. rewrite elem_of_cons. naive_solver.
Qed.

Lemma upsertRule_elem (same : R → bool) rule l r :
  (∀ r, same r = true ↔ key r = key rule) → NoDup (key <$> l) →
  r ∈ upsertRule same rule l ↔ r = rule ∨ (r ∈ l ∧ key r ≠ key rule).
Proof.
  intros Hsame. induction l as [|x l IH]; csimpl; intros Hnd.
  { rewrite list_elem_of_singleton, elem_of_nil. naive_solver. }
  apply NoDup_cons in Hnd as [Hx Hnd]. destruct (same x) eqn:E.
  - apply Hsame in E. rewrite !elem_of_cons. split; [|naive_solver].
    intros [->|Hr]; [by left|]. right. split; [by right|]. intros Heq. apply Hx.
    rewrite E, <-Heq. by apply list_elem_of_fmap_2.
  - assert (key x ≠ key rule) by (rewrite <-Hsame; congruence).
    rewrite !elem_of_cons, IH by done. naive_solver.
Qed.

Lemma upsertRule_map (same : R → bool) rule l :
  (∀ r, same r = true ↔ key r = key rule) → NoDup (key <$> l) →
  NoDup (key <$> upsertRule same rule l) ∧
  rules_map key (upsertRule same rule l) = <[key rule := rule]> (rules_map key l).
Proof.
  intros Hsame Hnd.
  assert (NoDup (key <$> upsertRule same rule l)) as Hnd'.
  { rewrite upsertRule_keys by done. destruct (decide _); [done|].
    apply NoDup_app. split_and!; [done| |apply NoDup_singleton]. set_solver. }
  split; [done|]. apply rules_map_ext; [done|]. intros k r.
  rewrite lookup_insert_Some, rules_map_lookup, upsertRule_elem by done. naive_solver.
Qed.

(** Removing the rules of some keys. *)
Lemma filter_map (p : K → bool) l :
  NoDup (key <$> l) →
  NoDup (key <$> filter (λ r, p (key r) = false) l) ∧
  rules_map key (filter (λ r, p (key r) = false) l) = filter (λ kr, p kr.1 = false) (rules_map key l).
Proof.
  intros Hnd.
  assert (NoDup (key <$> filter (λ r, p (key r) = false) l)) as Hnd'.
  { induction l as [|x l IH]; csimpl; [constructor|]. apply NoDup_cons in Hnd as [Hx Hnd].
    rewrite filter_cons. destruct (decide _); [|by apply IH]. csimpl. apply NoDup_cons.
    split; [|by apply IH]. intros (y & Hy & Hin)%list_elem_of_fmap. apply Hx.
    apply list_elem_of_filter in Hin as [_ Hin]. rewrite Hy. by apply list_elem_of_fmap_2. }
  split; [done|]. apply rules_map_ext; [done|]. intros k r.
  rewrite map_lookup_filter_Some, rules_map_lookup, list_elem_of_filter by done. naive_solver.
Qed.

Lemma list_filter_true {A} (P : A → Prop) `{∀ x, Decision (P x)} (l : list A) :
  (∀ x, x ∈ l → P x) → filter P l = l.
Proof.
  induction l as [|x l IH]; intros HP; [done|]. rewrite filter_cons, decide_True by (apply HP; left).
  f_equal. apply IH. intros y Hy. apply HP. by right.
Qed.

Lemma removeFirst_filter (same : R → bool) (k : K) l :
  (∀ r, same r = true ↔ key r = k) → NoDup (key <$> l) →
  removeFirst same l = filter (λ r, bool_decide (key r = k) = false) l.
Proof.
  intros Hsame. induction l as [|x l IH]; csimpl; intros Hnd; [done|].
  apply NoDup_cons in Hnd as [Hx Hnd]. rewrite filter_cons. destruct (same x) eqn:E.
  - apply Hsame in E. rewrite bool_decide_true by done. rewrite decide_False by done.
    symmetry. apply list_filter_true. intros y Hy. apply bool_decide_eq_false. intros Heq.
    apply Hx. rewrite E, <-Heq. by apply list_elem_of_fmap_2.
  - rewrite bool_decide_false by (rewrite <-Hsame; congruence). rewrite decide_True by done.
    f_equal. by apply IH.
Qed.
End rules_map.

(** ** The interface of a rule kind *)

Class RuleStream (R P K : Type) `{Countable K} := {
  rs_key : R → K;
  rs_toProto : R → P;
  (** The server's comparison with a rule, and its removal by reference. *)
  rs_same : R → R → bool;
  rs_serverRemove : RuleRef → list R → list R;
  (** The client's reaction to a message. *)
  rs_apply : gmap K R → option (RuleUpdate P) → gmap K R;
  rs_same_key : ∀ rule r, rs_same rule r = true ↔ rs_key r = rs_key rule;
  rs_remove_NoDup : ∀ ref l,
    NoDup (rs_key <$> l) → NoDup (rs_key <$> rs_serverRemove ref l);
  rs_apply_snapshot : ∀ m l,
    rs_apply m (Some (Snapshot (map rs_toProto l))) = rules_map rs_key l;
  rs_apply_upsert : ∀ m r,
    rs_apply m (Some (Delta (map rs_toProto [r]) [])) = <[rs_key r := r]> m;
  rs_apply_remove : ∀ ref l, NoDup (rs_key <$> l) →
    rs_apply (rules_map rs_key l) (Some (Delta [] [ref])) = rules_map rs_key (rs_serverRemove ref l);
}.

(** *** The conversions are inverse *)

Lemma map_id_ext {A} (f : A → A) l : (∀ x, f x = x) → map f l = l.
Proof. intros Hf. induction l; simpl; [done|]. by rewrite Hf, IHl. Qed.

Lemma guarded_map {A B} (f : A → B) l : (if (0 <? length l)%nat then map f l else []) = map f l.
Proof. by destruct l. Qed.

Lemma guarded_fmap {A B} (f : A → B) (m : gmap string A) :
  (if (0 <? size m)%nat then f <$> m else ∅) = f <$> m.
Proof.
  destruct (Nat.ltb_spec 0 (size m)) as [|Hs]; [done|].
  assert (m = ∅) as -> by (apply map_size_empty_inv; lia). by rewrite fmap_empty.
Qed.

Lemma endpoint_roundtrip e : protoToEndpoint (endpointToProto e) = e.
Proof. by destruct e. Qed.

Lemma generation_roundtrip r : protoToGenerationRule (generationRuleToProto r) = r.
Proof.
  destruct r as [ns n ep pu sc tm te rc tl]. unfold protoToGenerationRule, generationRuleToProto.
  cbn [pgr_Namespace pgr_Name pgr_Purpose pgr_Scope pgr_RctxFields pgr_TokenLifetime pgr_Endpoint
       pgr_TctxMapping pgr_TctxEnrichments gr_Namespace gr_Name gr_Purpose gr_Scope gr_RctxFields
       gr_TokenLifetime gr_Endpoint gr_TctxMapping gr_TctxEnrichments].
  rewrite !guarded_map, !guarded_fmap, <-map_fmap_compose, map_map. f_equal.
  - destruct ep as [p m]. simpl. repeat case_bool_decide; simpl; subst; done.
  - rewrite <-(map_fmap_id tm) at 2. apply map_fmap_ext. by intros ? [].
  - apply map_id_ext. by intros [].
Qed.

Lemma verification_roundtrip r : protoToVerificationRule (verificationRuleToProto r) = r.
Proof.
  destruct r as [ns n svc sc tf cr ee an]. unfold protoToVerificationRule, verificationRuleToProto.
  cbn [pvr_Namespace pvr_Name pvr_ServiceName pvr_RequiredScope pvr_RequiredTctxFields pvr_AutoNarrow
       pvr_CelRules pvr_ExcludedEndpoints vr_Namespace vr_Name vr_ServiceName vr_RequiredScope
       vr_RequiredTctxFields vr_AutoNarrow vr_CELRules vr_ExcludedEndpoints].
  rewrite !guarded_map, !map_map. f_equal; apply map_id_ext; by intros [].
Qed.

Lemma issuance_roundtrip r : protoToIssuanceRule (issuanceRuleToProto r) = r.
Proof. by destruct r. Qed.

(** *** The three kinds *)

Lemma delete_filter {K R} `{Countable K} (k : K) (m : gmap K R) :
  delete k m = filter (λ kr, bool_decide (kr.1 = k) = false) m.
Proof.
  apply map_eq. intros i. apply option_eq. intros r.
  rewrite lookup_delete_Some, map_lookup_filter_Some, bool_decide_eq_false. naive_solver.
Qed.

Lemma removeFirst_map {K R} `{Countable K} (key : R → K) (same : R → bool) (k : K) l :
  (∀ r, same r = true ↔ key r = k) → NoDup (key <$> l) →
  NoDup (key <$> removeFirst same l) ∧
  delete k (rules_map key l) = rules_map key (removeFirst same l).
Proof.
  intros Hsame Hnd. rewrite (removeFirst_filter key same k) by done.
  destruct (filter_map key (λ k', bool_decide (k' = k)) l Hnd) as [? ->].
  split; [done|]. apply delete_filter.
Qed.

Lemma sameGenerationRule_key ns n r :
  sameGenerationRule ns n r = true ↔ generationKey r = (ns, n).
Proof.
  unfold sameGenerationRule, generationKey. rewrite andb_true_iff, !bool_decide_eq_true. naive_solver.
Qed.

Lemma sameVerificationRule_key ns n r :
  sameVerificationRule ns n r = true ↔ verificationKey r = (ns, n).
Proof.
  unfold sameVerificationRule, verificationKey. rewrite andb_true_iff, !bool_decide_eq_true.
  naive_solver.
Qed.

#[export] Program Instance generationStream : RuleStream GenerationRule ProtoGenerationRule ruleKey := {|
  rs_key := generationKey;
  rs_toProto := generationRuleToProto;
  rs_same rule := sameGenerationRule (gr_Namespace rule) (gr_Name rule);
  rs_serverRemove ref := removeFirst (sameGenerationRule (ref_Namespace ref) (ref_Name ref));
  rs_apply := applyGeneration;
|}.
Next Obligation. intros. apply sameGenerationRule_key. Qed.
Next Obligation.
  intros ref l Hnd. by eapply removeFirst_map; [apply sameGenerationRule_key|].
Qed.
Next Obligation. intros m l. by apply insertAll_map, generation_roundtrip. Qed.
Next Obligation. intros m r. simpl. by rewrite generation_roundtrip. Qed.
Next Obligation.
  intros ref l Hnd. simpl. by eapply removeFirst_map; [apply sameGenerationRule_key|].
Qed.

#[export] Program Instance verificationStream
  : RuleStream VerificationRule ProtoVerificationRule ruleKey := {|
  rs_key := verificationKey;
  rs_toProto := verificationRuleToProto;
  rs_same rule := sameVerificationRule (vr_Namespace rule) (vr_Name rule);
  rs_serverRemove ref := removeFirst (sameVerificationRule (ref_Namespace ref) (ref_Name ref));
  rs_apply := applyVerification;
|}.
Next Obligation. intros. apply sameVerificationRule_key. Qed.
Next Obligation.
  intros ref l Hnd. by eapply removeFirst_map; [apply sameVerificationRule_key|].
Qed.
Next Obligation. intros m l. by apply insertAll_map, verification_roundtrip. Qed.
Next Obligation. intros m r. simpl. by rewrite verification_roundtrip. Qed.
Next Obligation.
  intros ref l Hnd. simpl. by eapply removeFirst_map; [apply sameVerificationRule_key|].
Qed.

(** The key of a rule of the policy a reference names. *)
Definition hits_policy (ref : RuleRef) (k : issuanceKey) : bool :=
  bool_decide (k.1.1 = ref_Namespace ref) && bool_decide (k.1.2 = ref_Name ref).

Lemma dropPolicy_filter ref l :
  dropPolicy (ref_Namespace ref) (ref_Name ref) l
  = filter (λ r, hits_policy ref (keyFor r) = false) l.
Proof.
  induction l as [|r l IH]; simpl; [done|]. rewrite filter_cons.
  change (_ && _) with (hits_policy ref (keyFor r)).
  destruct (decide _) as [E|E]; [rewrite E; by f_equal|]. apply not_false_iff_true in E. by rewrite E.
Qed.

Lemma deletePolicy_filter ref m :
  deletePolicy ref m = filter (λ kr, hits_policy ref kr.1 = false) m.
Proof.
  unfold deletePolicy. apply map_filter_ext. intros k r _. unfold hits_policy. simpl.
  rewrite andb_false_iff, !bool_decide_eq_false. destruct (decide (k.1.1 = ref_Namespace ref)); naive_solver.
Qed.

#[export] Program Instance issuanceStream
  : RuleStream PublishedIssuanceRule ProtoIssuanceRule issuanceKey := {|
  rs_key := keyFor;
  rs_toProto := issuanceRuleToProto;
  rs_same := sameIssuanceRule;
  rs_serverRemove ref := dropPolicy (ref_Namespace ref) (ref_Name ref);
  rs_apply := applyIssuance;
|}.
Next Obligation.
  intros rule r. unfold sameIssuanceRule, keyFor. rewrite !andb_true_iff, !bool_decide_eq_true.
  split; [by intros [[-> ->] ->]|by intros [= -> -> ->]].
Qed.
Next Obligation.
  intros ref l Hnd. simpl. rewrite dropPolicy_filter. by apply (filter_map keyFor (hits_policy ref)).
Qed.
Next Obligation. intros m l. by apply insertAll_map, issuance_roundtrip. Qed.
Next Obligation. intros m r. simpl. by rewrite issuance_roundtrip. Qed.
Next Obligation.
  intros ref l Hnd. simpl. rewrite dropPolicy_filter, deletePolicy_filter.
  symmetry. by apply (filter_map keyFor (hits_policy ref)).
Qed.

(** ** One client's stream *)

Section link.
Context {R P K : Type} `{RuleStream R P K}.

(** The server's operations on a feed. *)
Definition feed_update (f : Feed R P) (rules : list R) : Feed R P :=
  broadcast f rules (Snapshot (map rs_toProto rules)).
Definition feed_upsert (f : Feed R P) (rule : R) : Feed R P :=
  broadcast f (upsertRule (rs_same rule) rule (fd_rules f)) (Delta (map rs_toProto [rule]) []).
Definition feed_remove (f : Feed R P) (ref : RuleRef) : Feed R P :=
  broadcast f (rs_serverRemove ref (fd_rules f)) (Delta [] [ref]).

(** The stream of a client: the server's feed, the subscription, the snapshot
    not yet sent, the messages sent and not yet received, and those received.
    [lk_lost] records that the channel was full when the server published, and
    no snapshot has entered it since. *)
Record Link := {
  lk_feed : Feed R P;
  lk_id : string;
  lk_pending : list (StreamResponse P);
  lk_wire : list (StreamResponse P);
  lk_received : list (StreamResponse P);
  lk_lost : bool;
}.

Definition link_open (f : Feed R P) (id : string) : Link :=
  let f := subscribe f id in
  {| lk_feed := f; lk_id := id; lk_pending := [buildSnapshot (map rs_toProto) f];
     lk_wire := []; lk_received := []; lk_lost := false |}.

Definition channel (l : Link) : list (StreamResponse P) :=
  default [] (fd_subscribers (lk_feed l) !! lk_id l).

Definition link_publish (l : Link) (f : Feed R P) (snapshot : bool) : Link :=
  {| lk_feed := f; lk_id := lk_id l; lk_pending := lk_pending l; lk_wire := lk_wire l;
     lk_received := lk_received l;
     lk_lost := if (length (channel l) <? channelCapacity)%nat
                then (if snapshot then false else lk_lost l) else true |}.

Inductive Event : Type :=
  | EvUpdate (rules : list R)
  | EvUpsert (rule : R)
  | EvRemove (ref : RuleRef)
  | EvSend
  | EvRecv
  | EvReconnect (id : string).

(** A step; an event that is not enabled changes nothing. *)
Definition link_step (l : Link) (e : Event) : Link :=
  match e with
  | EvUpdate rules => link_publish l (feed_update (lk_feed l) rules) true
  | EvUpsert rule => link_publish l (feed_upsert (lk_feed l) rule) false
  | EvRemove ref => link_publish l (feed_remove (lk_feed l) ref) false
  | EvSend =>
    match lk_pending l with
    | m :: ms => {| lk_feed := lk_feed l; lk_id := lk_id l; lk_pending := ms;
                    lk_wire := lk_wire l ++ [m]; lk_received := lk_received l; lk_lost := lk_lost l |}
    | [] =>
      match takeMessage (lk_feed l) (lk_id l) with
      | Some (m, f) => {| lk_feed := f; lk_id := lk_id l; lk_pending := []; lk_wire := lk_wire l ++ [m];
                          lk_received := lk_received l; lk_lost := lk_lost l |}
      | None => l
      end
    end
  | EvRecv =>
    match lk_wire l with
    | m :: ms => {| lk_feed := lk_feed l; lk_id := lk_id l; lk_pending := lk_pending l; lk_wire := ms;
                    lk_received := lk_received l ++ [m]; lk_lost := lk_lost l |}
    | [] => l
    end
  | EvReconnect id => link_open (unsubscribe (lk_feed l) (lk_id l)) id
  end.

Definition link_run (l : Link) (es : list Event) : Link := foldl link_step l es.

(** A set of rules published as a whole has distinct keys. *)
Definition event_ok (e : Event) : Prop :=
  match e with EvUpdate rules => NoDup (rs_key <$> rules) | _ => True end.

(** The client's map after it received some messages: now, and when everything
    in flight has arrived. *)
Definition receive (m : gmap K R) (ms : list (StreamResponse P)) : gmap K R :=
  foldl (λ m resp, rs_apply m (resp_Update resp)) m ms.
Definition lk_client (l : Link) : gmap K R := receive ∅ (lk_received l).
Definition link_view (l : Link) : gmap K R :=
  receive (lk_client l) (lk_wire l ++ lk_pending l ++ channel l).

Definition server_map (l : Link) : gmap K R := rules_map rs_key (fd_rules (lk_feed l)).

Record link_ok (l : Link) : Prop := {
  lo_subscribed : is_Some (fd_subscribers (lk_feed l) !! lk_id l);
  lo_keys : NoDup (rs_key <$> fd_rules (lk_feed l));
  lo_view : lk_lost l = false → link_view l = server_map l;
  (** The snapshot is on its way or has arrived. *)
  lo_started : lk_received l ++ lk_wire l ++ lk_pending l ≠ [];
}.

Lemma receive_app m ms1 ms2 : receive m (ms1 ++ ms2) = receive (receive m ms1) ms2.
Proof. apply foldl_app. Qed.

(** Publishing appends to the channel when there is room. *)
Lemma link_publish_ok l rules u snapshot :
  link_ok l → NoDup (rs_key <$> rules) →
  (snapshot = true → ∀ m, rs_apply m (Some u) = rules_map rs_key rules) →
  (rs_apply (server_map l) (Some u) = rules_map rs_key rules) →
  link_ok (link_publish l (broadcast (lk_feed l) rules u) snapshot).
Proof.
  intros [[ch Hch] Hk Hv Hst] Hnd Hsnap Hstep.
  assert (fd_subscribers (broadcast (lk_feed l) rules u) !! lk_id l = Some (trySend ch
    (Build_StreamResponse (Some u) (pretty (addOne (fd_version (lk_feed l))))))) as Hch'.
  { simpl. by rewrite lookup_fmap, Hch. }
  split; [by eexists|done| |done]. cbn [link_publish lk_lost]. unfold channel at 1. rewrite Hch. simpl.
  destruct (Nat.ltb_spec (length ch) channelCapacity) as [Hlt|]; [|done]. intros Hlost.
  change (server_map _) with (rules_map rs_key rules).
  unfold link_view, channel. cbn [link_publish lk_wire lk_pending lk_feed lk_id].
  change (lk_client _) with (lk_client l).
  rewrite Hch'. simpl. unfold trySend. rewrite (proj2 (Nat.ltb_lt _ _) Hlt).
  rewrite !app_assoc, receive_app. cbn [receive foldl resp_Update].
  destruct snapshot; [by apply Hsnap|]. rewrite <-Hstep, <-Hv by done.
  unfold link_view, channel. by rewrite Hch, app_assoc.
Qed.

Lemma link_open_ok f id : NoDup (rs_key <$> fd_rules f) → link_ok (link_open f id).
Proof.
  intros Hnd. split; [|done| |done].
  - exists []. simpl. by rewrite lookup_insert_eq.
  - intros _. unfold link_view, channel, server_map. simpl. rewrite lookup_insert_eq. simpl.
    apply rs_apply_snapshot.
Qed.

Lemma takeMessage_spec l m f :
  takeMessage (lk_feed l) (lk_id l) = Some (m, f) →
  fd_rules f = fd_rules (lk_feed l) ∧
  ∃ ch, channel l = m :: ch ∧ fd_subscribers f !! lk_id l = Some ch.
Proof.
  unfold takeMessage, channel. destruct (_ !! _) as [[|m' ch]|]; [done| |done].
  intros [= <- <-]. split; [done|]. exists ch. split; [done|]. simpl. by rewrite lookup_insert_eq.
Qed.

(** Sending and receiving do not change what the client will have. *)
Lemma link_forward l e :
  e = EvSend ∨ e = EvRecv →
  link_view (link_step l e) = link_view l ∧ server_map (link_step l e) = server_map l ∧
  lk_lost (link_step l e) = lk_lost l.
Proof.
  intros [->| ->]; simpl.
  - destruct (lk_pending l) as [|m ms] eqn:Hp.
    + destruct (takeMessage _ _) as [[m f]|] eqn:Ht; [|done].
      destruct (takeMessage_spec _ _ _ Ht) as (Hr & ch & Hch & Hf).
      unfold link_view, server_map. rewrite Hch, Hp. unfold channel. simpl. rewrite Hf, Hr. simpl.
      by rewrite <-app_assoc.
    + unfold link_view, server_map. rewrite Hp. unfold channel. simpl. by rewrite <-app_assoc.
  - destruct (lk_wire l) as [|m ms] eqn:Hw; [done|].
    split_and!; [|done..]. unfold link_view, lk_client. rewrite Hw. cbn [lk_received lk_wire].
    by rewrite (receive_app ∅ (lk_received l) [m]).
Qed.

Lemma link_step_ok l e : link_ok l → event_ok e → link_ok (link_step l e).
Proof.
  intros Hl He. destruct e as [rules|rule|ref| | |id]; simpl in He.
  - apply link_publish_ok; [done..|intros _ m; apply rs_apply_snapshot|apply rs_apply_snapshot].
  - destruct (upsertRule_map rs_key (rs_same rule) rule (fd_rules (lk_feed l))
      (rs_same_key rule) (lo_keys _ Hl)) as [Hnd Hm].
    apply link_publish_ok; [done..|]. by rewrite rs_apply_upsert, Hm.
  - apply link_publish_ok; [done|by apply rs_remove_NoDup, Hl|done|].
    by apply rs_apply_remove, Hl.
  - destruct (link_forward l EvSend (or_introl eq_refl)) as (Hv & Hs & Hlost).
    destruct Hl as [Hsub Hk HV Hst]. split; [| |by rewrite Hv, Hs, Hlost|].
    + simpl. destruct (lk_pending l); [|done].
      destruct (takeMessage _ _) as [[m f]|] eqn:Ht; [|done].
      destruct (takeMessage_spec _ _ _ Ht) as (_ & ch & _ & Hf). by exists ch.
    + simpl. destruct (lk_pending l); [|done].
      destruct (takeMessage _ _) as [[m f]|] eqn:Ht; [|done].
      destruct (takeMessage_spec _ _ _ Ht) as [Hr _]. simpl. by rewrite Hr.
    + simpl. destruct (lk_pending l) eqn:Hp; simpl.
      * destruct (takeMessage _ _) as [[m f]|]; simpl; [|by rewrite Hp].
        intros Heq%(f_equal length). rewrite !length_app in Heq. simpl in Heq. lia.
      * by rewrite <-(app_assoc (lk_wire l)).
  - destruct (link_forward l EvRecv (or_intror eq_refl)) as (Hv & Hs & Hlost).
    destruct Hl as [Hsub Hk HV Hst]. split; [| |by rewrite Hv, Hs, Hlost|].
    + simpl. by destruct (lk_wire l).
    + simpl. by destruct (lk_wire l).
    + simpl. destruct (lk_wire l) eqn:Hw; simpl; [by rewrite Hw|]. by rewrite <-(app_assoc (lk_received l)).
  - apply link_open_ok. apply Hl.
Qed.

Lemma link_run_ok l es : link_ok l → Forall event_ok es → link_ok (link_run l es).
Proof.
  revert l. induction es as [|e es IH]; intros l Hl Hes; [done|].
  apply Forall_cons in Hes as [He Hes]. simpl. apply IH; [by apply link_step_ok|done].
Qed.

(** ** Draining *)

(** The forwarding goroutine and the client run until nothing is in flight. *)
Definition drain (l : Link) : list Event :=
  replicate (length (lk_pending l ++ channel l)) EvSend
  ++ replicate (length (lk_wire l ++ lk_pending l ++ channel l)) EvRecv.

Lemma link_run_forward l es :
  (∀ e, e ∈ es → e = EvSend ∨ e = EvRecv) →
  link_view (link_run l es) = link_view l ∧ server_map (link_run l es) = server_map l ∧
  lk_lost (link_run l es) = lk_lost l.
Proof.
  revert l. induction es as [|e es IH]; intros l Hes; [done|]. simpl.
  destruct (IH (link_step l e)) as (-> & -> & ->); [intros e' He'; apply Hes; by right|].
  apply link_forward, Hes. left.
Qed.

Lemma run_sends l n :
  n = length (lk_pending l ++ channel l) → is_Some (fd_subscribers (lk_feed l) !! lk_id l) →
  let l' := link_run l (replicate n EvSend) in
  lk_pending l' = [] ∧ channel l' = [] ∧ lk_wire l' = lk_wire l ++ lk_pending l ++ channel l.
Proof.
  revert l. induction n as [|n IH]; intros l Hn Hsub; simpl.
  { symmetry in Hn. apply length_zero_iff_nil, app_nil in Hn as [-> ->]. by rewrite !app_nil_r. }
  destruct (lk_pending l) as [|m ms] eqn:Hp.
  - destruct (channel l) as [|m ch] eqn:Hch; [done|].
    destruct (takeMessage (lk_feed l) (lk_id l)) as [[m' f]|] eqn:Ht.
    + destruct (takeMessage_spec _ _ _ Ht) as (_ & ch' & Hch' & Hf).
      rewrite Hch in Hch'. injection Hch' as -> ->.
      destruct (IH {| lk_feed := f; lk_id := lk_id l; lk_pending := []; lk_wire := lk_wire l ++ [m'];
        lk_received := lk_received l; lk_lost := lk_lost l |}) as (-> & -> & ->).
      * unfold channel. simpl. rewrite Hf. simpl in *. lia.
      * by exists ch'.
      * unfold channel. simpl. rewrite Hf. simpl. by rewrite <-app_assoc.
    + unfold takeMessage in Ht. unfold channel in Hch. destruct Hsub as [c Hc].
      rewrite Hc in Ht, Hch. simpl in Hch. by rewrite Hch in Ht.
  - destruct (IH {| lk_feed := lk_feed l; lk_id := lk_id l; lk_pending := ms;
      lk_wire := lk_wire l ++ [m]; lk_received := lk_received l; lk_lost := lk_lost l |})
      as (-> & -> & ->); [unfold channel in *; simpl in *; lia|done|].
    unfold channel. simpl. by rewrite <-app_assoc.
Qed.

Lemma run_recvs l n :
  n = length (lk_wire l) → lk_pending l = [] → channel l = [] →
  let l' := link_run l (replicate n EvRecv) in
  lk_wire l' = [] ∧ lk_pending l' = [] ∧ channel l' = [].
Proof.
  revert l. induction n as [|n IH]; intros l Hn Hp Hc; simpl.
  { symmetry in Hn. by apply length_zero_iff_nil in Hn. }
  destruct (lk_wire l) as [|m ms] eqn:Hw; [done|]. apply IH; [simpl in *; lia|done..].
Qed.

Lemma drain_delivers l :
  is_Some (fd_subscribers (lk_feed l) !! lk_id l) →
  let l' := link_run l (drain l) in
  lk_wire l' = [] ∧ lk_pending l' = [] ∧ channel l' = [] ∧
  lk_client l' = link_view l ∧ server_map l' = server_map l.
Proof.
  intros Hsub. destruct (link_run_forward l (drain l)) as (Hv & Hs & _).
  { unfold drain. intros e [He|He]%elem_of_app; apply elem_of_replicate_inv in He; auto. }
  unfold drain, link_run in *. rewrite foldl_app in *.
  destruct (run_sends l _ eq_refl Hsub) as (Hp & Hc & Hw).
  destruct (run_recvs (link_run l (replicate (length (lk_pending l ++ channel l)) EvSend))
    (length (lk_wire l ++ lk_pending l ++ channel l))) as (Hw' & Hp' & Hc'); [by rewrite Hw|done..|].
  unfold link_run in *. split_and!; [done..| |done].
  rewrite <-Hv. unfold link_view at 1. by rewrite Hw', Hp', Hc'.
Qed.

(** Distribution converges: after any interleaving of updates, deliveries and
    reconnections in which no message the client still needs was dropped, the
    client's map, once what is in flight has arrived, holds exactly the server's
    rules. *)
Lemma link_converges f id es :
  NoDup (rs_key <$> fd_rules f) → Forall event_ok es →
  let l := link_run (link_open f id) es in
  lk_lost l = false →
  let l' := link_run l (drain l) in
  (∀ k r, lk_client l' !! k = Some r ↔ r ∈ fd_rules (lk_feed l) ∧ rs_key r = k) ∧
  NoDup (rs_key <$> fd_rules (lk_feed l)) ∧ lk_client l' = server_map l ∧ lk_received l' ≠ [].
Proof.
  intros Hnd Hes l Hlost l'.
  pose proof (link_run_ok _ _ (link_open_ok f id Hnd) Hes) as [Hsub Hk Hv Hst].
  fold l in Hsub, Hk, Hv, Hst.
  destruct (drain_delivers l Hsub) as (Hw & Hp & _ & Hc & _). fold l' in Hw, Hp, Hc.
  rewrite (Hv Hlost) in Hc. split_and!; [|done..|].
  - intros k r. rewrite Hc. by apply rules_map_lookup.
  - assert (link_ok l') as [_ _ _ Hst'].
    { apply link_run_ok; [by split|]. apply Forall_forall. unfold drain.
      by intros e [He|He]%elem_of_app; apply elem_of_replicate_inv in He; subst. }
    rewrite Hw, Hp, !app_nil_r in Hst'. done.
Qed.

(** A set published into a channel with room is what the client ends up with. *)
Lemma link_update_converges f id es rules :
  NoDup (rs_key <$> fd_rules f) → Forall event_ok es → NoDup (rs_key <$> rules) →
  (length (channel (link_run (link_open f id) es)) < channelCapacity)%nat →
  let l1 := link_step (link_run (link_open f id) es) (EvUpdate rules) in
  let ms := lk_received (link_run l1 (drain l1)) in
  receive ∅ ms = rules_map rs_key rules ∧ ms ≠ [].
Proof.
  intros Hf Hes Hnd Hroom l1 ms.
  assert (l1 = link_run (link_open f id) (es ++ [EvUpdate rules])) as Hl1.
  { unfold link_run. by rewrite foldl_app. }
  destruct (link_converges f id (es ++ [EvUpdate rules])) as (_ & _ & Hcl & Hne).
  - done.
  - apply Forall_app. split; [done|]. by apply Forall_singleton.
  - rewrite <-Hl1. simpl. by rewrite (proj2 (Nat.ltb_lt _ _) Hroom).
  - by rewrite <-Hl1 in Hcl, Hne.
Qed.

(** A message is dropped only when the channel holds [channelCapacity] already. *)
Lemma link_step_lost l e :
  lk_lost l = false → (length (channel l) < channelCapacity)%nat → lk_lost (link_step l e) = false.
Proof.
  intros Hl Hlen. apply Nat.ltb_lt in Hlen.
  destruct e; simpl; rewrite ?Hlen, ?Hl; try done.
  - destruct (lk_pending l); [|done]. by destruct (takeMessage _ _) as [[? ?]|].
  - by destruct (lk_wire l).
Qed.
End link.
Arguments Link : clear implicits.
Arguments Event : clear implicits.
