(* ===== verification/Delivery.v ===== *)
(** * Rule distribution under a fair schedule

    The forwarding goroutine of a stream and the reception loop of its client
    run concurrently.  When the server stops publishing for a while and neither
    of them is starved, everything in flight arrives, whatever the schedule: the
    number of steps still to make is a measure that every enabled step lowers. *)

From S2P Require Import Prelude Api RulesProto RuleServer RuleClient Pipeline.

Section delivery.
Context {R P K : Type} `{RuleStream R P K}.
Implicit Types (l : Link R P).

(** ** Schedules *)

(** A schedule on which nothing is published and no connection breaks. *)
Definition quiet (σ : nat → Event R) : Prop := ∀ n, σ n = EvSend ∨ σ n = EvRecv.
(** Neither side is starved. *)
Definition fair (σ : nat → Event R) : Prop :=
  ∀ n, (∃ m, (n ≤ m)%nat ∧ σ m = EvSend) ∧ (∃ m, (n ≤ m)%nat ∧ σ m = EvRecv).

Definition run_until l (σ : nat → Event R) (n : nat) : Link R P := link_run l (map σ (seq 0 n)).
Definition shift (σ : nat → Event R) (k : nat) : nat → Event R := λ n, σ (k + n)%nat.

Lemma run_until_plus l σ k n : run_until l σ (k + n) = run_until (run_until l σ k) (shift σ k) n.
Proof.
  unfold run_until, link_run. rewrite seq_app, map_app, foldl_app. f_equal.
  replace (0 + k)%nat with (k + 0)%nat by lia. rewrite <-fmap_add_seq.
  change (fmap (Nat.add k) (seq 0 n)) with (map (Nat.add k) (seq 0 n)). by rewrite map_map.
Qed.

Lemma quiet_shift σ k : quiet σ → quiet (shift σ k).
Proof. intros Hq n. apply Hq. Qed.

Lemma fair_shift σ k : fair σ → fair (shift σ k).
Proof.
  intros Hf n. destruct (Hf (k + n)%nat) as [(m1 & Hm1 & H1) (m2 & Hm2 & H2)]. unfold shift. split.
  - exists (m1 - k)%nat. split; [lia|]. by replace (k + (m1 - k))%nat with m1 by lia.
  - exists (m2 - k)%nat. split; [lia|]. by replace (k + (m2 - k))%nat with m2 by lia.
Qed.

(** ** The measure *)

(** A message not yet sent is two steps away from the client, one sent a single step. *)
Definition inflight l : nat :=
  2 * length (lk_pending l ++ channel l) + length (lk_wire l).

Lemma forward_step l e :
  e = EvSend ∨ e = EvRecv → link_step l e = l ∨ (inflight (link_step l e) < inflight l)%nat.
Proof.
  intros [->| ->]; simpl.
  - destruct (lk_pending l) as [|m ms] eqn:Hp.
    + destruct (takeMessage _ _) as [[m f]|] eqn:Ht; [right|by left].
      destruct (takeMessage_spec _ _ _ Ht) as (_ & ch & Hch & Hf).
      unfold inflight. rewrite Hp, Hch. unfold channel. simpl. rewrite Hf. simpl.
      rewrite length_app. simpl. lia.
    + right. unfold inflight. rewrite Hp. unfold channel. simpl. rewrite !length_app. simpl. lia.
  - destruct (lk_wire l) as [|m ms] eqn:Hw; [by left|right].
    unfold inflight. rewrite Hw. unfold channel. simpl. lia.
Qed.

Lemma inflight_enabled l :
  is_Some (fd_subscribers (lk_feed l) !! lk_id l) → inflight l ≠ 0%nat →
  ∃ e, (e = EvSend ∨ e = EvRecv) ∧ (inflight (link_step l e) < inflight l)%nat.
Proof.
  intros [c Hc] Hn.
  assert ((∃ e, (e = EvSend ∨ e = EvRecv) ∧ link_step l e ≠ l)) as (e & He & Hne).
  { destruct (lk_wire l) as [|m ms] eqn:Hw.
    - exists EvSend. split; [by left|]. intros Heq%(f_equal (length ∘ lk_wire)). revert Heq. simpl.
      destruct (lk_pending l) as [|m' ms'] eqn:Hp.
      + unfold inflight, channel in Hn. rewrite Hp, Hw, Hc in Hn. unfold takeMessage. rewrite Hc.
        destruct c as [|m' ch]; [done|]. simpl. by rewrite Hw.
      + simpl. by rewrite Hw.
    - exists EvRecv. split; [by right|]. intros Heq%(f_equal (length ∘ lk_wire)). revert Heq. simpl.
      rewrite Hw. simpl. lia. }
  exists e. split; [done|]. by destruct (forward_step l e He).
Qed.

(** An enabled step that the schedule takes lowers the measure, at that point or
    because another step did before. *)
Lemma scheduled_step l σ m e :
  quiet σ → σ m = e → (inflight (link_step l e) < inflight l)%nat →
  ∃ k, (inflight (run_until l σ k) < inflight l)%nat.
Proof.
  revert l σ. induction m as [|m IH]; intros l σ Hq He Hlt; [exists 1%nat; unfold run_until; simpl; by rewrite He|].
  destruct (forward_step l (σ 0%nat) (Hq 0%nat)) as [Hs|Hs]; [|by exists 1%nat].
  destruct (IH l (shift σ 1) (quiet_shift σ 1 Hq)) as [k Hk]; [done|done|].
  exists (1 + k)%nat. rewrite run_until_plus. unfold run_until at 2. simpl. by rewrite Hs.
Qed.

Lemma run_until_view l σ n :
  quiet σ → link_view (run_until l σ n) = link_view l ∧
            server_map (run_until l σ n) = server_map l.
Proof.
  intros Hq. destruct (link_run_forward l (map σ (seq 0 n))) as (Hv & Hs & _); [|done].
  intros e (i & -> & _)%list_elem_of_fmap. apply Hq.
Qed.

Lemma run_until_ok l σ n : quiet σ → link_ok l → link_ok (run_until l σ n).
Proof.
  intros Hq Hl. apply link_run_ok; [done|]. apply Forall_forall.
  intros e (i & -> & _)%list_elem_of_fmap. by destruct (Hq i) as [->| ->].
Qed.

Lemma eventually_drained l σ :
  quiet σ → fair σ → link_ok l → ∃ N, inflight (run_until l σ N) = 0%nat.
Proof.
  remember (inflight l) as n eqn:Hn. revert l σ Hn.
  induction n as [n IH] using lt_wf_ind; intros l σ -> Hq Hf Hl.
  destruct (decide (inflight l = 0%nat)) as [Hz|Hz]; [by exists 0%nat|].
  destruct (inflight_enabled l (lo_subscribed _ Hl) Hz) as (e & He & Hlt).
  assert (∃ m, σ m = e) as [m Hm].
  { destruct (Hf 0%nat) as [(m1 & _ & H1) (m2 & _ & H2)]. destruct He as [->| ->]; eauto. }
  destruct (scheduled_step l σ m e Hq Hm Hlt) as [k Hk].
  destruct (IH _ Hk (run_until l σ k) (shift σ k)) as [N HN];
    [done|by apply quiet_shift|by apply fair_shift|by apply run_until_ok|].
  exists (k + N)%nat. by rewrite run_until_plus.
Qed.

Lemma drained_stays l σ n : quiet σ → inflight l = 0%nat → run_until l σ n = l.
Proof.
  intros Hq Hz. unfold run_until. generalize 0%nat. induction n as [|n IH]; intros i; [done|].
  simpl. destruct (forward_step l (σ i) (Hq i)) as [->|Hlt]; [apply IH|lia].
Qed.

(** ** Liveness *)

(** The channel of the client is not full. *)
Definition room l : Prop := (length (channel l) < channelCapacity)%nat.
(** Events that make the server send something. *)
Definition publishes (e : Event R) : bool :=
  match e with EvUpdate _ | EvUpsert _ | EvRemove _ => true | _ => false end.

(** Nothing the client needs was dropped: since it was last sent everything (when
    its stream opened, or reopened, or a whole set was published that found room)
    every publication found room. *)
Definition nothing_missed (f : Feed R P) (id : string) (es : list (Event R)) : Prop :=
  ∃ es1 es2, es = es1 ++ es2 ∧
    (es1 = [] ∨ (∃ es0 id', es1 = es0 ++ [EvReconnect id']) ∨
     (∃ es0 rules, es1 = es0 ++ [EvUpdate rules] ∧ room (link_run (link_open f id) es0))) ∧
    (∀ es3 e es4, es2 = es3 ++ e :: es4 → publishes e = true → room (link_run (link_open f id) (es1 ++ es3))).

Lemma step_with_room l e : lk_lost l = false → (publishes e = true → room l) → lk_lost (link_step l e) = false.
Proof.
  intros Hl Hr. destruct e; simpl in *; try done.
  1-3: rewrite (proj2 (Nat.ltb_lt _ _)) by (by apply Hr); done.
  - destruct (lk_pending l); [|done]. by destruct (takeMessage _ _) as [[]|].
  - by destruct (lk_wire l).
Qed.

Lemma run_with_room l es :
  lk_lost l = false → (∀ es3 e es4, es = es3 ++ e :: es4 → publishes e = true → room (link_run l es3)) →
  lk_lost (link_run l es) = false.
Proof.
  revert l. induction es as [|e es IH]; intros l Hl Hr; [done|]. simpl. apply IH.
  - apply step_with_room; [done|]. by apply (Hr [] e es).
  - intros es3 e' es4 ->. by apply (Hr (e :: es3) e' es4).
Qed.

Lemma nothing_missed_kept f id es : nothing_missed f id es → lk_lost (link_run (link_open f id) es) = false.
Proof.
  intros (es1 & es2 & -> & Hes1 & Hr). unfold link_run in *. rewrite foldl_app. apply run_with_room.
  - destruct Hes1 as [->|[(es0 & id' & ->)|(es0 & rules & -> & Hroom)]]; [done|by rewrite foldl_app|].
    rewrite foldl_app. simpl. by rewrite (proj2 (Nat.ltb_lt _ _)).
  - intros es3 e es4 He Hp. specialize (Hr es3 e es4 He Hp). by rewrite foldl_app in Hr.
Qed.

End delivery.

Module DeliveryExample.
Definition rule : PublishedIssuanceRule :=
  {| pir_PolicyNamespace := ""; pir_PolicyName := "limits"; pir_RuleName := "allow"; pir_CEL := "true";
     pir_Message := ""; pir_TargetNamespaces := [] |}.
Definition opened : Link PublishedIssuanceRule ProtoIssuanceRule :=
  link_run (link_open (iss NewRuleServer) "iss-1") [EvUpsert rule].

(** The two sides take turns. *)
Definition alternate (n : nat) : Event PublishedIssuanceRule := if Nat.even n then EvSend else EvRecv.

Lemma alternate_fair : fair alternate.
Proof.
  intros n. unfold alternate. split.
  - exists (2 * n)%nat. split; [lia|]. by rewrite Nat.even_mul.
  - exists (2 * n + 1)%nat. split; [lia|]. by rewrite Nat.even_add, Nat.even_mul.
Qed.

End DeliveryExample.
