(* ===== verification/TTSRuleClient.v ===== *)
(** * pkg/tts/ruleclient/handler_setter.go: streamed rules reach the handler

    [HandlerSetter] compiles the rules of a message and replaces the handler's
    set; when one does not compile the previous set stays. *)

From S2P Require Import Prelude GoStrings External Keys Issuance Authn TTSHandler.
From S2P Require Import Api RulesProto GoSort RuleServer RuleClient Pipeline.

(** ** When a set compiles *)

Section compile.
Context `{CEL}.

(** The expression compiles to a boolean program in the TTS's environment. *)
Definition issuance_cel_valid (cel : string) : Prop :=
  cel ≠ "" ∧ ∃ env ast, newIssuanceCELEnv = Ok env ∧ cel_Compile env cel = Ok ast ∧
    cel_OutputType ast = BoolType ∧ is_ok (cel_Program env ast) = true.

Lemma compileIssuanceRule_valid env i cfg :
  newIssuanceCELEnv = Ok env →
  is_ok (compileIssuanceRule env (i, cfg)) = true ↔ issuance_cel_valid (cfg_CEL cfg).
Proof.
  intros Henv. unfold compileIssuanceRule, issuance_cel_valid. rewrite Henv. split.
  - intros HC. case_bool_decide; [done|]. destruct (cel_Compile env _) as [ast|] eqn:Hc; [|done].
    simpl in HC. case_bool_decide; [|done]. simpl in HC. split; [done|]. exists env, ast.
    split_and!; [done..|]. by destruct (cel_Program env ast).
  - intros (Hne & env' & ast & [= <-] & Hc & Ht & Hp). rewrite bool_decide_false, Hc by done.
    simpl. rewrite bool_decide_true by done. simpl. by destruct (cel_Program env ast).
Qed.

Lemma elem_of_imap_pair {A} (l : list A) p : p ∈ imap pair l → p.2 ∈ l.
Proof.
  intros (i & Hi)%list_elem_of_lookup. rewrite list_lookup_imap in Hi.
  destruct (l !! i) as [x|] eqn:Hx; [|done]. injection Hi as <-. simpl.
  by eapply list_elem_of_lookup_2.
Qed.

(** A set compiles when each expression does, whatever the names and order. *)
Lemma CompileIssuanceRules_valid cfgs :
  is_ok (CompileIssuanceRules cfgs) = true ↔ ∀ cfg, cfg ∈ cfgs → issuance_cel_valid (cfg_CEL cfg).
Proof.
  unfold CompileIssuanceRules. case_bool_decide as Hlen.
  { destruct cfgs; [|done]. split; [by intros _ ? ?%elem_of_nil|done]. }
  destruct newIssuanceCELEnv as [env|] eqn:Henv; simpl.
  - rewrite traverse_is_ok. split.
    + intros Hall cfg (i & Hi)%list_elem_of_lookup.
      rewrite <-(compileIssuanceRule_valid env i) by done. apply Hall.
      apply (list_elem_of_lookup_2 _ i). by rewrite list_lookup_imap, Hi.
    + intros Hall [i cfg] Hin%elem_of_imap_pair.
      apply compileIssuanceRule_valid; [done|]. by apply Hall.
  - split; [done|]. intros Hall. destruct cfgs as [|cfg cfgs]; [done|].
    destruct (Hall cfg (list_elem_of_here _ _)) as (_ & env & ast & He & _). congruence.
Qed.

(** A compiled rule is its configuration with the program of its expression. *)
Definition compiled_from (cfg : IssuanceRuleConfig) (r : IssuanceRule) : Prop :=
  ir_Name r = cfg_Name cfg ∧ ir_message r = cfg_Message cfg ∧
  ir_TargetNamespaces r = cfg_TargetNamespaces cfg ∧
  ∃ env ast, newIssuanceCELEnv = Ok env ∧ cel_Compile env (cfg_CEL cfg) = Ok ast ∧
    cel_OutputType ast = BoolType ∧ cel_Program env ast = Ok (ir_program r).

Lemma compileIssuanceRule_from env i cfg r :
  newIssuanceCELEnv = Ok env → compileIssuanceRule env (i, cfg) = Ok r → compiled_from cfg r.
Proof.
  intros Henv. unfold compileIssuanceRule. case_bool_decide; [done|].
  destruct (cel_Compile env _) as [ast|] eqn:Hc; [|done]. simpl.
  case_bool_decide; [|done]. simpl. destruct (cel_Program env ast) as [prg|] eqn:Hp; [|done].
  intros [= <-]. split_and!; [done..|]. exists env, ast. done.
Qed.

Lemma Forall2_imap_pair {A B} (Q : nat * A → B → Prop) (Q' : A → B → Prop) l l' :
  (∀ i x y, Q (i, x) y → Q' x y) → Forall2 Q (imap pair l) l' → Forall2 Q' l l'.
Proof.
  intros HQ. rewrite !Forall2_lookup. intros HF i. specialize (HF i).
  rewrite list_lookup_imap in HF. destruct (l !! i); simpl in HF; inversion HF; subst.
  - constructor. eauto.
  - constructor.
Qed.

Lemma CompileIssuanceRules_from cfgs rules :
  CompileIssuanceRules cfgs = Ok rules → Forall2 compiled_from cfgs rules.
Proof.
  unfold CompileIssuanceRules. case_bool_decide as Hlen.
  { destruct cfgs; [|done]. by intros [= <-]. }
  destruct newIssuanceCELEnv as [env|] eqn:Henv; [|done]. simpl.
  rewrite traverse_ok. apply Forall2_imap_pair. intros i cfg r. by apply compileIssuanceRule_from.
Qed.
End compile.

(** ** The setter *)

Section setter.
Context `{CEL, Crypto} {A V : Type}.

Record HandlerSetter := { hs_Handler : option (Handler A V) }.

Definition NewHandlerSetter (h : Handler A V) : HandlerSetter := {| hs_Handler := Some h |}.

Definition HandlerSetter_SetIssuanceRules (s : HandlerSetter) (rules : list PublishedIssuanceRule)
  : result unit * HandlerSetter :=
  match hs_Handler s with
  | None => (Err (errorf "handler is nil" []), s)
  | Some h =>
    match map_err (wrapf "compiling issuance rules: %w" [])
                  (CompileIssuanceRules (map handlerConfig rules)) with
    | Err e => (Err e, s)
    | Ok compiled => (Ok tt, {| hs_Handler := Some (TTSHandler.SetIssuanceRules h compiled) |})
    end
  end.

#[export] Instance HandlerSetter_IssuanceSetter : IssuanceSetter HandlerSetter :=
  {| SetIssuanceRules := HandlerSetter_SetIssuanceRules |}.

Lemma HandlerSetter_ok s h rules :
  hs_Handler s = Some h → (∀ r, r ∈ rules → issuance_cel_valid (pir_CEL r)) →
  ∃ compiled, CompileIssuanceRules (map handlerConfig rules) = Ok compiled ∧
    HandlerSetter_SetIssuanceRules s rules
    = (Ok tt, {| hs_Handler := Some (TTSHandler.SetIssuanceRules h compiled) |}).
Proof.
  intros Hs Hv. unfold HandlerSetter_SetIssuanceRules. rewrite Hs.
  destruct (CompileIssuanceRules _) as [compiled|e] eqn:HC; [by exists compiled|].
  assert (is_ok (CompileIssuanceRules (map handlerConfig rules)) = true) as HC'.
  { apply CompileIssuanceRules_valid. intros cfg (r & -> & Hr)%list_elem_of_fmap. by apply Hv. }
  by rewrite HC in HC'.
Qed.

(** A failed update leaves the handler as it was. *)
Lemma HandlerSetter_err s rules e s' :
  HandlerSetter_SetIssuanceRules s rules = (Err e, s') → s' = s.
Proof.
  unfold HandlerSetter_SetIssuanceRules. destruct (hs_Handler s); [|by intros [= _ <-]].
  destruct (CompileIssuanceRules _); [done|]. by intros [= _ <-].
Qed.

(** ** The client's loop *)

Context (range : gmap issuanceKey PublishedIssuanceRule → list (issuanceKey * PublishedIssuanceRule)).

(** The client after the messages of one connection. *)
Definition tts_receive (c : TTSRuleClient HandlerSetter) (ms : list (StreamResponse ProtoIssuanceRule))
  : TTSRuleClient HandlerSetter * gmap issuanceKey PublishedIssuanceRule :=
  foldl (λ cm resp, onIssuanceResponse range cm.1 cm.2 resp) (c, ∅) ms.

Lemma onIssuanceResponse_map c m resp :
  (onIssuanceResponse range c m resp).2 = applyIssuance m (resp_Update resp).
Proof. unfold onIssuanceResponse, installIssuance. by destruct (SetIssuanceRules _ _) as [[]]. Qed.

Lemma onIssuanceResponse_handler c m resp :
  is_Some (hs_Handler (setter c)) →
  is_Some (hs_Handler (setter (onIssuanceResponse range c m resp).1)).
Proof.
  intros [h Hh]. unfold onIssuanceResponse, installIssuance. simpl. unfold HandlerSetter_SetIssuanceRules.
  rewrite Hh. destruct (CompileIssuanceRules _); simpl; [by eexists|by rewrite Hh; eexists].
Qed.

Lemma tts_receive_map c ms : (tts_receive c ms).2 = receive ∅ ms.
Proof.
  induction ms as [|resp ms IH] using rev_ind; [done|].
  unfold tts_receive, receive in *. rewrite !foldl_app. simpl. by rewrite onIssuanceResponse_map, IH.
Qed.

Lemma tts_receive_handler c ms :
  is_Some (hs_Handler (setter c)) → is_Some (hs_Handler (setter (tts_receive c ms).1)).
Proof.
  intros Hc. induction ms as [|resp ms IH] using rev_ind; [done|].
  unfold tts_receive in *. rewrite foldl_app. simpl. by apply onIssuanceResponse_handler.
Qed.

(** The rules of a map in any order sort to the same list as the published
    rules: keys are distinct. *)
Lemma range_sorted (m : gmap issuanceKey PublishedIssuanceRule) rules :
  (∀ m, range_order m (range m)) → NoDup (keyFor <$> rules) → m = rules_map keyFor rules →
  sortBy issuanceSortKey (range m).*2 = sortBy issuanceSortKey rules.
Proof.
  intros Hrange Hnd ->. symmetry. apply sortBy_Proper.
  - intros a b Ha Hb [= H1 H2 H3]. apply (rules_map_inj keyFor rules); [done..|].
    unfold keyFor. by rewrite H1, H2, H3.
  - by rewrite (Hrange (rules_map keyFor rules)), rules_map_to_list.
Qed.

(** Once the client's map is the server's rules, and these compile, the handler
    enforces exactly them, in the order of their keys. *)
Lemma tts_receive_final c ms rules :
  (∀ m, range_order m (range m)) → is_Some (hs_Handler (setter c)) → ms ≠ [] →
  NoDup (keyFor <$> rules) → (∀ r, r ∈ rules → issuance_cel_valid (pir_CEL r)) →
  receive ∅ ms = rules_map keyFor rules →
  ∃ h compiled,
    CompileIssuanceRules (map handlerConfig (sortBy issuanceSortKey rules)) = Ok compiled ∧
    setter (tts_receive c ms).1
    = {| hs_Handler := Some (TTSHandler.SetIssuanceRules h compiled) |} ∧
    synced (tts_receive c ms).1 = true.
Proof.
  intros Hrange Hc Hne Hnd Hv Hm.
  destruct ms as [|resp ms _] using rev_ind; [done|].
  pose proof (tts_receive_map c (ms ++ [resp])) as Hmap. rewrite Hm in Hmap.
  destruct (tts_receive_handler c ms Hc) as [h Hh].
  unfold tts_receive in *. rewrite foldl_app in *. simpl in *.
  set (cm := foldl _ (c, ∅) ms) in *. rewrite onIssuanceResponse_map in Hmap.
  unfold onIssuanceResponse, installIssuance. rewrite (range_sorted _ rules) by done.
  destruct (HandlerSetter_ok (setter cm.1) h (sortBy issuanceSortKey rules)) as (compiled & HC & HS).
  { done. }
  { intros r. rewrite sortBy_Permutation. apply Hv. }
  exists h, compiled. cbn [SetIssuanceRules HandlerSetter_IssuanceSetter]. by rewrite HS.
Qed.
End setter.
Arguments HandlerSetter {_ _} A V.
