(* ===== verification/RunLoop.v ===== *)
(** * The rule clients' connections: connect and Run

    [Run] of pkg/extauth/ruleclient and pkg/tts/ruleclient: connect, stream
    until the connection ends, wait, connect again, until the context is
    cancelled.  What the network and the context do during one attempt is the
    record [Attempt]; [Run] takes the attempts in order and says where the loop
    is after them, how long it slept before each reconnection, and the state of
    the client.  The list is finite, the loop need not be: [Reconnecting] and
    [Connected] are loops that have not returned.  When one of the two streams of
    the ext auth client fails, the goroutine of the other may still apply messages;
    they are applied here before the next attempt ([trailing]), although in the
    program they may also overlap with it. *)

From S2P Require Import Prelude GoStrings GoTime External Issuance Api RulesProto RuleServer RuleClient.

Local Open Scope Z_scope.

(** ** One connection *)

(** How a stream of rules ends. *)
Inductive StreamFailure : Type :=
  | OpenFailed (e : error)
  | SendFailed (e : error)
  | RecvFailed (e : error).

Definition generationError (f : StreamFailure) : error :=
  match f with
  | OpenFailed e => wrapf "open generation stream: %w" [] e
  | SendFailed e => wrapf "send generation request: %w" [] e
  | RecvFailed e => wrapf "recv generation: %w" [] e
  end.
Definition verificationError (f : StreamFailure) : error :=
  match f with
  | OpenFailed e => wrapf "open verification stream: %w" [] e
  | SendFailed e => wrapf "send verification request: %w" [] e
  | RecvFailed e => wrapf "recv verification: %w" [] e
  end.
Definition issuanceError (f : StreamFailure) : error :=
  match f with
  | OpenFailed e => wrapf "open issuance stream: %w" [] e
  | SendFailed e => wrapf "send issuance request: %w" [] e
  | RecvFailed e => wrapf "recv issuance: %w" [] e
  end.

(** What happens while the ext auth client is connected, in order: a message or
    the end of one of the two streams, or the end of the context. *)
Inductive ConnEvent : Type :=
  | GenResponse (resp : StreamResponse ProtoGenerationRule)
  | GenFailed (f : StreamFailure)
  | VerResponse (resp : StreamResponse ProtoVerificationRule)
  | VerFailed (f : StreamFailure)
  | CtxDone (e : error).

Section extauth.
Context {G V : Type} `{!GenerationSetter G, !VerificationSetter V}.
Context (grange : gmap ruleKey GenerationRule → list (ruleKey * GenerationRule)).
Context (vrange : gmap ruleKey VerificationRule → list (ruleKey * VerificationRule)).

(** What the goroutines of a connection still do after [connect] has returned:
    [gen] and [ver] say which are running.  A message that was received is still
    applied; a goroutine ends when its stream, which the closing of the connection
    breaks, fails. *)
Fixpoint trailing (gen ver : bool) (c : RuleClient G V) (genRules : gmap ruleKey GenerationRule)
    (verRules : gmap ruleKey VerificationRule) (evs : list ConnEvent) : RuleClient G V :=
  match evs with
  | [] => c
  | GenResponse resp :: evs =>
    if gen then
      let '(c, genRules) := onGenerationResponse grange c genRules resp in
      trailing gen ver c genRules verRules evs
    else trailing gen ver c genRules verRules evs
  | GenFailed _ :: evs => trailing false ver c genRules verRules evs
  | VerResponse resp :: evs =>
    if ver then
      let '(c, verRules) := onVerificationResponse vrange c verRules resp in
      trailing gen ver c genRules verRules evs
    else trailing gen ver c genRules verRules evs
  | VerFailed _ :: evs => trailing gen false c genRules verRules evs
  | CtxDone _ :: evs => trailing gen ver c genRules verRules evs
  end.

(** Which streams a client starts. *)
Definition has_gen (c : RuleClient G V) : bool := bool_decide (is_Some (genSet c)).
Definition has_ver (c : RuleClient G V) : bool := bool_decide (is_Some (verSet c)).

(** The two goroutines and the [select] of [connect]; a stream whose setter is
    nil is not started.  [None]: the connection still holds.  The client returned
    is the one the next connection finds, after what the goroutines of this one
    still did. *)
Fixpoint serveStreams (c : RuleClient G V) (genRules : gmap ruleKey GenerationRule)
    (verRules : gmap ruleKey VerificationRule) (evs : list ConnEvent)
  : option error * RuleClient G V :=
  match evs with
  | [] => (None, c)
  | GenResponse resp :: evs =>
    match genSet c with
    | None => serveStreams c genRules verRules evs
    | Some _ =>
      let '(c, genRules) := onGenerationResponse grange c genRules resp in
      serveStreams c genRules verRules evs
    end
  | GenFailed f :: evs =>
    match genSet c with
    | None => serveStreams c genRules verRules evs
    | Some _ => (Some (generationError f), trailing false (has_ver c) c genRules verRules evs)
    end
  | VerResponse resp :: evs =>
    match verSet c with
    | None => serveStreams c genRules verRules evs
    | Some _ =>
      let '(c, verRules) := onVerificationResponse vrange c verRules resp in
      serveStreams c genRules verRules evs
    end
  | VerFailed f :: evs =>
    match verSet c with
    | None => serveStreams c genRules verRules evs
    | Some _ => (Some (verificationError f), trailing (has_gen c) false c genRules verRules evs)
    end
  | CtxDone e :: evs => (Some e, trailing (has_gen c) (has_ver c) c genRules verRules evs)
  end.

(** [dial] is the error of [grpc.NewClient]. *)
Definition connect (c : RuleClient G V) (dial : option error) (evs : list ConnEvent)
  : option error * RuleClient G V :=
  match dial with
  | Some e => (Some (wrapf "dial controller: %w" [] e), c)
  | None => serveStreams c ∅ ∅ evs
  end.
End extauth.

(** The TTS client has one stream and no [select]: only the stream's end ends
    the connection. *)
Inductive IssEvent : Type :=
  | IssResponse (resp : StreamResponse ProtoIssuanceRule)
  | IssFailed (f : StreamFailure).

Section tts.
Context {S : Type} `{!IssuanceSetter S}.
Context (range : gmap issuanceKey PublishedIssuanceRule → list (issuanceKey * PublishedIssuanceRule)).

Fixpoint streamIssuance (c : TTSRuleClient S) (rules : gmap issuanceKey PublishedIssuanceRule)
    (evs : list IssEvent) : option error * TTSRuleClient S :=
  match evs with
  | [] => (None, c)
  | IssResponse resp :: evs =>
    let '(c, rules) := onIssuanceResponse range c rules resp in streamIssuance c rules evs
  | IssFailed f :: _ => (Some (issuanceError f), c)
  end.

Definition connectTTS (c : TTSRuleClient S) (dial : option error) (evs : list IssEvent)
  : option error * TTSRuleClient S :=
  match dial with
  | Some e => (Some (wrapf "dial controller: %w" [] e), c)
  | None => streamIssuance c ∅ evs
  end.
End tts.

(** ** The loop *)

Record Attempt (E : Type) := {
  at_dial : option error;
  at_events : list E;
  (** [ctx.Err()] when [connect] has returned. *)
  at_ctxErr : option error;
  (** [ctx.Done()] fires before the timer: the context's error then. *)
  at_waitDone : option error;
}.
Arguments at_dial {_} _.
Arguments at_events {_} _.
Arguments at_ctxErr {_} _.
Arguments at_waitDone {_} _.

Inductive LoopState : Type :=
  | Returned (e : error)
  | Connected
  | Reconnecting.

Section loop.
Context {C E : Type} (conn : C → option error → list E → option error * C) (next : Z → Z).

Fixpoint runLoop (backoff : Z) (c : C) (attempts : list (Attempt E)) : LoopState * list Z * C :=
  match attempts with
  | [] => (Reconnecting, [], c)
  | a :: attempts =>
    match conn c (at_dial a) (at_events a) with
    | (None, c) => (Connected, [], c)
    | (Some _, c) =>
      match at_ctxErr a with
      | Some e => (Returned e, [], c)
      | None =>
        match at_waitDone a with
        | Some e => (Returned e, [], c)
        | None =>
          let '(st, slept, c) := runLoop (next backoff) c attempts in (st, backoff :: slept, c)
        end
      end
    end
  end.
End loop.

Definition Run {G V : Type} `{!GenerationSetter G, !VerificationSetter V} grange vrange
  : RuleClient G V → list (Attempt ConnEvent) → LoopState * list Z * RuleClient G V :=
  runLoop (connect grange vrange) nextBackoff initialBackoff.

Definition TTS_Run {S : Type} `{!IssuanceSetter S} range
  : TTSRuleClient S → list (Attempt IssEvent) → LoopState * list Z * TTSRuleClient S :=
  runLoop (connectTTS range) nextBackoffTTS initialBackoff.

(** ** When the loop returns *)

(** The error of the context an attempt was cancelled with. *)
Definition ctx_error {E} (a : Attempt E) : option error :=
  match at_ctxErr a with Some e => Some e | None => at_waitDone a end.

(** How many attempts were not cancelled before the first that was. *)
Fixpoint before_cancel {E} (attempts : list (Attempt E)) : nat :=
  match attempts with
  | [] => 0
  | a :: attempts => match ctx_error a with Some _ => 0 | None => Datatypes.S (before_cancel attempts) end
  end.

Definition loop_state {E} (attempts : list (Attempt E)) : LoopState :=
  match head (omap ctx_error attempts) with Some e => Returned e | None => Reconnecting end.

Lemma loop_state_cons {E} (a : Attempt E) attempts :
  loop_state (a :: attempts)
  = match ctx_error a with Some e => Returned e | None => loop_state attempts end.
Proof. unfold loop_state. simpl. by destruct (ctx_error a). Qed.

Definition delays (n : nat) : list Z :=
  map (λ i, Z.min (initialBackoff * 2 ^ Z.of_nat i) maxBackoff) (seq 0 n).

Section loop_spec.
Context {C E : Type} (conn : C → option error → list E → option error * C) (next : Z → Z).
(** An invariant of the client, under which an attempt ends. *)
Context (I : C → Prop) (ends : Attempt E → Prop).
Context (conn_ends : ∀ c a, I c → ends a →
  is_Some (conn c (at_dial a) (at_events a)).1 ∧ I (conn c (at_dial a) (at_events a)).2).

Lemma runLoop_spec backoff c attempts :
  I c → Forall ends attempts →
  (runLoop conn next backoff c attempts).1
  = (loop_state attempts, backoffs next backoff (before_cancel attempts)).
Proof using conn_ends.
  revert backoff c. induction attempts as [|a attempts IH]; intros backoff c Hc Ha; [done|].
  apply Forall_cons in Ha as [Ha Has]. destruct (conn_ends c a Hc Ha) as [[e He] HI].
  rewrite loop_state_cons. cbn [runLoop before_cancel]. destruct (conn c _ _) as [r c'].
  simpl in He, HI. subst r. unfold ctx_error. destruct (at_ctxErr a) as [e'|]; [done|].
  destruct (at_waitDone a) as [e'|]; [done|]. specialize (IH (next backoff) c' HI Has).
  destruct (runLoop conn next (next backoff) c' attempts) as [[st slept] c'']. simpl in *.
  by injection IH as -> ->.
Qed.
End loop_spec.

Section extauth_spec.
Context {G V : Type} `{!GenerationSetter G, !VerificationSetter V}.
Context (grange : gmap ruleKey GenerationRule → list (ruleKey * GenerationRule)).
Context (vrange : gmap ruleKey VerificationRule → list (ruleKey * VerificationRule)).

(** The streams a client runs; they do not change. *)
Definition streams (c : RuleClient G V) : bool * bool :=
  (bool_decide (is_Some (genSet c)), bool_decide (is_Some (verSet c))).

(** An event that ends the connection of a client with these streams. *)
Definition ending (st : bool * bool) (ev : ConnEvent) : bool :=
  match ev with CtxDone _ => true | GenFailed _ => st.1 | VerFailed _ => st.2 | _ => false end.

Definition attempt_ends (st : bool * bool) (a : Attempt ConnEvent) : Prop :=
  is_Some (at_dial a) ∨ Exists (λ ev, ending st ev = true) (at_events a).

(** A message changes no stream; neither do the trailing ones. *)
Lemma onGenerationResponse_streams c gm resp : streams (onGenerationResponse grange c gm resp).1 = streams c.
Proof. unfold streams. simpl. by destruct (genSet c). Qed.
Lemma onVerificationResponse_streams c vm resp : streams (onVerificationResponse vrange c vm resp).1 = streams c.
Proof. unfold streams. simpl. by destruct (verSet c). Qed.

Lemma trailing_streams g v c gm vm evs : streams (trailing grange vrange g v c gm vm evs) = streams c.
Proof.
  revert g v c gm vm. induction evs as [|ev evs IH]; intros g v c gm vm; [done|]. destruct ev; cbn [trailing].
  - destruct g; [|apply IH]. pose proof (onGenerationResponse_streams c gm resp) as Hs.
    destruct (onGenerationResponse _ _ _ _). by rewrite IH.
  - apply IH.
  - destruct v; [|apply IH]. pose proof (onVerificationResponse_streams c vm resp) as Hs.
    destruct (onVerificationResponse _ _ _ _). by rewrite IH.
  - apply IH.
  - apply IH.
Qed.

Lemma serveStreams_spec c gm vm evs :
  streams (serveStreams grange vrange c gm vm evs).2 = streams c ∧
  (is_Some (serveStreams grange vrange c gm vm evs).1 ↔
   Exists (λ ev, ending (streams c) ev = true) evs).
Proof.
  revert c gm vm. induction evs as [|ev evs IH]; intros c gm vm.
  { split; [done|]. split; [by intros []|by intros ?%Exists_nil]. }
  rewrite Exists_cons. destruct ev as [resp|f|resp|f|e]; cbn [serveStreams ending].
  - destruct (genSet c) as [g|] eqn:Hg; [|destruct (IH c gm vm) as [-> ->]; naive_solver].
    destruct (onGenerationResponse grange c gm resp) as [c' gm'] eqn:Ho.
    assert (streams c' = streams c) as Hst.
    { rewrite <-(onGenerationResponse_streams c gm resp). by rewrite Ho. }
    destruct (IH c' gm' vm) as [-> ->]. rewrite Hst. naive_solver.
  - destruct (genSet c) as [g|] eqn:Hg.
    + split; [apply trailing_streams|]. split; [intros _; left|by eauto]. unfold streams. rewrite Hg. by apply bool_decide_true.
    + destruct (IH c gm vm) as [-> ->]. split; [done|]. split; [by right|]. intros [Hst|]; [|done].
      unfold streams in Hst. by rewrite Hg in Hst.
  - destruct (verSet c) as [v|] eqn:Hv; [|destruct (IH c gm vm) as [-> ->]; naive_solver].
    destruct (onVerificationResponse vrange c vm resp) as [c' vm'] eqn:Ho.
    assert (streams c' = streams c) as Hst.
    { rewrite <-(onVerificationResponse_streams c vm resp). by rewrite Ho. }
    destruct (IH c' gm vm') as [-> ->]. rewrite Hst. naive_solver.
  - destruct (verSet c) as [v|] eqn:Hv.
    + split; [apply trailing_streams|]. split; [intros _; left|by eauto]. unfold streams. rewrite Hv. by apply bool_decide_true.
    + destruct (IH c gm vm) as [-> ->]. split; [done|]. split; [by right|]. intros [Hst|]; [|done].
      unfold streams in Hst. by rewrite Hv in Hst.
  - split; [apply trailing_streams|]. split; [by left|by eauto].
Qed.

Lemma connect_ends c0 c a :
  streams c = streams c0 → attempt_ends (streams c0) a →
  is_Some (connect grange vrange c (at_dial a) (at_events a)).1 ∧
  streams (connect grange vrange c (at_dial a) (at_events a)).2 = streams c0.
Proof.
  intros Hc Ha. unfold connect. destruct (at_dial a) as [e|] eqn:Hd; [by eauto|].
  destruct (serveStreams_spec c ∅ ∅ (at_events a)) as [-> ->]. rewrite Hc. split; [|done].
  by destruct Ha as [[? ?]|?]; simplify_eq.
Qed.
End extauth_spec.

Section tts_spec.
Context {S : Type} `{!IssuanceSetter S}.
Context (range : gmap issuanceKey PublishedIssuanceRule → list (issuanceKey * PublishedIssuanceRule)).

Definition attempt_ends_tts (a : Attempt IssEvent) : Prop :=
  is_Some (at_dial a) ∨ ∃ f, IssFailed f ∈ at_events a.

Lemma streamIssuance_ends c rules evs f :
  IssFailed f ∈ evs → is_Some (streamIssuance range c rules evs).1.
Proof.
  revert c rules. induction evs as [|ev evs IH]; intros c rules Hin; [by apply elem_of_nil in Hin|].
  destruct ev as [resp|f']; simpl; [|by eauto].
  apply elem_of_cons in Hin as [Hin|Hin]; [done|].
  destruct (onIssuanceResponse range c rules resp). by apply IH.
Qed.

Lemma connectTTS_ends (c : TTSRuleClient S) a :
  attempt_ends_tts a → is_Some (connectTTS range c (at_dial a) (at_events a)).1.
Proof.
  unfold connectTTS. destruct (at_dial a) as [e|] eqn:Hd; [by eauto|].
  intros [[? ?]|[f Hf]]; [congruence|]. by eapply streamIssuance_ends.
Qed.
End tts_spec.

(** C34.  Both clients run until their context is cancelled and no longer: when
    every attempt of a run ends (the dial failed, a running stream broke, or the
    context was done), the loop has returned if one of the attempts was
    cancelled, with the error of the first that was, and is about to reconnect
    if none was, whatever was received in between; before the n-th reconnection
    it slept for half a second doubled n times, at most thirty seconds.  The
    count is never reset: a connection that held for long does not make the next
    delay short again. *)
Theorem run_until_cancelled {G V S : Type} `{!GenerationSetter G, !VerificationSetter V, !IssuanceSetter S}
    grange vrange irange (c : RuleClient G V) attempts (t : TTSRuleClient S) tattempts :
  Forall (attempt_ends (streams c)) attempts → Forall attempt_ends_tts tattempts →
  (Run grange vrange c attempts).1 = (loop_state attempts, delays (before_cancel attempts)) ∧
  (TTS_Run irange t tattempts).1 = (loop_state tattempts, delays (before_cancel tattempts)).
Proof.
  intros Ha Ht. unfold Run, TTS_Run. split.
  - rewrite (runLoop_spec _ _ (λ c', streams c' = streams c) (attempt_ends (streams c)));
      [|intros; by apply connect_ends|done|done].
    f_equal. apply (backoff_schedule (before_cancel attempts)).
  - rewrite (runLoop_spec _ _ (λ _, True) attempt_ends_tts);
      [|intros; split; [by apply connectTTS_ends|done]|done|done].
    f_equal. apply (backoff_schedule (before_cancel tattempts)).
Qed.

Module RunExample.
#[local] Instance noGeneration : GenerationSetter unit := {| SetGenerationRules s _ := s |}.
#[local] Instance noVerification : VerificationSetter unit := {| SetVerificationRules s _ := s |}.
#[local] Instance noIssuance : IssuanceSetter unit := {| SetIssuanceRules s _ := (Ok tt, s) |}.

Definition canceled : error := errorf "context canceled" [].
Definition refused {E} : Attempt E :=
  {| at_dial := Some (errorf "refused" []); at_events := []; at_ctxErr := None; at_waitDone := None |}.
Definition stopped : Attempt ConnEvent :=
  {| at_dial := None; at_events := [CtxDone canceled]; at_ctxErr := Some canceled; at_waitDone := None |}.
Definition client : RuleClient unit unit := SetVerificationSetter NewRuleClient ().

Lemma run_until_cancelled_witness :
  (Run map_to_list map_to_list client [refused; refused; stopped; refused]).1
  = (Returned canceled, [500 * Millisecond; 1 * Second]) ∧
  (TTS_Run map_to_list {| setter := (); synced := false |} [refused]).1
  = (Reconnecting, [500 * Millisecond]).
Proof.
  apply (run_until_cancelled map_to_list map_to_list map_to_list client [refused; refused; stopped; refused]
    {| setter := (); synced := false |} [refused]).
  - repeat constructor; by eexists.
  - repeat constructor; by eexists.
Defined.
End RunExample.
