(* ===== verification/GoUrl.v ===== *)
(** * net/url: query strings

    [url.Values.Encode] and [url.ParseQuery], which the SDK's client and the HTTP
    server of the TTS use for the exchange form and the ext auth adapter for
    query parameters; and that parsing inverts encoding.  [url.Values] is a map
    from keys to lists. *)

From S2P Require Import Prelude GoStrings GoSort.

Definition Values_Get (v : gmap string (list string)) (key : string) : string :=
  match v !! key with Some (x :: _) => x | _ => "" end.

(** ** Escaping *)

Definition upper_hex (d : N) : ascii := ascii_of_N (if (d <? 10)%N then 48 + d else 55 + d).

Definition unhex (c : ascii) : option N :=
  let b := byte c in
  if in_range 48 57 b then Some (b - 48)%N else
  if in_range 97 102 b then Some (b - 87)%N else
  if in_range 65 70 b then Some (b - 55)%N else None.

(** [!shouldEscape(c, encodeQueryComponent)]. *)
Definition unreserved (c : ascii) : bool :=
  let b := byte c in
  in_range 97 122 b || in_range 65 90 b || in_range 48 57 b
  || bool_decide (c = "-"%char) || bool_decide (c = "_"%char)
  || bool_decide (c = "."%char) || bool_decide (c = "~"%char).

Definition escape_byte (c : ascii) : string :=
  if unreserved c then String c "" else
  if bool_decide (c = " "%char) then "+" else
  String "%" (String (upper_hex (byte c / 16)) (String (upper_hex (byte c mod 16)) "")).

Fixpoint QueryEscape (s : string) : string :=
  match s with
  | "" => ""
  | String c s => escape_byte c +:+ QueryEscape s
  end.

Fixpoint QueryUnescape (s : string) : result string :=
  match s with
  | "" => Ok ""
  | String c s' =>
    if bool_decide (c = "%"%char) then
      match s' with
      | String a (String b s'') =>
        match unhex a, unhex b with
        | Some h, Some l =>
          try! t := QueryUnescape s'' in Ok (String (ascii_of_N (16 * h + l)) t)
        | _, _ => Err (errorf "invalid URL escape" [s])
        end
      | _ => Err (errorf "invalid URL escape" [s])
      end
    else
      let c := if bool_decide (c = "+"%char) then " "%char else c in
      try! t := QueryUnescape s' in Ok (String c t)
  end.

(** ** Queries *)

(** [strings.Cut(s, "=")]. *)
Definition CutByte (s : string) (c : ascii) : string * string :=
  match IndexByte s c with
  | Some i => (take_str i s, drop_str (S i) s)
  | None => (s, "")
  end.

Definition Values_Add (v : gmap string (list string)) (key value : string)
  : gmap string (list string) :=
  <[key := default [] (v !! key) ++ [value]]> v.

(** One round of the loop of [parseQuery]: the values and the error so far. *)
Definition parseSegment (acc : gmap string (list string) * option error) (seg : string)
  : gmap string (list string) * option error :=
  let '(m, err) := acc in
  if ContainsByte seg ";" then
    (m, Some (errorf "invalid semicolon separator in query" [])) else
  if bool_decide (seg = "") then (m, err) else
  let '(key, value) := CutByte seg "=" in
  match QueryUnescape key, QueryUnescape value with
  | Err e, _ | Ok _, Err e => (m, Some (default e err))
  | Ok key, Ok value => (Values_Add m key value, err)
  end.

Definition ParseQuery (query : string) : result (gmap string (list string)) :=
  match foldl parseSegment (∅, None) (SplitByte query "&") with
  | (m, None) => Ok m
  | (_, Some e) => Err e
  end.

(** The pairs of [Encode], keys in order. *)
Definition encode_pairs (v : gmap string (list string)) : list (string * string) :=
  concat (map (λ kv, map (pair kv.1) kv.2) (sortBy (λ kv, [kv.1]) (map_to_list v))).

Definition encode_segment (kv : string * string) : string :=
  QueryEscape kv.1 +:+ String "=" (QueryEscape kv.2).

Definition Encode (v : gmap string (list string)) : string := JoinByte "&" (map encode_segment (encode_pairs v)).

(** ** Unescaping inverts escaping *)

Lemma unescape_byte c s :
  QueryUnescape (escape_byte c +:+ s) = (try! t := QueryUnescape s in Ok (String c t)).
Proof. by destruct c as [[] [] [] [] [] [] [] []]. Qed.

Lemma QueryUnescape_Escape s : QueryUnescape (QueryEscape s) = Ok s.
Proof. induction s as [|c s IH]; [done|]. cbn [QueryEscape]. by rewrite unescape_byte, IH. Qed.

(** The separators do not occur in an escaped text. *)
Definition is_separator (c : ascii) : bool :=
  bool_decide (c = "&"%char) || bool_decide (c = "="%char) || bool_decide (c = ";"%char).

Lemma IndexByte_escape_byte c b s :
  is_separator c = true → IndexByte s c = None → IndexByte (escape_byte b +:+ s) c = None.
Proof.
  unfold is_separator. rewrite !orb_true_iff, !bool_decide_eq_true. intros Hc Hs.
  assert (∀ a, a = "&"%char ∨ a = "="%char ∨ a = ";"%char → IndexByte s a = None →
    IndexByte (escape_byte b +:+ s) a = None) as Hall; [|by apply Hall; [tauto|]].
  clear. intros a Ha Hs. apply IndexByte_None in Hs. apply IndexByte_None.
  destruct Ha as [-> | [-> | ->]]; destruct b as [[] [] [] [] [] [] [] []]; exact Hs.
Qed.

Lemma IndexByte_QueryEscape c s : is_separator c = true → IndexByte (QueryEscape s) c = None.
Proof.
  intros Hc. induction s as [|b s IH]; [done|]. cbn [QueryEscape]. by apply IndexByte_escape_byte.
Qed.

Lemma IndexByte_segment c kv :
  is_separator c = true → c ≠ "="%char → IndexByte (encode_segment kv) c = None.
Proof.
  intros Hc Hne. unfold encode_segment. apply IndexByte_append; [by apply IndexByte_QueryEscape|].
  simpl. rewrite decide_False by done. by rewrite IndexByte_QueryEscape.
Qed.

Lemma drop_str_sep s c t : drop_str (S (String.length s)) (s +:+ String c t) = t.
Proof.
  induction s as [|a s IH]; [done|]. cbn [String.length]. rewrite str_app_cons.
  cbn [drop_str]. exact IH.
Qed.

Lemma parseSegment_encode m err kv :
  parseSegment (m, err) (encode_segment kv) = (Values_Add m kv.1 kv.2, err).
Proof.
  unfold parseSegment, ContainsByte. rewrite (IndexByte_segment ";") by done.
  rewrite bool_decide_false.
  - unfold CutByte, encode_segment. rewrite IndexByte_app by by apply IndexByte_QueryEscape.
    by rewrite take_str_app, drop_str_sep, !QueryUnescape_Escape.
  - unfold encode_segment. by apply str_app_ne_r.
Qed.

Lemma fold_segments m kvs :
  foldl parseSegment (m, None) (map encode_segment kvs)
  = (foldl (λ m kv, Values_Add m kv.1 kv.2) m kvs, None).
Proof.
  revert m. induction kvs as [|kv kvs IH]; intros m; [done|].
  cbn [map foldl]. by rewrite parseSegment_encode, IH.
Qed.

Lemma ParseQuery_Encode_pairs v :
  ParseQuery (Encode v) = Ok (foldl (λ m kv, Values_Add m kv.1 kv.2) ∅ (encode_pairs v)).
Proof.
  unfold ParseQuery, Encode. destruct (encode_pairs v) as [|kv kvs] eqn:E; [done|]. rewrite <-E.
  rewrite SplitByte_join; [by rewrite fold_segments|by rewrite E|].
  intros s (kv' & -> & _)%list_elem_of_fmap. by apply IndexByte_segment.
Qed.

(** Adding the values of one key one by one. *)
Lemma fold_more_values m k acc vs :
  foldl (λ m kv, Values_Add m kv.1 kv.2) (<[k := acc]> m) (map (pair k) vs) = <[k := acc ++ vs]> m.
Proof.
  revert acc. induction vs as [|x vs IH]; intros acc; simpl; [by rewrite app_nil_r|].
  unfold Values_Add at 2. simpl. rewrite lookup_insert_eq, insert_insert_eq. simpl.
  by rewrite IH, <-app_assoc.
Qed.

Lemma fold_one_key m k vs :
  vs ≠ [] → m !! k = None →
  foldl (λ m kv, Values_Add m kv.1 kv.2) m (map (pair k) vs) = <[k := vs]> m.
Proof.
  intros Hne Hk. destruct vs as [|x vs]; [done|]. simpl. unfold Values_Add at 2. rewrite Hk. simpl.
  apply fold_more_values.
Qed.

Lemma fold_keys m (l : list (string * list string)) :
  NoDup l.*1 → (∀ kv, kv ∈ l → kv.2 ≠ [] ∧ m !! kv.1 = None) →
  foldl (λ m kv, Values_Add m kv.1 kv.2) m (concat (map (λ kv, map (pair kv.1) kv.2) l))
  = list_to_map l ∪ m.
Proof.
  revert m. induction l as [|[k vs] l IH]; intros m Hnd Hl; [simpl; by rewrite (left_id_L ∅ (∪))|].
  cbn [map concat]. rewrite fmap_cons in Hnd. apply NoDup_cons in Hnd as [Hk Hnd].
  destruct (Hl (k, vs) (list_elem_of_here _ _)) as [Hne Hm].
  rewrite foldl_app, fold_one_key by done. rewrite IH; [|done|].
  - rewrite list_to_map_cons, <-insert_union_r; [by rewrite insert_union_l|].
    by apply not_elem_of_list_to_map_1.
  - intros kv Hkv. destruct (Hl kv) as [? Hm']; [by right|]. split; [done|].
    rewrite lookup_insert_ne; [done|]. intros Heq. apply Hk. rewrite Heq.
    by apply (list_elem_of_fmap_2 fst).
Qed.

(** Parsing an encoded form gives the form back, when no key has an empty list. *)
Lemma ParseQuery_Encode v : map_Forall (λ _ vs, vs ≠ []) v → ParseQuery (Encode v) = Ok v.
Proof.
  intros Hv. rewrite ParseQuery_Encode_pairs. f_equal. unfold encode_pairs.
  assert (sortBy (λ kv, [kv.1]) (map_to_list v) ≡ₚ map_to_list v) as HP by apply sortBy_Permutation.
  rewrite fold_keys.
  - rewrite (right_id_L ∅ (∪)), (list_to_map_proper _ (map_to_list v));
      [apply list_to_map_to_list| |done].
    rewrite HP. apply NoDup_fst_map_to_list.
  - rewrite HP. apply NoDup_fst_map_to_list.
  - intros [k vs] Hin. rewrite HP, elem_of_map_to_list in Hin. split; [|apply lookup_empty].
    by apply (Hv k).
Qed.
