(* ===== verification/SdkClient.v ===== *)
(** * sdk/tts and sdk/middleware: calling the TTS, verifying and propagating tokens *)

From stdpp Require Import pretty.
From S2P Require Import Prelude GoStrings GoValue GoTime External GoSort GoUrl Token Keys Fetch.
From S2P Require Import LocalVerifier SdkVerify Authn TTSHandler.

Local Open Scope Z_scope.

(** ** sdk/tts/client.go *)

Record exchangeResponse := {
  er_AccessToken : string; er_IssuedTokenType : string; er_TokenType : string;
  er_Error : string; er_ErrorDesc : string;
}.

(** The HTTP client at the moment of a call. *)
Class HttpClient := {
  (** The error of [http.NewRequestWithContext(ctx, "POST", url, body)]. *)
  http_NewRequest : string → option error;
  (** [c.client.Do(httpReq)] for a POST of a form: the status, and what reading
      the body gives. *)
  http_Do : string → string → result (Z * result string);
  (** [json.Unmarshal(body, &resp)] into an [exchangeResponse]. *)
  decode_exchangeResponse : string → result exchangeResponse;
}.

Record Client := { cl_endpoint : string }.

Definition NewClient (endpoint : string) : Client := {| cl_endpoint := TrimSuffix endpoint "/" |}.

Record ExchangeRequest := {
  xr_SubjectToken : string; xr_SubjectTokenType : string; xr_Scope : string;
  xr_RequestDetails : gomap; xr_RequestContext : gomap;
}.

Section client.
Context `{JSON, HttpClient}.

(** [if m != nil { text := json.Marshal(m); form.Set(key, text) }]. *)
Definition setJSON (form : gmap string (list string)) (key format : string) (m : gomap)
  : result (gmap string (list string)) :=
  match m with
  | None => Ok form
  | Some _ => try! text := map_err (wrapf format []) (json_Marshal (AMap m)) in
              Ok (<[key := [text]]> form)
  end.

(** The form of a request whose token type is set. *)
Definition exchangeForm (req : ExchangeRequest) : result (gmap string (list string)) :=
  let form : gmap string (list string) :=
    {[ "grant_type" := [GrantType]; "subject_token" := [xr_SubjectToken req];
       "subject_token_type" := [xr_SubjectTokenType req];
       "requested_token_type" := [RequestedTokenType]; "scope" := [xr_Scope req] ]} in
  try! form := setJSON form "request_details" "marshaling request_details: %w"
                       (xr_RequestDetails req) in
  setJSON form "request_context" "marshaling request_context: %w" (xr_RequestContext req).

(** What is made of the reply. *)
Definition exchangeResult (status : Z) (body : string) : result string :=
  if negb (bool_decide (status = 200)) then
    match decode_exchangeResponse body with
    | Ok errResp =>
      if negb (bool_decide (er_Error errResp = "")) then
        Err (errorf "token exchange failed (HTTP %d): %s: %s"
               [pretty status; er_Error errResp; er_ErrorDesc errResp])
      else Err (errorf "token exchange failed (HTTP %d): %s" [pretty status; body])
    | Err _ => Err (errorf "token exchange failed (HTTP %d): %s" [pretty status; body])
    end
  else
  try! exchResp := map_err (wrapf "decoding token exchange response: %w" [])
                           (decode_exchangeResponse body) in
  if bool_decide (er_AccessToken exchResp = "") then
    Err (errorf "token exchange response has no access_token" [])
  else Ok (er_AccessToken exchResp).

(** [Exchange]; the caller's request, whose empty token type is filled in, is
    the second result. *)
Definition Exchange (c : Client) (req : ExchangeRequest) : result string * ExchangeRequest :=
  if bool_decide (xr_SubjectToken req = "") then
    (Err (errorf "subject_token is required" []), req) else
  if bool_decide (xr_Scope req = "") then (Err (errorf "scope is required" []), req) else
  let req := if bool_decide (xr_SubjectTokenType req = "")
             then {| xr_SubjectToken := xr_SubjectToken req;
                     xr_SubjectTokenType := SubjectTokenTypeAccessToken; xr_Scope := xr_Scope req;
                     xr_RequestDetails := xr_RequestDetails req;
                     xr_RequestContext := xr_RequestContext req |}
             else req in
  (try! form := exchangeForm req in
   let url := cl_endpoint c +:+ "/token_endpoint" in
   match http_NewRequest url with
   | Some e => Err (wrapf "creating request: %w" [] e)
   | None =>
     try! resp := map_err (wrapf "sending token exchange request: %w" [])
                          (http_Do url (Encode form)) in
     let '(status, body) := resp in
     try! body := map_err (wrapf "reading response body: %w" []) body in
     exchangeResult status body
   end, req).
End client.

(** ** sdk/middleware *)

(** A request context as the middleware uses it: the two values it stores. *)
Record Ctx := { ctx_claims : option Claims; ctx_token : option string }.
Definition Background : Ctx := {| ctx_claims := None; ctx_token := None |}.

Definition withClaims (ctx : option Ctx) (claims : Claims) : Ctx :=
  {| ctx_claims := Some claims; ctx_token := ctx_token (default Background ctx) |}.
Definition withToken (ctx : option Ctx) (tokenString : string) : Ctx :=
  {| ctx_claims := ctx_claims (default Background ctx); ctx_token := Some tokenString |}.
Definition ClaimsFromContext (ctx : option Ctx) : option Claims :=
  match ctx with None => None | Some ctx => ctx_claims ctx end.
Definition TokenFromContext (ctx : option Ctx) : string :=
  match ctx with None => "" | Some ctx => default "" (ctx_token ctx) end.

(** What the middleware does with a request: the next handler's context, or a
    401 with the message. *)
Inductive MiddlewareOutcome : Type :=
  | Next (ctx : Ctx)
  | VerifyError (message : error)
  | MiddlewarePanic.

Definition VerifyTxToken `{Crypto, !JWT, Documents} (net : Network) (now : Z) (v : Verifier)
    (header : Header) (ctx : option Ctx) : MiddlewareOutcome * Verifier :=
  let tokenString := Header_Get header HeaderName in
  if bool_decide (tokenString = "") then (VerifyError (errorf "missing Txn-Token header" []), v) else
  match sdk_Verify net now v tokenString with
  | (Err (GoPanic _), v) => (MiddlewarePanic, v)
  | (Err e, v) => (VerifyError e, v)
  | (Ok claims, v) => (Next (withToken (Some (withClaims ctx claims)) tokenString), v)
  end.

(** [PropagateTransport.RoundTrip]: the headers the base transport is called
    with; the caller's request is not changed. *)
Definition RoundTrip (header : Header) (ctx : option Ctx) : Header :=
  if negb (bool_decide (Header_Get header HeaderName = "")) then header else
  let txToken := TokenFromContext ctx in
  if negb (bool_decide (txToken = "")) then Header_Set header HeaderName txToken else header.
