(* ===== verification/SdkProps.v ===== *)
(** * Clients of the TTS: what they send is what it reads, what it signs they accept *)

From S2P Require Import Prelude GoStrings GoValue GoTime External GoSort GoUrl Token Keys Fetch.
From S2P Require Import LocalVerifier SdkVerify Authn TTSHandler TTSProps SdkClient Instances.

Local Open Scope Z_scope.

Section agreement.
Context `{!JSON, !JSONLaws _}.

(** A context as it arrives. *)
Definition received_context (m : gomap) : gomap :=
  match m with
  | None => None
  | Some _ => match json_norm (AMap m) with AMap m' => m' | _ => None end
  end.

Lemma setJSON_ok form key format m form' :
  setJSON form key format m = Ok form' →
  map_Forall (λ _ vs, vs ≠ []) form → form !! key = None →
  map_Forall (λ _ vs, vs ≠ []) form' ∧
  (∀ k, k ≠ key → form' !! k = form !! k) ∧
  ∀ format', parseOptionalJSON (FormValue form' key) format' = Ok (received_context m).
Proof.
  unfold setJSON. intros Hset Hne Hkey. destruct m as [m|].
  - destruct (json_Marshal (AMap (Some m))) as [text|] eqn:Hm; [|done]. simpl in Hset.
    injection Hset as <-. apply json_Marshal_map in Hm as (Ht & m' & Hu & Hn). split_and!.
    + by apply map_Forall_insert_2.
    + intros k Hk. by rewrite lookup_insert_ne.
    + intros format'. unfold parseOptionalJSON, FormValue. rewrite lookup_insert_eq.
      rewrite bool_decide_false, Hu by done. simpl. unfold received_context. by rewrite Hn.
  - injection Hset as <-. split_and!; [done..|]. intros format'.
    unfold parseOptionalJSON, FormValue. rewrite Hkey. by rewrite bool_decide_true.
Qed.

(** The form of a request is parsed back into it. *)
Lemma exchangeForm_parsed req form :
  xr_SubjectToken req ≠ "" → xr_SubjectTokenType req ≠ "" → xr_Scope req ≠ "" →
  exchangeForm req = Ok form →
  ∃ parsed, ParseQuery (Encode form) = Ok parsed ∧
    parseRequest parsed = Ok
      {| ter_GrantType := GrantType; ter_SubjectToken := xr_SubjectToken req;
         ter_SubjectTokenType := xr_SubjectTokenType req;
         ter_RequestedTokenType := RequestedTokenType; ter_Audience := "";
         ter_Scope := xr_Scope req;
         ter_RequestDetails := received_context (xr_RequestDetails req);
         ter_RequestContext := received_context (xr_RequestContext req) |}.
Proof.
  intros Htok Hty Hsc. unfold exchangeForm. cbv zeta. set (base := <[_ := _]> _).
  destruct (setJSON base _ _ _) as [f1|] eqn:H1; [|done]. intros H2.
  destruct (setJSON_ok _ _ _ _ _ H1) as (Hne1 & Ho1 & Hd).
  { unfold base. by repeat apply map_Forall_insert_2. }
  { done. }
  destruct (setJSON_ok _ _ _ _ _ H2) as (Hne2 & Ho2 & Hr); [done|by rewrite Ho1|].
  exists form. split; [by apply ParseQuery_Encode|].
  assert (∀ k, k ≠ "request_details" → k ≠ "request_context" → FormValue form k = FormValue base k) as Hf.
  { intros k Hk1 Hk2. unfold FormValue. by rewrite Ho2, Ho1. }
  unfold parseRequest. cbv zeta.
  rewrite (Hf "grant_type"), (Hf "subject_token"), (Hf "subject_token_type"),
    (Hf "requested_token_type"), (Hf "scope"), (Hf "audience") by done.
  change (FormValue base "grant_type") with GrantType.
  change (FormValue base "subject_token") with (xr_SubjectToken req).
  change (FormValue base "subject_token_type") with (xr_SubjectTokenType req).
  change (FormValue base "requested_token_type") with RequestedTokenType.
  change (FormValue base "scope") with (xr_Scope req).
  change (FormValue base "audience") with "".
  rewrite (bool_decide_true (GrantType = _)), (bool_decide_true (RequestedTokenType = _)) by done.
  rewrite (bool_decide_false (xr_SubjectToken req = _)), (bool_decide_false (xr_Scope req = _)),
    (bool_decide_false (xr_SubjectTokenType req = _)) by done. cbn [negb].
  assert (FormValue form "request_details" = FormValue f1 "request_details") as ->.
  { unfold FormValue. by rewrite Ho2. }
  by rewrite Hd, Hr.
Qed.
(** C11.  The SDK and the TTS agree on the wire format: the form text the client
    posts for a request is parsed by the server into exactly that exchange, with
    the subject token, its type, the scope and both contexts as the client gave
    them (up to JSON's normal form); no text of a field can be mistaken for
    another field. *)
Theorem exchange_parsed_as_sent req form :
  xr_SubjectToken req ≠ "" → xr_SubjectTokenType req ≠ "" → xr_Scope req ≠ "" →
  exchangeForm req = Ok form →
  ∃ parsed, ParseQuery (Encode form) = Ok parsed ∧
    parseRequest parsed = Ok
      {| ter_GrantType := GrantType; ter_SubjectToken := xr_SubjectToken req;
         ter_SubjectTokenType := xr_SubjectTokenType req;
         ter_RequestedTokenType := RequestedTokenType; ter_Audience := "";
         ter_Scope := xr_Scope req;
         ter_RequestDetails := received_context (xr_RequestDetails req);
         ter_RequestContext := received_context (xr_RequestContext req) |}.
Proof. apply exchangeForm_parsed. Qed.
End agreement.

(** ** Downstream services *)

Lemma Header_Get_Set h k v : Header_Get (Header_Set h k v) k = v.
Proof. unfold Header_Get, Header_Set. by rewrite lookup_insert_eq. Qed.

Section downstream.
Context `{!JSON, !JSONLaws _, !CEL, !Crypto, !JWT, !JWTLaws _, !Documents} {A : Type}.

(** [trusts net v km]: the verifier gets the manager's keys from its JWKS URL and
    has no other key under the identifier of the current one. *)
Definition trusts (net : Network) (v : Verifier) (km : Manager) : Prop :=
  (∃ body, net (vf_jwksURL v) = Ok {| StatusCode := 200; Body := body |} ∧ decode_JWKS body = Ok (PublicKeys km)) ∧
  ∀ k, vf_keys v !! kid (current km) = Some k → k = private_PublicKey (privateKey (current km)).

(** Keys that survive the trip through the JWKS document, under distinct
    identifiers. *)
Definition publishable (km : Manager) : Prop :=
  key_in_range (private_PublicKey (privateKey (current km))) ∧
  (∀ p, previous km = Some p →
     key_in_range (private_PublicKey (privateKey p)) ∧ kid p ≠ kid (current km)) ∧
  json_text (kid (current km)) ∧ kid (current km) ≠ "".

Lemma VerifyTxToken_issued km c lt iat uuid tok net v now' header ctx :
  New c (privateKey (current km)) (kid (current km)) lt iat uuid = Ok tok →
  trusts net v km → publishable km → vf_audience v = Audience c → Audience c ≠ "" → json_claims c → json_text uuid →
  small_time (Unix iat) → small_time (Unix (Add iat lt)) → now' < Unix (Add iat lt) * Second →
  Header_Get header HeaderName = tok →
  tok ≠ "" ∧ ∃ v', VerifyTxToken net now' v header ctx
    = (Next (withToken (Some (withClaims ctx (issuedClaims c iat uuid lt))) tok), v').
Proof.
  intros HN ((body & Hnet & Hdoc) & Hcache) (Hr & Hp & Hkj & Hkne) Ha Hane Hc Hu Hi He Hnow Hhdr. rewrite <-Ha in Hane.
  assert ((sdk_Verify net now' v tok).1 = Ok (issuedClaims c iat uuid lt)) as HV.
  { eapply sdk_Verify_issued; try done.
    destruct (vf_keys v !! kid (current km)) as [k|] eqn:Hk; [left; by rewrite <-(Hcache k eq_refl)|].
    right. split; [done|]. unfold sdk_fetchJWKS. rewrite Hnet. cbn [StatusCode Body].
    rewrite bool_decide_true, Hdoc by done. eexists. split; [done|]. by apply installKeys_current. }
  assert (tok ≠ "") as Hne. { apply New_signed in HN as [_ Hs]. by eapply jwt_signed_nonempty. }
  split; [done|]. unfold VerifyTxToken. rewrite Hhdr, bool_decide_false by done.
  destruct (sdk_Verify net now' v tok) as [r v']. simpl in HV. subst r. by exists v'.
Qed.

(** A request made in a context with a token carries it. *)
Lemma RoundTrip_token out ctx tok :
  tok ≠ "" → Header_Get out HeaderName = "" → Header_Get (RoundTrip out (Some (withToken ctx tok))) HeaderName = tok.
Proof.
  intros Hne Hout. unfold RoundTrip. rewrite Hout, bool_decide_true by done. simpl.
  rewrite bool_decide_false by done. simpl. apply Header_Get_Set.
Qed.

(** C10.  A token the TTS signs is accepted by the middleware of any service that
    reads the TTS's JWKS document, until the token expires, whatever keys the
    service has cached (a stale cache from before a rotation included) as long
    as none is cached under the signing key's identifier that is not that key
    (the audience is a trust domain, which the configuration requires to be
    non-empty);
    the handler behind it sees the claims that were signed, and an outbound
    request made in its context carries the same token. *)
Theorem issued_token_accepted_downstream (h : Handler A localVerifier) env c resp net v body now' header out :
  let km := keyManager h in
  let iat := env_SignTime env in
  reply_Body (signAndRespond h env c) = TokenBody resp →
  net (vf_jwksURL v) = Ok {| StatusCode := 200; Body := body |} → decode_JWKS body = Ok (PublicKeys km) →
  key_in_range (private_PublicKey (privateKey (current km))) →
  (∀ p, previous km = Some p →
     key_in_range (private_PublicKey (privateKey p)) ∧ kid p ≠ kid (current km)) →
  json_text (kid (current km)) → kid (current km) ≠ "" →
  vf_audience v = Audience c → Audience c ≠ "" →
  (∀ k, vf_keys v !! kid (current km) = Some k → k = private_PublicKey (privateKey (current km))) →
  json_claims c → json_text (env_UUID env) →
  small_time (Unix iat) → small_time (Unix (Add iat (h_lifetime h))) →
  now' < Unix (Add iat (h_lifetime h)) * Second →
  Header_Get header HeaderName = AccessToken resp → Header_Get out HeaderName = "" →
  ∃ ctx v', VerifyTxToken net now' v header None = (Next ctx, v') ∧
    ClaimsFromContext (Some ctx) = Some (issuedClaims c iat (env_UUID env) (h_lifetime h)) ∧
    Header_Get (RoundTrip out (Some ctx)) HeaderName = AccessToken resp.
Proof.
  intros km iat HN%signAndRespond_token Hnet Hdoc Hr Hp Hkj Hkne Ha Hane Hcache Hc Hu Hi He Hnow Hhdr Hout.
  destruct (VerifyTxToken_issued km c (h_lifetime h) iat (env_UUID env) (AccessToken resp) net v now' header None)
    as (Hne & v' & HV); try done.
  { split; [by exists body|done]. }
  eexists _, v'. split; [done|]. split; [done|]. by apply RoundTrip_token.
Qed.
End downstream.

Module SdkExample.
Definition req : ExchangeRequest :=
  {| xr_SubjectToken := "a&b=c"; xr_SubjectTokenType := SubjectTokenTypeAccessToken;
     xr_Scope := "read write"; xr_RequestDetails := Some ∅; xr_RequestContext := None |}.

Definition sent : gmap string (list string) :=
  {[ "grant_type" := [GrantType]; "subject_token" := ["a&b=c"];
     "subject_token_type" := [SubjectTokenTypeAccessToken];
     "requested_token_type" := [RequestedTokenType]; "scope" := ["read write"];
     "request_details" := ["{}"] ]}.

Lemma exchange_parsed_as_sent_witness :
  ∃ parsed, ParseQuery (Encode sent) = Ok parsed ∧
    is_ok (parseRequest parsed) = true ∧ FormValue parsed "subject_token" = "a&b=c".
Proof.
  destruct (exchange_parsed_as_sent req sent) as (parsed & Hp & Hr);
    [discriminate|discriminate|discriminate|vm_compute; reflexivity|].
  exists parsed. rewrite Hr. split_and!; [exact Hp|reflexivity|].
  apply parseRequest_fields in Hr as (<- & _). reflexivity.
Defined.

#[local] Existing Instance TTSExample.jwt.
#[local] Existing Instance TTSExample.jwt_laws.

#[export] Instance documents : Documents :=
  {| decode_JWKS _ := Ok (PublicKeys TTSExample.manager); decode_Discovery _ := Ok ("", "") |}.
Definition network : Network := λ _, Ok {| StatusCode := 200; Body := "{}" |}.
Definition inbound : Header := Header_Set ∅ HeaderName "a.b.first".

(** A service that has only seen another key. *)
Definition stale : Verifier :=
  {| vf_jwksURL := "https://tts/jwks"; vf_audience := "prod"; vf_keys := {[ "k0" := toy_key2 ]} |}.

Lemma issued_token_accepted_downstream_witness :
  ∃ ctx v', VerifyTxToken network (120 * Second) stale inbound None
            = (Next ctx, v') ∧
    ClaimsFromContext (Some ctx)
    = Some (issuedClaims TTSExample.first (100 * Second) "u1" (60 * Second)) ∧
    Header_Get (RoundTrip ∅ (Some ctx)) HeaderName = "a.b.first".
Proof.
  apply (issued_token_accepted_downstream TTSExample.handler (TTSExample.environment "u1")
    TTSExample.first {| AccessToken := "a.b.first"; IssuedTokenType := RequestedTokenType;
                        TokenType := "N_A" |} network stale "{}" (120 * Second) inbound ∅);
    try reflexivity; try discriminate; by split.
Defined.
End SdkExample.
