(* ===== verification/ControllerProps.v ===== *)
(** * What the controller publishes, and what reaches the TTS

    The rule server as the reconcilers' publisher; the rules that are published
    for the resources of a cluster; and their way to the handler that enforces
    them. *)

From S2P Require Import Prelude GoStrings GoTime External Keys Issuance Authn TTSHandler.
From S2P Require Import Api PolicyRules CelVerify Controller GoSort RulesProto RuleServer RuleClient.
From S2P Require Import Pipeline TTSRuleClient Instances.

Local Open Scope Z_scope.

(** ** The rule server implements the publishers *)

#[export] Instance RuleServer_RulePublisher : RulePublisher RuleServer :=
  {| publish_GenerationRules := UpdateGenerationRules;
     publish_VerificationRules := UpdateVerificationRules |}.

#[export] Instance RuleServer_IssuancePublisher : IssuancePublisher RuleServer :=
  {| publish_IssuanceRules := UpdateIssuanceRules |}.

(** ** Issuance rules *)

Section issuance.
Context `{CEL}.

Lemma CompileIssuanceRules_single cfg :
  is_ok (CompileIssuanceRules [cfg]) = true ↔ issuance_cel_valid (cfg_CEL cfg).
Proof.
  rewrite CompileIssuanceRules_valid. setoid_rewrite list_elem_of_singleton. naive_solver.
Qed.

#[export] Instance issuance_cel_valid_dec cel : Decision (issuance_cel_valid cel).
Proof.
  refine (cast_if (decide (is_ok (CompileIssuanceRules [{| cfg_Name := ""; cfg_CEL := cel;
    cfg_Message := ""; cfg_TargetNamespaces := [] |}]) = true))); by rewrite CompileIssuanceRules_single in *.
Defined.

Lemma brokenRules_names name cfgs :
  name ∈ map ice_ruleName (brokenRules cfgs) ↔
  ∃ cfg, cfg ∈ cfgs ∧ cfg_Name cfg = name ∧ ¬ issuance_cel_valid (cfg_CEL cfg).
Proof.
  unfold brokenRules. induction cfgs as [|cfg cfgs IH]; simpl.
  { rewrite elem_of_nil. setoid_rewrite elem_of_nil. naive_solver. }
  setoid_rewrite elem_of_cons. rewrite map_app, elem_of_app, IH.
  destruct (CompileIssuanceRules [cfg]) eqn:E; simpl.
  - assert (issuance_cel_valid (cfg_CEL cfg)) by (apply CompileIssuanceRules_single; by rewrite E).
    rewrite elem_of_nil. naive_solver.
  - assert (¬ issuance_cel_valid (cfg_CEL cfg)).
    { rewrite <-CompileIssuanceRules_single, E. done. }
    rewrite list_elem_of_singleton. naive_solver.
Qed.

(** The fast path of [validateIssuanceCEL] changes nothing. *)
Lemma validateIssuanceCEL_slow rules :
  validateIssuanceCEL rules = brokenRules (map issuanceConfig rules).
Proof.
  unfold validateIssuanceCEL. case_bool_decide as Hl; [by destruct rules|].
  destruct (is_ok _) eqn:Hok; [|done]. pose proof (proj1 (CompileIssuanceRules_valid _) Hok) as Hv.
  symmetry. apply concat_map_nil. intros cfg Hcfg.
  specialize (Hv _ Hcfg). apply CompileIssuanceRules_single in Hv.
  by destruct (CompileIssuanceRules [cfg]).
Qed.

Lemma policyIssuanceRules_elem policy r :
  r ∈ policyIssuanceRules policy ↔
  ∃ ir, ir ∈ tps_IssuanceRules (tp_Spec policy) ∧ r = publishedRule policy ir ∧
    ∀ ir', ir' ∈ tps_IssuanceRules (tp_Spec policy) → air_Name ir' = air_Name ir →
           issuance_cel_valid (air_CEL ir').
Proof.
  unfold policyIssuanceRules. rewrite validateIssuanceCEL_slow.
  set (broken := list_to_set _ : gset string).
  assert (∀ name, name ∉ broken ↔ ∀ ir', ir' ∈ tps_IssuanceRules (tp_Spec policy) →
    air_Name ir' = name → issuance_cel_valid (air_CEL ir')) as Hbroken.
  { intros name. unfold broken. rewrite elem_of_list_to_set, brokenRules_names. split.
    - intros Hn ir' Hin Hname. destruct (decide (issuance_cel_valid (air_CEL ir'))); [done|].
      exfalso. apply Hn. exists (issuanceConfig ir'). split; [by apply list_elem_of_fmap_2|done].
    - intros Hv (cfg & (ir' & -> & Hin)%list_elem_of_fmap & Hname & Hnv). by apply Hnv, Hv. }
  setoid_rewrite <-Hbroken. clearbody broken. clear Hbroken.
  induction (tps_IssuanceRules (tp_Spec policy)) as [|ir l IH]; simpl.
  { rewrite elem_of_nil. setoid_rewrite elem_of_nil. naive_solver. }
  rewrite elem_of_app, IH. setoid_rewrite elem_of_cons.
  case_bool_decide; rewrite ?elem_of_nil, ?list_elem_of_singleton; naive_solver.
Qed.

(** Published rules always compile in the TTS. *)
Lemma published_valid items r :
  r ∈ concat (map policyIssuanceRules items) → issuance_cel_valid (pir_CEL r).
Proof.
  rewrite elem_of_concat_map. intros (policy & _ & Hr).
  apply policyIssuanceRules_elem in Hr as (ir & Hir & -> & Hv). by apply Hv.
Qed.

(** Names identify policies, and rules within a policy. *)
Definition policies_named (items : list TokenPolicy) : Prop :=
  NoDup ((λ p, om_Name (tp_ObjectMeta p)) <$> items) ∧
  ∀ p, p ∈ items → NoDup (air_Name <$> tps_IssuanceRules (tp_Spec p)).

Lemma policyIssuanceRules_keys policy :
  NoDup (air_Name <$> tps_IssuanceRules (tp_Spec policy)) →
  NoDup (keyFor <$> policyIssuanceRules policy).
Proof.
  unfold policyIssuanceRules. set (broken := list_to_set _ : gset string). clearbody broken.
  induction (tps_IssuanceRules (tp_Spec policy)) as [|ir l IH]; simpl; [constructor|].
  rewrite NoDup_cons. intros [Hn Hnd]. case_bool_decide; simpl; [by apply IH|].
  apply NoDup_cons. split; [|by apply IH].
  intros (r & Hk & Hr)%list_elem_of_fmap.
  apply elem_of_concat_map in Hr as (ir' & Hir & Hr).
  case_bool_decide; [by apply elem_of_nil in Hr|]. apply list_elem_of_singleton in Hr as ->.
  injection Hk as Hk. apply Hn. rewrite Hk. by apply list_elem_of_fmap_2.
Qed.

Lemma published_keys items :
  policies_named items → NoDup (keyFor <$> concat (map policyIssuanceRules items)).
Proof.
  induction items as [|p items IH]; intros [Hnd Hr]; [constructor|].
  cbn [map concat]. rewrite fmap_cons in Hnd. apply NoDup_cons in Hnd as [Hp Hnd]. rewrite fmap_app. apply NoDup_app. split_and!.
  - apply policyIssuanceRules_keys, Hr. left.
  - intros k (r & -> & Hr1)%list_elem_of_fmap (r' & Hk & Hr2)%list_elem_of_fmap.
    apply elem_of_concat_map in Hr2 as (p' & Hp' & Hr2).
    apply policyIssuanceRules_elem in Hr1 as (ir & _ & -> & _), Hr2 as (ir' & _ & -> & _).
    injection Hk as Hk _. apply Hp. rewrite Hk. by apply (list_elem_of_fmap_2 (λ p, om_Name (tp_ObjectMeta p))).
  - apply IH. split; [done|]. intros p' Hp'. apply Hr. by right.
Qed.
End issuance.

(** ** From a TokenPolicy to the handler *)

Section policies.
Context `{CEL, Crypto} {W : Type} `{!KubeClient W} {A V : Type}.

Lemma TokenPolicy_Reconcile_ok now1 now2 (w : W) (s : RuleServer) req w' s' :
  TokenPolicyReconciler_Reconcile now1 now2 w (Some s) req = (Ok tt, w', Some s') →
  ∃ items, List_TokenPolicies w' = Ok items ∧
           s' = UpdateIssuanceRules s (concat (map policyIssuanceRules items)).
Proof.
  assert (∀ w1, (let '(r, p) := rebuildIssuanceRules w1 (Some s) in (r, w1, p)) = (Ok tt, w', Some s') →
    ∃ items, List_TokenPolicies w' = Ok items ∧
             s' = UpdateIssuanceRules s (concat (map policyIssuanceRules items))) as Hrebuild.
  { intros w1. unfold rebuildIssuanceRules. destruct (List_TokenPolicies w1) as [items|] eqn:Hl; [|done].
    simpl. intros [= <- <-]. by exists items. }
  unfold TokenPolicyReconciler_Reconcile. destruct (Get_TokenPolicy w req); [|apply Hrebuild|done].
  destruct (StatusUpdate_TokenPolicy _ _) as [[]]; [apply Hrebuild|done].
Qed.

(** The compiled form of a policy's rule. *)
Definition enforced_as (policy : TokenPolicy) (ir : ApiIssuanceRule) (r : IssuanceRule) : Prop :=
  compiled_from (handlerConfig (publishedRule policy ir)) r.

(** A compiled set holds the valid rules of the policies and nothing else. *)
Definition enforces (items : list TokenPolicy) (compiled : list IssuanceRule) : Prop :=
  (∀ policy ir, policy ∈ items → ir ∈ tps_IssuanceRules (tp_Spec policy) →
     issuance_cel_valid (air_CEL ir) → ∃ r, r ∈ compiled ∧ enforced_as policy ir r) ∧
  (∀ r, r ∈ compiled → ∃ policy ir, policy ∈ items ∧
     ir ∈ tps_IssuanceRules (tp_Spec policy) ∧ enforced_as policy ir r).

Lemma compiled_enforces items rules compiled :
  policies_named items → rules ≡ₚ concat (map policyIssuanceRules items) →
  CompileIssuanceRules (map handlerConfig rules) = Ok compiled → enforces items compiled.
Proof.
  intros [_ Hnames] HP HC%CompileIssuanceRules_from. split.
  - intros policy ir Hp Hir Hv.
    assert (publishedRule policy ir ∈ rules) as Hin.
    { rewrite HP, elem_of_concat_map. exists policy. split; [done|].
      apply policyIssuanceRules_elem. exists ir. split_and!; [done..|]. intros ir' Hir' Hn.
      by rewrite (rules_map_inj air_Name _ ir' ir (Hnames _ Hp) Hir' Hir Hn). }
    apply (list_elem_of_fmap_2 handlerConfig) in Hin.
    apply list_elem_of_lookup in Hin as [i Hi].
    destruct (Forall2_lookup_l _ _ _ _ _ HC Hi) as (r & Hr & Hfrom).
    exists r. split; [by eapply list_elem_of_lookup_2|done].
  - intros r [i Hi]%list_elem_of_lookup.
    destruct (Forall2_lookup_r _ _ _ _ _ HC Hi) as (cfg & Hcfg & Hfrom).
    apply list_elem_of_lookup_2, list_elem_of_fmap in Hcfg as (pr & -> & Hin).
    rewrite HP in Hin. apply elem_of_concat_map in Hin as (policy & Hp & Hin).
    apply policyIssuanceRules_elem in Hin as (ir & Hir & -> & _). by exists policy, ir.
Qed.

(** C7.  A reconciled TokenPolicy is enforced: after a successful reconcile that
    found room in the client's channel, once the messages in flight have arrived
    the TTS's handler has a compiled rule for every valid issuance rule of every
    policy of the cluster and no other rule, and the client reports ready.  This
    holds for a client that connected at any earlier time, whatever updates,
    deliveries and reconnections there were before, and for every order in which
    Go ranges over the client's map; policies have distinct names, and rules
    distinct names within a policy. *)
Theorem reconciled_policies_enforced range now1 now2 (w : W) s req w' s' items f id es
    (c : TTSRuleClient (HandlerSetter A V)) :
  (∀ m, range_order m (range m)) →
  TokenPolicyReconciler_Reconcile now1 now2 w (Some s) req = (Ok tt, w', Some s') →
  List_TokenPolicies w' = Ok items → policies_named items →
  NoDup (keyFor <$> fd_rules f) → Forall event_ok es →
  let l := link_run (link_open f id) es in
  lk_feed l = iss s → (length (channel l) < channelCapacity)%nat →
  is_Some (hs_Handler (setter c)) →
  let l1 := link_step l (EvUpdate (concat (map policyIssuanceRules items))) in
  lk_feed l1 = iss s' ∧
  let c' := (tts_receive range c (lk_received (link_run l1 (drain l1)))).1 in
  synced c' = true ∧
  ∃ h compiled, setter c' = {| hs_Handler := Some (TTSHandler.SetIssuanceRules h compiled) |} ∧
                enforces items compiled.
Proof.
  intros Hrange Hrec Hitems Hnamed Hf Hes l Hfeed Hroom Hc l1.
  destruct (TokenPolicy_Reconcile_ok _ _ _ _ _ _ _ Hrec) as (items' & Hitems' & ->).
  rewrite Hitems in Hitems'. injection Hitems' as <-.
  split; [simpl; by rewrite Hfeed|]. intros c'.
  set (rules := concat (map policyIssuanceRules items)) in *.
  pose proof (published_keys items Hnamed) as Hkeys.
  destruct (link_update_converges f id es rules) as [Hcl Hne]; [done..|].
  destruct (tts_receive_final range c (lk_received (link_run l1 (drain l1))) rules)
    as (h & compiled & HC & HS & Hsync); try done.
  { apply published_valid. }
  split; [done|]. exists h, compiled. split; [done|].
  eapply compiled_enforces; [done| |done]. apply sortBy_Permutation.
Qed.
End policies.

(** ** What can go wrong on the way *)

(** C39.  A full channel loses updates: when a client's channel holds
    [channelCapacity] messages, a published rule set is dropped for it without a
    trace, and after everything in flight has arrived the client still has the
    rules from before the update. *)
Theorem dropped_update_stale f id es s rules :
  NoDup (verificationKey <$> fd_rules f) → Forall event_ok es →
  let l := link_run (link_open f id) es in
  lk_feed l = ver s → lk_lost l = false → (channelCapacity ≤ length (channel l))%nat →
  let l1 := link_step l (EvUpdate rules) in
  lk_feed l1 = ver (UpdateVerificationRules s rules) ∧
  fd_rules (ver (UpdateVerificationRules s rules)) = rules ∧
  lk_client (link_run l1 (drain l1)) = rules_map verificationKey (fd_rules (ver s)).
Proof.
  intros Hf Hes l Hfeed Hlost Hfull l1. split; [simpl; by rewrite Hfeed|]. split; [done|].
  pose proof (link_run_ok _ es (link_open_ok f id Hf) Hes) as [[ch Hch] Hk Hv Hst].
  fold l in Hch, Hk, Hv, Hst.
  assert (fd_subscribers (lk_feed l1) !! lk_id l1 = Some ch) as Hch1.
  { simpl. rewrite lookup_fmap, Hch. simpl. unfold trySend. unfold channel in Hfull.
    rewrite Hch in Hfull. simpl in Hfull. by rewrite (proj2 (Nat.ltb_ge _ _) Hfull). }
  destruct (drain_delivers l1) as (_ & _ & _ & -> & _); [by exists ch|].
  rewrite <-Hfeed. change (rules_map verificationKey _) with (server_map l).
  rewrite <-(Hv Hlost). unfold link_view, channel. by rewrite Hch1, Hch.
Qed.

Lemma rules_map_last {R K} `{Countable K} (key : R → K) l1 b l2 :
  key b ∉ key <$> l2 → rules_map key (l1 ++ b :: l2) !! key b = Some b.
Proof.
  intros Hl2. induction l2 as [|x l2 IH] using rev_ind.
  - rewrite rules_map_snoc. by rewrite lookup_insert_eq.
  - rewrite fmap_app, elem_of_app in Hl2. rewrite app_comm_cons, app_assoc, rules_map_snoc.
    rewrite lookup_insert_ne; [apply IH; naive_solver|].
    intros Heq. apply Hl2. right. simpl. rewrite Heq. left.
Qed.

(** Two rules of one policy with the same name are not both enforced: both
    are published when they compile, but under one key, and the client keeps the
    one that comes last. *)
Theorem duplicate_rule_overwritten `{CEL} policy l1 ir1 l2 ir2 l3 s m :
  tps_IssuanceRules (tp_Spec policy) = l1 ++ ir1 :: l2 ++ ir2 :: l3 →
  air_Name ir1 = air_Name ir2 → air_Name ir2 ∉ air_Name <$> l3 →
  (∀ ir, ir ∈ tps_IssuanceRules (tp_Spec policy) → issuance_cel_valid (air_CEL ir)) →
  let s' := UpdateIssuanceRules s (policyIssuanceRules policy) in
  publishedRule policy ir1 ∈ fd_rules (iss s') ∧ publishedRule policy ir2 ∈ fd_rules (iss s') ∧
  applyIssuance m (resp_Update (buildIssSnapshot s')) !! keyFor (publishedRule policy ir1)
  = Some (publishedRule policy ir2).
Proof.
  intros Hrules Hname Hlast Hvalid s'. simpl.
  assert (policyIssuanceRules policy
          = map (publishedRule policy) (tps_IssuanceRules (tp_Spec policy))) as Hp.
  { unfold policyIssuanceRules. rewrite validateIssuanceCEL_slow.
    assert (brokenRules (map issuanceConfig (tps_IssuanceRules (tp_Spec policy))) = []) as ->.
    { apply concat_map_nil. intros cfg (ir & -> & Hir)%list_elem_of_fmap.
      destruct (CompileIssuanceRules _) eqn:E; [done|].
      assert (is_ok (CompileIssuanceRules [issuanceConfig ir]) = true) as HC
        by by apply CompileIssuanceRules_single, Hvalid.
      by rewrite E in HC. }
    simpl. clear. induction (tps_IssuanceRules (tp_Spec policy)) as [|ir l IH]; simpl; [done|].
    by rewrite IH. }
  rewrite Hp. split_and!; [apply (list_elem_of_fmap_2 (publishedRule policy)); rewrite Hrules; set_solver..|].
  unfold issuanceRulesToProto. rewrite (insertAll_map keyFor) by apply issuance_roundtrip.
  fold (rules_map keyFor (map (publishedRule policy) (tps_IssuanceRules (tp_Spec policy)))).
  assert (keyFor (publishedRule policy ir1) = keyFor (publishedRule policy ir2)) as ->.
  { unfold keyFor. simpl. by rewrite Hname. }
  rewrite Hrules, map_app. simpl. rewrite map_app. simpl.
  rewrite app_comm_cons, app_assoc. apply rules_map_last.
  intros (r & Hk & (ir & -> & Hir)%list_elem_of_fmap)%list_elem_of_fmap.
  injection Hk as Hk. apply Hlast. rewrite Hk. by apply list_elem_of_fmap_2.
Qed.

(** ** TransactionTypes *)

Section transaction_types.
Context `{CEL} {W : Type} `{!KubeClient W}.
Context (range : gmap string TctxFieldMapping → list (string * TctxFieldMapping)).

(** The fallback loop of [findApplicablePolicy] never finds anything. *)
Lemma findApplicablePolicy_first (w : W) ns :
  findApplicablePolicy w ns =
  match List_TokenPolicies w with
  | Ok items => Ok (find (policyMatches ns) items)
  | Err e => Err e
  end.
Proof.
  unfold findApplicablePolicy, selectPolicy. destruct (List_TokenPolicies w) as [items|]; [|done]. simpl.
  destruct (find (policyMatches ns) items) eqn:Hf; [done|].
  f_equal. eapply find_ext_dead; [|exact Hf]. intros p. unfold policyMatches.
  by destruct (tps_TargetNamespaces _).
Qed.

(** What one TransactionType becomes. *)
Definition published_as (w : W) (txn : TransactionType) (r : GenerationRule) : Prop :=
  gr_Namespace r = om_Namespace (tt_ObjectMeta txn) ∧ gr_Name r = om_Name (tt_ObjectMeta txn) ∧
  gr_Endpoint r = tts_Endpoint (tt_Spec txn) ∧ gr_Scope r = tts_Scope (tt_Spec txn) ∧
  gr_TctxMapping r = tts_TctxMapping (tt_Spec txn) ∧ gr_TokenLifetime r ≠ "" ∧
  match applicablePolicy w (om_Namespace (tt_ObjectMeta txn)) with
  | Some p =>
    let mx := pc_MaxTokenLifetime (tps_Constraints (tp_Spec p)) in
    mx ≠ "" → lifetime_le (gr_TokenLifetime r) mx
  | None => tts_TokenLifetime (tt_Spec txn) ≠ "" →
            gr_TokenLifetime r = tts_TokenLifetime (tt_Spec txn)
  end.

Lemma generationRule_published (w : W) txn : published_as w txn (generationRule w txn).
Proof.
  unfold published_as, generationRule, generationRuleUnder, effectiveLifetime. simpl.
  destruct (applicablePolicy _ _) as [p|]; (split_and!; [done..|by case_bool_decide|]).
  - intros Hmx. rewrite bool_decide_false; [by apply ClampTokenLifetime_le|].
    unfold ClampTokenLifetime. rewrite (bool_decide_false (pc_MaxTokenLifetime _ = "")) by done.
    set (r := if bool_decide _ then _ else _).
    assert (r ≠ "") by (unfold r; by case_bool_decide).
    by repeat split_match.
  - intros Hne. by rewrite bool_decide_false.
Qed.

Lemma TransactionType_Reconcile_ok now1 now2 (w : W) (s : RuleServer) req w' s' :
  TransactionTypeReconciler_Reconcile range now1 now2 w (Some s) req = (Ok tt, w', Some s') →
  ∃ items, List_TransactionTypes w' = Ok items ∧
           s' = UpdateGenerationRules s (map (generationRule w') items).
Proof.
  assert (∀ w1, (let '(r, p) := rebuildGenerationRules w1 (Some s) in (r, w1, p)) = (Ok tt, w', Some s') →
    ∃ items, List_TransactionTypes w' = Ok items ∧
             s' = UpdateGenerationRules s (map (generationRule w') items)) as Hrebuild.
  { intros w1. unfold rebuildGenerationRules.
    destruct (List_TransactionTypes w1) as [items|] eqn:Hl; [|done]. simpl. intros [= <- <-].
    by exists items. }
  unfold TransactionTypeReconciler_Reconcile.
  destruct (Get_TransactionType w req); [|apply Hrebuild|done].
  destruct (StatusUpdate_TransactionType _ _) as [[]]; [apply Hrebuild|done].
Qed.

(** C27.  Reconciling a TransactionType publishes one rule for every
    TransactionType of the cluster, in order, whether or not it violates a
    policy; each rule has a lifetime, and where a policy with a maximum applies
    to the namespace the lifetime is not above that maximum, if both are
    durations. *)
Theorem published_lifetimes_capped now1 now2 (w : W) (s : RuleServer) req w' s' :
  TransactionTypeReconciler_Reconcile range now1 now2 w (Some s) req = (Ok tt, w', Some s') →
  ∃ items, List_TransactionTypes w' = Ok items ∧
           Forall2 (published_as w') items (fd_rules (gen s')).
Proof.
  intros (items & Hl & ->)%TransactionType_Reconcile_ok. exists items. split; [done|]. simpl.
  apply Forall2_fmap_r, Forall_Forall2_diag, Forall_forall. intros txn _.
  apply generationRule_published.
Qed.

(** ** Conditions *)

(** The condition of a type: the first with it. *)
Definition condition (condType : string) (cs : list Condition) : option Condition :=
  find (λ c, bool_decide (cond_Type c = condType)) cs.

Lemma setCondition_same now cs t st rs msg :
  condition t (setCondition now cs t st rs msg)
  = Some {| cond_Type := t; cond_Status := st; cond_Reason := rs; cond_Message := msg;
            cond_LastTransitionTime := now;
            cond_ObservedGeneration := default 0 (cond_ObservedGeneration <$> condition t cs) |}.
Proof.
  unfold condition. induction cs as [|c cs IH]; simpl; [by rewrite bool_decide_true|].
  case_bool_decide as Hc; simpl; [by rewrite bool_decide_true, Hc|]. by rewrite bool_decide_false.
Qed.

Lemma setCondition_other now cs t t' st rs msg :
  t' ≠ t → condition t' (setCondition now cs t st rs msg) = condition t' cs.
Proof.
  intros Hne. unfold condition. induction cs as [|c cs IH]; simpl.
  { by rewrite bool_decide_false. }
  case_bool_decide as Hc; simpl; [|by case_bool_decide].
  by rewrite !bool_decide_false by congruence.
Qed.

Lemma same_checks_applicable ns items items' :
  Forall2 same_checks items items' →
  option_Forall2 same_checks (find (policyMatches ns) items) (find (policyMatches ns) items').
Proof.
  induction 1 as [|p q items items' Hpq _ IH]; [constructor|]. simpl.
  assert (policyMatches ns q = policyMatches ns p) as ->.
  { unfold policyMatches. by destruct Hpq as (-> & _). }
  destruct (policyMatches ns p); [by constructor|done].
Qed.

(** C28.  The status of a TransactionType reports what is checked: the condition
    PolicyCompliant is true exactly when the type meets the three constraints the
    controller checks (the maximal lifetime, the mandatory [tctx] fields, the
    disallowed enrichers) of the policy that applies to its namespace, the first
    one without a namespace selector or naming it, or none applies.  Nothing else
    of a policy has a part in it: with policies that differ only elsewhere, as in
    the mandatory [rctx] fields or the namespaces that may define types, the
    conditions written are the same.  The fields reported as produced are those
    the type produces, and conditions of other types are untouched. *)
Theorem status_reports_compliance now1 now2 (w : W) items txn :
  (∀ m, range_order m (range m)) → List_TokenPolicies w = Ok items →
  let ns := om_Namespace (tt_ObjectMeta txn) in
  let st := tt_Status (reconciledTransactionType range now1 now2 w txn) in
  (∃ c, condition ConditionPolicyCompliant (ttst_Conditions st) = Some c ∧
     (cond_Status c = ConditionTrue ↔
      ∀ p, find (policyMatches ns) items = Some p → meets_checked txn p)) ∧
  (∀ w' items', List_TokenPolicies w' = Ok items' → Forall2 same_checks items items' →
     ttst_Conditions (tt_Status (reconciledTransactionType range now1 now2 w' txn)) = ttst_Conditions st) ∧
  list_to_set (ttst_ProducedTctxFields st) = produced_fields txn ∧
  (∀ t, t ≠ ConditionPolicyCompliant → t ≠ ConditionReady →
     condition t (ttst_Conditions st) = condition t (ttst_Conditions (tt_Status txn))).
Proof.
  intros Hrange Hitems ns st.
  assert (∀ w items, List_TokenPolicies w = Ok items → applicablePolicy w ns = find (policyMatches ns) items) as Hp.
  { intros w1 l Hl. unfold applicablePolicy. by rewrite findApplicablePolicy_first, Hl. }
  unfold st, reconciledTransactionType, reconciledUnder. fold ns. rewrite (Hp w items Hitems).
  cbn [tt_Status ttst_Conditions ttst_ProducedTctxFields]. split_and!.
  - rewrite setCondition_other by done.
    assert (ValidateTransactionTypeAgainstPolicy txn (find (policyMatches ns) items) = [] ↔
      ∀ p, find (policyMatches ns) items = Some p → meets_checked txn p) as Hv.
    { destruct (find _ items) as [p|]; [rewrite Validate_nil|]; naive_solver. }
    setoid_rewrite <-Hv. destruct (ValidateTransactionTypeAgainstPolicy _ _) as [|v vs];
      cbn [length Nat.ltb Nat.leb]; rewrite setCondition_same; eexists; (split; [done|]);
      simpl; naive_solver.
  - intros w' items' Hl' Hsame. rewrite (Hp w' items' Hl').
    destruct (same_checks_applicable ns items items' Hsame) as [p q Hpq|]; [|done].
    by rewrite (same_checks_violations txn p q).
  - unfold ComputeProducedTctxFields, produced_fields. rewrite !list_to_set_app_L.
    assert (list_to_set (range (tts_TctxMapping (tt_Spec txn))).*1
            = dom (tts_TctxMapping (tt_Spec txn))) as ->; [|set_solver].
    apply leibniz_equiv. rewrite dom_alt. apply leibniz_equiv_iff, list_to_set_perm_L.
    by rewrite (Hrange _).
  - intros t Ht1 Ht2. rewrite setCondition_other by done.
    destruct (0 <? _)%nat; by rewrite setCondition_other.
Qed.
(** The status of a reconciled object never settles: reconciling it again
    at another time writes a different status, although nothing changed, since
    the transition time of a condition is set whether or not its status changed. *)
Theorem status_never_settles now1 now2 now1' now2' (w w' : W) txn :
  now2 ≠ now2' →
  let txn' := reconciledTransactionType range now1 now2 w txn in
  reconciledTransactionType range now1' now2' w' txn' ≠ txn'.
Proof.
  intros Hne txn' Heq.
  assert (∀ n1 n2 v t, cond_LastTransitionTime <$>
    condition ConditionReady (ttst_Conditions (tt_Status (reconciledTransactionType range n1 n2 v t)))
    = Some n2) as Hready.
  { intros n1 n2 v t. unfold reconciledTransactionType, reconciledUnder. cbn [tt_Status ttst_Conditions].
    by rewrite setCondition_same. }
  apply (f_equal (λ t, cond_LastTransitionTime <$>
    condition ConditionReady (ttst_Conditions (tt_Status t)))) in Heq.
  unfold txn' in Heq. rewrite !Hready in Heq. congruence.
Qed.
End transaction_types.

(** A policy that selects namespaces only by label constrains no
    TransactionType, but its issuance rules are published for every namespace. *)
Theorem label_selected_policy `{CEL} policy sel :
  tps_TargetNamespaces (tp_Spec policy) = Some sel → ns_MatchNames sel = [] →
  (∀ ns, policyMatches ns policy = false) ∧
  (∀ r, r ∈ policyIssuanceRules policy → pir_TargetNamespaces r = []).
Proof.
  intros Hsel Hnames. split.
  - intros ns. unfold policyMatches. by rewrite Hsel, Hnames.
  - intros r (ir & _ & -> & _)%policyIssuanceRules_elem. simpl. by rewrite Hsel; simpl; rewrite Hnames.
Qed.

(** ** A small cluster *)

(** An API server that keeps the objects in lists and replaces an object by its
    name when its status is updated. *)
Record ApiStore := {
  st_types : list TransactionType;
  st_requirements : list ServiceTokenRequirement;
  st_policies : list TokenPolicy;
}.

Definition is_named (req : NamespacedName) (m : ObjectMeta) : bool :=
  bool_decide (om_Namespace m = nn_Namespace req) && bool_decide (om_Name m = nn_Name req).
Definition get_named {A} (meta : A → ObjectMeta) (req : NamespacedName) (l : list A) : GetResult A :=
  match find (λ a, is_named req (meta a)) l with Some a => Found a | None => NotFound end.
Definition replace_named {A} (meta : A → ObjectMeta) (a : A) (l : list A) : list A :=
  map (λ b, if is_named {| nn_Namespace := om_Namespace (meta a); nn_Name := om_Name (meta a) |}
                        (meta b) then a else b) l.

#[export] Instance ApiStore_KubeClient : KubeClient ApiStore := {|
  Get_TransactionType w req := get_named tt_ObjectMeta req (st_types w);
  List_TransactionTypes w := Ok (st_types w);
  StatusUpdate_TransactionType w a :=
    (Ok tt, {| st_types := replace_named tt_ObjectMeta a (st_types w);
               st_requirements := st_requirements w; st_policies := st_policies w |});
  Get_ServiceTokenRequirement w req := get_named str_ObjectMeta req (st_requirements w);
  List_ServiceTokenRequirements w := Ok (st_requirements w);
  StatusUpdate_ServiceTokenRequirement w a :=
    (Ok tt, {| st_types := st_types w;
               st_requirements := replace_named str_ObjectMeta a (st_requirements w);
               st_policies := st_policies w |});
  Get_TokenPolicy w req := get_named tp_ObjectMeta req (st_policies w);
  List_TokenPolicies w := Ok (st_policies w);
  StatusUpdate_TokenPolicy w a :=
    (Ok tt, {| st_types := st_types w; st_requirements := st_requirements w;
               st_policies := replace_named tp_ObjectMeta a (st_policies w) |});
|}.

Module ControllerExample.
Definition policy_with (rules : list ApiIssuanceRule) (sel : option NamespaceSelector) : TokenPolicy :=
  {| tp_ObjectMeta := {| om_Name := "limits"; om_Namespace := "" |};
     tp_Spec := {| tps_TargetNamespaces := sel; tps_AuthorizedTransactionNamespaces := None;
                   tps_AuthorizedRequesters := [];
                   tps_Constraints := {| pc_MaxTokenLifetime := "30s"; pc_MandatoryTctxFields := ["tenant"];
                                         pc_MandatoryRctxFields := []; pc_DisallowedEnrichers := [] |};
                   tps_IssuanceRules := rules; tps_AccessEvaluationWebhook := None |};
     tp_Status := {| tpst_Conditions := [] |} |}.

Definition allow : ApiIssuanceRule :=
  {| air_Name := "allow"; air_CEL := "true"; air_Message := "" |}.
Definition deny : ApiIssuanceRule :=
  {| air_Name := "allow"; air_CEL := "false"; air_Message := "no" |}.
Definition broken : ApiIssuanceRule :=
  {| air_Name := "broken"; air_CEL := "1"; air_Message := "" |}.

Definition policy : TokenPolicy := policy_with [allow; broken] None.

Definition orders : TransactionType :=
  {| tt_ObjectMeta := {| om_Name := "orders"; om_Namespace := "shop" |};
     tt_Spec := {| tts_Endpoint := {| ep_Path := "/orders/{id}"; ep_Method := "POST" |};
                   tts_Purpose := "order"; tts_Scope := "write"; tts_TctxMapping := ∅;
                   tts_TctxEnrichments := []; tts_RctxFields := []; tts_TokenLifetime := "1m" |};
     tt_Status := {| ttst_Conditions := []; ttst_ProducedTctxFields := [];
                     ttst_EffectiveTokenLifetime := "" |} |}.

Definition store : ApiStore :=
  {| st_types := [orders]; st_requirements := []; st_policies := [policy] |}.
Definition request (name : string) : NamespacedName := {| nn_Namespace := ""; nn_Name := name |}.

Definition store' : ApiStore :=
  {| st_types := [orders]; st_requirements := [];
     st_policies := [reconciledTokenPolicy 1 2 policy] |}.

(** The policy is reconciled while a TTS is connected: [broken] is left out. *)
Definition published : list PublishedIssuanceRule := [publishedRule policy allow].
Definition connected : Link PublishedIssuanceRule ProtoIssuanceRule :=
  link_run (link_open (iss NewRuleServer) "iss-1") [EvSend; EvRecv].
Definition server : RuleServer := set_iss NewRuleServer (lk_feed connected).
Definition server' : RuleServer := UpdateIssuanceRules server published.

Example reconciles :
  TokenPolicyReconciler_Reconcile 1 2 store (Some server) (request "limits")
  = (Ok tt, store', Some server').
Proof. vm_compute. reflexivity. Qed.

Definition manager : Manager :=
  {| current := {| privateKey := toy_key : RsaPrivateKey; kid := "k1" |}; previous := None;
     keySize := 2048; lifetime := 60 * Second |}.
Definition client : TTSRuleClient (HandlerSetter unit unit) :=
  {| setter := NewHandlerSetter (NewHandler [] manager "tts" "prod" (60 * Second));
     synced := false |}.

Lemma range_order_refl {K V} `{Countable K} (m : gmap K V) : range_order m (map_to_list m).
Proof. unfold range_order. reflexivity. Qed.

Lemma reconciled_policies_enforced_witness :
  ∃ r : IssuanceRule, ir_Name r = "limits/allow" ∧ ir_TargetNamespaces r = [].
Proof.
  destruct (reconciled_policies_enforced (A := unit) (V := unit) map_to_list 1 2 store server
    (request "limits") store' server' (st_policies store') (iss NewRuleServer) "iss-1"
    [EvSend; EvRecv] client) as (_ & _ & h & compiled & _ & Hall & _).
  - intros m. apply range_order_refl.
  - apply reconciles.
  - reflexivity.
  - split; [repeat constructor; set_solver|]. intros p ->%list_elem_of_singleton.
    repeat constructor; set_solver.
  - constructor.
  - repeat constructor.
  - reflexivity.
  - vm_compute. lia.
  - eexists. reflexivity.
  - destruct (Hall (reconciledTokenPolicy 1 2 policy) allow) as (r & _ & Hr & _ & Ht & _).
    + left.
    + left.
    + split; [discriminate|]. exists tt, "true". by vm_compute.
    + exists r. split; [exact Hr|exact Ht].
Defined.

(** Sixty-four updates that nobody forwards, then one more. *)
Definition rule (name : string) : VerificationRule :=
  {| vr_Namespace := "shop"; vr_Name := name; vr_ServiceName := "orders"; vr_RequiredScope := "write";
     vr_RequiredTctxFields := []; vr_CELRules := []; vr_ExcludedEndpoints := []; vr_AutoNarrow := false |}.
Definition burst : list (Event VerificationRule) := replicate channelCapacity (EvUpdate [rule "old"]).
Definition stuck : Link VerificationRule ProtoVerificationRule :=
  link_run (link_open (ver NewRuleServer) "ver-1") burst.

Lemma dropped_update_stale_witness :
  lk_client (link_run (link_step stuck (EvUpdate [rule "new"]))
                      (drain (link_step stuck (EvUpdate [rule "new"]))))
  = rules_map verificationKey [rule "old"].
Proof.
  apply (dropped_update_stale (ver NewRuleServer) "ver-1" burst
    (set_ver NewRuleServer (lk_feed stuck)) [rule "new"]).
  - constructor.
  - apply Forall_replicate. repeat constructor. set_solver.
  - cbn [ver set_ver]. unfold stuck. reflexivity.
  - vm_compute. reflexivity.
  - vm_compute. lia.
Defined.

Lemma duplicate_rule_overwritten_witness :
  applyIssuance ∅ (resp_Update (buildIssSnapshot (UpdateIssuanceRules NewRuleServer
    (policyIssuanceRules (policy_with [deny; allow] None)))))
    !! ("", "limits", "allow") = Some (publishedRule (policy_with [deny; allow] None) allow).
Proof.
  apply (duplicate_rule_overwritten (policy_with [deny; allow] None) [] deny [] allow [] NewRuleServer ∅).
  - reflexivity.
  - reflexivity.
  - set_solver.
  - intros ir Hir. apply elem_of_cons in Hir as [->|Hir]; [|apply list_elem_of_singleton in Hir as ->];
      split; [discriminate| |discriminate|].
    + exists tt, "false". by vm_compute.
    + exists tt, "true". by vm_compute.
Defined.

Lemma published_lifetimes_capped_witness :
  ∃ r, published_as store orders r ∧ gr_TokenLifetime r = "30s".
Proof.
  destruct (published_lifetimes_capped map_to_list 1 2 store NewRuleServer (request "missing") store
    (UpdateGenerationRules NewRuleServer [generationRule store orders])) as (items & Hi & Hf).
  - vm_compute. reflexivity.
  - injection Hi as <-. apply Forall2_cons_1 in Hf as [Hr _].
    eexists. split; [exact Hr|]. vm_compute. reflexivity.
Defined.

Lemma status_reports_compliance_witness :
  ∃ c, condition ConditionPolicyCompliant
         (ttst_Conditions (tt_Status (reconciledTransactionType map_to_list 1 2 store orders))) = Some c ∧
       (cond_Status c = ConditionTrue ↔ ∀ p, Some policy = Some p → meets_checked orders p).
Proof.
  apply (status_reports_compliance map_to_list 1 2 store [policy] orders).
  - intros m. apply range_order_refl.
  - reflexivity.
Defined.

Lemma status_never_settles_witness :
  reconciledTransactionType map_to_list 3 4 store (reconciledTransactionType map_to_list 1 2 store orders)
  ≠ reconciledTransactionType map_to_list 1 2 store orders.
Proof. apply (status_never_settles map_to_list 1 2 3 4 store store orders). discriminate. Defined.

Definition labelled : TokenPolicy :=
  policy_with [allow] (Some {| ns_MatchNames := []; ns_MatchLabels := {[ "team" := "a" ]} |}).

Lemma label_selected_policy_witness :
  policyMatches "shop" labelled = false ∧ map pir_TargetNamespaces (policyIssuanceRules labelled) = [[]].
Proof.
  split; [|reflexivity].
  apply (label_selected_policy labelled {| ns_MatchNames := []; ns_MatchLabels := {[ "team" := "a" ]} |});
    reflexivity.
Defined.
End ControllerExample.
