(* ===== verification/Identity.v ===== *)
(** * pkg/extauth/identity.go: the workload behind a request

    A workload is identified by the SPIFFE principal of its connection, or by its
    pod's IP address in a cache of pods. *)

From S2P Require Import Prelude GoStrings.

Record podInfo := { pi_Name : string; pi_Namespace : string; pi_ServiceAccount : string }.

Record IdentityResolver := { pods : gmap string podInfo }.

Record WorkloadIdentity := {
  wi_Subject : string; wi_Namespace : string; wi_ServiceAccount : string;
}.

(** What the resolver reads of a [corev1.Pod]. *)
Record Pod := { pod_Name : string; pod_Namespace : string; pod_IP : string;
                pod_ServiceAccountName : string }.

Definition NewIdentityResolver : IdentityResolver := {| pods := ∅ |}.

Definition serviceAccountSubject (ns sa : string) : string :=
  "system:serviceaccount:" +:+ ns +:+ ":" +:+ sa.

Definition ResolveFromPrincipal (principal : string) : result WorkloadIdentity :=
  if bool_decide (principal = "") then Err (errorf "empty principal" []) else
  if negb (HasPrefix principal "spiffe://") then
    Err (errorf "principal %q is not a SPIFFE URI" [principal]) else
  let path := TrimPrefix principal "spiffe://" in
  match IndexByte path "/" with
  | None => Err (errorf "invalid SPIFFE URI %q: no path after trust domain" [principal])
  | Some slashIdx =>
    let path := drop_str slashIdx path in
    match SplitByte (TrimPrefix path "/") "/" with
    | p0 :: ns :: p2 :: sa :: _ =>
      if negb (bool_decide (p0 = "ns")) || negb (bool_decide (p2 = "sa")) then
        Err (errorf "invalid SPIFFE URI %q: expected /ns/<namespace>/sa/<sa>" [principal])
      else Ok {| wi_Subject := serviceAccountSubject ns sa; wi_Namespace := ns;
                 wi_ServiceAccount := sa |}
    | _ => Err (errorf "invalid SPIFFE URI %q: expected /ns/<namespace>/sa/<sa>" [principal])
    end
  end.

(** The address without the port: everything before the last colon, unless the
    colon comes first or there is a bracket. *)
Definition stripPort (podIP : string) : string :=
  match LastIndexByte podIP ":" with
  | Some idx => if (0 <? idx)%nat && negb (ContainsByte podIP "]") then take_str idx podIP else podIP
  | None => podIP
  end.

Definition ResolveFromPodIP (r : IdentityResolver) (podIP : string) : result WorkloadIdentity :=
  if bool_decide (podIP = "") then Err (errorf "empty pod IP" []) else
  let podIP := stripPort podIP in
  match pods r !! podIP with
  | None => Err (errorf "pod with IP %s not found in cache" [podIP])
  | Some info => Ok {| wi_Subject := serviceAccountSubject (pi_Namespace info) (pi_ServiceAccount info);
                       wi_Namespace := pi_Namespace info;
                       wi_ServiceAccount := pi_ServiceAccount info |}
  end.

Definition UpdatePod (r : IdentityResolver) (pod : Pod) : IdentityResolver :=
  if bool_decide (pod_IP pod = "") then r else
  {| pods := <[pod_IP pod := {| pi_Name := pod_Name pod; pi_Namespace := pod_Namespace pod;
                                pi_ServiceAccount := pod_ServiceAccountName pod |}]> (pods r) |}.

Definition DeletePod (r : IdentityResolver) (pod : Pod) : IdentityResolver :=
  if bool_decide (pod_IP pod = "") then r else {| pods := delete (pod_IP pod) (pods r) |}.

Definition Resolve (r : IdentityResolver) (principal sourceIP : string) : result WorkloadIdentity :=
  if negb (bool_decide (principal = "")) then ResolveFromPrincipal principal else
  if negb (bool_decide (sourceIP = "")) then ResolveFromPodIP r sourceIP else
  Err (errorf "no identity information available: both principal and source IP are empty" []).

(** ** Properties *)

(** The principal of a service account. *)
Definition spiffe (domain ns sa : string) : string :=
  "spiffe://" +:+ domain +:+ "/ns/" +:+ ns +:+ "/sa/" +:+ sa.

Definition no_slash (s : string) : Prop := IndexByte s "/" = None.

(** A SPIFFE principal resolves to the namespace and service account it
    names, and the pod cache is not consulted: for every trust domain, namespace
    and service account without a slash, whatever the source address. *)
Theorem spiffe_roundtrip r domain ns sa ip :
  no_slash domain → no_slash ns → no_slash sa →
  Resolve r (spiffe domain ns sa) ip
  = Ok {| wi_Subject := serviceAccountSubject ns sa; wi_Namespace := ns; wi_ServiceAccount := sa |}.
Proof.
  intros Hd Hn Hs. unfold Resolve, ResolveFromPrincipal, spiffe.
  rewrite !(bool_decide_false (_ +:+ _ = "")) by done. cbn [negb].
  rewrite HasPrefix_app, TrimPrefix_app. cbn [negb].
  change ("/ns/" +:+ ns +:+ "/sa/" +:+ sa) with (String "/" ("ns/" +:+ ns +:+ "/sa/" +:+ sa)).
  rewrite IndexByte_app, drop_str_app by done.
  change (String "/" ("ns/" +:+ ns +:+ "/sa/" +:+ sa)) with ("/" +:+ ("ns/" +:+ ns +:+ "/sa/" +:+ sa)).
  rewrite TrimPrefix_app.
  change ("ns/" +:+ ns +:+ "/sa/" +:+ sa) with ("ns" +:+ String "/" (ns +:+ String "/" ("sa" +:+ String "/" sa))).
  rewrite !SplitByte_app, SplitByte_single by done. done.
Qed.

Lemma LastIndexByte_None s c : IndexByte s c = None → LastIndexByte s c = None.
Proof.
  induction s as [|a s IH]; simpl; [done|]. case_decide; [done|].
  destruct (IndexByte s c); [done|]. intros _. by rewrite IH.
Qed.

Lemma LastIndexByte_app s c t :
  IndexByte t c = None → LastIndexByte (s +:+ String c t) c = Some (String.length s).
Proof.
  intros Ht. induction s as [|a s IH].
  - rewrite str_app_nil_l. simpl. by rewrite LastIndexByte_None, decide_True.
  - rewrite str_app_cons. cbn [LastIndexByte]. by rewrite IH.
Qed.

Lemma stripPort_bare ip : IndexByte ip ":" = None → stripPort ip = ip.
Proof. intros Hip. unfold stripPort. by rewrite LastIndexByte_None. Qed.

Lemma stripPort_port a b :
  a ≠ "" → IndexByte b ":" = None → ContainsByte (a +:+ String ":" b) "]" = false →
  stripPort (a +:+ String ":" b) = a.
Proof.
  intros Ha Hb Hbr. unfold stripPort. rewrite LastIndexByte_app, Hbr by done.
  destruct a as [|x a]; [done|]. cbn [String.length Nat.ltb Nat.leb andb negb].
  apply (take_str_app (String x a)).
Qed.

(** The resolution of an address whose stripped form is the key [k]. *)
Lemma Resolve_ip r ip k :
  ip ≠ "" → stripPort ip = k →
  Resolve r "" ip =
  match pods r !! k with
  | None => Err (errorf "pod with IP %s not found in cache" [k])
  | Some info => Ok {| wi_Subject := serviceAccountSubject (pi_Namespace info) (pi_ServiceAccount info);
                       wi_Namespace := pi_Namespace info;
                       wi_ServiceAccount := pi_ServiceAccount info |}
  end.
Proof.
  intros Hne Hk. unfold Resolve, ResolveFromPodIP. rewrite (bool_decide_true ("" = "")) by done.
  rewrite !bool_decide_false by done. cbn [negb]. by rewrite Hk.
Qed.

(** C36.  A pod's address resolves to the pod it was last recorded for, and to
    nothing once the pod is deleted, whether or not a port follows the address,
    for addresses without a colon (IPv4). *)
Theorem pod_cache_lookup r pod port :
  pod_IP pod ≠ "" → IndexByte (pod_IP pod) ":" = None → IndexByte port ":" = None →
  ContainsByte (pod_IP pod +:+ String ":" port) "]" = false →
  let found := {| wi_Subject := serviceAccountSubject (pod_Namespace pod) (pod_ServiceAccountName pod);
                  wi_Namespace := pod_Namespace pod;
                  wi_ServiceAccount := pod_ServiceAccountName pod |} in
  Resolve (UpdatePod r pod) "" (pod_IP pod) = Ok found ∧
  Resolve (UpdatePod r pod) "" (pod_IP pod +:+ String ":" port) = Ok found ∧
  is_ok (Resolve (DeletePod (UpdatePod r pod) pod) "" (pod_IP pod)) = false.
Proof.
  intros Hne Hip Hport Hbr found. unfold UpdatePod, DeletePod. rewrite !bool_decide_false by done.
  rewrite !(Resolve_ip _ (pod_IP pod) (pod_IP pod)) by (done || by apply stripPort_bare).
  rewrite (Resolve_ip _ (_ +:+ _) (pod_IP pod)); [|by apply str_app_ne_r|by apply stripPort_port].
  simpl. by rewrite lookup_insert_eq, lookup_delete_eq.
Qed.

(** A pod whose address has a colon in it (IPv6) is never found by that
    address: the last group is taken for a port, so recording the pod makes no
    difference to the resolution of its own address. *)
Theorem ipv6_pod_unresolved r pod a b :
  pod_IP pod = a +:+ String ":" b → a ≠ "" → IndexByte b ":" = None →
  ContainsByte (pod_IP pod) "]" = false →
  Resolve (UpdatePod r pod) "" (pod_IP pod) = Resolve r "" (pod_IP pod).
Proof.
  intros Hip Ha Hb Hbr.
  assert (pod_IP pod ≠ "") as Hne by (rewrite Hip; by apply str_app_ne_r).
  assert (stripPort (pod_IP pod) = a) as Hk by (rewrite Hip in *; by apply stripPort_port).
  assert (pod_IP pod ≠ a) as Hne'.
  { rewrite Hip. intros Heq%(f_equal String.length). revert Heq. clear.
    induction a as [|x a IH]; [done|]. rewrite str_app_cons. cbn [String.length]. auto. }
  unfold UpdatePod. rewrite bool_decide_false by done.
  rewrite !(Resolve_ip _ _ _ Hne Hk). simpl. by rewrite lookup_insert_ne.
Qed.

Module IdentityExample.
Definition pod (ip : string) : Pod :=
  {| pod_Name := "agent-0"; pod_Namespace := "team"; pod_IP := ip; pod_ServiceAccountName := "agent" |}.

Lemma spiffe_roundtrip_witness :
  Resolve NewIdentityResolver "spiffe://cluster.local/ns/team/sa/agent" "10.0.0.1"
  = Ok {| wi_Subject := "system:serviceaccount:team:agent"; wi_Namespace := "team";
          wi_ServiceAccount := "agent" |}.
Proof. apply (spiffe_roundtrip NewIdentityResolver "cluster.local" "team" "agent"); reflexivity. Defined.

Lemma pod_cache_lookup_witness :
  is_ok (Resolve (UpdatePod NewIdentityResolver (pod "10.0.0.42")) "" "10.0.0.42:8080") = true.
Proof.
  destruct (pod_cache_lookup NewIdentityResolver (pod "10.0.0.42") "8080") as (_ & H & _);
    [discriminate|reflexivity|reflexivity|reflexivity|]. change "10.0.0.42:8080" with
    (pod_IP (pod "10.0.0.42") +:+ String ":" "8080"). rewrite H. reflexivity.
Defined.

Lemma ipv6_pod_unresolved_witness :
  Resolve (UpdatePod NewIdentityResolver (pod "fd00::1")) "" "fd00::1"
  = Resolve NewIdentityResolver "" "fd00::1".
Proof.
  apply (ipv6_pod_unresolved NewIdentityResolver (pod "fd00::1") "fd00:" "1");
    [reflexivity|discriminate|reflexivity|reflexivity].
Defined.
End IdentityExample.
