(* ===== verification/ExtAuth.v ===== *)
(** * pkg/extauth: the ext_authz adapter

    [server.go], the verification mode, and [generate.go], the generation mode.
    Envoy's [CheckRequest] is the record of what the handlers read of it.  A
    check returns the response ([None]: the handler panicked) and the new state
    of the server (the verifier's key cache). *)

From S2P Require Import Prelude GoStrings GoValue GoTime External GoSort GoUrl Token Keys Fetch.
From S2P Require Import LocalVerifier SdkVerify Api CelVerify RulesProto RuleClient SdkClient Identity.

Local Open Scope Z_scope.

(** ** Requests and responses *)

Record HttpAttributes := {
  ha_Path : string; ha_Method : string; ha_Headers : gmap string string; ha_Body : string;
}.

(** The source peer; [None] for an address that is absent or no socket address. *)
Record Peer := { peer_Principal : string; peer_SocketAddress : option string }.

Record CheckRequest := { cr_Http : option HttpAttributes; cr_Source : option Peer }.

(** The gRPC codes used. *)
Definition code_OK : Z := 0.
Definition InvalidArgument : Z := 3.
Definition PermissionDenied : Z := 7.
Definition Internal : Z := 13.
Definition Unauthenticated : Z := 16.

(** A response: OK with a status code that may be unset and the headers to add,
    or denied with the code, the HTTP status and the message. *)
Inductive CheckResponse : Type :=
  | OkResponse (status : option Z) (headers : list (string * string))
  | DeniedResponse (code httpCode : Z) (message : error).

Definition allowed : CheckResponse := OkResponse (Some code_OK) [].

(** [headers] in the order of the range over the map. *)
Definition allowedWithHeaders (headers : list (string * string)) : CheckResponse :=
  OkResponse None headers.

Definition denied (code : Z) (message : error) : CheckResponse :=
  DeniedResponse code (if bool_decide (code = PermissionDenied) then 403
                       else if bool_decide (code = InvalidArgument) then 400 else 401) message.

(** ** Helpers *)

Definition getHeader `{Unicode} (headers : gmap string string) (name : string) : string :=
  match headers !! ToLower name with
  | Some v => v
  | None => match headers !! name with Some v => v | None => "" end
  end.

(** [if idx := strings.Index(path, "?"); idx >= 0 { path = path[:idx] }]. *)
Definition stripQuery (path : string) : string :=
  match IndexByte path "?" with Some idx => take_str idx path | None => path end.

Definition matchPath (requestPath pattern : string) : bool :=
  let requestPath := stripQuery requestPath in
  bool_decide (requestPath = pattern) || HasPrefix requestPath (pattern +:+ "/").

Definition scopeContains (scopeString required : string) : bool :=
  existsb (λ s, bool_decide (s = required)) (Fields scopeString).

Definition scopeIsBroader (broader narrower : string) : bool :=
  let broaderSet : gset string := list_to_set (Fields broader) in
  if negb (forallb (λ s, bool_decide (s ∈ broaderSet)) (Fields narrower)) then false else
  (length (Fields narrower) <? length (Fields broader))%nat.

(** The JSON fields of a [token.Claims]. *)
Definition claimsJSON (c : Claims) : gmap string any :=
  let m : gmap string any :=
    {[ "iss" := AString (Issuer c); "iat" := AInt64 (IssuedAt c); "exp" := AInt64 (ExpiresAt c);
       "aud" := AString (Audience c); "txn" := AString (TransactionID c);
       "sub" := AString (Subject c); "scope" := AString (Scope c);
       "req_wl" := AString (RequestingWorkload c) ]} in
  let m := if bool_decide (default ∅ (TransactionContext c) = ∅) then m
           else <["tctx" := AMap (TransactionContext c)]> m in
  if bool_decide (default ∅ (RequesterContext c) = ∅) then m
  else <["rctx" := AMap (RequesterContext c)]> m.

Definition claimsToMap `{JSON} (c : Claims) : result gomap :=
  try! b := json_Marshal (AMap (Some (claimsJSON c))) in json_UnmarshalMap b.

(** [order] is the order of the range over the headers. *)
Definition headersToCEL `{Unicode} (order : list (string * string)) : gmap string any :=
  foldl (λ out kv, <[ToLower kv.1 := AString kv.2]> out) ∅ order.

(** ** Verification mode (server.go) *)

Section server.
Context `{Unicode, JSON, CEL, Crypto, !JWT, Documents, HttpClient}.
(** The order of the range over the headers. *)
Context (range : gmap string string → list (string * string)).

Record verificationRuleSet := { vset_rule : VerificationRule; vset_programs : list Program }.

Record Server := {
  sv_verifier : Verifier;
  sv_verificationRules : option (list verificationRuleSet);
  sv_ttsClient : option Client;
}.

Definition NewServer (verifier : Verifier) : Server :=
  {| sv_verifier := verifier; sv_verificationRules := None; sv_ttsClient := None |}.

Definition SetTTSClient (s : Server) (client : Client) : Server :=
  {| sv_verifier := sv_verifier s; sv_verificationRules := sv_verificationRules s;
     sv_ttsClient := Some client |}.

(** One round of the loop: an expression that does not compile is skipped. *)
Definition compileOne (c : CELRule) : list Program :=
  match Compile [{| rule_Name := cel_Name c; rule_CEL := cel_CEL c; rule_Message := cel_Message c |}] with
  | Err _ => []
  | Ok programs => programs
  end.

Definition compileVerificationRuleCEL (r : VerificationRule) : list Program :=
  if bool_decide (length (vr_CELRules r) = 0%nat) then [] else
  concat (map compileOne (vr_CELRules r)).

Definition verificationSortKey (r : VerificationRule) : list string := [vr_Namespace r; vr_Name r].

Definition Server_SetVerificationRules (s : Server) (rules : list VerificationRule) : Server :=
  let sorted := sortBy verificationSortKey rules in
  let snapshot := map (λ r, {| vset_rule := r; vset_programs := compileVerificationRuleCEL r |}) sorted in
  {| sv_verifier := sv_verifier s; sv_verificationRules := Some snapshot;
     sv_ttsClient := sv_ttsClient s |}.

#[export] Instance Server_VerificationSetter : VerificationSetter Server :=
  {| SetVerificationRules := Server_SetVerificationRules |}.

Definition loadVerificationRules (s : Server) : list verificationRuleSet :=
  default [] (sv_verificationRules s).

Definition isExcluded (s : Server) (path method : string) : bool :=
  existsb (λ rs, existsb (λ ep, matchPath path (ep_Path ep) && EqualFold method (ep_Method ep))
                         (vr_ExcludedEndpoints (vset_rule rs)))
          (loadVerificationRules s).

(** The CEL context of a request. *)
Definition celContext (claims : Claims) (path method : string) (headers : gmap string string)
  : result Context :=
  try! txMap := map_err (wrapf "converting txtoken claims for CEL: %w" []) (claimsToMap claims) in
  Ok {| ctx_TxToken := txMap;
        ctx_Request := Some {[ "path" := AString path; "method" := AString method;
                               "headers" := AMap (Some (headersToCEL (range headers))) ]} |}.

(** The check of one required field. *)
Definition checkTctxField (rule : VerificationRule) (claims : Claims) (field : string) : result unit :=
  match TransactionContext claims with
  | None => Err (errorf "tctx is nil but field %q is required (rule: %s)" [field; vr_Name rule])
  | Some tctx =>
    match tctx !! field with
    | None => Err (errorf "required tctx field %q missing (rule: %s)" [field; vr_Name rule])
    | Some _ => Ok tt
    end
  end.

(** One round of the loop of [checkVerificationRules]; the context is built when
    a rule needs it, always the same. *)
Definition checkRule (claims : Claims) (path method : string) (headers : gmap string string)
    (rs : verificationRuleSet) : result unit :=
  let rule := vset_rule rs in
  if negb (bool_decide (vr_RequiredScope rule = ""))
     && negb (scopeContains (Scope claims) (vr_RequiredScope rule)) then
    Err (errorf "token scope %q does not contain required scope %q (rule: %s)"
           [Scope claims; vr_RequiredScope rule; vr_Name rule]) else
  try! _ := traverse (checkTctxField rule claims) (vr_RequiredTctxFields rule) in
  if (0 <? length (vset_programs rs))%nat then
    try! ctx := celContext claims path method headers in
    Evaluate (vset_programs rs) ctx
  else Ok tt.

Definition checkVerificationRules (s : Server) (claims : Claims) (path method : string)
    (headers : gmap string string) : result unit :=
  try! _ := traverse (checkRule claims path method headers) (loadVerificationRules s) in Ok tt.

(** The loop of [autoNarrow]. *)
Fixpoint narrowLoop (client : Client) (claims : Claims) (originalToken : string)
    (rules : list verificationRuleSet) : string :=
  match rules with
  | [] => ""
  | rs :: rules =>
    let rule := vset_rule rs in
    if negb (vr_AutoNarrow rule) || bool_decide (vr_RequiredScope rule = "") then
      narrowLoop client claims originalToken rules else
    if negb (bool_decide (Scope claims = vr_RequiredScope rule))
       && scopeIsBroader (Scope claims) (vr_RequiredScope rule) then
      match (Exchange client {| xr_SubjectToken := originalToken;
                                xr_SubjectTokenType := SubjectTokenTypeTxnToken;
                                xr_Scope := vr_RequiredScope rule;
                                xr_RequestDetails := None; xr_RequestContext := None |}).1 with
      | Err _ => ""
      | Ok narrowedToken => narrowedToken
      end
    else narrowLoop client claims originalToken rules
  end.

Definition autoNarrow (s : Server) (claims : Claims) (originalToken : string) : string :=
  match sv_ttsClient s with
  | None => ""
  | Some client => narrowLoop client claims originalToken (loadVerificationRules s)
  end.

Definition set_verifier (s : Server) (v : Verifier) : Server :=
  {| sv_verifier := v; sv_verificationRules := sv_verificationRules s; sv_ttsClient := sv_ttsClient s |}.

Definition Check (net : Network) (now : Z) (s : Server) (req : CheckRequest)
  : option CheckResponse * Server :=
  match cr_Http req with
  | None => (Some (denied InvalidArgument (errorf "missing HTTP request attributes" [])), s)
  | Some httpReq =>
    let txTokenStr := getHeader (ha_Headers httpReq) HeaderName in
    let path := ha_Path httpReq in
    let method := ha_Method httpReq in
    if isExcluded s path method then (Some allowed, s) else
    if bool_decide (txTokenStr = "") then
      (Some (denied Unauthenticated (errorf "missing Txn-Token header" [])), s) else
    let '(verified, v) := sdk_Verify net now (sv_verifier s) txTokenStr in
    let s := set_verifier s v in
    match verified with
    | Err (GoPanic _) => (None, s)
    | Err err => (Some (denied Unauthenticated (wrapf "TxToken verification failed: %v" [] err)), s)
    | Ok claims =>
      match checkVerificationRules s claims path method (ha_Headers httpReq) with
      | Err (GoPanic _) => (None, s)
      | Err err => (Some (denied PermissionDenied err), s)
      | Ok _ =>
        let narrowedToken := autoNarrow s claims txTokenStr in
        if negb (bool_decide (narrowedToken = ""))
        then (Some (allowedWithHeaders [(HeaderName, narrowedToken)]), s)
        else (Some allowed, s)
      end
    end
  end.
End server.

(** ** Generation mode (generate.go) *)

Section generation.
Context `{Unicode, JSON, HttpClient}.
(** The order of the range over a rule's field mappings. *)
Context (range : gmap string TctxFieldMapping → list (string * TctxFieldMapping)).

Record GenerationServer := {
  gs_ttsClient : Client;
  gs_identityResolver : IdentityResolver;
  gs_generationRules : list GenerationRule;
}.

Definition NewGenerationServer (ttsClient : Client) (resolver : IdentityResolver) : GenerationServer :=
  {| gs_ttsClient := ttsClient; gs_identityResolver := resolver; gs_generationRules := [] |}.

Definition Server_SetGenerationRules (s : GenerationServer) (rules : list GenerationRule)
  : GenerationServer :=
  {| gs_ttsClient := gs_ttsClient s; gs_identityResolver := gs_identityResolver s;
     gs_generationRules := rules |}.

#[export] Instance GenerationServer_GenerationSetter : GenerationSetter GenerationServer :=
  {| SetGenerationRules := Server_SetGenerationRules |}.

(** The loop over the segments, of the same number on both sides. *)
Fixpoint matchSegments (reqParts patParts : list string) : bool :=
  match reqParts, patParts with
  | r :: reqParts, p :: patParts =>
    if HasPrefix p "{" && HasSuffix p "}" then matchSegments reqParts patParts else
    if negb (bool_decide (r = p)) then false else matchSegments reqParts patParts
  | _, _ => true
  end.

Definition matchEndpointPath (requestPath pattern : string) : bool :=
  let requestPath := stripQuery requestPath in
  let reqParts := SplitByte (TrimByte requestPath "/") "/" in
  let patParts := SplitByte (TrimByte pattern "/") "/" in
  if negb (bool_decide (length reqParts = length patParts)) then false else
  matchSegments reqParts patParts.

(** The condition of the loop of [findMatchingRule]. *)
Definition ruleMatches (path method : string) (rule : GenerationRule) : bool :=
  EqualFold (ep_Method (gr_Endpoint rule)) method && matchEndpointPath path (ep_Path (gr_Endpoint rule)).

(** The loop when the rules do not change under it. *)
Definition findMatchingRule (rules : list GenerationRule) (path method : string)
  : option GenerationRule :=
  find (ruleMatches (stripQuery path) method) rules.

(** The loop as it runs next to [SetGenerationRules], which writes the field with
    no lock: the number of rounds [n] is fixed at the start, and round [i] reads the
    field again, as [reads i].  [None] is an index out of range: a panic. *)
Fixpoint racingLoop (reads : nat → list GenerationRule) (path method : string) (i n : nat)
  : option (option GenerationRule) :=
  match n with
  | O => Some None
  | S n =>
    match reads i !! i with
    | None => None
    | Some rule => if ruleMatches path method rule then Some (Some rule) else racingLoop reads path method (S i) n
    end
  end.
Definition findMatchingRuleRacing (start : list GenerationRule) (reads : nat → list GenerationRule)
    (path method : string) : option (option GenerationRule) :=
  racingLoop reads (stripQuery path) method 0 (length start).

Definition extractSourceAddress (req : CheckRequest) : string :=
  match cr_Source req with
  | Some src => default "" (peer_SocketAddress src)
  | None => ""
  end.

Definition extractTctxField (httpReq : HttpAttributes) (mapping : TctxFieldMapping) : result string :=
  let source := tfm_Source mapping in
  if bool_decide (source = "body") then
    let body := ha_Body httpReq in
    if bool_decide (body = "") then Ok "" else
    try! parsed := map_err (wrapf "failed to parse request body as JSON: %w" [])
                           (json_UnmarshalMap body) in
    match default ∅ parsed !! tfm_Field mapping with
    | None => Ok ""
    | Some (AString v) => Ok v
    | Some v => Ok (match json_Marshal v with Ok b => b | Err _ => "" end)
    end
  else if bool_decide (source = "query") then
    let rawPath := ha_Path httpReq in
    match IndexByte rawPath "?" with
    | Some idx =>
      try! query := map_err (wrapf "failed to parse query string: %w" [])
                            (ParseQuery (drop_str (S idx) rawPath)) in
      Ok (Values_Get query (tfm_Field mapping))
    | None => Ok ""
    end
  else if bool_decide (source = "header") then
    Ok (getHeader (ha_Headers httpReq) (ToLower (tfm_Field mapping)))
  else if bool_decide (source = "path") then Ok ""
  else Err (errorf "unknown tctxMapping source: %q" [source]).

(** The loop over the field mappings; an error is the message of the denial. *)
Fixpoint extractFields (httpReq : HttpAttributes) (order : list (string * TctxFieldMapping))
    (details : gmap string any) : result (gmap string any) :=
  match order with
  | [] => Ok details
  | (fieldName, mapping) :: order =>
    match extractTctxField httpReq mapping with
    | Err err =>
      if tfm_Required mapping then
        Err (wrapf "required tctx field %q extraction failed: %v" [fieldName] err)
      else extractFields httpReq order details
    | Ok val =>
      if negb (bool_decide (val = "")) then
        extractFields httpReq order (<[fieldName := AString val]> details)
      else if tfm_Required mapping then
        Err (errorf "required tctx field %q is missing" [fieldName])
      else extractFields httpReq order details
    end
  end.

(** The subject token and its type. *)
Definition subjectTokenOf (s : GenerationServer) (req : CheckRequest) (authHeader : string)
  : result (string * string) :=
  if negb (bool_decide (authHeader = "")) && HasPrefix authHeader "Bearer " then
    Ok (TrimPrefix authHeader "Bearer ", SubjectTokenTypeAccessToken)
  else
    let principal := match cr_Source req with Some src => peer_Principal src | None => "" end in
    let sourceIP := extractSourceAddress req in
    try! identity := map_err (wrapf "failed to resolve workload identity: %v" [])
                             (Resolve (gs_identityResolver s) principal sourceIP) in
    Ok (wi_Subject identity, "urn:ietf:params:oauth:token-type:kubernetes-sa").

Definition requestContext (req : CheckRequest) (authHeader : string) : gmap string any :=
  let sourceAddr := extractSourceAddress req in
  let ctx : gmap string any :=
    if negb (bool_decide (sourceAddr = "")) then {[ "req_ip" := AString sourceAddr ]} else ∅ in
  if negb (bool_decide (authHeader = "")) then <["authn" := AString "oidc"]> ctx
  else <["authn" := AString "kubernetes-sa"]> ctx.

Definition GenerationServer_Check (s : GenerationServer) (req : CheckRequest) : CheckResponse :=
  match cr_Http req with
  | None => denied InvalidArgument (errorf "missing HTTP request attributes" [])
  | Some httpReq =>
    match findMatchingRule (gs_generationRules s) (ha_Path httpReq) (ha_Method httpReq) with
    | None => allowed
    | Some rule =>
      let authHeader := getHeader (ha_Headers httpReq) "Authorization" in
      match subjectTokenOf s req authHeader with
      | Err err => denied Unauthenticated err
      | Ok (subjectToken, subjectTokenType) =>
        match extractFields httpReq (range (gr_TctxMapping rule))
                            {[ "purpose" := AString (gr_Purpose rule) ]} with
        | Err err => denied InvalidArgument err
        | Ok requestDetails =>
          match (Exchange (gs_ttsClient s)
                   {| xr_SubjectToken := subjectToken; xr_SubjectTokenType := subjectTokenType;
                      xr_Scope := gr_Scope rule; xr_RequestDetails := Some requestDetails;
                      xr_RequestContext := Some (requestContext req authHeader) |}).1 with
          | Err err => denied Internal (wrapf "token exchange failed: %v" [] err)
          | Ok txToken => allowedWithHeaders [(HeaderName, txToken)]
          end
        end
      end
    end
  end.
End generation.
