(* ===== verification/ExtAuthProps.v ===== *)
(** * The ext_authz adapter: what an allowed request shows *)

From S2P Require Import Prelude GoStrings GoValue GoTime External GoSort GoUrl Token Keys Fetch.
From S2P Require Import LocalVerifier SdkVerify Api CelVerify Controller RulesProto RuleServer RuleClient.
From S2P Require Import Pipeline SdkClient Identity ExtAuth Issuance Authn TTSHandler TTSRuleClient.
From S2P Require Import ControllerProps Instances TTSProps SdkProps.

Local Open Scope Z_scope.

(** ** Verification mode *)

Section verification.
Context `{Unicode, !JSON, CEL, Crypto, !JWT, !JWTLaws _, Documents, HttpClient}.
Context (range : gmap string string → list (string * string)).

(** A rule accepts a token for a request. *)
Definition rule_satisfied (claims : Claims) (httpReq : HttpAttributes) (rs : verificationRuleSet) : Prop :=
  let rule := vset_rule rs in
  (vr_RequiredScope rule ≠ "" → vr_RequiredScope rule ∈ Fields (Scope claims)) ∧
  (∀ f, f ∈ vr_RequiredTctxFields rule →
     ∃ tctx, TransactionContext claims = Some tctx ∧ is_Some (tctx !! f)) ∧
  (vset_programs rs ≠ [] →
     ∃ ctx, celContext range claims (ha_Path httpReq) (ha_Method httpReq) (ha_Headers httpReq) = Ok ctx ∧
            ∀ p, p ∈ vset_programs rs → program_holds ctx p).

Lemma scopeContains_spec s r : scopeContains s r = true ↔ r ∈ Fields s.
Proof.
  unfold scopeContains. rewrite existsb_elem. setoid_rewrite bool_decide_eq_true. naive_solver.
Qed.

Lemma checkTctxField_ok rule claims f :
  is_ok (checkTctxField rule claims f) = true ↔
  ∃ tctx, TransactionContext claims = Some tctx ∧ is_Some (tctx !! f).
Proof.
  unfold checkTctxField. destruct (TransactionContext claims) as [m|]; [|naive_solver].
  destruct (m !! f) eqn:E; split; try done; [by intros _; exists m; rewrite E; eauto|].
  intros (? & [= <-] & [? Hs]). congruence.
Qed.

Lemma checkPrograms_ok claims hr ps :
  is_ok (if (0 <? length ps)%nat then
           try! ctx := celContext range claims (ha_Path hr) (ha_Method hr) (ha_Headers hr) in
           Evaluate ps ctx else Ok tt) = true ↔
  (ps ≠ [] → ∃ ctx, celContext range claims (ha_Path hr) (ha_Method hr) (ha_Headers hr) = Ok ctx ∧
                    ∀ p, p ∈ ps → program_holds ctx p).
Proof.
  destruct ps as [|p ps]; cbn [length Nat.ltb Nat.leb]; [naive_solver|].
  destruct (celContext _ _ _ _ _) as [ctx|e].
  - destruct (Evaluate (p :: ps) ctx) as [[]|e] eqn:E; simpl.
    + split; [|done]. intros _ _. exists ctx. split; [done|]. by apply Evaluate_ok.
    + split; [done|]. intros (ctx' & [= <-] & Hp); [done|]. apply Evaluate_ok in Hp. congruence.
  - split; [done|]. intros (ctx' & ? & _); done.
Qed.

Lemma checkRule_ok claims hr rs :
  is_ok (checkRule range claims (ha_Path hr) (ha_Method hr) (ha_Headers hr) rs) = true ↔
  rule_satisfied claims hr rs.
Proof.
  unfold checkRule, rule_satisfied. cbv zeta. rewrite <-scopeContains_spec, <-checkPrograms_ok.
  setoid_rewrite <-(checkTctxField_ok (vset_rule rs)). rewrite <-traverse_is_ok.
  destruct (_ && _) eqn:Hsc.
  - apply andb_true_iff in Hsc as [Hne Hs]. bool_to_prop. split; [done|]. naive_solver.
  - assert (vr_RequiredScope (vset_rule rs) ≠ "" →
      scopeContains (Scope claims) (vr_RequiredScope (vset_rule rs)) = true) as Hok.
    { intros Hne. rewrite bool_decide_false in Hsc by done. simpl in Hsc. by bool_to_prop. }
    destruct (traverse _ _); simpl; naive_solver.
Qed.

Lemma checkVerificationRules_ok s claims hr :
  checkVerificationRules range s claims (ha_Path hr) (ha_Method hr) (ha_Headers hr) = Ok tt ↔
  ∀ rs, rs ∈ loadVerificationRules s → rule_satisfied claims hr rs.
Proof.
  setoid_rewrite <-checkRule_ok. rewrite <-traverse_is_ok. unfold checkVerificationRules.
  by destruct (traverse _ _).
Qed.

Lemma isExcluded_spec s path method :
  isExcluded s path method = true ↔
  ∃ rs ep, rs ∈ loadVerificationRules s ∧ ep ∈ vr_ExcludedEndpoints (vset_rule rs) ∧
    matchPath path (ep_Path ep) = true ∧ EqualFold method (ep_Method ep) = true.
Proof.
  unfold isExcluded. rewrite existsb_elem. setoid_rewrite existsb_elem.
  setoid_rewrite andb_true_iff. naive_solver.
Qed.

(** C4.  The adapter lets a request pass only for a reason: an endpoint that a
    rule excludes, or a Txn-Token whose signature verifies under a key of the
    TTS's JWKS, with the right type, audience and an expiry in the future, and
    which satisfies every active rule: required scope, required tctx fields and
    every compiled CEL expression. *)
Theorem allowed_only_verified net now s req st hdrs s' :
  Check range net now s req = (Some (OkResponse st hdrs), s') →
  ∃ hr, cr_Http req = Some hr ∧
    (isExcluded s (ha_Path hr) (ha_Method hr) = true ∨
     ∃ t mc kid k, jwt_signed (getHeader (ha_Headers hr) HeaderName) t k ∧
       jwt_MapClaims t = Some mc ∧ jwt_valid (WithAudience (vf_audience (sv_verifier s))) now mc ∧
       jwt_Header t !! "typ" = Some (AString TypeHeader) ∧
       jwt_Header t !! "kid" = Some (AString kid) ∧ vf_keys (sv_verifier s') !! kid = Some k ∧
       ∀ rs, rs ∈ loadVerificationRules s → rule_satisfied (extractClaims mc) hr rs).
Proof.
  unfold Check. destruct (cr_Http req) as [hr|]; [|done]. intros HC. exists hr. split; [done|].
  destruct (isExcluded _ _ _); [by left|]. right. destruct (bool_decide _); [done|].
  destruct (sdk_Verify _ _ _ _) as [[claims|e] v] eqn:HV; [|by destruct e].
  apply sdk_Verify_sound in HV as (t & mc & kid & k & Hs & Hm & -> & Hval & Ht & Hk & Hkey).
  destruct (checkVerificationRules _ _ _ _ _ _) as [[]|e] eqn:HR; [|by destruct e].
  pose proof (proj1 (checkVerificationRules_ok _ _ _) HR) as Hrules.
  assert (s' = set_verifier s v) as ->.
  { destruct (negb _); by injection HC. }
  exists t, mc, kid, k. split_and!; done.
Qed.

(** C38.  An endpoint excluded by any rule is open to every request, without a
    token, whatever other rules require of the path: rules are not told apart by
    the service or namespace they were written for. *)
Theorem exclusion_crosses_services net now s req hr rs ep :
  cr_Http req = Some hr → rs ∈ loadVerificationRules s →
  ep ∈ vr_ExcludedEndpoints (vset_rule rs) → matchPath (ha_Path hr) (ep_Path ep) = true →
  EqualFold (ha_Method hr) (ep_Method ep) = true →
  Check range net now s req = (Some allowed, s).
Proof.
  intros Hr Hrs Hep Hp Hm. unfold Check. rewrite Hr.
  assert (isExcluded s (ha_Path hr) (ha_Method hr) = true) as ->; [|done].
  apply isExcluded_spec. by exists rs, ep.
Qed.

(** A required scope of more than one word can never be met: with such a
    rule active, no request passes but to an excluded endpoint. *)
Theorem multi_scope_never_met net now s req hr rs st hdrs s' :
  cr_Http req = Some hr → isExcluded s (ha_Path hr) (ha_Method hr) = false →
  rs ∈ loadVerificationRules s → vr_RequiredScope (vset_rule rs) ≠ "" →
  Fields (vr_RequiredScope (vset_rule rs)) ≠ [vr_RequiredScope (vset_rule rs)] →
  Check range net now s req ≠ (Some (OkResponse st hdrs), s').
Proof.
  intros Hr Hex Hrs Hne Hf HC. unfold Check in HC. rewrite Hr, Hex in HC.
  destruct (bool_decide _); [done|]. destruct (sdk_Verify _ _ _ _) as [[claims|e] v]; [|by destruct e].
  destruct (checkVerificationRules _ _ _ _ _ _) as [[]|e] eqn:HR; [|by destruct e].
  destruct (proj1 (checkVerificationRules_ok _ _ _) HR rs Hrs) as [Hsc _].
  apply Hf. eapply Fields_field. by apply Hsc.
Qed.
End verification.

(** ** From a ServiceTokenRequirement to the adapter *)

Section requirements.
Context `{CEL} {W : Type} `{!KubeClient W} {G : Type}.

Definition toRule (r : ApiVerificationRule) : Rule :=
  {| rule_Name := avr_Name r; rule_CEL := avr_CEL r; rule_Message := avr_Message r |}.

Lemma checkCELRules_fst acc rules :
  (foldl checkCELRule acc rules).1 = acc.1 ++ filter (λ r, is_ok (Compile [toRule r]) = true) rules.
Proof.
  revert acc. induction rules as [|r rules IH]; intros [v e]; [by rewrite app_nil_r|].
  cbn [foldl]. rewrite IH, filter_cons. unfold checkCELRule. fold (toRule r).
  case_bool_decide as Hr.
  - rewrite decide_False; [done|]. rewrite Compile_single_ok. simpl. intros [? _]. done.
  - destruct (decide _) as [Hok|Hno]; destruct (Compile [toRule r]); simpl in *; try done.
    by rewrite <-app_assoc.
Qed.

Lemma validCEL_spec rules :
  (validateAndCompileCELRules rules).1 = filter (λ r, is_ok (Compile [toRule r]) = true) rules.
Proof.
  unfold validateAndCompileCELRules. case_bool_decide; [by destruct rules|]. apply checkCELRules_fst.
Qed.

Lemma verificationRule_CEL str c :
  c ∈ vr_CELRules (verificationRule str) ↔
  ∃ r, r ∈ vs_Rules (strs_Verification (str_Spec str)) ∧ cel_valid (avr_CEL r) ∧
       c = {| cel_Name := avr_Name r; cel_CEL := avr_CEL r; cel_Message := avr_Message r |}.
Proof.
  unfold verificationRule. pose proof (validCEL_spec (vs_Rules (strs_Verification (str_Spec str)))) as Hv.
  destruct (validateAndCompileCELRules _) as [valid errs]. cbn [vr_CELRules] in *. simpl in Hv. subst valid.
  rewrite list_elem_of_fmap. setoid_rewrite list_elem_of_filter. setoid_rewrite Compile_single_ok.
  simpl. naive_solver.
Qed.

(** A program in force for an expression of a requirement. *)
Definition program_of (r : ApiVerificationRule) (p : Program) : Prop :=
  prog_Name p = avr_Name r ∧ prog_message p = avr_Message r ∧
  ∃ env ast, NewEnv = Ok env ∧ cel_Compile env (avr_CEL r) = Ok ast ∧
    cel_OutputType ast = BoolType ∧ cel_Program env ast = Ok (prog_program p).

Lemma compileOne_program r :
  cel_valid (avr_CEL r) →
  ∃ p, p ∈ compileOne {| cel_Name := avr_Name r; cel_CEL := avr_CEL r; cel_Message := avr_Message r |} ∧
       program_of r p.
Proof.
  intros (Hne & env & ast & He & Hc & Ht & Hp). unfold compileOne, Compile. simpl. rewrite He. simpl.
  rewrite bool_decide_false, Hc by done. simpl. rewrite bool_decide_true by done. simpl.
  destruct (cel_Program env ast) as [prg|] eqn:Hprg; [|done]. simpl.
  eexists. split; [left|]. split_and!; [done..|]. by exists env, ast.
Qed.

(** Everything a requirement asks for is in force in a rule set. *)
Definition requirement_enforced (str : ServiceTokenRequirement) (rs : verificationRuleSet) : Prop :=
  vset_rule rs = verificationRule str ∧
  ∀ r, r ∈ vs_Rules (strs_Verification (str_Spec str)) → cel_valid (avr_CEL r) →
       ∃ p, p ∈ vset_programs rs ∧ program_of r p.

Lemma compiled_enforced str :
  requirement_enforced str {| vset_rule := verificationRule str;
    vset_programs := compileVerificationRuleCEL (verificationRule str) |}.
Proof.
  split; [done|]. intros r Hr Hv. destruct (compileOne_program r Hv) as (p & Hp & Hprog).
  exists p. split; [|done]. simpl. unfold compileVerificationRuleCEL.
  set (c := {| cel_Name := avr_Name r; cel_CEL := avr_CEL r; cel_Message := avr_Message r |}) in *.
  assert (c ∈ vr_CELRules (verificationRule str)) as Hin by (apply verificationRule_CEL; eauto).
  case_bool_decide as Hl.
  - destruct (vr_CELRules (verificationRule str)); [by apply elem_of_nil in Hin|done].
  - apply elem_of_concat_map. by exists c.
Qed.

Lemma Requirement_Reconcile_ok now (w : W) (s : RuleServer) req w' s' :
  ServiceTokenRequirementReconciler_Reconcile now w (Some s) req = (Ok tt, w', Some s') →
  ∃ items, List_ServiceTokenRequirements w' = Ok items ∧
           s' = UpdateVerificationRules s (map verificationRule items).
Proof.
  assert (∀ w1, (let '(r, p) := rebuildVerificationRules w1 (Some s) in (r, w1, p))
                = (Ok tt, w', Some s') →
    ∃ items, List_ServiceTokenRequirements w' = Ok items ∧
             s' = UpdateVerificationRules s (map verificationRule items)) as Hrebuild.
  { intros w1. unfold rebuildVerificationRules.
    destruct (List_ServiceTokenRequirements w1) as [items|] eqn:Hl; [|done].
    simpl. intros [= <- <-]. by exists items. }
  unfold ServiceTokenRequirementReconciler_Reconcile.
  destruct (Get_ServiceTokenRequirement w req); [|apply Hrebuild|done].
  destruct (StatusUpdate_ServiceTokenRequirement _ _) as [[]]; [apply Hrebuild|done].
Qed.

(** The ext auth client after the messages of one connection. *)
Context `{!GenerationSetter G}.
Context (range : gmap ruleKey VerificationRule → list (ruleKey * VerificationRule)).

Definition extauth_receive (c : RuleClient G Server) (ms : list (StreamResponse ProtoVerificationRule))
  : RuleClient G Server * gmap ruleKey VerificationRule :=
  foldl (λ cm resp, onVerificationResponse range cm.1 cm.2 resp) (c, ∅) ms.

Lemma extauth_receive_map c ms : (extauth_receive c ms).2 = receive ∅ ms.
Proof.
  induction ms as [|resp ms IH] using rev_ind; [done|].
  unfold extauth_receive, receive in *. rewrite !foldl_app. simpl. by rewrite IH.
Qed.

Lemma extauth_receive_setter c ms :
  is_Some (verSet c) → is_Some (verSet (extauth_receive c ms).1).
Proof.
  intros Hc. induction ms as [|resp ms IH] using rev_ind; [done|].
  unfold extauth_receive in *. rewrite foldl_app. simpl. destruct IH as [s ->]. simpl. by eexists.
Qed.

(** Resources have distinct names within a namespace. *)
Definition requirements_named (items : list ServiceTokenRequirement) : Prop :=
  NoDup ((λ str, (om_Namespace (str_ObjectMeta str), om_Name (str_ObjectMeta str))) <$> items).

Lemma verificationRule_key str :
  verificationKey (verificationRule str)
  = (om_Namespace (str_ObjectMeta str), om_Name (str_ObjectMeta str)).
Proof. unfold verificationRule. by destruct (validateAndCompileCELRules _). Qed.

Lemma requirements_keys items :
  requirements_named items → NoDup (verificationKey <$> map verificationRule items).
Proof.
  unfold requirements_named. intros Hnd.
  assert (verificationKey <$> map verificationRule items =
    (λ str, (om_Namespace (str_ObjectMeta str), om_Name (str_ObjectMeta str))) <$> items) as ->; [|done].
  clear. induction items as [|str items IH]; [done|]. csimpl. by rewrite verificationRule_key, IH.
Qed.

Lemma range_sorted_verification (m : gmap ruleKey VerificationRule) rules :
  (∀ m, range_order m (range m)) → NoDup (verificationKey <$> rules) →
  m = rules_map verificationKey rules →
  sortBy verificationSortKey (range m).*2 = sortBy verificationSortKey rules.
Proof.
  intros Hrange Hnd ->. symmetry. apply sortBy_Proper.
  - intros a b Ha Hb [= H1 H2]. apply (rules_map_inj verificationKey rules); [done..|].
    unfold verificationKey. by rewrite H1, H2.
  - by rewrite (Hrange (rules_map verificationKey rules)), rules_map_to_list.
Qed.

(** Once the client's map is the server's rules, the adapter enforces them in the
    order of their keys. *)
Lemma extauth_receive_final c ms rules :
  (∀ m, range_order m (range m)) → is_Some (verSet c) → ms ≠ [] →
  NoDup (verificationKey <$> rules) → receive ∅ ms = rules_map verificationKey rules →
  ∃ sv, verSet (extauth_receive c ms).1 = Some sv ∧ verSynced (extauth_receive c ms).1 = true ∧
    genSet (extauth_receive c ms).1 = genSet c ∧
    sv_verificationRules sv = Some (map (λ r, {| vset_rule := r;
      vset_programs := compileVerificationRuleCEL r |}) (sortBy verificationSortKey rules)).
Proof.
  intros Hrange Hc Hne Hnd Hm.
  assert (∀ ms', genSet (extauth_receive c ms').1 = genSet c) as Hg.
  { intros ms'. induction ms' as [|resp ms' IH] using rev_ind; [done|].
    unfold extauth_receive in *. by rewrite foldl_app. }
  rewrite Hg. destruct ms as [|resp ms _] using rev_ind; [done|].
  pose proof (extauth_receive_map c (ms ++ [resp])) as Hmap. rewrite Hm in Hmap.
  destruct (extauth_receive_setter c ms Hc) as [sv Hsv].
  unfold extauth_receive in *. rewrite foldl_app in *. cbn [foldl] in *.
  set (cm := foldl _ (c, ∅) ms) in *. unfold onVerificationResponse, installVerification, markVerification in *. simpl in Hmap.
  cbn [fst verSet verSynced genSet genSynced]. rewrite Hsv.
  eexists. split_and!; [done..|]. cbn. by rewrite (range_sorted_verification _ rules).
Qed.

(** C8.  A reconciled ServiceTokenRequirement is enforced: after a successful
    reconcile that found room in the client's channel, once the messages in
    flight have arrived the adapter has one rule for every requirement of the
    cluster, in the order of namespace and name, with a compiled program for
    every valid CEL expression of it, and the client reports ready; whatever
    happened on the stream before, and whatever order Go ranges over the map in. *)
Theorem reconciled_requirements_enforced now (w : W) s req w' s' items f id es (c : RuleClient G Server) :
  (∀ m, range_order m (range m)) →
  ServiceTokenRequirementReconciler_Reconcile now w (Some s) req = (Ok tt, w', Some s') →
  List_ServiceTokenRequirements w' = Ok items → requirements_named items →
  NoDup (verificationKey <$> fd_rules f) → Forall event_ok es →
  let l := link_run (link_open f id) es in
  lk_feed l = ver s → (length (channel l) < channelCapacity)%nat →
  is_Some (verSet c) → genSet c = None →
  let l1 := link_step l (EvUpdate (map verificationRule items)) in
  lk_feed l1 = ver s' ∧
  let c' := (extauth_receive c (lk_received (link_run l1 (drain l1)))).1 in
  Ready c' = true ∧
  ∃ sv snapshot, verSet c' = Some sv ∧ sv_verificationRules sv = Some snapshot ∧
    map vset_rule snapshot = sortBy verificationSortKey (map verificationRule items) ∧
    ∀ str, str ∈ items → ∃ rs, rs ∈ snapshot ∧ requirement_enforced str rs.
Proof.
  intros Hrange Hrec Hitems Hnamed Hf Hes l Hfeed Hroom Hc Hg l1.
  destruct (Requirement_Reconcile_ok _ _ _ _ _ _ Hrec) as (items' & Hitems' & ->).
  rewrite Hitems in Hitems'. injection Hitems' as <-.
  split; [simpl; by rewrite Hfeed|]. intros c'.
  set (rules := map verificationRule items) in *.
  pose proof (requirements_keys items Hnamed) as Hkeys. fold rules in Hkeys.
  destruct (link_update_converges f id es rules) as [Hcl Hne]; [done..|].
  destruct (extauth_receive_final c (lk_received (link_run l1 (drain l1))) rules)
    as (sv & Hsv & Hsync & Hgen & Hrules); try done.
  fold c' in Hsv, Hsync, Hgen. split.
  { unfold Ready. rewrite Hgen, Hg, Hsv, Hsync. by rewrite andb_false_r. }
  eexists sv, _. split_and!; [done..| |].
  - rewrite map_map. apply map_id_ext. done.
  - intros str Hstr. eexists. split; [|apply compiled_enforced].
    apply (list_elem_of_fmap_2 (λ r, {| vset_rule := r;
      vset_programs := compileVerificationRuleCEL r |})).
    rewrite sortBy_Permutation. by apply (list_elem_of_fmap_2 verificationRule).
Qed.
End requirements.

(** ** Generation mode *)

Section generation.
Context `{Unicode, !JSON, HttpClient}.

(** A rule whose endpoint a request is for. *)
Definition endpoint_matches (path method : string) (r : GenerationRule) : Prop :=
  EqualFold (ep_Method (gr_Endpoint r)) method = true ∧
  matchEndpointPath (stripQuery path) (ep_Path (gr_Endpoint r)) = true.

Lemma findMatchingRule_first path method r rules :
  endpoint_matches path method r → findMatchingRule (r :: rules) path method = Some r.
Proof. intros [Hm Hp]. unfold findMatchingRule, ruleMatches. simpl. by rewrite Hm, Hp. Qed.

(** When the endpoints of two TransactionTypes overlap, which one a request
    gets a token for is left to chance: the client hands its rules over in the
    order of a map iteration, both orders can occur, and the first match wins. *)
Theorem overlapping_rules_ambiguous path method r1 r2 :
  generationKey r1 ≠ generationKey r2 →
  endpoint_matches path method r1 → endpoint_matches path method r2 →
  let genRules := rules_map generationKey [r1; r2] in
  ∃ o1 o2, range_order genRules o1 ∧ range_order genRules o2 ∧
    findMatchingRule o1.*2 path method = Some r1 ∧ findMatchingRule o2.*2 path method = Some r2.
Proof.
  intros Hne Hm1 Hm2 genRules.
  assert (range_order genRules [(generationKey r2, r2); (generationKey r1, r1)]) as Ho.
  { unfold range_order, genRules, rules_map. simpl.
    rewrite !map_to_list_insert, map_to_list_empty; [done|apply lookup_empty|].
    by rewrite lookup_insert_ne, lookup_empty by done. }
  exists [(generationKey r1, r1); (generationKey r2, r2)], [(generationKey r2, r2); (generationKey r1, r1)].
  split_and!; [|done|by apply findMatchingRule_first..].
  unfold range_order in *. rewrite <-Ho. constructor.
Qed.

(** What a mapping takes from a request: nothing when the extraction fails or
    gives the empty string. *)
Definition mappedValue (hr : HttpAttributes) (mp : TctxFieldMapping) : option string :=
  match extractTctxField hr mp with
  | Ok v => if bool_decide (v = "") then None else Some v
  | Err _ => None
  end.

Lemma extractFields_spec hr order d d' :
  NoDup order.*1 → extractFields hr order d = Ok d' →
  (∀ f mp, (f, mp) ∈ order →
     (tfm_Required mp = true → is_Some (mappedValue hr mp)) ∧
     d' !! f = match mappedValue hr mp with Some v => Some (AString v) | None => d !! f end) ∧
  (∀ f, f ∉ order.*1 → d' !! f = d !! f).
Proof.
  revert d. induction order as [|[f mp] order IH]; intros d Hnd; simpl.
  { intros [= <-]. split; [by intros ?? ?%elem_of_nil|done]. }
  rewrite fmap_cons in Hnd. apply NoDup_cons in Hnd as [Hf Hnd]. intros HX.
  assert (∃ d1, extractFields hr order d1 = Ok d' ∧ (∀ g, g ≠ f → d1 !! g = d !! g) ∧
    (tfm_Required mp = true → is_Some (mappedValue hr mp)) ∧
    d1 !! f = match mappedValue hr mp with Some v => Some (AString v) | None => d !! f end)
    as (d1 & Hd1 & Hsame & Hreq & Hval).
  { unfold mappedValue. destruct (extractTctxField hr mp) as [v|e].
    - case_bool_decide as Hv; simpl in HX; [by destruct (tfm_Required mp); [|exists d]|].
      exists (<[f := AString v]> d). rewrite lookup_insert_eq. split_and!; [done| |by eexists|done].
      intros g Hg. by rewrite lookup_insert_ne.
    - by destruct (tfm_Required mp); [|exists d]. }
  destruct (IH d1 Hnd Hd1) as [Hin Hout]. split.
  - intros g mp' [[= -> ->]|Hg]%elem_of_cons; [by rewrite Hout|].
    rewrite <-Hsame; [by apply Hin|]. intros ->. apply Hf, list_elem_of_fmap. by exists (f, mp').
  - intros g Hg. rewrite Hout, Hsame by set_solver. done.
Qed.

Context (range : gmap string TctxFieldMapping → list (string * TctxFieldMapping)).

(** The field of the transaction context a request makes for a rule: what the
    mapping of that name takes from the request; else, for [purpose], the rule's
    purpose. *)
Definition contextField (hr : HttpAttributes) (rule : GenerationRule) (f : string) : option any :=
  match gr_TctxMapping rule !! f ≫= mappedValue hr with
  | Some v => Some (AString v)
  | None => if bool_decide (f = "purpose") then Some (AString (gr_Purpose rule)) else None
  end.

(** What a token added to a request was asked for with. *)
Definition exchanged (s : GenerationServer) (req : CheckRequest) (tok : string) : Prop :=
  ∃ hr rule subject type details,
    cr_Http req = Some hr ∧
    findMatchingRule (gs_generationRules s) (ha_Path hr) (ha_Method hr) = Some rule ∧
    subjectTokenOf s req (getHeader (ha_Headers hr) "Authorization") = Ok (subject, type) ∧
    (∀ f mp, gr_TctxMapping rule !! f = Some mp → tfm_Required mp = true → is_Some (mappedValue hr mp)) ∧
    (∀ f, details !! f = contextField hr rule f) ∧
    (Exchange (gs_ttsClient s)
       {| xr_SubjectToken := subject; xr_SubjectTokenType := type; xr_Scope := gr_Scope rule;
          xr_RequestDetails := Some details;
          xr_RequestContext := Some (requestContext req (getHeader (ha_Headers hr) "Authorization")) |}).1
    = Ok tok.

(** The header a generated token is injected in. *)
Lemma generation_inversion s req st hdrs :
  (∀ m, range_order m (range m)) →
  GenerationServer_Check range s req = OkResponse st hdrs → hdrs ≠ [] →
  ∃ tok, hdrs = [(HeaderName, tok)] ∧ exchanged s req tok.
Proof.
  intros Hrange. unfold GenerationServer_Check, exchanged.
  destruct (cr_Http req) as [hr|]; [|done].
  destruct (findMatchingRule _ _ _) as [rule|] eqn:Hrule; [|by intros [= <- <-]].
  destruct (subjectTokenOf _ _ _) as [[subject type]|] eqn:Hs; [|done].
  destruct (extractFields _ _ _) as [details|] eqn:HX; [|done].
  destruct (Exchange _ _).1 as [tok|] eqn:Hx; [|done]. intros [= <- <-] _.
  exists tok. split; [done|].
  apply extractFields_spec in HX as [Hin Hother]; [|by apply (range_order_NoDup (gr_TctxMapping rule))].
  assert (∀ f mp, gr_TctxMapping rule !! f = Some mp → (f, mp) ∈ range (gr_TctxMapping rule)) as Hmap.
  { intros f mp. by apply (range_order_elem (gr_TctxMapping rule)). }
  exists hr, rule, subject, type, details. split_and!; try done.
  - intros f mp Hf. by apply (Hin f mp), Hmap.
  - intros f. unfold contextField.
    assert (∀ g, ({[ "purpose" := AString (gr_Purpose rule) ]} : gmap string any) !! g
      = if bool_decide (g = "purpose") then Some (AString (gr_Purpose rule)) else None) as Hinit.
    { intros g. case_bool_decide as Hg; [by subst; rewrite lookup_singleton_eq|by rewrite lookup_singleton_ne]. }
    rewrite <-Hinit. destruct (gr_TctxMapping rule !! f) as [mp|] eqn:Hf; simpl; [by apply Hin, Hmap|].
    apply Hother. intros ([g mp] & Hg & Hgin)%list_elem_of_fmap. simpl in Hg. subst g.
    apply (range_order_elem (gr_TctxMapping rule)) in Hgin; [congruence|done].
Qed.

(** C12.  A token is added to a request only with what its rule demands: the
    request matched the rule's endpoint, the exchange was made for the rule's
    scope with the caller's bearer token or resolved workload identity, every
    required field was extracted, non-empty, from this request, and the
    transaction context sent has exactly these fields: the non-empty values the
    rule's mappings take from the request, and under [purpose] the rule's purpose,
    unless a mapping of that very name took a value from the request, which then
    replaces it. *)
Theorem generated_token_complete s req st hdrs :
  (∀ m, range_order m (range m)) →
  GenerationServer_Check range s req = OkResponse st hdrs → hdrs ≠ [] →
  ∃ tok, hdrs = [(HeaderName, tok)] ∧ exchanged s req tok.
Proof. apply generation_inversion. Qed.

(** A rule with a required field taken from the path never yields a token:
    extraction from the path always gives the empty string, so every request the
    rule matches is denied. *)
Theorem path_field_denied s req hr rule f mp st hdrs :
  (∀ m, range_order m (range m)) → cr_Http req = Some hr →
  findMatchingRule (gs_generationRules s) (ha_Path hr) (ha_Method hr) = Some rule →
  gr_TctxMapping rule !! f = Some mp → tfm_Source mp = "path" → tfm_Required mp = true →
  GenerationServer_Check range s req ≠ OkResponse st hdrs.
Proof.
  intros Hrange Hr Hrule Hf Hsrc Hreq HC.
  assert (hdrs ≠ []) as Hne.
  { revert HC. unfold GenerationServer_Check. rewrite Hr, Hrule.
    destruct (subjectTokenOf _ _ _) as [[]|]; [|done]. destruct (extractFields _ _ _); [|done].
    destruct (Exchange _ _).1; [|done]. by intros [= <- <-]. }
  destruct (generation_inversion s req st hdrs Hrange HC Hne)
    as (tok & _ & hr' & rule' & _ & _ & d & Hr' & Hrule' & _ & Hall & _).
  rewrite Hr in Hr'. injection Hr' as <-. rewrite Hrule in Hrule'. injection Hrule' as <-.
  destruct (Hall f mp Hf Hreq) as [v HE]. unfold mappedValue, extractTctxField in HE.
  by rewrite Hsrc in HE.
Qed.
End generation.

(** ** Workload identities at the TTS *)

Section workload.
Context `{!JSON, CEL, Crypto, !JWT} {A V : Type} `{!Authenticator A, !TokenVerifier V}.

(** C40.  The identity the adapter sends for internal traffic is refused by the
    TTS: a service account subject is not a JWT, so the exchange ends with 401
    before any authenticator or rule is consulted (names have no dots). *)
Theorem workload_subject_rejected (h : Handler A V) env r form req ns sa :
  req_Method r = "POST" → req_Form r = Ok form → parseRequest form = Ok req →
  ter_SubjectTokenType req ≠ SubjectTokenTypeTxnToken →
  ter_SubjectToken req = serviceAccountSubject ns sa →
  IndexByte ns "." = None → IndexByte sa "." = None →
  ∃ e, ServeHTTP h env r = (Some (writeError 401 "invalid_token" e), set_router h (router h)).
Proof.
  intros Hm Hform Hp Hty Hsub Hns Hsa.
  assert (IndexByte (serviceAccountSubject ns sa) "." = None) as Hdot.
  { unfold serviceAccountSubject. auto 10 with kontxt. }
  unfold ServeHTTP. rewrite Hm, Hform, Hp. cbn [negb]. rewrite bool_decide_true by done.
  rewrite bool_decide_false by done. unfold Router_Authenticate, extractIssuer.
  rewrite Hsub, SplitByte_single by done. cbn. eauto.
Qed.
End workload.

Module ExtAuthExample.
#[local] Existing Instance TTSExample.jwt.
#[local] Existing Instance TTSExample.jwt_laws.
#[local] Existing Instance SdkExample.documents.

(** A TTS that answers every exchange with one token. *)
#[export] Instance http : HttpClient :=
  {| http_NewRequest _ := None;
     http_Do _ _ := Ok (200, Ok "{}");
     decode_exchangeResponse _ :=
       Ok {| er_AccessToken := "t"; er_IssuedTokenType := ""; er_TokenType := ""; er_Error := "";
             er_ErrorDesc := "" |} |}.

Definition str_with (name scope : string) (excluded : list EndpointSpec) : ServiceTokenRequirement :=
  {| str_ObjectMeta := {| om_Name := name; om_Namespace := "shop" |};
     str_Spec := {| strs_ServiceRef := {| sr_Name := name |};
                    strs_Verification :=
                      {| vs_RequiredScope := scope; vs_RequiredTctxFields := [];
                         vs_Rules := [{| avr_Name := "ok"; avr_CEL := "true"; avr_Message := "" |};
                                      {| avr_Name := "bad"; avr_CEL := "1"; avr_Message := "" |}] |};
                    strs_ExcludedEndpoints := excluded; strs_AutoNarrow := false |};
     str_Status := {| strst_Conditions := []; strst_ActiveVerificationRules := 0;
                      strst_ExcludedEndpointCount := 0 |} |}.

Definition healthz : EndpointSpec := {| ep_Path := "/healthz"; ep_Method := "GET" |}.
Definition orders_str : ServiceTokenRequirement := str_with "orders" "read" [].
Definition other_str : ServiceTokenRequirement := str_with "other" "" [healthz].

(** The token has no contexts, and the rule no CEL, so that JSON is not needed. *)
Definition plain (r : VerificationRule) : VerificationRule :=
  {| vr_Namespace := vr_Namespace r; vr_Name := vr_Name r; vr_ServiceName := vr_ServiceName r;
     vr_RequiredScope := vr_RequiredScope r; vr_RequiredTctxFields := vr_RequiredTctxFields r;
     vr_CELRules := []; vr_ExcludedEndpoints := vr_ExcludedEndpoints r;
     vr_AutoNarrow := vr_AutoNarrow r |}.

Definition start : Server := NewServer (NewVerifier "https://tts/jwks" "prod").
Definition server (strs : list ServiceTokenRequirement) : Server :=
  Server_SetVerificationRules start (map (λ s, plain (verificationRule s)) strs).

Definition check_request (path method token : string) : CheckRequest :=
  {| cr_Http := Some {| ha_Path := path; ha_Method := method;
                        ha_Headers := {[ "txn-token" := token ]}; ha_Body := "" |};
     cr_Source := None |}.

Lemma allowed_only_verified_witness :
  ∃ t k, jwt_signed "a.b.first" t k.
Proof.
  destruct (allowed_only_verified map_to_list SdkExample.network (120 * Second) (server [orders_str])
    (check_request "/orders" "GET" "a.b.first") (Some 0) []
    (Check map_to_list SdkExample.network (120 * Second) (server [orders_str])
       (check_request "/orders" "GET" "a.b.first")).2) as (hr & Hr & Hor).
  - vm_compute. reflexivity.
  - injection Hr as <-. destruct Hor as [Hex|(t & mc & kid & k & Hs & _)].
    + vm_compute in Hex. discriminate Hex.
    + exists t, k. exact Hs.
Defined.

Lemma exclusion_crosses_services_witness :
  Check map_to_list SdkExample.network 0 (server [orders_str; other_str])
    (check_request "/healthz/orders" "GET" "") = (Some allowed, server [orders_str; other_str]).
Proof.
  apply (exclusion_crosses_services map_to_list SdkExample.network 0 (server [orders_str; other_str])
    (check_request "/healthz/orders" "GET" "")
    {| ha_Path := "/healthz/orders"; ha_Method := "GET"; ha_Headers := {[ "txn-token" := "" ]};
       ha_Body := "" |}
    {| vset_rule := plain (verificationRule other_str); vset_programs := [] |} healthz).
  - reflexivity.
  - vm_compute. right. left.
  - vm_compute. left.
  - vm_compute. reflexivity.
  - vm_compute. reflexivity.
Defined.

Definition strict : Server := server [str_with "orders" "read write" []].

Lemma multi_scope_never_met_witness :
  Check map_to_list SdkExample.network (120 * Second) strict
    (check_request "/orders" "GET" "a.b.first") ≠ (Some allowed, strict).
Proof.
  apply (multi_scope_never_met map_to_list SdkExample.network (120 * Second) strict
    (check_request "/orders" "GET" "a.b.first")
    {| ha_Path := "/orders"; ha_Method := "GET"; ha_Headers := {[ "txn-token" := "a.b.first" ]};
       ha_Body := "" |}
    {| vset_rule := plain (verificationRule (str_with "orders" "read write" []));
       vset_programs := [] |}).
  - reflexivity.
  - vm_compute. reflexivity.
  - vm_compute. left.
  - discriminate.
  - vm_compute. discriminate.
Defined.

(** A requirement is reconciled while an adapter is connected. *)
Definition store : ApiStore :=
  {| st_types := []; st_requirements := [other_str; orders_str]; st_policies := [] |}.
Definition store' : ApiStore :=
  {| st_types := []; st_requirements := [other_str; reconciledServiceTokenRequirement 5 orders_str];
     st_policies := [] |}.
Definition rule_server : RuleServer :=
  set_ver NewRuleServer (lk_feed (link_run (link_open (ver NewRuleServer) "ver-1") [EvSend])).
Definition orders_request : NamespacedName := {| nn_Namespace := "shop"; nn_Name := "orders" |}.

Example requirement_reconciles :
  ServiceTokenRequirementReconciler_Reconcile 5 store (Some rule_server) orders_request
  = (Ok tt, store', Some (UpdateVerificationRules rule_server
                            (map verificationRule (st_requirements store')))).
Proof. vm_compute. reflexivity. Qed.

Definition adapter : RuleClient GenerationServer Server := SetVerificationSetter NewRuleClient start.

Lemma reconciled_requirements_enforced_witness :
  ∃ snapshot rs p, rs ∈ (snapshot : list verificationRuleSet) ∧
    vset_rule rs = verificationRule other_str ∧ p ∈ vset_programs rs ∧ prog_Name p = "ok".
Proof.
  destruct (reconciled_requirements_enforced map_to_list 5 store rule_server orders_request store'
    (UpdateVerificationRules rule_server (map verificationRule (st_requirements store')))
    (st_requirements store') (ver NewRuleServer) "ver-1" [EvSend] adapter)
    as (_ & _ & sv & snapshot & _ & _ & _ & Hall).
  - intros m. apply ControllerExample.range_order_refl.
  - apply requirement_reconciles.
  - reflexivity.
  - unfold requirements_named. repeat constructor; set_solver.
  - constructor.
  - repeat constructor.
  - reflexivity.
  - vm_compute. lia.
  - eexists. reflexivity.
  - reflexivity.
  - destruct (Hall other_str) as (rs & Hin & Hrule & Hcel); [left|].
    destruct (Hcel {| avr_Name := "ok"; avr_CEL := "true"; avr_Message := "" |}) as (p & Hp & Hn & _).
    + left.
    + split; [discriminate|]. exists tt, "true". by vm_compute.
    + exists snapshot, rs, p. split_and!; [exact Hin|exact Hrule|exact Hp|exact Hn].
Defined.

Definition generation_rule (name path source : string) : GenerationRule :=
  {| gr_Namespace := "shop"; gr_Name := name; gr_Endpoint := {| ep_Path := path; ep_Method := "GET" |};
     gr_Purpose := "order"; gr_Scope := "read";
     gr_TctxMapping := {[ "item" := {| tfm_Source := source; tfm_Field := "item"; tfm_Required := true |} ]};
     gr_TctxEnrichments := []; gr_RctxFields := []; gr_TokenLifetime := "15s" |}.

Lemma overlapping_rules_ambiguous_witness :
  ∃ o1 o2 : list (ruleKey * GenerationRule),
    findMatchingRule o1.*2 "/orders/7" "GET" ≠ findMatchingRule o2.*2 "/orders/7" "GET".
Proof.
  destruct (overlapping_rules_ambiguous "/orders/7" "GET"
    (generation_rule "a" "/orders/{id}" "query") (generation_rule "b" "/orders/7" "query"))
    as (o1 & o2 & _ & _ & H1 & H2).
  - discriminate.
  - split; vm_compute; reflexivity.
  - split; vm_compute; reflexivity.
  - exists o1, o2. rewrite H1, H2. discriminate.
Defined.

(** A TTS whose JSON codec prints every map. *)
#[local] Instance printingJSON : JSON :=
  {| json_UnmarshalMap _ := Ok (Some ∅); json_UnmarshalIss _ := Ok ""; json_Marshal _ := Ok "{}";
     json_norm v := v |}.

Definition generator (source : string) : GenerationServer :=
  Server_SetGenerationRules (NewGenerationServer (NewClient "http://tts") NewIdentityResolver)
    [generation_rule "orders" "/orders" source].
Definition external_request : CheckRequest :=
  {| cr_Http := Some {| ha_Path := "/orders?item=a%20b"; ha_Method := "GET";
                        ha_Headers := {[ "authorization" := "Bearer x.y.z" ]}; ha_Body := "" |};
     cr_Source := None |}.

Lemma generated_token_complete_witness :
  ∃ tok, exchanged (generator "query") external_request tok.
Proof.
  destruct (generated_token_complete map_to_list (generator "query") external_request None
    [(HeaderName, "t")]) as (tok & _ & Hx).
  - intros m. apply ControllerExample.range_order_refl.
  - vm_compute. reflexivity.
  - discriminate.
  - exists tok. exact Hx.
Defined.

(** A mapping named [purpose] replaces the purpose of the rule by what the caller
    sends. *)
Example purpose_replaced :
  contextField {| ha_Path := "/orders?why=refund"; ha_Method := "GET"; ha_Headers := ∅; ha_Body := "" |}
    {| gr_Namespace := "shop"; gr_Name := "orders"; gr_Endpoint := {| ep_Path := "/orders"; ep_Method := "GET" |};
       gr_Purpose := "order"; gr_Scope := "read";
       gr_TctxMapping := {[ "purpose" := {| tfm_Source := "query"; tfm_Field := "why"; tfm_Required := false |} ]};
       gr_TctxEnrichments := []; gr_RctxFields := []; gr_TokenLifetime := "15s" |} "purpose"
  = Some (AString "refund").
Proof. vm_compute. reflexivity. Qed.

Lemma path_field_denied_witness :
  GenerationServer_Check map_to_list (generator "path") external_request ≠ allowed.
Proof.
  apply (path_field_denied map_to_list (generator "path") external_request
    {| ha_Path := "/orders?item=a%20b"; ha_Method := "GET";
       ha_Headers := {[ "authorization" := "Bearer x.y.z" ]}; ha_Body := "" |}
    (generation_rule "orders" "/orders" "path") "item"
    {| tfm_Source := "path"; tfm_Field := "item"; tfm_Required := true |}).
  - intros m. apply ControllerExample.range_order_refl.
  - reflexivity.
  - vm_compute. reflexivity.
  - vm_compute. reflexivity.
  - reflexivity.
  - reflexivity.
Defined.

Definition internal_form : gmap string (list string) :=
  TTSExample.form "system:serviceaccount:team:agent" "urn:ietf:params:oauth:token-type:kubernetes-sa"
    "read".

Lemma workload_subject_rejected_witness :
  ∃ e, ServeHTTP TTSExample.handler (TTSExample.environment "u")
         (TTSExample.request "system:serviceaccount:team:agent"
            "urn:ietf:params:oauth:token-type:kubernetes-sa" "read")
       = (Some (writeError 401 "invalid_token" e), TTSExample.handler).
Proof.
  apply (workload_subject_rejected TTSExample.handler (TTSExample.environment "u")
    (TTSExample.request "system:serviceaccount:team:agent"
       "urn:ietf:params:oauth:token-type:kubernetes-sa" "read") internal_form
    {| ter_GrantType := GrantType; ter_SubjectToken := "system:serviceaccount:team:agent";
       ter_SubjectTokenType := "urn:ietf:params:oauth:token-type:kubernetes-sa";
       ter_RequestedTokenType := RequestedTokenType; ter_Audience := ""; ter_Scope := "read";
       ter_RequestDetails := None; ter_RequestContext := None |} "team" "agent");
    try reflexivity; try discriminate; vm_compute; reflexivity.
Defined.
End ExtAuthExample.
