(* ===== verification/AdapterProps.v ===== *)
(** * The ext_authz adapter: rules in force, path patterns and narrowing

    What a connected adapter does with the rules it was sent: a TransactionType
    is served at its endpoint, the order in which Go visits a map is not
    observable where rules are sorted, and an auto-narrowed token is one the TTS
    was asked for with a scope it grants. *)

From S2P Require Import Prelude GoStrings GoValue GoTime External GoSort GoUrl Token Keys Fetch.
From S2P Require Import LocalVerifier SdkVerify Api CelVerify Controller RulesProto RuleServer RuleClient.
From S2P Require Import Pipeline SdkClient Identity ExtAuth Issuance Authn TTSHandler TTSRuleClient.
From S2P Require Import ControllerProps Instances TTSProps SdkProps ExtAuthProps.

Local Open Scope Z_scope.

(** ** Path patterns *)

(** A pattern segment in braces takes any segment, another only itself. *)
Definition is_param (p : string) : Prop := ∃ n, p = String "{" (n +:+ "}").
Definition segment_matches (v p : string) : Prop := is_param p ∨ v = p.

(** The segments of a path or pattern. *)
Definition segments_ok (l : list string) : Prop :=
  l ≠ [] ∧ ∀ s, s ∈ l → s ≠ "" ∧ IndexByte s "/" = None.
Definition path_of (l : list string) : string := String "/" (JoinByte "/" l).

Lemma HasSuffix_spec s suf : HasSuffix s suf = true ↔ ∃ t, s = t +:+ suf.
Proof.
  unfold HasSuffix. rewrite andb_true_iff, Nat.leb_le, bool_decide_eq_true. split.
  - intros [_ Hd]. exists (take_str (String.length s - String.length suf) s).
    rewrite <-Hd at 2. generalize (String.length s - String.length suf)%nat. clear.
    induction s as [|a s IH]; intros [|n]; try done. cbn [take_str drop_str]. by rewrite str_app_cons, <-IH.
  - intros [t ->]. assert (String.length (t +:+ suf) = String.length t + String.length suf)%nat as Hl.
    { clear. induction t as [|a t IH]; [done|]. rewrite str_app_cons. cbn [String.length]. lia. }
    rewrite Hl. split; [lia|]. replace (_ + _ - _)%nat with (String.length t) by lia. apply drop_str_app.
Qed.

Lemma is_param_spec p : HasPrefix p "{" && HasSuffix p "}" = true ↔ is_param p.
Proof.
  rewrite andb_true_iff, HasPrefix_spec, HasSuffix_spec. unfold is_param. split.
  - intros [(t & ->) (t' & Ht')]. rewrite str_app_cons, str_app_nil_l in *.
    destruct t' as [|a t']; [done|]. rewrite str_app_cons in Ht'. injection Ht' as -> ->. by exists t'.
  - intros [n ->]. split; [by exists (n +:+ "}")|]. exists (String "{" n). by rewrite str_app_cons.
Qed.

Lemma matchSegments_spec vs ps :
  length vs = length ps → matchSegments vs ps = true ↔ Forall2 segment_matches vs ps.
Proof.
  revert ps. induction vs as [|v vs IH]; intros [|p ps] Hl; simplify_eq/=.
  { split; [constructor|done]. }
  rewrite Forall2_cons, <-IH by done. unfold segment_matches at 1. rewrite <-is_param_spec.
  destruct (_ && _); [naive_solver|]. case_bool_decide; naive_solver.
Qed.

Lemma stripQuery_path p q : IndexByte p "?" = None → stripQuery (p +:+ String "?" q) = p.
Proof. intros Hp. unfold stripQuery. by rewrite IndexByte_app, take_str_app. Qed.

Lemma stripQuery_none p : IndexByte p "?" = None → stripQuery p = p.
Proof. intros Hp. unfold stripQuery. by rewrite Hp. Qed.

Lemma path_segments l : segments_ok l → SplitByte (TrimByte (path_of l) "/") "/" = l.
Proof.
  intros [Hne Hl]. unfold path_of. rewrite TrimByte_join, SplitByte_join; [done..|apply Hl|done|done].
Qed.

Section patterns.
Context `{Unicode}.

(** C30.  A path pattern means what it says: for a request path and a pattern
    made of non-empty segments, with or without a query string, the adapter
    finds a match exactly when there are as many segments on both sides and each
    is equal to its pattern or the pattern is a parameter in braces; and the
    rule used for a request is the first whose method and pattern match. *)
Theorem endpoint_pattern_matches vs ps query :
  segments_ok vs → segments_ok ps → (∀ v, v ∈ vs → IndexByte v "?" = None) →
  let path := path_of vs in
  (matchEndpointPath path (path_of ps) = true ↔ Forall2 segment_matches vs ps) ∧
  matchEndpointPath (path +:+ String "?" query) (path_of ps) = matchEndpointPath path (path_of ps) ∧
  ∀ rules method, findMatchingRule rules (path +:+ String "?" query) method
                  = find (λ r, EqualFold (ep_Method (gr_Endpoint r)) method
                               && matchEndpointPath path (ep_Path (gr_Endpoint r))) rules.
Proof.
  intros Hvs Hps Hq path.
  assert (IndexByte path "?" = None) as Hpath.
  { unfold path, path_of. cbn [IndexByte]. rewrite decide_False by done. by rewrite IndexByte_join. }
  split_and!.
  - unfold matchEndpointPath. rewrite stripQuery_none by done. unfold path.
    rewrite !path_segments by done. case_bool_decide as Hl; simpl; [by apply matchSegments_spec|].
    split; [done|]. by intros Hl'%Forall2_length.
  - unfold matchEndpointPath. by rewrite stripQuery_path, stripQuery_none.
  - intros rules method. unfold findMatchingRule. by rewrite stripQuery_path.
Qed.

(** ** The rules change during a check *)

Lemma racingLoop_spec rules path method i n :
  (i + n = length rules)%nat →
  racingLoop (λ _, rules) path method i n = Some (find (ruleMatches path method) (drop i rules)).
Proof.
  revert i. induction n as [|n IH]; intros i Hn; simpl.
  - by rewrite drop_ge by lia.
  - destruct (lookup_lt_is_Some_2 rules i) as [r Hr]; [lia|]. rewrite Hr, (drop_S rules r i) by done. simpl.
    destruct (ruleMatches path method r); [done|]. apply IH. lia.
Qed.

(** Undisturbed, the loop finds the first rule that matches. *)
Lemma racing_undisturbed rules path method :
  findMatchingRuleRacing rules (λ _, rules) path method = Some (findMatchingRule rules path method).
Proof. unfold findMatchingRuleRacing. by rewrite racingLoop_spec, drop_0. Qed.

(** With sets that do not get shorter it does not panic. *)
Lemma racing_longer start reads path method :
  (∀ i, (length start ≤ length (reads i))%nat) → is_Some (findMatchingRuleRacing start reads path method).
Proof.
  intros Hlen. unfold findMatchingRuleRacing.
  assert (∀ n i, (i + n ≤ length start)%nat → is_Some (racingLoop reads (stripQuery path) method i n)) as Hall;
    [|by apply Hall].
  induction n as [|n IH]; intros i Hn; simpl; [by eexists|].
  destruct (lookup_lt_is_Some_2 (reads i) i) as [r ->]; [specialize (Hlen i); lia|].
  destruct (ruleMatches _ _ r); [by eexists|]. apply IH. lia.
Qed.

(** A set that is taken over while a check is under way and is shorter than the
    one the check began with makes the check panic. *)
Lemma racing_panics r1 r2 path method :
  ruleMatches (stripQuery path) method r1 = false →
  findMatchingRuleRacing [r1; r2] (λ i, if (i =? 0)%nat then [r1; r2] else [r1]) path method = None.
Proof. intros Hr. unfold findMatchingRuleRacing. simpl. by rewrite Hr. Qed.
End patterns.

(** ** Order of rules *)

(** A client's map files every rule under its own key. *)
Definition keyed {K R} `{Countable K} (key : R → K) (m : gmap K R) : Prop :=
  map_Forall (λ k r, key r = k) m.

Lemma insertAll_keyed {R P K} `{Countable K} (convert : P → R) (key : R → K) m prs :
  keyed key m → keyed key (insertAll convert key m prs).
Proof.
  revert m. induction prs as [|pr prs IH]; intros m Hm; [done|]. apply IH.
  by apply map_Forall_insert_2.
Qed.

Lemma keyed_empty {K R} `{Countable K} (key : R → K) : keyed key ∅.
Proof. apply map_Forall_empty. Qed.

Lemma keyed_delete {K R} `{Countable K} (key : R → K) m k : keyed key m → keyed key (delete k m).
Proof. apply map_Forall_delete. Qed.
#[local] Hint Resolve insertAll_keyed keyed_empty keyed_delete : kontxt.

Lemma applyVerification_keyed m u : keyed verificationKey m → keyed verificationKey (applyVerification m u).
Proof.
  intros Hm. destruct u as [[prs|ups rms]|]; simpl; [auto with kontxt| |done].
  assert (keyed verificationKey (insertAll protoToVerificationRule verificationKey m ups)) as Hi
    by auto with kontxt.
  revert Hi. generalize (insertAll protoToVerificationRule verificationKey m ups).
  induction rms as [|ref rms IH]; intros m' Hm'; simpl; auto with kontxt.
Qed.

Lemma applyIssuance_keyed m u : keyed keyFor m → keyed keyFor (applyIssuance m u).
Proof.
  intros Hm. destruct u as [[prs|ups rms]|]; simpl; [auto with kontxt| |done].
  assert (keyed keyFor (insertAll protoToIssuanceRule keyFor m ups)) as Hi by auto with kontxt.
  revert Hi. generalize (insertAll protoToIssuanceRule keyFor m ups).
  induction rms as [|ref rms IH]; intros m' Hm'; [done|]. apply IH.
  intros k r [Hk _]%map_lookup_filter_Some. by apply Hm'.
Qed.

#[local] Hint Resolve applyVerification_keyed applyIssuance_keyed : kontxt.

(** Two orders of a keyed map sort to one list. *)
Lemma keyed_sorted {K R} `{Countable K} (key : R → K) (sortKey : R → list string) (m : gmap K R) l1 l2 :
  (∀ a b, sortKey a = sortKey b → key a = key b) → keyed key m →
  range_order m l1 → range_order m l2 → sortBy sortKey l1.*2 = sortBy sortKey l2.*2.
Proof.
  intros Hkey Hm H1 H2. apply sortBy_Proper; [|by rewrite H1, H2].
  intros a b ([k1 a'] & -> & Ha)%list_elem_of_fmap ([k2 b'] & -> & Hb)%list_elem_of_fmap Hab. simpl in *.
  apply (range_order_elem m) in Ha; [|done]. apply (range_order_elem m) in Hb; [|done].
  pose proof (Hm _ _ Ha) as Hka. pose proof (Hm _ _ Hb) as Hkb. simpl in Hka, Hkb.
  rewrite (Hkey _ _ Hab) in Hka. congruence.
Qed.

Section order.
Context `{CEL, Crypto} {G A V : Type}.

Lemma onVerificationResponse_order r1 r2 (c : RuleClient G Server) m resp :
  (∀ m, range_order m (r1 m)) → (∀ m, range_order m (r2 m)) → keyed verificationKey m →
  onVerificationResponse r1 c m resp = onVerificationResponse r2 c m resp.
Proof.
  intros H1 H2 Hm. pose proof (applyVerification_keyed m (resp_Update resp) Hm) as Hk.
  unfold onVerificationResponse, installVerification. cbv zeta. do 2 f_equal.
  destruct (verSet c) as [s|]; [|done]. simpl. unfold Server_SetVerificationRules.
  set (m' := applyVerification _ _) in *.
  rewrite (keyed_sorted verificationKey verificationSortKey m' (r1 m') (r2 m')); [done| |done..].
  unfold verificationKey. by intros a b [= -> ->].
Qed.

Lemma onIssuanceResponse_order r1 r2 (c : TTSRuleClient (HandlerSetter A V)) m resp :
  (∀ m, range_order m (r1 m)) → (∀ m, range_order m (r2 m)) → keyed keyFor m →
  onIssuanceResponse r1 c m resp = onIssuanceResponse r2 c m resp.
Proof.
  intros H1 H2 Hm. pose proof (applyIssuance_keyed m (resp_Update resp) Hm) as Hk.
  unfold onIssuanceResponse, installIssuance. cbv zeta. set (m' := applyIssuance _ _) in *.
  rewrite (keyed_sorted keyFor issuanceSortKey m' (r1 m') (r2 m')); [done| |done..].
  unfold keyFor. by intros a b [= -> -> ->].
Qed.

(** C29.  The order in which Go visits a map is not observable in what is
    enforced: whatever orders the runtime picks, the same messages leave the
    adapter with the same compiled verification rules in the same order, so that
    the first failing rule, and with it the reply, is the same; and the TTS with
    the same issuance rules. *)
Theorem map_order_unobservable v1 v2 (c : RuleClient G Server) vms
    i1 i2 (t : TTSRuleClient (HandlerSetter A V)) ims :
  (∀ m, range_order m (v1 m)) → (∀ m, range_order m (v2 m)) →
  (∀ m, range_order m (i1 m)) → (∀ m, range_order m (i2 m)) →
  extauth_receive v1 c vms = extauth_receive v2 c vms ∧ tts_receive i1 t ims = tts_receive i2 t ims.
Proof.
  intros Hv1 Hv2 Hi1 Hi2. split.
  - assert (∀ cm : RuleClient G Server * _, keyed verificationKey cm.2 →
      foldl (λ cm resp, onVerificationResponse v1 cm.1 cm.2 resp) cm vms
      = foldl (λ cm resp, onVerificationResponse v2 cm.1 cm.2 resp) cm vms) as Hall;
      [|apply Hall; simpl; auto with kontxt].
    induction vms as [|resp vms IH]; intros cm Hk; [done|]. cbn [foldl].
    rewrite (onVerificationResponse_order v1 v2) by done. apply IH. simpl. auto with kontxt.
  - assert (∀ cm : TTSRuleClient (HandlerSetter A V) * _, keyed keyFor cm.2 →
      foldl (λ cm resp, onIssuanceResponse i1 cm.1 cm.2 resp) cm ims
      = foldl (λ cm resp, onIssuanceResponse i2 cm.1 cm.2 resp) cm ims) as Hall;
      [|apply Hall; simpl; auto with kontxt].
    induction ims as [|resp ims IH]; intros cm Hk; [done|]. cbn [foldl].
    rewrite (onIssuanceResponse_order i1 i2) by done. apply IH.
    rewrite onIssuanceResponse_map. auto with kontxt.
Qed.
End order.

(** ** From a TransactionType to the adapter *)

Section types.
Context `{Unicode, CEL} {W V : Type} `{!KubeClient W}.
Context (range : gmap ruleKey GenerationRule → list (ruleKey * GenerationRule)).

(** The generating adapter's client after the messages of one connection. *)
Definition generation_receive (c : RuleClient GenerationServer V)
    (ms : list (StreamResponse ProtoGenerationRule))
  : RuleClient GenerationServer V * gmap ruleKey GenerationRule :=
  foldl (λ cm resp, onGenerationResponse range cm.1 cm.2 resp) (c, ∅) ms.

Lemma generation_receive_map c ms : (generation_receive c ms).2 = receive ∅ ms.
Proof.
  induction ms as [|resp ms IH] using rev_ind; [done|].
  unfold generation_receive, receive in *. rewrite !foldl_app. simpl. by rewrite IH.
Qed.

Lemma generation_receive_setters c ms :
  is_Some (genSet c) →
  is_Some (genSet (generation_receive c ms).1) ∧ verSet (generation_receive c ms).1 = verSet c.
Proof.
  intros Hc. induction ms as [|resp ms IH] using rev_ind; [done|].
  unfold generation_receive in *. rewrite foldl_app. simpl. destruct IH as [[s ->] ->]. simpl. by eauto.
Qed.

Lemma generation_receive_final c ms rules :
  (∀ m, range_order m (range m)) → is_Some (genSet c) → ms ≠ [] →
  NoDup (generationKey <$> rules) → receive ∅ ms = rules_map generationKey rules →
  ∃ gs, genSet (generation_receive c ms).1 = Some gs ∧
    genSynced (generation_receive c ms).1 = true ∧ gs_generationRules gs ≡ₚ rules.
Proof.
  intros Hrange Hc Hne Hnd Hm. destruct ms as [|resp ms _] using rev_ind; [done|].
  pose proof (generation_receive_map c (ms ++ [resp])) as Hmap. rewrite Hm in Hmap.
  destruct (generation_receive_setters c ms Hc) as [[gs Hgs] _].
  unfold generation_receive in *. rewrite foldl_app in *. cbn [foldl] in *.
  set (cm := foldl _ (c, ∅) ms) in *. unfold onGenerationResponse, installGeneration, markGeneration in *. simpl in Hmap.
  cbn [fst genSet genSynced]. rewrite Hgs, Hmap. eexists. split_and!; [done..|]. simpl.
  by rewrite (Hrange (rules_map generationKey rules)), rules_map_to_list.
Qed.

(** Resources have distinct names within a namespace. *)
Definition types_named (items : list TransactionType) : Prop :=
  NoDup ((λ t, (om_Namespace (tt_ObjectMeta t), om_Name (tt_ObjectMeta t))) <$> items).

Lemma types_keys (w : W) items :
  types_named items → NoDup (generationKey <$> map (generationRule w) items).
Proof.
  unfold types_named. intros Hnd.
  assert (generationKey <$> map (generationRule w) items =
    (λ t, (om_Namespace (tt_ObjectMeta t), om_Name (tt_ObjectMeta t))) <$> items) as ->; [|done].
  clear. by induction items as [|t items IH]; [|csimpl; rewrite IH].
Qed.

(** A rule that alone matches a request is found wherever it is. *)
Lemma findMatchingRule_only rules path method r :
  r ∈ rules → endpoint_matches path method r →
  (∀ r', r' ∈ rules → endpoint_matches path method r' → r' = r) →
  findMatchingRule rules path method = Some r.
Proof.
  intros Hr [Hm Hp] Hone. unfold findMatchingRule, ruleMatches, endpoint_matches in *.
  destruct (find _ rules) as [r'|] eqn:Hf.
  - apply find_some in Hf as [Hin Hb]. apply andb_true_iff in Hb as [? ?].
    f_equal. apply Hone; [by apply list_elem_of_In|done].
  - apply list_elem_of_In in Hr. apply (find_none _ _ Hf) in Hr. by rewrite Hm, Hp in Hr.
Qed.

(** C9.  A reconciled TransactionType is served: after a successful reconcile
    that found room in the client's channel, once the messages in flight have
    arrived the adapter in generation mode has one rule for every
    TransactionType of the cluster and the client reports ready; and a request
    that only one TransactionType's endpoint matches is handled by the rule of
    that type, in whatever order the client's map was visited. *)
Theorem reconciled_types_served fields now1 now2 (w : W) s req w' s' items f id es
    (c : RuleClient GenerationServer V) :
  (∀ m, range_order m (range m)) →
  TransactionTypeReconciler_Reconcile fields now1 now2 w (Some s) req = (Ok tt, w', Some s') →
  List_TransactionTypes w' = Ok items → types_named items →
  NoDup (generationKey <$> fd_rules f) → Forall event_ok es →
  let l := link_run (link_open f id) es in
  lk_feed l = gen s → (length (channel l) < channelCapacity)%nat →
  is_Some (genSet c) → verSet c = None →
  let l1 := link_step l (EvUpdate (map (generationRule w') items)) in
  lk_feed l1 = gen s' ∧
  let c' := (generation_receive c (lk_received (link_run l1 (drain l1)))).1 in
  Ready c' = true ∧
  ∃ gs, genSet c' = Some gs ∧ gs_generationRules gs ≡ₚ map (generationRule w') items ∧
    ∀ txn path method, txn ∈ items → endpoint_matches path method (generationRule w' txn) →
      (∀ txn', txn' ∈ items → endpoint_matches path method (generationRule w' txn') → txn' = txn) →
      findMatchingRule (gs_generationRules gs) path method = Some (generationRule w' txn).
Proof.
  intros Hrange Hrec Hitems Hnamed Hf Hes l Hfeed Hroom Hc Hv l1.
  destruct (TransactionType_Reconcile_ok _ _ _ _ _ _ _ _ Hrec) as (items' & Hitems' & ->).
  rewrite Hitems in Hitems'. injection Hitems' as <-.
  split; [simpl; by rewrite Hfeed|]. intros c'.
  pose proof (types_keys w' items Hnamed) as Hkeys. set (rules := map (generationRule w') items) in *.
  destruct (link_update_converges f id es rules) as [Hcl Hne]; [done..|].
  destruct (generation_receive_final c (lk_received (link_run l1 (drain l1))) rules)
    as (gs & Hgs & Hsync & HP); [done..|].
  destruct (generation_receive_setters c (lk_received (link_run l1 (drain l1))) Hc) as [_ Hvs].
  fold c' in Hgs, Hsync, Hvs. split.
  { unfold Ready. by rewrite Hvs, Hv, Hsync, andb_false_r. }
  exists gs. split_and!; [done..|]. intros txn path method Htxn Hm Hone.
  apply findMatchingRule_only; [|done|].
  - rewrite HP. by apply (list_elem_of_fmap_2 (generationRule w')).
  - intros r'. rewrite HP. intros (txn' & -> & Hin)%list_elem_of_fmap Hm'. by rewrite (Hone txn').
Qed.
End types.

(** ** Auto-narrowing *)

Section narrowing.
Context `{Unicode, !JSON, CEL, Crypto, !JWT, Documents, HttpClient}.
Context (range : gmap string string → list (string * string)).

(** The replacement the adapter asks for on behalf of a rule. *)
Definition narrowing_request (token : string) (rule : VerificationRule) : ExchangeRequest :=
  {| xr_SubjectToken := token; xr_SubjectTokenType := SubjectTokenTypeTxnToken;
     xr_Scope := vr_RequiredScope rule; xr_RequestDetails := None; xr_RequestContext := None |}.

Lemma scopeIsBroader_subset a b :
  scopeIsBroader a b = true → isScopeSubset b a = true ∧ (length (Fields b) < length (Fields a))%nat.
Proof.
  unfold scopeIsBroader, isScopeSubset. destruct (forallb _ _); [|done]. simpl.
  by rewrite Nat.ltb_lt.
Qed.

Definition narrowed_by (client : Client) (claims : Claims) (token : string) (tok : string)
    (rs : verificationRuleSet) : Prop :=
  vr_AutoNarrow (vset_rule rs) = true ∧
  (Exchange client (narrowing_request token (vset_rule rs))).1 = Ok tok ∧
  scopeIsBroader (Scope claims) (vr_RequiredScope (vset_rule rs)) = true.

Lemma narrowLoop_ok client claims token rules :
  narrowLoop client claims token rules ≠ "" →
  Exists (narrowed_by client claims token (narrowLoop client claims token rules)) rules.
Proof.
  induction rules as [|rs rules IH]; [done|]. cbn [narrowLoop].
  destruct (vr_AutoNarrow (vset_rule rs)) eqn:Ha; [|intros Hn; right; by apply IH]. cbn [negb orb].
  case_bool_decide; [intros Hn; right; by apply IH|].
  destruct (_ && _) eqn:Hb; [|intros Hn; right; by apply IH].
  apply andb_true_iff in Hb as [_ Hb]. fold (narrowing_request token (vset_rule rs)).
  destruct (Exchange _ _).1 as [t|] eqn:Hx; [|done]. intros _. by left.
Qed.

(** C13.  The adapter replaces a token only by a narrower one the TTS made from
    it: a header added in verification mode is the token returned by a
    replacement request for the verified token, with the required scope of an
    active auto-narrowing rule, whose scopes are all scopes of that token (so
    the TTS's subset check accepts it) and fewer; without a TTS client no header
    is ever added. *)
Theorem narrowed_token_requested net now s req st hdrs s' :
  Check range net now s req = (Some (OkResponse st hdrs), s') → hdrs ≠ [] →
  ∃ hr client claims rs tok,
    cr_Http req = Some hr ∧ sv_ttsClient s = Some client ∧ hdrs = [(HeaderName, tok)] ∧
    let token := getHeader (ha_Headers hr) HeaderName in
    let scope := vr_RequiredScope (vset_rule rs) in
    (sdk_Verify net now (sv_verifier s) token).1 = Ok claims ∧
    rs ∈ loadVerificationRules s ∧ vr_AutoNarrow (vset_rule rs) = true ∧
    (Exchange client (narrowing_request token (vset_rule rs))).1 = Ok tok ∧
    isScopeSubset scope (Scope claims) = true ∧
    (length (Fields scope) < length (Fields (Scope claims)))%nat.
Proof.
  unfold Check. destruct (cr_Http req) as [hr|]; [|done].
  destruct (isExcluded _ _ _); [by intros [= <- <- <-]|]. case_bool_decide; [done|].
  destruct (sdk_Verify _ _ _ _) as [[claims|e] v] eqn:HV; [|by destruct e].
  destruct (checkVerificationRules _ _ _ _ _) as [|e]; [|by destruct e].
  case_bool_decide as Hn; simpl; [by intros [= <- <- <-]|]. intros [= <- <- <-] _.
  unfold autoNarrow in Hn. simpl in Hn.
  destruct (sv_ttsClient s) as [client|] eqn:Hcl; [|done].
  apply narrowLoop_ok, Exists_exists in Hn as (rs & Hrs & Ha & Hx & Hb).
  apply scopeIsBroader_subset in Hb as [Hsub Hlen].
  exists hr, client, claims, rs, (autoNarrow (set_verifier s v) claims (getHeader (ha_Headers hr) HeaderName)).
  split_and!; try done.
  - by rewrite HV.
  - unfold autoNarrow. simpl. by rewrite Hcl.
Qed.
End narrowing.

Module AdapterExample.
#[local] Existing Instance TTSExample.jwt.
#[local] Existing Instance TTSExample.jwt_laws.
#[local] Existing Instance SdkExample.documents.
#[local] Existing Instance ExtAuthExample.http.

Lemma endpoint_pattern_matches_witness :
  matchEndpointPath "/orders/7" "/orders/{id}" = true ∧
  matchEndpointPath "/orders/7?full=1" "/orders/{id}" = matchEndpointPath "/orders/7" "/orders/{id}".
Proof.
  destruct (endpoint_pattern_matches ["orders"; "7"] ["orders"; "{id}"] "full=1") as (Hm & Hq & _).
  - split; [discriminate|]. apply (proj1 (Forall_forall _ _)). by repeat constructor.
  - split; [discriminate|]. apply (proj1 (Forall_forall _ _)). by repeat constructor.
  - apply (proj1 (Forall_forall _ _)). by repeat constructor.
  - split; [|exact Hq]. apply Hm. constructor; [by right|]. constructor; [|constructor].
    left. by exists "id".
Defined.

(** One order of a map, and the opposite one. *)
Definition backwards {K R} `{Countable K} (m : gmap K R) : list (K * R) := reverse (map_to_list m).
Definition snapshot : StreamResponse ProtoVerificationRule :=
  buildVerSnapshot (UpdateVerificationRules NewRuleServer
    (map verificationRule [ExtAuthExample.other_str; ExtAuthExample.orders_str])).

Lemma map_order_unobservable_witness :
  extauth_receive map_to_list ExtAuthExample.adapter [snapshot]
  = extauth_receive backwards ExtAuthExample.adapter [snapshot].
Proof.
  apply (map_order_unobservable map_to_list backwards ExtAuthExample.adapter [snapshot]
    map_to_list backwards ControllerExample.client []).
  all: intros m; unfold range_order, backwards; by rewrite ?reverse_Permutation.
Defined.

(** A TransactionType is reconciled while an adapter is connected. *)
Definition feed : Feed GenerationRule ProtoGenerationRule :=
  lk_feed (link_run (link_open (gen NewRuleServer) "gen-1") [EvSend]).
Definition rule_server : RuleServer := set_gen NewRuleServer feed.
Definition store' : ApiStore :=
  {| st_types := [reconciledTransactionType map_to_list 1 2 ControllerExample.store ControllerExample.orders];
     st_requirements := []; st_policies := [ControllerExample.policy] |}.
Definition generating : RuleClient GenerationServer unit :=
  SetGenerationSetter NewRuleClient (NewGenerationServer (NewClient "http://tts") NewIdentityResolver).

Example type_reconciles :
  TransactionTypeReconciler_Reconcile map_to_list 1 2 ControllerExample.store (Some rule_server)
    {| nn_Namespace := "shop"; nn_Name := "orders" |}
  = (Ok tt, store', Some (UpdateGenerationRules rule_server (map (generationRule store') (st_types store')))).
Proof. vm_compute. reflexivity. Qed.

Lemma reconciled_types_served_witness :
  ∃ gs r, findMatchingRule (gs_generationRules gs) "/orders/7" "POST" = Some r ∧ gr_Name r = "orders".
Proof.
  destruct (reconciled_types_served map_to_list map_to_list 1 2 ControllerExample.store rule_server
    {| nn_Namespace := "shop"; nn_Name := "orders" |} store'
    (UpdateGenerationRules rule_server (map (generationRule store') (st_types store')))
    (st_types store') (gen NewRuleServer) "gen-1" [EvSend] generating)
    as (_ & _ & gs & _ & _ & Hserve).
  - intros m. apply ControllerExample.range_order_refl.
  - apply type_reconciles.
  - reflexivity.
  - unfold types_named. repeat constructor; set_solver.
  - constructor.
  - repeat constructor.
  - reflexivity.
  - vm_compute. lia.
  - eexists. reflexivity.
  - reflexivity.
  - set (txn := reconciledTransactionType map_to_list 1 2 ControllerExample.store ControllerExample.orders) in *.
    exists gs, (generationRule store' txn). split; [|reflexivity].
    apply (Hserve txn); [left|split; vm_compute; reflexivity|].
    intros t Ht _. by apply list_elem_of_singleton in Ht.
Defined.

(** The token has the scopes read and write; the rule needs read. *)
Definition narrowing_rule : VerificationRule :=
  {| vr_Namespace := "shop"; vr_Name := "orders"; vr_ServiceName := "orders"; vr_RequiredScope := "read";
     vr_RequiredTctxFields := []; vr_CELRules := []; vr_ExcludedEndpoints := []; vr_AutoNarrow := true |}.
Definition narrowing_server : Server :=
  SetTTSClient (Server_SetVerificationRules ExtAuthExample.start [narrowing_rule]) (NewClient "http://tts").
Definition orders_check : CheckRequest := ExtAuthExample.check_request "/orders" "GET" "a.b.first".

Lemma narrowed_token_requested_witness :
  ∃ client rs, (Exchange client (narrowing_request "a.b.first" (vset_rule rs))).1 = Ok "t".
Proof.
  destruct (narrowed_token_requested map_to_list SdkExample.network (120 * Second) narrowing_server
    orders_check None [(HeaderName, "t")]
    (Check map_to_list SdkExample.network (120 * Second) narrowing_server orders_check).2)
    as (hr & client & claims & rs & tok & Hhr & _ & Htok & _ & _ & _ & Hx & _).
  - vm_compute. reflexivity.
  - discriminate.
  - injection Hhr as <-. injection Htok as <-. exists client, rs. exact Hx.
Defined.
End AdapterExample.
