(* ===== verification/TTSServer.v ===== *)
(** * pkg/tts/config.go and server.go: configuration and wiring of the TTS *)

From stdpp Require Import pretty.
From S2P Require Import Prelude GoStrings GoTime External Token Keys Fetch Issuance Authn.
From S2P Require Import GoValue LocalVerifier TTSHandler TTSProps Instances AuthnProps.

Local Open Scope Z_scope.

(** ** Configuration *)

Record TokenDefaults := { td_TokenLifetime : string; td_KeySize : Z }.

Record Config := {
  cf_TrustDomain : string; cf_Issuer : string;
  cf_SubjectTokens : list AuthenticatorConfig; cf_Defaults : TokenDefaults;
}.

Definition DefaultTokenLifetime (c : Config) : Z :=
  if bool_decide (td_TokenLifetime (cf_Defaults c) = "") then 15 * Second else
  match ParseDuration (td_TokenLifetime (cf_Defaults c)) with
  | Err _ => 15 * Second
  | Ok d => d
  end.

Definition DefaultKeySize (c : Config) : Z :=
  if bool_decide (td_KeySize (cf_Defaults c) = 0) then 2048 else td_KeySize (cf_Defaults c).

Definition Validate (c : Config) : result unit :=
  if bool_decide (cf_TrustDomain c = "") then Err (errorf "trustDomain is required" []) else
  if bool_decide (cf_Issuer c = "") then Err (errorf "issuer is required" []) else
  Ok tt.

(** [read] is [os.ReadFile], [decode] is [yaml.Unmarshal] into a [Config]. *)
Definition LoadConfig (read : string → result string) (decode : string → result Config)
    (path : string) : result Config :=
  try! data := map_err (wrapf "reading config file: %w" []) (read path) in
  try! cfg := map_err (wrapf "parsing config file: %w" []) (decode data) in
  try! _ := map_err (wrapf "invalid config: %w" []) (Validate cfg) in
  Ok cfg.

(** ** Server *)

Section server.
Context `{Unicode, !JSON, CEL, Crypto, !JWT, Documents} (net : Network).

#[local] Instance oidc : Authenticator OIDCAuthenticator := OIDC_Authenticator net.

(** The handler holds the key manager; [readyFn] is given when it is called. *)
Record TTSServer := { srv_handler : Handler OIDCAuthenticator localVerifier }.

(** The loop over the configured authenticators. *)
Definition newAuthenticator (icfg : nat * AuthenticatorConfig) : result OIDCAuthenticator :=
  map_err (wrapf "creating authenticator %d (%s): %w"
             [pretty icfg.1; URL (ac_Issuer icfg.2)]) (NewOIDCAuthenticator icfg.2).

(** [generated] is the outcome of generating the first key. *)
Definition NewTTSServer (cfg : Config) (generated : result RsaPrivateKey) : result TTSServer :=
  try! keyMgr := map_err (wrapf "creating key manager: %w" [])
                   (NewManager (DefaultKeySize cfg) (DefaultTokenLifetime cfg) generated) in
  try! authenticators := traverse newAuthenticator (imap pair (cf_SubjectTokens cfg)) in
  let handler := NewHandler authenticators keyMgr (cf_Issuer cfg) (cf_TrustDomain cfg)
                            (DefaultTokenLifetime cfg) in
  Ok {| srv_handler := SetVerifier handler (newLocalVerifier (cf_TrustDomain cfg)) |}.

(** What a route answers. *)
Inductive RouteReply : Type :=
  | TokenReply (reply : option Reply)
  | JWKSReply (status : Z) (header : Header) (keys : option (list PublicKey))
  | TextReply (status : Z) (body : string).

(** The readiness route: [readyFn] is nil ([None]) or a function returning nil
    or an error. *)
Definition readyz (readyFn : option (option string)) : RouteReply :=
  match readyFn with
  | Some (Some err) => TextReply 503 err
  | _ => TextReply 200 "ready"
  end.

(** [http.ServeMux] on the four patterns, for a clean path: a GET pattern also
    takes HEAD requests, another method on a known path is answered 405. *)
Definition mux (s : TTSServer) (env : Env) (readyFn : option (option string)) (path : string)
    (r : Request) : RouteReply * TTSServer :=
  let get := bool_decide (req_Method r = "GET") || bool_decide (req_Method r = "HEAD") in
  if bool_decide (path = "/token_endpoint") then
    if bool_decide (req_Method r = "POST") then
      let '(reply, h) := ServeHTTP (srv_handler s) env r in (TokenReply reply, {| srv_handler := h |})
    else (TextReply 405 "Method Not Allowed", s)
  else if bool_decide (path = "/.well-known/jwks.json") then
    if get then
      let '(status, header, keys) := JWKSHandler (keyManager (srv_handler s)) (req_Method r) in
      (JWKSReply status header keys, s)
    else (TextReply 405 "Method Not Allowed", s)
  else if bool_decide (path = "/healthz") then
    if get then (TextReply 200 "ok", s) else (TextReply 405 "Method Not Allowed", s)
  else if bool_decide (path = "/readyz") then
    if get then (readyz readyFn, s) else (TextReply 405 "Method Not Allowed", s)
  else (TextReply 404 "404 page not found", s).

(** ** Properties *)

(** What a configured server keeps for its lifetime: one key, its own verifier
    for the trust domain, and the configured issuer and lifetime. *)
Definition wired (cfg : Config) (k : RsaPrivateKey) (h : Handler OIDCAuthenticator localVerifier)
  : Prop :=
  keyManager h = {| current := {| privateKey := k; kid := computeKid (private_PublicKey k) |};
                    previous := None; keySize := DefaultKeySize cfg;
                    lifetime := DefaultTokenLifetime cfg |} ∧
  verifier h = Some (newLocalVerifier (cf_TrustDomain cfg)) ∧
  trustDomain h = cf_TrustDomain cfg ∧ issuer h = cf_Issuer cfg ∧
  h_lifetime h = DefaultTokenLifetime cfg.

Lemma NewTTSServer_wired cfg g s :
  NewTTSServer cfg g = Ok s → ∃ k, g = Ok k ∧ wired cfg k (srv_handler s).
Proof.
  unfold NewTTSServer, NewManager, generateKey. destruct g as [k|]; [|done]. simpl.
  destruct (traverse _ _); [|done]. intros [= <-]. by exists k.
Qed.

Lemma ServeHTTP_wired cfg k h env r : wired cfg k h → wired cfg k (ServeHTTP h env r).2.
Proof.
  unfold wired. intros (Hk & Hv & Ht & Hi & Hl). unfold ServeHTTP, handleReplacement.
  repeat (split_match; simpl; try done). all: by simplify_eq/=.
Qed.

Lemma mux_wired cfg k s env ready path r :
  wired cfg k (srv_handler s) → wired cfg k (srv_handler (mux s env ready path r).2).
Proof.
  intros Hw. unfold mux. repeat (case_bool_decide; simpl; try done).
  - pose proof (ServeHTTP_wired cfg k (srv_handler s) env r Hw). by destruct (ServeHTTP _ _ _).
  - by destruct (JWKSHandler _ _) as [[? ?] ?].
  - by destruct (JWKSHandler _ _) as [[? ?] ?].
Qed.

(** A token in a reply is signed under the handler's issuer and trust domain. *)
Lemma ServeHTTP_signed h env r reply h' resp :
  ServeHTTP h env r = (Some reply, h') → reply_Body reply = TokenBody resp →
  ∃ c, Issuer c = issuer h ∧ Audience c = trustDomain h ∧
       New c (privateKey (current (keyManager h))) (kid (current (keyManager h)))
           (h_lifetime h) (env_SignTime env) (env_UUID env) = Ok (AccessToken resp).
Proof.
  unfold ServeHTTP, handleReplacement. intros Hs Hb.
  repeat (split_match_in Hs; try by simplify_eq/=).
  all: injection Hs as <- <-; apply signAndRespond_token in Hb.
  all: eexists; split_and!; [| |exact Hb]; done.
Qed.

(** The requests a server has answered, with the clock and readiness of each. *)
Definition history : Type := list (Env * option (option string) * string * Request).
Definition serve (s : TTSServer) (reqs : history) : TTSServer :=
  foldl (λ s q, (mux s q.1.1.1 q.1.1.2 q.1.2 q.2).2) s reqs.

Lemma serve_wired cfg k s reqs :
  wired cfg k (srv_handler s) → wired cfg k (srv_handler (serve s reqs)).
Proof.
  revert s. induction reqs as [|q reqs IH]; intros s Hw; [done|]. by apply IH, mux_wired.
Qed.

Lemma mux_token_signed cfg k s env ready r reply resp :
  wired cfg k (srv_handler s) →
  (mux s env ready "/token_endpoint" r).1 = TokenReply (Some reply) → reply_Body reply = TokenBody resp →
  ∃ c, Issuer c = cf_Issuer cfg ∧ Audience c = cf_TrustDomain cfg ∧
       New c k (computeKid (private_PublicKey k)) (DefaultTokenLifetime cfg)
           (env_SignTime env) (env_UUID env) = Ok (AccessToken resp).
Proof.
  intros (Hk & _ & Ht & Hi & Hl). unfold mux. rewrite bool_decide_true by done. case_bool_decide; [|done].
  destruct (ServeHTTP _ env r) as [rep h'] eqn:Hs. simpl. intros [= ->] Hb.
  destruct (ServeHTTP_signed _ _ _ _ _ _ Hs Hb) as (c & Hic & Hac & HN).
  rewrite Hk, Hl in HN. exists c. by rewrite Hic, Hac.
Qed.

Lemma mux_jwks cfg k s env ready r :
  wired cfg k (srv_handler s) → req_Method r = "GET" →
  ∃ hdr, (mux s env ready "/.well-known/jwks.json" r).1
    = JWKSReply 200 hdr
        (Some [newPublicKey {| privateKey := k; kid := computeKid (private_PublicKey k) |}]).
Proof. intros (Hk & _) Hm. unfold mux. rewrite Hm. simpl. rewrite Hk. by eexists. Qed.

(** A server hands out tokens of one identity for its lifetime: after any
    sequence of requests on its routes, a token the token route answers with is
    signed by the key generated at the start, under the configured issuer, with
    the configured trust domain as audience and the configured lifetime (15
    seconds when none is given or it is not a duration); and the JWKS route
    serves exactly that key's public half. *)
Theorem server_stays_wired cfg g s reqs env ready r :
  NewTTSServer cfg g = Ok s →
  ∃ k, g = Ok k ∧
    (∀ reply resp, (mux (serve s reqs) env ready "/token_endpoint" r).1 = TokenReply (Some reply) →
       reply_Body reply = TokenBody resp →
       ∃ c, Issuer c = cf_Issuer cfg ∧ Audience c = cf_TrustDomain cfg ∧
            New c k (computeKid (private_PublicKey k)) (DefaultTokenLifetime cfg)
                (env_SignTime env) (env_UUID env) = Ok (AccessToken resp)) ∧
    (req_Method r = "GET" →
       ∃ hdr, (mux (serve s reqs) env ready "/.well-known/jwks.json" r).1
         = JWKSReply 200 hdr
             (Some [newPublicKey {| privateKey := k; kid := computeKid (private_PublicKey k) |}])).
Proof.
  intros (k & -> & Hw)%NewTTSServer_wired. exists k. split; [done|].
  apply (serve_wired _ _ _ reqs) in Hw. split; [|by apply (mux_jwks cfg k)].
  intros reply resp. by apply (mux_token_signed cfg k).
Qed.

(** Requests do not touch the issuance rules. *)
Lemma ServeHTTP_rules h env r : issuanceRules (ServeHTTP h env r).2 = issuanceRules h.
Proof. unfold ServeHTTP, handleReplacement. by repeat (split_match; simpl; try done). Qed.

Lemma mux_rules s env ready path r :
  issuanceRules (srv_handler (mux s env ready path r).2) = issuanceRules (srv_handler s).
Proof.
  unfold mux. repeat (case_bool_decide; simpl; try done).
  - pose proof (ServeHTTP_rules (srv_handler s) env r). by destruct (ServeHTTP _ _ _).
  - by destruct (JWKSHandler _ _) as [[? ?] ?].
  - by destruct (JWKSHandler _ _) as [[? ?] ?].
Qed.
End server.

Module ServerExample.
#[local] Existing Instance OIDCExample.docs.
#[local] Existing Instance OIDCExample.jwt.

Definition config : Config :=
  {| cf_TrustDomain := "prod"; cf_Issuer := "https://tts"; cf_SubjectTokens := [OIDCExample.cfg];
     cf_Defaults := {| td_TokenLifetime := "soon"; td_KeySize := 0 |} |}.

Example lifetime_default : DefaultTokenLifetime config = 15 * Second.
Proof. vm_compute. reflexivity. Qed.

Definition first_key : @RsaPrivateKey toyCrypto := toy_key.

Definition probe (method : string) : Request :=
  {| req_Method := method; req_Form := Err (errorf "missing form body" []); req_Header := ∅ |}.
Definition clock : Env :=
  {| env_VerifyTime := 100 * Second; env_SignTime := 100 * Second; env_UUID := "u1" |}.
Definition seen : history :=
  [(clock, None, "/token_endpoint", probe "POST"); (clock, Some (Some "starting"), "/readyz", probe "GET")].

Lemma server_stays_wired_witness :
  ∃ s hdr key, NewTTSServer config (Ok first_key) = Ok s ∧
    (mux OIDCExample.net (serve OIDCExample.net s seen) clock None "/.well-known/jwks.json" (probe "GET")).1
    = JWKSReply 200 hdr (Some [key]).
Proof.
  destruct (NewTTSServer config (Ok first_key)) as [s|] eqn:Hs; [|discriminate Hs].
  destruct (server_stays_wired OIDCExample.net config (Ok first_key) s seen clock None
    (probe "GET") Hs) as (k & _ & _ & Hj). destruct (Hj eq_refl) as [hdr Hh].
  exists s, hdr. eexists. split; [reflexivity|exact Hh].
Defined.
End ServerExample.
