(* ===== verification/TTSMain.v ===== *)
(** * cmd/tts: the token service as a process

    [ttsMain] is [main]: it loads the configuration, builds the server and, when
    a controller is named, a rule client whose setter holds the server's own
    handler.  The handler is one shared object, so the process keeps it once, in
    the server, and the client is rebuilt around it for each message.  A run is a
    sequence of the steps of [tts_step]: a request on any route, a connection to
    the controller, a message on it up to the call of the setter, and, in a step
    of its own, the store of the flag after it; a request is one step.  [tts_run]
    records the connections and the messages, which say what is enforced. *)

From stdpp Require Import relations.
From S2P Require Import Prelude GoStrings GoTime External Token Keys Fetch Issuance Authn.
From S2P Require Import LocalVerifier TTSHandler TTSProps Instances AuthnProps.
From S2P Require Import Api RulesProto GoSort RuleServer RuleClient Pipeline TTSRuleClient TTSServer.

Local Open Scope Z_scope.

Record TTSFlags := { tf_Version : bool; tf_Config : string; tf_ControllerAddr : string }.

(** How [main] starts: it exits with a status and a message, or serves. *)
Inductive Started (P : Type) : Type :=
  | Exited (status : Z) (message : option error)
  | Serving (p : P).
Arguments Exited {_} _ _.
Arguments Serving {_} _.

Section process.
Context `{Unicode, !JSON, CEL, Crypto, !JWT, Documents} (net : Network).
(** The order of the range over the client's rules. *)
Context (range : gmap issuanceKey PublishedIssuanceRule → list (issuanceKey * PublishedIssuanceRule)).

#[local] Existing Instance oidc.

(** The server, the rule client's flag ([None]: there is no client), the map of the
    connection it is in, and whether the client is about to store its flag. *)
Record TTSProcess := {
  tp_server : TTSServer;
  tp_synced : option bool;
  tp_rules : gmap issuanceKey PublishedIssuanceRule;
  tp_pending : bool;
}.

Definition TTS_Ready (c : TTSRuleClient (HandlerSetter OIDCAuthenticator localVerifier)) : bool := synced c.

(** The function given to [SetReadyCheck]. *)
Definition readyCheck (ready : bool) : option string :=
  if negb ready then Some "issuance rules not yet synced" else None.

Definition ttsMain (read : string → result string) (decode : string → result Config)
    (generated : result RsaPrivateKey) (flags : TTSFlags) : Started TTSProcess :=
  if tf_Version flags then Exited 0 None else
  match LoadConfig read decode (tf_Config flags) with
  | Err e => Exited 1 (Some (wrapf "Failed to load config: %v" [] e))
  | Ok cfg =>
    match NewTTSServer cfg generated with
    | Err e => Exited 1 (Some (wrapf "Failed to create TTS server: %v" [] e))
    | Ok server =>
      Serving {| tp_server := server;
                 tp_synced := if negb (bool_decide (tf_ControllerAddr flags = ""))
                              then Some false else None;
                 tp_rules := ∅; tp_pending := false |}
    end
  end.

(** The client of a process: its setter is the server's handler. *)
Definition processClient (p : TTSProcess) (flag : bool)
  : TTSRuleClient (HandlerSetter OIDCAuthenticator localVerifier) :=
  {| setter := NewHandlerSetter (srv_handler (tp_server p)); synced := flag |}.

(** The readiness check the server was given, if any. *)
Definition processReady (p : TTSProcess) : option (option string) :=
  (λ flag, readyCheck (TTS_Ready (processClient p flag))) <$> tp_synced p.

Definition processServe (p : TTSProcess) (env : Env) (path : string) (r : Request)
  : RouteReply * TTSProcess :=
  let '(reply, s) := mux net (tp_server p) env (processReady p) path r in
  (reply, {| tp_server := s; tp_synced := tp_synced p; tp_rules := tp_rules p; tp_pending := tp_pending p |}).

(** A message on the stream, up to the call of the setter; the handler the setter
    writes to is the server's. *)
Definition processMessage (p : TTSProcess) (resp : StreamResponse ProtoIssuanceRule) : TTSProcess :=
  match tp_synced p with
  | None => p
  | Some flag =>
    let '(r, c, rules) := installIssuance range (processClient p flag) (tp_rules p) resp in
    {| tp_server := match hs_Handler (setter c) with
                    | Some h => {| srv_handler := h |} | None => tp_server p end;
       tp_synced := Some (synced c); tp_rules := rules; tp_pending := is_ok r |}
  end.

(** The store of the flag that follows. *)
Definition processStore (p : TTSProcess) : TTSProcess :=
  {| tp_server := tp_server p;
     tp_synced := (λ flag, synced (markIssuance (processClient p flag))) <$> tp_synced p;
     tp_rules := tp_rules p; tp_pending := false |}.

(** A stream opens, with an empty map. *)
Definition processConnect (p : TTSProcess) : TTSProcess :=
  {| tp_server := tp_server p; tp_synced := tp_synced p; tp_rules := ∅; tp_pending := tp_pending p |}.

(** What the client hears of the controller. *)
Inductive Heard : Type :=
  | Opened
  | Received (resp : StreamResponse ProtoIssuanceRule).

Inductive tts_step : TTSProcess → option Heard → TTSProcess → Prop :=
  | tts_request p env path r : tts_step p None (processServe p env path r).2
  | tts_connect p : is_Some (tp_synced p) → tp_pending p = false → tts_step p (Some Opened) (processConnect p)
  | tts_message p resp : is_Some (tp_synced p) → tp_pending p = false →
      tts_step p (Some (Received resp)) (processMessage p resp)
  | tts_store p : tp_pending p = true → tts_step p None (processStore p).

(** A run, with what was heard, in order. *)
Inductive tts_run (p0 : TTSProcess) : list Heard → TTSProcess → Prop :=
  | tts_start : tts_run p0 [] p0
  | tts_next hs p h p' : tts_run p0 hs p → tts_step p h p' → tts_run p0 (hs ++ option_list h) p'.

(** A message and its store are one round of the client's loop. *)
Lemma message_round p flag resp :
  tp_synced p = Some flag →
  let '(c, m) := onIssuanceResponse range (processClient p flag) (tp_rules p) resp in
  let p1 := processMessage p resp in
  let p2 := if tp_pending p1 then processStore p1 else p1 in
  Some (srv_handler (tp_server p2)) = hs_Handler (setter c) ∧ tp_synced p2 = Some (synced c) ∧ tp_rules p2 = m.
Proof.
  intros Hf. unfold processMessage, onIssuanceResponse, installIssuance. rewrite Hf. simpl.
  unfold HandlerSetter_SetIssuanceRules. simpl. by destruct (CompileIssuanceRules _).
Qed.

(** ** What was heard *)

(** The rules the messages since the last opening of the stream add up to. *)
Definition heardRules (hs : list Heard) : gmap issuanceKey PublishedIssuanceRule :=
  foldl (λ m h, match h with Opened => ∅ | Received resp => applyIssuance m (resp_Update resp) end) ∅ hs.

(** The set of a map, compiled in the order of its keys. *)
Definition compileSet (m : gmap issuanceKey PublishedIssuanceRule) : result (list IssuanceRule) :=
  CompileIssuanceRules (map handlerConfig (sortBy issuanceSortKey (range m).*2)).

(** The set that is to be enforced: that of the last message whose set compiled. *)
Fixpoint setHeard (m : gmap issuanceKey PublishedIssuanceRule) (last : option (list IssuanceRule))
    (hs : list Heard) : option (list IssuanceRule) :=
  match hs with
  | [] => last
  | Opened :: hs => setHeard ∅ last hs
  | Received resp :: hs =>
    let m := applyIssuance m (resp_Update resp) in
    setHeard m (match compileSet m with Ok set => Some set | Err _ => last end) hs
  end.
Definition enforcedSet (hs : list Heard) : option (list IssuanceRule) := setHeard ∅ None hs.

Lemma setHeard_app hs1 hs2 m last :
  setHeard m last (hs1 ++ hs2)
  = setHeard (foldl (λ m h, match h with Opened => ∅ | Received resp => applyIssuance m (resp_Update resp) end) m hs1)
      (setHeard m last hs1) hs2.
Proof. revert m last. induction hs1 as [|[|resp] hs1 IH]; intros m last; simpl; [done|apply IH..]. Qed.

Lemma enforcedSet_open hs : enforcedSet (hs ++ [Opened]) = enforcedSet hs.
Proof. unfold enforcedSet. by rewrite setHeard_app. Qed.

Lemma enforcedSet_message hs resp :
  enforcedSet (hs ++ [Received resp])
  = match compileSet (applyIssuance (heardRules hs) (resp_Update resp)) with
    | Ok set => Some set | Err _ => enforcedSet hs
    end.
Proof. unfold enforcedSet. by rewrite setHeard_app. Qed.

Lemma heardRules_snoc hs h :
  heardRules (hs ++ [h])
  = match h with Opened => ∅ | Received resp => applyIssuance (heardRules hs) (resp_Update resp) end.
Proof. unfold heardRules. by rewrite foldl_app. Qed.

(** ** What a process keeps *)

Record process_ok (flags : TTSFlags) (cfg : Config) (k : RsaPrivateKey) (hs : list Heard) (p : TTSProcess) : Prop := {
  po_wired : wired cfg k (srv_handler (tp_server p));
  po_client : tp_synced p = None ↔ tf_ControllerAddr flags = "";
  po_rules : tp_rules p = heardRules hs;
  po_enforces : issuanceRules (srv_handler (tp_server p)) = enforcedSet hs;
  po_ready : (tp_synced p = Some true ∨ tp_pending p = true) ↔ is_Some (enforcedSet hs);
  po_pending : tp_pending p = true → is_Some (tp_synced p);
}.

Lemma wired_SetIssuanceRules cfg k h compiled :
  wired cfg k h → wired cfg k (TTSHandler.SetIssuanceRules h compiled).
Proof. done. Qed.

(** A message is applied whole or leaves the handler alone. *)
Lemma processMessage_spec p resp flag :
  tp_synced p = Some flag →
  let m := applyIssuance (tp_rules p) (resp_Update resp) in
  let p' := processMessage p resp in
  tp_rules p' = m ∧ tp_synced p' = Some flag ∧
  match compileSet m with
  | Ok set => tp_server p' = {| srv_handler := TTSHandler.SetIssuanceRules (srv_handler (tp_server p)) set |} ∧
              tp_pending p' = true
  | Err _ => tp_server p' = tp_server p ∧ tp_pending p' = false
  end.
Proof.
  intros Hf. unfold processMessage, compileSet. rewrite Hf. unfold installIssuance. simpl.
  unfold HandlerSetter_SetIssuanceRules. simpl.
  destruct (CompileIssuanceRules _) as [set|e]; simpl; split_and!; try done. by destruct (tp_server p).
Qed.

Lemma tts_step_ok flags cfg k hs p h p' :
  process_ok flags cfg k hs p → tts_step p h p' → process_ok flags cfg k (hs ++ option_list h) p'.
Proof.
  intros [Hw Hn Hm He Hr Hpd] Hstep. destruct Hstep as [p env path r|p _ Hp|p resp [flag Hs] Hp|p Hp]; simpl.
  - rewrite app_nil_r. unfold processServe. pose proof (mux_wired net cfg k _ env (processReady p) path r Hw) as Hw'.
    pose proof (mux_rules net (tp_server p) env (processReady p) path r) as Hr'.
    destruct (mux net _ _ _ _ _) as [reply s]. simpl in *. split; simpl; try done. by rewrite Hr'.
  - split; simpl; rewrite ?enforcedSet_open; try done. by rewrite heardRules_snoc.
  - pose proof (processMessage_spec p resp flag Hs) as (Hm' & Hs' & Hc). rewrite Hm in Hm', Hc.
    assert (tp_synced (processMessage p resp) = None ↔ tf_ControllerAddr flags = "") as Hn'.
    { rewrite Hs', <-Hn, Hs. by split. }
    destruct (compileSet _) as [set|e] eqn:HC; destruct Hc as [Hsrv Hpend].
    all: split; [by rewrite Hsrv|done|by rewrite heardRules_snoc| | |by rewrite Hs'];
      rewrite enforcedSet_message, HC; [by rewrite Hsrv|].
    + rewrite Hpend. split; [by eexists|by right].
    + rewrite Hpend, Hs', <-Hr, Hs, Hp. done.
  - rewrite app_nil_r. destruct (Hpd Hp) as [flag Hs]. rewrite Hs in Hn.
    split; simpl; rewrite ?Hs; try done; [by rewrite <-Hn|].
    split; [intros _; apply Hr; by right|by left].
Qed.

Lemma ttsMain_ok read decode generated flags p :
  ttsMain read decode generated flags = Serving p →
  ∃ cfg k, LoadConfig read decode (tf_Config flags) = Ok cfg ∧ generated = Ok k ∧ process_ok flags cfg k [] p.
Proof.
  unfold ttsMain. destruct (tf_Version flags); [done|]. destruct (LoadConfig _ _ _) as [cfg|]; [|done].
  destruct (NewTTSServer cfg generated) as [s|] eqn:Hs; [|done]. intros [= <-].
  pose proof (NewTTSServer_wired _ _ _ Hs) as (k & -> & Hw). exists cfg, k. split_and!; [done..|].
  assert (issuanceRules (srv_handler s) = None) as Hnone.
  { revert Hs. unfold NewTTSServer. destruct (NewManager _ _ _); [simpl|done].
    destruct (traverse _ _); [|done]. by intros [= <-]. }
  split; simpl; try done; case_bool_decide; simpl; try done; (split; [by intros []|by intros [? ?]]).
Qed.

Lemma tts_reachable_ok read decode generated flags p0 hs p :
  ttsMain read decode generated flags = Serving p0 → tts_run p0 hs p →
  ∃ cfg k, LoadConfig read decode (tf_Config flags) = Ok cfg ∧ generated = Ok k ∧ process_ok flags cfg k hs p.
Proof.
  intros (cfg & k & Hc & Hg & Hp)%ttsMain_ok Hsteps. exists cfg, k. split_and!; [done..|].
  induction Hsteps as [|hs p h p' _ IH Hstep]; [done|]. by eapply tts_step_ok.
Qed.

(** C20.  A running token service signs as it was configured to, enforces what the
    controller sent and says truly whether it does.  In every state reached
    through requests, connections, messages and stores of the flag in any order: a
    token of the token route is signed by the key generated at the start, under
    the configured issuer, trust domain and lifetime.  The handler runs with the
    set of the last message whose rules all compiled, the messages since the
    stream was opened being added up, and with none before there was such a
    message.  The readiness route answers 200 or 503: 200 only when no controller
    was named or such a set is in force, and always then, but for the moment
    between the set taking effect and the flag that says so.  And while no set is
    in force the token route is open, with no rule standing in the way of any
    authenticated request. *)
Theorem tts_process_sound read decode generated flags p0 hs p :
  ttsMain read decode generated flags = Serving p0 → tts_run p0 hs p →
  ∃ cfg k, LoadConfig read decode (tf_Config flags) = Ok cfg ∧ generated = Ok k ∧
    (∀ env r reply resp,
       (processServe p env "/token_endpoint" r).1 = TokenReply (Some reply) →
       reply_Body reply = TokenBody resp →
       ∃ c, Issuer c = cf_Issuer cfg ∧ Audience c = cf_TrustDomain cfg ∧
            New c k (computeKid (private_PublicKey k)) (DefaultTokenLifetime cfg)
                (env_SignTime env) (env_UUID env) = Ok (AccessToken resp)) ∧
    issuanceRules (srv_handler (tp_server p)) = enforcedSet hs ∧
    (∀ env r, req_Method r = "GET" →
       let ready := (processServe p env "/readyz" r).1 in
       (ready = TextReply 200 "ready" ∨ ready = TextReply 503 "issuance rules not yet synced") ∧
       (ready = TextReply 200 "ready" → tf_ControllerAddr flags = "" ∨ is_Some (enforcedSet hs)) ∧
       (tf_ControllerAddr flags = "" ∨ is_Some (enforcedSet hs) ∧ tp_pending p = false →
        ready = TextReply 200 "ready")) ∧
    (enforcedSet hs = None → ∀ req subject wl, checkIssuance (srv_handler (tp_server p)) req subject wl = Ok tt).
Proof.
  intros Hmain Hsteps.
  destruct (tts_reachable_ok _ _ _ _ _ _ _ Hmain Hsteps) as (cfg & k & Hc & Hg & [Hw Hn _ He Hr _]).
  exists cfg, k. split_and!; [done..| |done| |].
  - intros env r reply resp Hrep. unfold processServe in Hrep.
    destruct (mux net _ _ _ _ _) as [rep s] eqn:Hm. simpl in Hrep. subst rep.
    apply (mux_token_signed net cfg k (tp_server p) env (processReady p) r); [done|]. by rewrite Hm.
  - intros env r Hget ready.
    assert (ready = readyz (processReady p)) as ->.
    { unfold ready, processServe, mux. rewrite Hget. done. }
    unfold processReady, TTS_Ready, readyCheck. destruct (tp_synced p) as [[]|] eqn:Hs; simpl.
    + split_and!; [by left| |done]. intros _. right. apply Hr. by left.
    + split_and!; [by right|done|]. intros [?%Hn|[Hx%Hr Hp]]; [done|]. destruct Hx; congruence.
    + split_and!; [by left| |done]. intros _. left. by apply Hn.
  - intros Hnone req subject wl. unfold checkIssuance, loadIssuanceRules. by rewrite He, Hnone.
Qed.
End process.

Module TTSMainExample.
#[local] Existing Instance OIDCExample.docs.
#[local] Existing Instance OIDCExample.jwt.

Definition flags (addr : string) : TTSFlags :=
  {| tf_Version := false; tf_Config := "config.yaml"; tf_ControllerAddr := addr |}.
Definition read (path : string) : result string :=
  if bool_decide (path = "config.yaml") then Ok "data" else Err (errorf "no such file" []).

Definition start (addr : string) : Started TTSProcess :=
  ttsMain read (λ _, Ok ServerExample.config) (Ok ServerExample.first_key) (flags addr).

Definition empty_snapshot : StreamResponse ProtoIssuanceRule :=
  {| resp_VersionInfo := "1"; resp_Update := Some (Snapshot []) |}.

(** Before the first message the service is not ready, after it it is. *)
Lemma tts_process_sound_witness :
  ∃ p0 p1, start "controller:9090" = Serving p0 ∧ p1 = processStore (processMessage map_to_list p0 empty_snapshot) ∧
    (processServe OIDCExample.net p0 ServerExample.clock "/readyz" (ServerExample.probe "GET")).1
    = TextReply 503 "issuance rules not yet synced" ∧
    issuanceRules (srv_handler (tp_server p1)) = Some [] ∧
    (processServe OIDCExample.net p1 ServerExample.clock "/readyz" (ServerExample.probe "GET")).1
    = TextReply 200 "ready".
Proof.
  destruct (start "controller:9090") as [|p0] eqn:Hs; [discriminate Hs|].
  exists p0, (processStore (processMessage map_to_list p0 empty_snapshot)). split; [done|]. split; [done|]. split.
  { injection Hs as <-. reflexivity. }
  destruct (tts_process_sound OIDCExample.net map_to_list read (λ _, Ok ServerExample.config)
    (Ok ServerExample.first_key) (flags "controller:9090") p0 [Received empty_snapshot]
    (processStore (processMessage map_to_list p0 empty_snapshot)))
    as (cfg & k & _ & _ & _ & Hset & Hready & _); [exact Hs| |].
  { apply (tts_next OIDCExample.net map_to_list p0 [Received empty_snapshot]
      (processMessage map_to_list p0 empty_snapshot) None).
    - apply (tts_next OIDCExample.net map_to_list p0 [] p0 (Some (Received empty_snapshot))); [apply tts_start|].
      apply tts_message; injection Hs as <-; [by eexists|reflexivity].
    - apply tts_store. injection Hs as <-. reflexivity. }
  split; [rewrite Hset; reflexivity|].
  destruct (Hready ServerExample.clock (ServerExample.probe "GET") eq_refl) as (_ & _ & Hr).
  apply Hr. right. split; [eexists; reflexivity|]. injection Hs as <-. reflexivity.
Defined.
End TTSMainExample.
