(* ===== verification/ExtAuthMain.v ===== *)
(** * cmd/extauth: the adapter as a process

    [extauthMain] is [main]: it listens, builds the server of the mode asked for
    and hands it to the rule client.  The gRPC service and the client share that
    server, so the process keeps it once, in the client.  A run is a sequence of
    the steps of [adapter_step]: a check, a connection to the controller, a
    message on a stream that was opened, up to the call of the setter, and, in a
    step of its own, the store of the flag that follows. *)

From stdpp Require Import relations.
From S2P Require Import Prelude GoStrings GoValue GoTime External GoSort GoUrl Token Keys Fetch.
From S2P Require Import LocalVerifier TTSHandler TTSProps Instances SdkVerify Api CelVerify RulesProto RuleServer.
From S2P Require Import RuleClient SdkClient SdkProps Identity ExtAuth ExtAuthProps TTSMain.

Local Open Scope Z_scope.

Record ExtAuthFlags := {
  ef_Version : bool; ef_TTS : string; ef_JWKS : string; ef_TrustDomain : string; ef_Mode : string;
}.

Section process.
Context `{Unicode, !JSON, CEL, Crypto, !JWT, Documents, HttpClient}.
(** The orders of the ranges over the headers of a request, the field mappings
    of a rule and the rules of the client. *)
Context (hrange : gmap string string → list (string * string)).
Context (frange : gmap string TctxFieldMapping → list (string * TctxFieldMapping)).
Context (grange : gmap ruleKey GenerationRule → list (ruleKey * GenerationRule)).
Context (vrange : gmap ruleKey VerificationRule → list (ruleKey * VerificationRule)).

#[local] Existing Instance Server_VerificationSetter.
#[local] Existing Instance GenerationServer_GenerationSetter.

(** The rule client with the server it sets, the maps of its connection, and which
    of its streams is about to store its flag. *)
Record AdapterProcess := {
  ap_client : RuleClient GenerationServer Server;
  ap_genRules : gmap ruleKey GenerationRule;
  ap_verRules : gmap ruleKey VerificationRule;
  ap_genPending : bool;
  ap_verPending : bool;
}.

Definition startAdapter (c : RuleClient GenerationServer Server) : AdapterProcess :=
  {| ap_client := c; ap_genRules := ∅; ap_verRules := ∅; ap_genPending := false; ap_verPending := false |}.

(** [listen] is the error of [net.Listen]. *)
Definition extauthMain (listen : option error) (flags : ExtAuthFlags) : Started AdapterProcess :=
  if ef_Version flags then Exited 0 None else
  match listen with
  | Some e => Exited 1 (Some (wrapf "Failed to listen: %v" [] e))
  | None =>
    let rc := NewRuleClient in
    if bool_decide (ef_Mode flags = "verify") then
      let verifier := NewVerifier (ef_JWKS flags) (ef_TrustDomain flags) in
      let server := NewServer verifier in
      Serving (startAdapter (SetVerificationSetter rc server))
    else if bool_decide (ef_Mode flags = "generate") then
      let ttsClient := NewClient (ef_TTS flags) in
      let resolver := NewIdentityResolver in
      let server := NewGenerationServer ttsClient resolver in
      Serving (startAdapter (SetGenerationSetter rc server))
    else Exited 1 (Some (errorf "Unknown mode: %s (use 'verify' or 'generate')" [ef_Mode flags]))
  end.

(** The health routes, for any method: the status and the body. *)
Definition adapterHealth (p : AdapterProcess) (path : string) : Z * string :=
  if bool_decide (path = "/healthz") then (200, "") else
  if bool_decide (path = "/readyz") then
    if negb (Ready (ap_client p)) then (503, "rules not yet synced") else (200, "")
  else (404, "404 page not found").

Definition set_server (c : RuleClient GenerationServer Server) (s : Server)
  : RuleClient GenerationServer Server :=
  {| genSet := genSet c; verSet := Some s; genSynced := genSynced c; verSynced := verSynced c |}.

(** The gRPC call [Check], on the service that was registered. *)
Definition adapterCheck (net : Network) (now : Z) (p : AdapterProcess) (req : CheckRequest)
  : option CheckResponse * AdapterProcess :=
  match verSet (ap_client p), genSet (ap_client p) with
  | Some s, _ =>
    let '(resp, s) := Check hrange net now s req in
    (resp, {| ap_client := set_server (ap_client p) s; ap_genRules := ap_genRules p;
              ap_verRules := ap_verRules p; ap_genPending := ap_genPending p;
              ap_verPending := ap_verPending p |})
  | None, Some s => (Some (GenerationServer_Check frange s req), p)
  | None, None => (None, p)
  end.

(** A message on a stream, up to the call of the setter; the server the setter
    writes to is the service's. *)
Definition adapterGeneration (p : AdapterProcess) (resp : StreamResponse ProtoGenerationRule) : AdapterProcess :=
  let '(c, m) := installGeneration grange (ap_client p) (ap_genRules p) resp in
  {| ap_client := c; ap_genRules := m; ap_verRules := ap_verRules p;
     ap_genPending := true; ap_verPending := ap_verPending p |}.
Definition adapterVerification (p : AdapterProcess) (resp : StreamResponse ProtoVerificationRule) : AdapterProcess :=
  let '(c, m) := installVerification vrange (ap_client p) (ap_verRules p) resp in
  {| ap_client := c; ap_genRules := ap_genRules p; ap_verRules := m;
     ap_genPending := ap_genPending p; ap_verPending := true |}.

(** The store of the flag that follows. *)
Definition adapterGenerationStore (p : AdapterProcess) : AdapterProcess :=
  {| ap_client := markGeneration (ap_client p); ap_genRules := ap_genRules p; ap_verRules := ap_verRules p;
     ap_genPending := false; ap_verPending := ap_verPending p |}.
Definition adapterVerificationStore (p : AdapterProcess) : AdapterProcess :=
  {| ap_client := markVerification (ap_client p); ap_genRules := ap_genRules p; ap_verRules := ap_verRules p;
     ap_genPending := ap_genPending p; ap_verPending := false |}.

(** A process has one stream, that of its mode: the next connection is made when
    the stream has ended, not between a message and its store. *)
Inductive adapter_step : relation AdapterProcess :=
  | adapter_check p net now req : adapter_step p (adapterCheck net now p req).2
  | adapter_connect p : ap_genPending p = false → ap_verPending p = false →
      adapter_step p (startAdapter (ap_client p))
  | adapter_generation p resp : is_Some (genSet (ap_client p)) → ap_genPending p = false →
      adapter_step p (adapterGeneration p resp)
  | adapter_verification p resp : is_Some (verSet (ap_client p)) → ap_verPending p = false →
      adapter_step p (adapterVerification p resp)
  | adapter_generation_store p : ap_genPending p = true → adapter_step p (adapterGenerationStore p)
  | adapter_verification_store p : ap_verPending p = true → adapter_step p (adapterVerificationStore p).

(** A message and its store are one round of the client's loop. *)
Lemma generation_round p resp :
  (ap_client (adapterGenerationStore (adapterGeneration p resp)),
   ap_genRules (adapterGenerationStore (adapterGeneration p resp)))
  = onGenerationResponse grange (ap_client p) (ap_genRules p) resp.
Proof. done. Qed.
Lemma verification_round p resp :
  (ap_client (adapterVerificationStore (adapterVerification p resp)),
   ap_verRules (adapterVerificationStore (adapterVerification p resp)))
  = onVerificationResponse vrange (ap_client p) (ap_verRules p) resp.
Proof. done. Qed.

(** ** What a process keeps *)

(** A verifying process: it verifies for the trust domain with the keys of the
    JWKS URL, has no TTS client, and has rules once it is synced or about to be. *)
Definition verifying (flags : ExtAuthFlags) (p : AdapterProcess) (s : Server) : Prop :=
  verSet (ap_client p) = Some s ∧ genSet (ap_client p) = None ∧ sv_ttsClient s = None ∧
  vf_audience (sv_verifier s) = ef_TrustDomain flags ∧ vf_jwksURL (sv_verifier s) = ef_JWKS flags ∧
  (verSynced (ap_client p) = true ∨ ap_verPending p = true ↔ is_Some (sv_verificationRules s)) ∧
  ap_genPending p = false.

(** A generating process: it asks the TTS it was given, knows no pods, and has no
    rules before it is synced or about to be. *)
Definition generating (flags : ExtAuthFlags) (p : AdapterProcess) (s : GenerationServer) : Prop :=
  genSet (ap_client p) = Some s ∧ verSet (ap_client p) = None ∧
  gs_ttsClient s = NewClient (ef_TTS flags) ∧ gs_identityResolver s = NewIdentityResolver ∧
  (genSynced (ap_client p) = false → ap_genPending p = false → gs_generationRules s = []) ∧
  ap_verPending p = false.

Lemma extauthMain_start listen flags p :
  extauthMain listen flags = Serving p →
  (ef_Mode flags = "verify" ∧ ∃ s, verifying flags p s) ∨
  (ef_Mode flags = "generate" ∧ ∃ s, generating flags p s).
Proof.
  unfold extauthMain. destruct (ef_Version flags); [done|]. destruct listen; [done|].
  case_bool_decide as Hv; [|case_bool_decide as Hg; [|done]]; intros [= <-].
  - left. split; [done|]. eexists. split_and!; [done..| |done]. split; [by intros []|by intros []].
  - right. split; [done|]. eexists. by split_and!.
Qed.

Context `{!JWTLaws _}.

(** A check changes only the cached keys. *)
Lemma Check_fields net now s req :
  sv_ttsClient (Check hrange net now s req).2 = sv_ttsClient s ∧
  sv_verificationRules (Check hrange net now s req).2 = sv_verificationRules s ∧
  vf_audience (sv_verifier (Check hrange net now s req).2) = vf_audience (sv_verifier s) ∧
  vf_jwksURL (sv_verifier (Check hrange net now s req).2) = vf_jwksURL (sv_verifier s).
Proof.
  unfold Check. destruct (cr_Http req) as [hr|]; [|done]. destruct (isExcluded _ _ _); [done|].
  destruct (bool_decide _); [done|].
  pose proof (sdk_Verify_fields net now (sv_verifier s) (getHeader (ha_Headers hr) HeaderName)) as [Ha Hj].
  destruct (sdk_Verify _ _ _ _) as [[claims|e] v]; simpl in *; [|by destruct e].
  destruct (checkVerificationRules _ _ _ _ _ _) as [u|e]; [|by destruct e]. by destruct (negb _).
Qed.

Lemma verifying_step flags p s p' :
  verifying flags p s → adapter_step p p' → ∃ s', verifying flags p' s'.
Proof.
  unfold verifying. intros (Hs & Hg & Ht & Ha & Hj & Hr & Hp) Hstep.
  destruct Hstep as [p net now req|p Hgp Hvp|p resp [? ?] _|p resp _ _|p Hpd|p Hpd]; simpl.
  - unfold adapterCheck. rewrite Hs. pose proof (Check_fields net now s req) as (Ht' & Hr' & Ha' & Hj').
    destruct (Check _ _ _ _ _) as [resp s']. simpl in *. exists s'. rewrite Ht', Hr', Ha', Hj'. by split_and!.
  - exists s. rewrite <-Hr, Hvp. by split_and!.
  - congruence.
  - rewrite Hs. simpl. eexists. split_and!; [done..| |done]. split; [by eexists|by right].
  - congruence.
  - exists s. rewrite <-Hr. split_and!; [done..| |done]. split; [by right|by left].
Qed.

Lemma generating_step flags p s p' :
  generating flags p s → adapter_step p p' → ∃ s', generating flags p' s'.
Proof.
  unfold generating. intros (Hs & Hv & Ht & Hi & Hr & Hp) Hstep.
  destruct Hstep as [p net now req|p Hgp Hvp|p resp _ _|p resp [? ?] _|p Hpd|p Hpd]; simpl.
  - unfold adapterCheck. rewrite Hs, Hv. exists s. by split_and!.
  - exists s. split_and!; [done..| |done]. intros ? _. by apply Hr.
  - rewrite Hs. simpl. eexists. by split_and!.
  - congruence.
  - exists s. by split_and!.
  - congruence.
Qed.

Lemma adapter_reachable listen flags p0 p :
  extauthMain listen flags = Serving p0 → rtc adapter_step p0 p →
  (ef_Mode flags = "verify" ∧ ∃ s, verifying flags p s) ∨
  (ef_Mode flags = "generate" ∧ ∃ s, generating flags p s).
Proof.
  intros Hmain%extauthMain_start Hsteps. induction Hsteps as [|p p1 p2 Hstep _ IH]; [done|].
  apply IH. destruct Hmain as [(Hm & s & Hs)|(Hm & s & Hs)].
  - left. split; [done|]. by eapply verifying_step.
  - right. split; [done|]. by eapply generating_step.
Qed.

(** What the check of a server without a TTS client answers. *)
Lemma Check_no_client net now s req st hdrs s' :
  sv_ttsClient s = None → Check hrange net now s req = (Some (OkResponse st hdrs), s') →
  OkResponse st hdrs = allowed ∧ ∃ hr, cr_Http req = Some hr ∧
    (isExcluded s (ha_Path hr) (ha_Method hr) = true ∨
     is_ok (sdk_Verify net now (sv_verifier s) (getHeader (ha_Headers hr) HeaderName)).1 = true).
Proof.
  intros Ht. unfold Check. destruct (cr_Http req) as [hr|]; [|done].
  destruct (isExcluded _ _ _) eqn:Hex; [intros [= <- <- _]; eauto|]. destruct (bool_decide _); [done|].
  destruct (sdk_Verify _ _ _ _) as [[claims|e] v] eqn:HV; [|by destruct e].
  destruct (checkVerificationRules _ _ _ _ _ _) as [u|e]; [|by destruct e].
  unfold autoNarrow. simpl. rewrite Ht. simpl. intros [= <- <- _]. split; [done|]. exists hr.
  split; [done|]. right. by rewrite HV.
Qed.

(** A request of neither a bearer token nor a SPIFFE principal has no subject. *)
Lemma subjectTokenOf_no_pods s req authHeader :
  gs_identityResolver s = NewIdentityResolver → HasPrefix authHeader "Bearer " = false →
  (∀ src, cr_Source req = Some src → peer_Principal src = "") →
  is_ok (subjectTokenOf s req authHeader) = false.
Proof.
  intros Hr Hb Hp. unfold subjectTokenOf. rewrite Hb, andb_false_r, Hr.
  assert (match cr_Source req with Some src => peer_Principal src | None => "" end = "") as ->.
  { destruct (cr_Source req); [by apply Hp|done]. }
  unfold Resolve. rewrite bool_decide_true by done. simpl. destruct (negb _) eqn:Hip; [|done].
  unfold ResolveFromPodIP. destruct (bool_decide _); [done|]. simpl. by rewrite lookup_empty.
Qed.

End process.

Module ExtAuthMainExample.
#[local] Existing Instance TTSExample.jwt.
#[local] Existing Instance TTSExample.jwt_laws.
#[local] Existing Instance SdkExample.documents.
#[local] Existing Instance ExtAuthExample.http.

Definition flags (mode : string) : ExtAuthFlags :=
  {| ef_Version := false; ef_TTS := "https://tts/"; ef_JWKS := "https://tts/jwks";
     ef_TrustDomain := "prod"; ef_Mode := mode |}.

Example unknown_mode : ∃ e, extauthMain None (flags "both") = Exited 1 (Some e).
Proof. by eexists. Qed.

(** A rule for [/orders] arrives; a pod calls without a token. *)
Definition rules : StreamResponse ProtoGenerationRule :=
  {| resp_VersionInfo := "1";
     resp_Update := Some (Snapshot [generationRuleToProto (ExtAuthExample.generation_rule "orders" "/orders" "header")]) |}.
Definition from_pod : CheckRequest :=
  {| cr_Http := Some {| ha_Path := "/orders"; ha_Method := "GET"; ha_Headers := ∅; ha_Body := "" |};
     cr_Source := Some {| peer_Principal := ""; peer_SocketAddress := Some "10.0.0.7" |} |}.

End ExtAuthMainExample.
