(* ===== verification/ReconcileSteps.v ===== *)
(** * internal/controller: the reconcilers, call by call

    A reconciliation reads and writes the cluster through several calls, and
    holds no lock between them: the cluster may change before each.  Here a
    reconciler is a program, a tree of calls to the API server ([Ask]) that ends
    by handing rules to the rule server ([Publish]) or with an error.  [run]
    executes a program when nothing else happens: it is then the function of
    [Controller].  [sound] says what a program publishes when anything may happen
    between its calls, in terms of the history of the cluster. *)

From S2P Require Import Prelude GoTime External Issuance Api PolicyRules CelVerify Controller.

Local Open Scope Z_scope.

(** ** Programs *)

(** The calls of [client.Client] the reconcilers make, with what they answer. *)
Inductive ApiCall : Type → Type :=
  | GetTransactionType (key : NamespacedName) : ApiCall (GetResult TransactionType)
  | ListTransactionTypes : ApiCall (result (list TransactionType))
  | UpdateTransactionTypeStatus (obj : TransactionType) : ApiCall (result unit)
  | GetServiceTokenRequirement (key : NamespacedName) : ApiCall (GetResult ServiceTokenRequirement)
  | ListServiceTokenRequirements : ApiCall (result (list ServiceTokenRequirement))
  | UpdateServiceTokenRequirementStatus (obj : ServiceTokenRequirement) : ApiCall (result unit)
  | GetTokenPolicy (key : NamespacedName) : ApiCall (GetResult TokenPolicy)
  | ListTokenPolicies : ApiCall (result (list TokenPolicy))
  | UpdateTokenPolicyStatus (obj : TokenPolicy) : ApiCall (result unit).

(** The calls of the publisher. *)
Inductive Publication : Type :=
  | PublishGeneration (rules : list GenerationRule)
  | PublishVerification (rules : list VerificationRule)
  | PublishIssuance (rules : list PublishedIssuanceRule).

Inductive Prog (A : Type) : Type :=
  | Ret (a : A)
  | Ask {B : Type} (c : ApiCall B) (k : B → Prog A)
  | Publish (pub : Publication) (k : Prog A).
Arguments Ret {_} _.
Arguments Ask {_ _} _ _.
Arguments Publish {_} _ _.

Notation "'ask!' x := c 'in' p" := (Ask c (λ x, p))
  (at level 10, x name, c at level 100, p at level 200).

Inductive Reconciler := TypeReconciler | RequirementReconciler | PolicyReconciler.
#[global] Instance Reconciler_eq_dec : EqDecision Reconciler.
Proof. solve_decision. Defined.
#[global] Instance Reconciler_countable : Countable Reconciler.
Proof.
  refine (inj_countable' (λ r, match r with TypeReconciler => 0 | RequirementReconciler => 1 | PolicyReconciler => 2 end)%nat
    (λ n, match n with 0 => TypeReconciler | 1 => RequirementReconciler | _ => PolicyReconciler end)%nat _).
  by intros [].
Defined.

(** ** The reconcilers as programs *)

Section programs.
Context `{CEL} (range : gmap string TctxFieldMapping → list (string * TctxFieldMapping)).

(** What [findApplicablePolicy] makes of the list it is answered, its error
    dropped. *)
Definition foundPolicy (namespace : string) (listed : result (list TokenPolicy)) : option TokenPolicy :=
  match listed with Ok items => selectPolicy namespace items | Err _ => None end.

(** The loop of [rebuildGenerationRules] over the types listed, with the rules so
    far: the policies are listed again for each type. *)
Fixpoint generationLoop (rules : list GenerationRule) (items : list TransactionType) : Prog (result unit) :=
  match items with
  | [] => Publish (PublishGeneration rules) (Ret (Ok tt))
  | txn :: items =>
    ask! listed := ListTokenPolicies in
    generationLoop
      (rules ++ [generationRuleUnder (foundPolicy (om_Namespace (tt_ObjectMeta txn)) listed) txn]) items
  end.

Definition rebuildGenerationRulesP : Prog (result unit) :=
  ask! listed := ListTransactionTypes in
  match map_err (wrapf "listing TransactionTypes: %w" []) listed with
  | Err e => Ret (Err e)
  | Ok items => generationLoop [] items
  end.

Definition TransactionTypeReconcileP (now1 now2 : Z) (req : NamespacedName) : Prog (result unit) :=
  ask! got := GetTransactionType req in
  match got with
  | NotFound => rebuildGenerationRulesP
  | GetFailed e => Ret (Err e)
  | Found obj =>
    ask! listed := ListTokenPolicies in
    ask! updated := UpdateTransactionTypeStatus
      (reconciledUnder range now1 now2 (foundPolicy (om_Namespace (tt_ObjectMeta obj)) listed) obj) in
    match updated with
    | Err e => Ret (Err e)
    | Ok _ => rebuildGenerationRulesP
    end
  end.

Definition rebuildVerificationRulesP : Prog (result unit) :=
  ask! listed := ListServiceTokenRequirements in
  match map_err (wrapf "listing ServiceTokenRequirements: %w" []) listed with
  | Err e => Ret (Err e)
  | Ok items => Publish (PublishVerification (map verificationRule items)) (Ret (Ok tt))
  end.

Definition ServiceTokenRequirementReconcileP (now : Z) (req : NamespacedName) : Prog (result unit) :=
  ask! got := GetServiceTokenRequirement req in
  match got with
  | NotFound => rebuildVerificationRulesP
  | GetFailed e => Ret (Err e)
  | Found str =>
    ask! updated := UpdateServiceTokenRequirementStatus (reconciledServiceTokenRequirement now str) in
    match updated with
    | Err e => Ret (Err e)
    | Ok _ => rebuildVerificationRulesP
    end
  end.

Definition rebuildIssuanceRulesP : Prog (result unit) :=
  ask! listed := ListTokenPolicies in
  match map_err (wrapf "listing TokenPolicies: %w" []) listed with
  | Err e => Ret (Err e)
  | Ok items => Publish (PublishIssuance (concat (map policyIssuanceRules items))) (Ret (Ok tt))
  end.

Definition TokenPolicyReconcileP (now1 now2 : Z) (req : NamespacedName) : Prog (result unit) :=
  ask! got := GetTokenPolicy req in
  match got with
  | NotFound => rebuildIssuanceRulesP
  | GetFailed e => Ret (Err e)
  | Found policy =>
    ask! updated := UpdateTokenPolicyStatus (reconciledTokenPolicy now1 now2 policy) in
    match updated with
    | Err e => Ret (Err e)
    | Ok _ => rebuildIssuanceRulesP
    end
  end.

Definition reconcileP (r : Reconciler) (now1 now2 : Z) (req : NamespacedName) : Prog (result unit) :=
  match r with
  | TypeReconciler => TransactionTypeReconcileP now1 now2 req
  | RequirementReconciler => ServiceTokenRequirementReconcileP now1 req
  | PolicyReconciler => TokenPolicyReconcileP now1 now2 req
  end.
End programs.

(** ** Calls *)

Section calls.
Context {W P : Type} `{!KubeClient W, !RulePublisher P, !IssuancePublisher P}.

(** What the cluster answers, and what it becomes. *)
Definition answer {B} (c : ApiCall B) (w : W) : B * W :=
  match c in ApiCall B return B * W with
  | GetTransactionType key => (Get_TransactionType w key, w)
  | ListTransactionTypes => (List_TransactionTypes w, w)
  | UpdateTransactionTypeStatus obj => StatusUpdate_TransactionType w obj
  | GetServiceTokenRequirement key => (Get_ServiceTokenRequirement w key, w)
  | ListServiceTokenRequirements => (List_ServiceTokenRequirements w, w)
  | UpdateServiceTokenRequirementStatus obj => StatusUpdate_ServiceTokenRequirement w obj
  | GetTokenPolicy key => (Get_TokenPolicy w key, w)
  | ListTokenPolicies => (List_TokenPolicies w, w)
  | UpdateTokenPolicyStatus obj => StatusUpdate_TokenPolicy w obj
  end.

Definition publish (p : P) (pub : Publication) : P :=
  match pub with
  | PublishGeneration rules => publish_GenerationRules p rules
  | PublishVerification rules => publish_VerificationRules p rules
  | PublishIssuance rules => publish_IssuanceRules p rules
  end.

(** A program with the cluster to itself; a nil publisher is not called. *)
Fixpoint run {A} (p : Prog A) (w : W) (publisher : option P) : A * W * option P :=
  match p with
  | Ret a => (a, w, publisher)
  | Ask c k => let '(b, w) := answer c w in run (k b) w publisher
  | Publish pub k => run k w ((λ p, publish p pub) <$> publisher)
  end.
End calls.

(** ** Undisturbed *)

Section undisturbed.
Context `{CEL} {W P : Type} `{!KubeClient W, !RulePublisher P, !IssuancePublisher P}.
Context (range : gmap string TctxFieldMapping → list (string * TctxFieldMapping)).
Implicit Types (w : W) (publisher : option P).

Lemma foundPolicy_applicable w ns : foundPolicy ns (List_TokenPolicies w) = applicablePolicy w ns.
Proof. unfold applicablePolicy, findApplicablePolicy, foundPolicy. by destruct (List_TokenPolicies w). Qed.

Lemma run_generationLoop rules items w publisher :
  run (generationLoop rules items) w publisher
  = (Ok tt, w, (λ p, publish_GenerationRules p (rules ++ map (generationRule w) items)) <$> publisher).
Proof.
  revert rules. induction items as [|txn items IH]; intros rules; simpl; [by rewrite app_nil_r|].
  rewrite IH, foundPolicy_applicable, <-app_assoc. done.
Qed.

Lemma run_rebuildGeneration w publisher :
  run rebuildGenerationRulesP w publisher
  = let '(r, publisher) := rebuildGenerationRules w publisher in (r, w, publisher).
Proof.
  unfold rebuildGenerationRulesP, rebuildGenerationRules. simpl.
  destruct (List_TransactionTypes w); simpl; [by rewrite run_generationLoop|done].
Qed.

Lemma run_rebuildVerification w publisher :
  run rebuildVerificationRulesP w publisher
  = let '(r, publisher) := rebuildVerificationRules w publisher in (r, w, publisher).
Proof.
  unfold rebuildVerificationRulesP, rebuildVerificationRules. simpl.
  by destruct (List_ServiceTokenRequirements w).
Qed.

Lemma run_rebuildIssuance w publisher :
  run rebuildIssuanceRulesP w publisher
  = let '(r, publisher) := rebuildIssuanceRules w publisher in (r, w, publisher).
Proof.
  unfold rebuildIssuanceRulesP, rebuildIssuanceRules. simpl. by destruct (List_TokenPolicies w).
Qed.

End undisturbed.

(** ** Disturbed *)

Section disturbed.
Context `{CEL} {W : Type} `{!KubeClient W}.
Context (range : gmap string TctxFieldMapping → list (string * TctxFieldMapping)).
Implicit Types (w : W) (ws : list W).

(** The sets published in a history of the cluster, the last state first.
    Requirements and policies are those of one moment.  TransactionTypes are those
    of one moment; the lifetime of each is capped by the policies of that moment
    or of a later one, not the same for all. *)
Definition published_types ws (rules : list GenerationRule) : Prop :=
  ∃ ws1 w ws0 items, ws = ws1 ++ w :: ws0 ∧ List_TransactionTypes w = Ok items ∧
    Forall2 (λ txn rule, ∃ w', w' ∈ ws1 ++ [w] ∧ rule = generationRule w' txn) items rules.
Definition published_requirements ws (rules : list VerificationRule) : Prop :=
  ∃ w items, w ∈ ws ∧ List_ServiceTokenRequirements w = Ok items ∧ rules = map verificationRule items.
Definition published_policies ws (rules : list PublishedIssuanceRule) : Prop :=
  ∃ w items, w ∈ ws ∧ List_TokenPolicies w = Ok items ∧ rules = concat (map policyIssuanceRules items).

(** What a reconciler may publish: only the rules of its own kind. *)
Definition pub_ok (r : Reconciler) ws (pub : Publication) : Prop :=
  match r, pub with
  | TypeReconciler, PublishGeneration rules => published_types ws rules
  | RequirementReconciler, PublishVerification rules => published_requirements ws rules
  | PolicyReconciler, PublishIssuance rules => published_policies ws rules
  | _, _ => False
  end.

(** [sound r ws p]: whatever the cluster becomes before each call of [p], after
    the history [ws], what [p] publishes is a set of the history, it then succeeds
    at once, and without publishing it fails. *)
Fixpoint sound (r : Reconciler) ws (p : Prog (result unit)) : Prop :=
  match p with
  | Ret res => is_ok res = false
  | Ask c k => ∀ ws1 w ws0, ws1 ++ ws = w :: ws0 →
      sound r ((answer c w).2 :: w :: ws0) (k (answer c w).1)
  | Publish pub k => pub_ok r ws pub ∧ k = Ret (Ok tt)
  end.

Lemma published_types_mono ws' ws rules : published_types ws rules → published_types (ws' ++ ws) rules.
Proof.
  intros (ws1 & w & ws0 & items & -> & Hl & HF). exists (ws' ++ ws1), w, ws0, items.
  split_and!; [by rewrite app_assoc|done|]. eapply Forall2_impl; [exact HF|].
  intros txn rule (w' & Hw' & ->). exists w'. split; [|done]. rewrite !elem_of_app in *. tauto.
Qed.

Lemma published_requirements_mono ws' ws rules :
  published_requirements ws rules → published_requirements (ws' ++ ws) rules.
Proof. intros (w & items & Hw & ?). exists w, items. split; [|done]. apply elem_of_app. by right. Qed.

Lemma published_policies_mono ws' ws rules : published_policies ws rules → published_policies (ws' ++ ws) rules.
Proof. intros (w & items & Hw & ?). exists w, items. split; [|done]. apply elem_of_app. by right. Qed.

Lemma pub_ok_mono r ws' ws pub : pub_ok r ws pub → pub_ok r (ws' ++ ws) pub.
Proof.
  destruct r, pub; simpl; try done;
    [apply published_types_mono|apply published_requirements_mono|apply published_policies_mono].
Qed.

(** Time passing keeps a program sound. *)
Lemma sound_mono r ws' ws p : sound r ws p → sound r (ws' ++ ws) p.
Proof.
  destruct p as [res|B c k|pub k]; simpl; [done| |].
  - intros Hp ws1 w ws0 Heq. apply (Hp (ws1 ++ ws')). by rewrite <-app_assoc.
  - intros [Hp ->]. split; [by apply pub_ok_mono|done].
Qed.

Lemma generationLoop_sound ws1 w ws0 items0 items rules :
  List_TransactionTypes w = Ok (items0 ++ items) →
  Forall2 (λ txn rule, ∃ w', w' ∈ ws1 ++ [w] ∧ rule = generationRule w' txn) items0 rules →
  sound TypeReconciler (ws1 ++ w :: ws0) (generationLoop rules items).
Proof.
  revert ws1 items0 rules. induction items as [|txn items IH]; intros ws1 items0 rules Hl HF; simpl.
  - split; [|done]. exists ws1, w, ws0, items0. rewrite app_nil_r in Hl. done.
  - intros ws2 w1 ws3 Heq.
    replace (w1 :: w1 :: ws3) with ((w1 :: ws2 ++ ws1) ++ w :: ws0) by (simpl; by rewrite <-app_assoc, Heq).
    apply (IH _ (items0 ++ [txn])); [by rewrite <-app_assoc|].
    apply Forall2_app.
    + eapply Forall2_impl; [exact HF|]. intros t rule (w' & Hw' & ->). exists w'. split; [|done].
      rewrite <-app_comm_cons, elem_of_cons, !elem_of_app. apply elem_of_app in Hw'. tauto.
    + constructor; [|constructor]. exists w1. split; [by left|]. by rewrite foundPolicy_applicable.
Qed.

Lemma rebuildGeneration_sound ws : sound TypeReconciler ws rebuildGenerationRulesP.
Proof.
  intros ws1 w ws0 _. simpl. destruct (List_TransactionTypes w) as [items|e] eqn:Hl; simpl; [|done].
  apply (generationLoop_sound [w] w ws0 []); [done|constructor].
Qed.

Lemma rebuildVerification_sound ws : sound RequirementReconciler ws rebuildVerificationRulesP.
Proof.
  intros ws1 w ws0 _. simpl. destruct (List_ServiceTokenRequirements w) as [items|e] eqn:Hl; simpl; [|done].
  split; [|done]. exists w, items. split_and!; [by left|done..].
Qed.

Lemma rebuildIssuance_sound ws : sound PolicyReconciler ws rebuildIssuanceRulesP.
Proof.
  intros ws1 w ws0 _. simpl. destruct (List_TokenPolicies w) as [items|e] eqn:Hl; simpl; [|done].
  split; [|done]. exists w, items. split_and!; [by left|done..].
Qed.

(** Every reconciliation is sound, from the moment it begins. *)
Lemma reconcileP_sound r now1 now2 req ws : sound r ws (reconcileP range r now1 now2 req).
Proof.
  destruct r; simpl.
  - intros ws1 w ws0 _. destruct (Get_TransactionType w req) as [obj| |e];
      [|apply (sound_mono _ [w; w]), rebuildGeneration_sound|done].
    intros ws2 w2 ws3 _ ws4 w4 ws5 _. cbn [answer]. destruct (StatusUpdate_TransactionType _ _) as [[]];
      [apply rebuildGeneration_sound|done].
  - intros ws1 w ws0 _. destruct (Get_ServiceTokenRequirement w req) as [str| |e];
      [|apply rebuildVerification_sound|done].
    intros ws2 w2 ws3 _. cbn [answer]. destruct (StatusUpdate_ServiceTokenRequirement _ _) as [[]];
      [apply rebuildVerification_sound|done].
  - intros ws1 w ws0 _. destruct (Get_TokenPolicy w req) as [policy| |e];
      [|apply rebuildIssuance_sound|done].
    intros ws2 w2 ws3 _. cbn [answer]. destruct (StatusUpdate_TokenPolicy _ _) as [[]];
      [apply rebuildIssuance_sound|done].
Qed.
End disturbed.
