(* ===== verification/ControllerMain.v ===== *)
(** * cmd/controller: the controller as a process

    [controllerMain] is [main]: the three reconcilers share one rule server,
    which is also the gRPC service.  [SetupWithManager] registers a reconciler for
    the objects of one kind; the manager is controller-runtime's: for a change of
    an object of a kind it starts the reconcilers registered for it, and each runs
    one reconciliation at a time, as is its default.  A step of the process,
    [controller_step], is the begin of a reconciliation, one call of one that is
    running, a change of the cluster by anybody else, or a step of a stream; so
    the cluster may change between any two calls, and reconciliations of different
    kinds overlap.  [controller_run] records the states of the cluster: those the
    manager's client answers from. *)

From stdpp Require Import relations.
From S2P Require Import Prelude GoStrings GoTime External Keys Issuance Authn TTSHandler.
From S2P Require Import Api PolicyRules CelVerify Controller GoSort RulesProto RuleServer RuleServerProps RuleClient.
From S2P Require Import Pipeline TTSRuleClient Instances ControllerProps ExtAuthProps ReconcileSteps TTSMain.

Local Open Scope Z_scope.

(** The errors that can end [main] before it serves. *)
Record ControllerStart := {
  cs_Version : bool; cs_GrpcAddr : string;
  cs_NewManager : option error; cs_Listen : option error;
  cs_SetupTypes : option error; cs_SetupRequirements : option error; cs_SetupPolicies : option error;
}.

(** ** The registrations *)

Inductive Kind := KindTransactionType | KindServiceTokenRequirement | KindTokenPolicy.
#[global] Instance Kind_eq_dec : EqDecision Kind.
Proof. solve_decision. Defined.

(** The controllers built: what [For] names and what [Complete] is given. *)
Definition Registrations : Type := list (Kind * Reconciler).

Definition TransactionTypeReconciler_SetupWithManager (mgr : Registrations) : Registrations :=
  mgr ++ [(KindTransactionType, TypeReconciler)].
Definition ServiceTokenRequirementReconciler_SetupWithManager (mgr : Registrations) : Registrations :=
  mgr ++ [(KindServiceTokenRequirement, RequirementReconciler)].
Definition TokenPolicyReconciler_SetupWithManager (mgr : Registrations) : Registrations :=
  mgr ++ [(KindTokenPolicy, PolicyReconciler)].

(** What [main] registers. *)
Definition registered : Registrations :=
  TokenPolicyReconciler_SetupWithManager
    (ServiceTokenRequirementReconciler_SetupWithManager (TransactionTypeReconciler_SetupWithManager [])).

Definition called (k : Kind) : list Reconciler := map snd (filter (λ p, p.1 = k) registered).

(** ** The process *)

(** The cluster, the rule server and what each reconciler is doing. *)
Record ControllerProcess (W : Type) := {
  cp_cluster : W;
  cp_server : RuleServer;
  cp_running : gmap Reconciler (Prog (result unit));
}.
Arguments cp_cluster {_} _.
Arguments cp_server {_} _.
Arguments cp_running {_} _.
Arguments Build_ControllerProcess {_} _ _ _.

Definition controllerMain {W} (c : ControllerStart) (w : W) : Started (ControllerProcess W) :=
  if cs_Version c then Exited 0 None else
  match cs_NewManager c with
  | Some e => Exited 1 (Some (wrapf "unable to create manager: %v" [] e))
  | None =>
    let rs := NewRuleServer in
    match cs_Listen c with
    | Some e => Exited 1 (Some (wrapf "unable to listen on gRPC address %s: %v" [cs_GrpcAddr c] e))
    | None =>
      match cs_SetupTypes c with
      | Some e => Exited 1 (Some (wrapf "unable to create TransactionType controller: %v" [] e))
      | None =>
        match cs_SetupRequirements c with
        | Some e => Exited 1 (Some (wrapf "unable to create ServiceTokenRequirement controller: %v" [] e))
        | None =>
          match cs_SetupPolicies c with
          | Some e => Exited 1 (Some (wrapf "unable to create TokenPolicy controller: %v" [] e))
          | None => Serving (Build_ControllerProcess w rs ∅)
          end
        end
      end
    end
  end.

(** ** What a feed sends *)

(** Every message under way is a whole set that satisfies [Q], and so does the
    current set, unless nothing was published yet. *)
Definition sends {R P} (toProto : list R → list P) (Q : list R → Prop) (f : Feed R P) : Prop :=
  ((fd_version f = 0 ∧ fd_rules f = []) ∨ Q (fd_rules f)) ∧
  ∀ id ch resp, fd_subscribers f !! id = Some ch → resp ∈ ch →
    ∃ rules, resp_Update resp = Some (Snapshot (toProto rules)) ∧ Q rules.

Section sends.
Context {R P : Type} (toProto : list R → list P) (Q : list R → Prop).
Implicit Types f : Feed R P.

Lemma sends_mono (Q' : list R → Prop) f : (∀ l, Q l → Q' l) → sends toProto Q f → sends toProto Q' f.
Proof.
  intros HQ [Hr Hs]. split; [naive_solver|]. intros id ch resp Hch Hin.
  destruct (Hs id ch resp Hch Hin) as (rules & ? & ?). eauto.
Qed.

Lemma sends_update f rules :
  Q rules → sends toProto Q f → sends toProto Q (broadcast f rules (Snapshot (toProto rules))).
Proof.
  intros HQ [_ Hs]. split; [by right|]. intros id ch resp. simpl. rewrite lookup_fmap_Some.
  intros (ch' & <- & Hch) Hin. unfold trySend in Hin. destruct (_ <? _)%nat; [|by eapply Hs].
  apply elem_of_app in Hin as [Hin|Hin]; [by eapply Hs|].
  apply list_elem_of_singleton in Hin as ->. by exists rules.
Qed.

Lemma sends_subscribe f id : sends toProto Q f → sends toProto Q (subscribe f id).
Proof.
  intros [Hr Hs]. split; [done|]. intros id' ch resp. simpl.
  rewrite lookup_insert_Some. intros [[_ <-]|[_ Hch]]; [by intros ?%elem_of_nil|by eapply Hs].
Qed.

Lemma sends_take f id m f' : takeMessage f id = Some (m, f') → sends toProto Q f → sends toProto Q f'.
Proof.
  unfold takeMessage. destruct (fd_subscribers f !! id) as [[|m' ch]|] eqn:Hid; [done| |done].
  intros [= <- <-] [Hr Hs]. split; [done|]. intros id' ch' resp. simpl.
  rewrite lookup_insert_Some. intros [[_ <-]|[_ Hch]]; [|by eapply Hs].
  intros Hin. eapply Hs; [done|]. by right.
Qed.

Lemma sends_leave f id : sends toProto Q f → sends toProto Q (unsubscribe f id).
Proof.
  intros [Hr Hs]. split; [done|]. intros id' ch resp. simpl.
  rewrite lookup_delete_Some. intros [_ Hch]. by eapply Hs.
Qed.
End sends.

#[local] Hint Resolve sends_update sends_subscribe sends_take sends_leave : kontxt.

Section process.
Context `{CEL} {W : Type} `{!KubeClient W}.
Context (frange : gmap string TctxFieldMapping → list (string * TctxFieldMapping)).

(** What the RPCs do to the server: streams open, forward and close. *)
Inductive stream_step : relation RuleServer :=
  | open_generation s : stream_step s (StreamGenerationRules s).2
  | open_verification s : stream_step s (StreamVerificationRules s).2
  | open_issuance s : stream_step s (StreamIssuanceRules s).2
  | take_generation s id m f : takeMessage (gen s) id = Some (m, f) → stream_step s (set_gen s f)
  | take_verification s id m f : takeMessage (ver s) id = Some (m, f) → stream_step s (set_ver s f)
  | take_issuance s id m f : takeMessage (iss s) id = Some (m, f) → stream_step s (set_iss s f)
  | leave_generation s id : stream_step s (set_gen s (unsubscribe (gen s) id))
  | leave_verification s id : stream_step s (set_ver s (unsubscribe (ver s) id))
  | leave_issuance s id : stream_step s (set_iss s (unsubscribe (iss s) id)).

(** What the manager sees of a step. *)
Inductive Event : Type :=
  | Began (k : Kind) (r : Reconciler) (req : NamespacedName)
  | Ended (r : Reconciler) (res : result unit)
  | Silent.

(** A reconciliation after one of its calls: it goes on, or has ended. *)
Definition resume (running : gmap Reconciler (Prog (result unit))) (r : Reconciler) (p : Prog (result unit))
  : gmap Reconciler (Prog (result unit)) :=
  match p with Ret _ => delete r running | _ => <[r := p]> running end.
Definition ended (r : Reconciler) (p : Prog (result unit)) : Event :=
  match p with Ret res => Ended r res | _ => Silent end.

Inductive controller_step : ControllerProcess W → Event → ControllerProcess W → Prop :=
  | reconcile_begins w s rn k r req now1 now2 :
      r ∈ called k → rn !! r = None →
      controller_step (Build_ControllerProcess w s rn) (Began k r req)
        (Build_ControllerProcess w s (<[r := reconcileP frange r now1 now2 req]> rn))
  | reconcile_asks w s rn r B (c : ApiCall B) k b w' :
      rn !! r = Some (Ask c k) → answer c w = (b, w') →
      controller_step (Build_ControllerProcess w s rn) (ended r (k b))
        (Build_ControllerProcess w' s (resume rn r (k b)))
  | reconcile_publishes w s rn r pub p :
      rn !! r = Some (Publish pub p) →
      controller_step (Build_ControllerProcess w s rn) (ended r p)
        (Build_ControllerProcess w (publish s pub) (resume rn r p))
  | cluster_changes w s rn w' :
      controller_step (Build_ControllerProcess w s rn) Silent (Build_ControllerProcess w' s rn)
  | stream_rpc w s rn s' : stream_step s s' →
      controller_step (Build_ControllerProcess w s rn) Silent (Build_ControllerProcess w s' rn).

(** A run from a process, with the cluster's states, the last one first. *)
Inductive controller_run (p0 : ControllerProcess W) : list W → ControllerProcess W → Prop :=
  | run_start : controller_run p0 [cp_cluster p0] p0
  | run_step ws p l p' :
      controller_run p0 ws p → controller_step p l p' → controller_run p0 (cp_cluster p' :: ws) p'.

(** The same run, with what the manager sees of each step and the cluster after it. *)
Inductive controller_trace (p0 : ControllerProcess W) : list (Event * W) → ControllerProcess W → Prop :=
  | trace_start : controller_trace p0 [] p0
  | trace_step t p l p' :
      controller_trace p0 t p → controller_step p l p' → controller_trace p0 ((l, cp_cluster p') :: t) p'.

Lemma trace_next p0 t p l p' w :
  controller_trace p0 t p → controller_step p l p' → cp_cluster p' = w → controller_trace p0 ((l, w) :: t) p'.
Proof. intros Ht Hstep <-. by eapply trace_step. Qed.

Definition clusters (p0 : ControllerProcess W) (t : list (Event * W)) : list W := t.*2 ++ [cp_cluster p0].

Lemma trace_run p0 t p : controller_trace p0 t p → controller_run p0 (clusters p0 t) p.
Proof. induction 1; [constructor|]. by eapply run_step. Qed.

Lemma trace_split p0 t1 t2 p :
  controller_trace p0 (t2 ++ t1) p → ∃ p1, controller_trace p0 t1 p1 ∧ controller_trace p1 t2 p.
Proof.
  revert p. induction t2 as [|[l w] t2 IH]; simpl; intros p Ht; [exists p; split; [done|constructor]|].
  inversion Ht as [|t q l' p' Hq Hstep]; subst. destruct (IH q Hq) as (p1 & H1 & H2).
  exists p1. split; [done|]. by eapply trace_step.
Qed.

(** The calls of a reconciliation that nothing else interrupts. *)
Fixpoint calls (r : Reconciler) (p : Prog (result unit)) (w : W) (t : list (Event * W)) : list (Event * W) :=
  match p with
  | Ret _ => t
  | Ask c k => let '(b, w') := answer c w in calls r (k b) w' ((ended r (k b), w') :: t)
  | Publish pub k => calls r k w ((ended r k, w) :: t)
  end.

(** They are steps of the process, with the effect of [run]. *)
Lemma undisturbed_trace p0 t w s rn r p :
  controller_trace p0 t (Build_ControllerProcess w s rn) → rn !! r = Some p → (∀ res, p ≠ Ret res) →
  ∃ res w' s', run p w (Some s) = (res, w', Some s') ∧
    controller_trace p0 (calls r p w t) (Build_ControllerProcess w' s' (delete r rn)).
Proof.
  revert t w s rn. induction p as [res|B c k IH|pub k IH]; intros t w s rn Ht Hr Hp; [by destruct (Hp res)| |]; simpl.
  - destruct (answer c w) as [b w'] eqn:Ha.
    pose proof (trace_step p0 t _ _ _ Ht (reconcile_asks w s rn r B c k b w' Hr Ha)) as Ht'. simpl in Ht'.
    specialize (IH b ((ended r (k b), w') :: t) w' s (resume rn r (k b))).
    destruct (k b) as [res| |] eqn:Hk; simpl in *; [by exists res, w', s|..].
    all: destruct IH as (res & w1 & s1 & HR & Htr); [done|by rewrite lookup_insert_eq|done|].
    all: exists res, w1, s1; rewrite delete_insert_eq in Htr; done.
  - pose proof (trace_step p0 t _ _ _ Ht (reconcile_publishes w s rn r pub k Hr)) as Ht'. simpl in Ht'.
    specialize (IH ((ended r k, w) :: t) w (publish s pub) (resume rn r k)).
    destruct k as [res| |] eqn:Hk; simpl in *; [by exists res, w, (publish s pub)|..].
    all: destruct IH as (res & w1 & s1 & HR & Htr); [done|by rewrite lookup_insert_eq|done|].
    all: exists res, w1, s1; rewrite delete_insert_eq in Htr; done.
Qed.

Lemma controller_run_head p0 ws p : controller_run p0 ws p → ∃ ws0, ws = cp_cluster p :: ws0.
Proof. destruct 1; eauto. Qed.

(** ** Invariants of a run *)

Record serves_cluster (ws : list W) (s : RuleServer) : Prop := {
  sc_gen : sends generationRulesToProto (published_types ws) (gen s);
  sc_ver : sends verificationRulesToProto (published_requirements ws) (ver s);
  sc_iss : sends issuanceRulesToProto (published_policies ws) (iss s);
}.

Lemma serves_cluster_start ws : serves_cluster ws NewRuleServer.
Proof. split; (split; [by left|intros id ch resp Hch; simplify_map_eq]). Qed.

Lemma serves_cluster_mono w ws s : serves_cluster ws s → serves_cluster (w :: ws) s.
Proof.
  intros [Hg Hv Hi]. split; (eapply sends_mono; [|done]); intros l.
  - apply (published_types_mono [w]).
  - apply (published_requirements_mono [w]).
  - apply (published_policies_mono [w]).
Qed.

Lemma stream_step_serves ws s s' : stream_step s s' → serves_cluster ws s → serves_cluster ws s'.
Proof. intros Hstep [Hg Hv Hi]. destruct Hstep; split; simpl; eauto with kontxt. Qed.

Lemma stream_step_server s s' : stream_step s s' → server_step s s'.
Proof. destruct 1; by econstructor. Qed.

(** A publication is an update of one of the feeds. *)
Lemma publish_server s pub : server_step s (publish s pub).
Proof. destruct pub; constructor. Qed.

Lemma publish_serves ws r s pub : pub_ok r ws pub → serves_cluster ws s → serves_cluster ws (publish s pub).
Proof.
  intros Hp [Hg Hv Hi]. destruct r, pub; try done; split; try done; by apply sends_update.
Qed.

(** The running reconciliations are sound for the history [ws]. *)
Definition running_ok (ws : list W) (p : ControllerProcess W) : Prop :=
  ∀ r prog, cp_running p !! r = Some prog → sound r ws prog.

Lemma resume_other rn r r' p : r' ≠ r → resume rn r p !! r' = rn !! r'.
Proof. intros Hne. destruct p; simpl; by rewrite ?lookup_insert_ne, ?lookup_delete_ne. Qed.

Lemma resume_same rn r p : resume rn r p !! r = match p with Ret _ => None | _ => Some p end.
Proof. destruct p; simpl; by rewrite ?lookup_insert_eq, ?lookup_delete_eq. Qed.

(** One step seen from a reconciliation: it goes on and stays sound, or ends. *)
Lemma step_running ws0 r prog p l p' :
  controller_step p l p' → cp_running p !! r = Some prog → sound r (cp_cluster p :: ws0) prog →
  (∃ prog', cp_running p' !! r = Some prog' ∧ sound r (cp_cluster p' :: cp_cluster p :: ws0) prog' ∧
     ∀ res, l ≠ Ended r res) ∨
  (cp_running p' !! r = None ∧
   ((∃ res, l = Ended r res ∧ is_ok res = false ∧ cp_server p' = cp_server p) ∨
    (l = Ended r (Ok tt) ∧ ∃ pub, pub_ok r (cp_cluster p :: ws0) pub ∧ cp_server p' = publish (cp_server p) pub))).
Proof.
  intros Hstep Hr Hs. pose proof (sound_mono r [cp_cluster p'] _ _ Hs) as Hs'.
  destruct Hstep as [w s rn k r1 req now1 now2 Hk Hn|w s rn r1 B c k b w' Hr1 Ha|w s rn r1 pub q Hr1|w s rn w'
    |w s rn s' Hst]; simpl in *; try (left; exists prog; by split_and!).
  - left. exists prog. split_and!; [|done|done]. rewrite lookup_insert_ne; [done|]. by intros ->; simplify_eq.
  - destruct (decide (r = r1)) as [->|Hne].
    + rewrite Hr1 in Hr. injection Hr as <-. simpl in Hs. specialize (Hs [] w ws0 eq_refl). rewrite Ha in Hs.
      simpl in Hs. rewrite resume_same. destruct (k b) as [res|B' c' k'|pub q]; simpl.
      * right. split; [done|]. left. by exists res.
      * left. eexists. by split_and!.
      * left. eexists. by split_and!.
    + left. exists prog. rewrite resume_other by done. split_and!; [done..|]. intros res.
      destruct (k b); simpl; congruence.
  - destruct (decide (r = r1)) as [->|Hne].
    + rewrite Hr1 in Hr. injection Hr as <-. simpl in Hs. destruct Hs as [Hp ->]. simpl.
      rewrite lookup_delete_eq. right. split; [done|]. right. split; [done|]. by exists pub.
    + left. exists prog. rewrite resume_other by done. split_and!; [done..|]. intros res.
      destruct q; simpl; congruence.
Qed.

(** One step of the process: a reconciliation publishes and ends well, or the
    server moves by a step of a stream, or not at all. *)
Lemma controller_step_cases ws0 p l p' :
  controller_step p l p' → running_ok (cp_cluster p :: ws0) p →
  running_ok (cp_cluster p' :: cp_cluster p :: ws0) p' ∧
  ((∃ r pub, l = Ended r (Ok tt) ∧ pub_ok r (cp_cluster p :: ws0) pub ∧
      cp_server p' = publish (cp_server p) pub) ∨
   ((∀ r, l ≠ Ended r (Ok tt)) ∧ (cp_server p' = cp_server p ∨ stream_step (cp_server p) (cp_server p')))).
Proof.
  intros Hstep Hok. split.
  - intros r prog Hr'. destruct (cp_running p !! r) as [prog0|] eqn:Hr.
    + destruct (step_running ws0 r prog0 p l p' Hstep Hr (Hok _ _ Hr)) as [(prog' & H1 & H2 & _)|[H1 _]]; congruence.
    + destruct Hstep as [w s rn k r1 req now1 now2 Hk Hn|w s rn r1 B c k b w' Hr1 Ha|w s rn r1 pub q Hr1|w s rn w'
        |w s rn s' Hst]; simpl in *; try congruence.
      * destruct (decide (r1 = r)) as [->|]; [|rewrite lookup_insert_ne in Hr' by done; congruence].
        rewrite lookup_insert_eq in Hr'. injection Hr' as <-. apply reconcileP_sound.
      * destruct (decide (r = r1)) as [->|]; [congruence|]. rewrite resume_other in Hr' by done. congruence.
      * destruct (decide (r = r1)) as [->|]; [congruence|]. rewrite resume_other in Hr' by done. congruence.
  - destruct Hstep as [w s rn k r1 req now1 now2 Hk Hn|w s rn r1 B c k b w' Hr1 Ha|w s rn r1 pub q Hr1|w s rn w'
      |w s rn s' Hst]; simpl in *; try (right; split; [done|by auto]).
    + right. split; [|by left]. intros r Heq. pose proof (Hok r1 _ Hr1) as Hs. simpl in Hs.
      specialize (Hs [] w ws0 eq_refl). rewrite Ha in Hs. simpl in Hs.
      destruct (k b) as [res| |]; simpl in *; [|done..]. by simplify_eq/=.
    + left. pose proof (Hok r1 _ Hr1) as Hs. simpl in Hs. destruct Hs as [Hp ->]. by exists r1, pub.
Qed.

(** What a run keeps. *)
Record run_ok (ws : list W) (p : ControllerProcess W) : Prop := {
  ro_running : running_ok ws p;
  ro_serves : serves_cluster ws (cp_server p);
}.

Lemma controller_step_ok ws0 p l p' :
  controller_step p l p' → run_ok (cp_cluster p :: ws0) p →
  (cp_server p' = cp_server p ∨ server_step (cp_server p) (cp_server p')) ∧
  run_ok (cp_cluster p' :: cp_cluster p :: ws0) p'.
Proof.
  intros Hstep [Hr Hs]. destruct (controller_step_cases ws0 p l p' Hstep Hr) as [Hr' Hc].
  destruct Hc as [(r & pub & _ & Hp & Heq)|(_ & [Heq|Hst])].
  - rewrite Heq. split; [right; apply publish_server|]. split; [done|]. rewrite Heq.
    by apply serves_cluster_mono, (publish_serves _ r).
  - rewrite Heq. split; [by left|]. split; [done|]. rewrite Heq. by apply serves_cluster_mono.
  - split; [right; by apply stream_step_server|]. split; [done|].
    apply serves_cluster_mono. by eapply stream_step_serves.
Qed.

Lemma controllerMain_start c (w0 : W) p0 :
  controllerMain c w0 = Serving p0 → p0 = Build_ControllerProcess w0 NewRuleServer ∅.
Proof. unfold controllerMain. intros Hmain. by repeat (case_match; simplify_eq/=). Qed.

Lemma controller_run_ok c w0 p0 ws p :
  controllerMain c w0 = Serving p0 → controller_run p0 ws p →
  run_ok ws p ∧ ∃ n, (n < length ws)%nat ∧ nsteps server_step n NewRuleServer (cp_server p).
Proof.
  intros ->%controllerMain_start Hrun. induction Hrun as [|ws p l p' Hrun [Hs (n & Hn & Hsteps)] Hstep].
  - split; [split; [by intros r prog ?|apply serves_cluster_start]|].
    exists 0%nat. split; [simpl; lia|constructor].
  - destruct (controller_run_head _ _ _ Hrun) as [ws0 ->].
    destruct (controller_step_ok ws0 p l p' Hstep Hs) as [Hrc Hs']. split; [done|]. simpl in *.
    destruct Hrc as [Heq|Hserver].
    + exists n. rewrite Heq. split; [lia|done].
    + exists (S n). split; [lia|]. by eapply nsteps_r.
Qed.
End process.

(** ** What a TTS makes of it *)

Section receiver.
Context `{CEL, Crypto} {W : Type} `{!KubeClient W} {A V : Type}.
Context (frange : gmap string TctxFieldMapping → list (string * TctxFieldMapping)).
Context (range : gmap issuanceKey PublishedIssuanceRule → list (issuanceKey * PublishedIssuanceRule)).

Lemma published_policies_valid (ws : list W) rules r :
  published_policies ws rules → r ∈ rules → issuance_cel_valid (pir_CEL r).
Proof. intros (w & items & _ & _ & ->). apply published_valid. Qed.

(** A whole set whose rules compile is taken over, whatever came before. *)
Lemma snapshot_accepted (tc : TTSRuleClient (HandlerSetter A V)) m resp rules :
  (∀ m, range_order m (range m)) → is_Some (hs_Handler (setter tc)) →
  resp_Update resp = Some (Snapshot (issuanceRulesToProto rules)) →
  (∀ r, r ∈ rules → issuance_cel_valid (pir_CEL r)) →
  synced (onIssuanceResponse range tc m resp).1 = true.
Proof.
  intros Hrange [h Hh] Hresp Hv. unfold onIssuanceResponse, installIssuance. rewrite Hresp. simpl.
  unfold issuanceRulesToProto. rewrite insertAll_map by apply issuance_roundtrip.
  destruct (HandlerSetter_ok (setter tc) h
    (sortBy issuanceSortKey (range (rules_map keyFor rules)).*2) Hh) as (compiled & _ & HS).
  { intros r Hr. rewrite sortBy_Permutation in Hr. apply list_elem_of_fmap in Hr as ([k r'] & -> & Hin).
    apply (range_order_elem (rules_map keyFor rules)) in Hin; [|apply Hrange].
    by eapply Hv, rules_map_elem. }
  unfold rules_map in HS. by rewrite HS.
Qed.

(** C17.  A running controller serves the cluster and nothing else: after any
    sequence of reconciliations that succeed or fail, with the cluster changing
    between any two of their calls and reconciliations of different kinds
    overlapping, and of streams that open, forward and close, the rule server is
    well-formed.  Until the first publication a feed is empty; after it, the rules
    it holds and every message under way are a whole set: all the
    ServiceTokenRequirements, or all the TokenPolicies, of the cluster as it was at
    one moment of the run; or all the TransactionTypes of one moment, each with its
    lifetime capped by the policies of that moment or of a later one (they are
    listed again for each type).  And a token service that receives any such
    message becomes ready, whatever it had received before, since no rule it would
    refuse is ever published. *)
Theorem controller_process_sound c (w0 : W) p0 ws p (tc : TTSRuleClient (HandlerSetter A V)) m :
  controllerMain c w0 = Serving p0 → controller_run frange p0 ws p → Z.of_nat (length ws) < 2 ^ 64 →
  (∀ m, range_order m (range m)) → is_Some (hs_Handler (setter tc)) →
  server_ok (Z.of_nat (length ws)) (cp_server p) ∧ serves_cluster ws (cp_server p) ∧
  ∀ resp, resp = (StreamIssuanceRules (cp_server p)).1.2 ∨
          (∃ id ch, fd_subscribers (iss (cp_server p)) !! id = Some ch ∧ resp ∈ ch) →
    synced (onIssuanceResponse range tc m resp).1 = true.
Proof.
  intros Hmain Hrun Hb Hrange Hc.
  destruct (controller_run_ok frange c w0 p0 ws p Hmain Hrun) as [[_ Hs] (n & Hn & Hsteps)].
  split_and!; [|done|].
  - apply (server_ok_mono (Z.of_nat n)); [lia|]. apply server_reachable_ok; [done|lia].
  - destruct Hs as [_ _ [Hcur Hch]]. intros resp [->|(id & ch & Hid & Hin)].
    + eapply snapshot_accepted; [done|done|reflexivity|]. intros r. simpl.
      destruct Hcur as [[_ ->]|Hcur]; [by intros ?%elem_of_nil|]. by eapply published_policies_valid.
    + destruct (Hch id ch resp Hid Hin) as (rules & Hr & HQ).
      eapply snapshot_accepted; [done..|]. intros r. by eapply published_policies_valid.
Qed.
End receiver.

Module ControllerMainExample.
Definition flags : ControllerStart :=
  {| cs_Version := false; cs_GrpcAddr := ":9090"; cs_NewManager := None; cs_Listen := None;
     cs_SetupTypes := None; cs_SetupRequirements := None; cs_SetupPolicies := None |}.

Definition start : ControllerProcess ApiStore :=
  Build_ControllerProcess ControllerExample.store NewRuleServer ∅.

(** A TTS connects before the policy is reconciled and again after. *)
Definition opened : RuleServer := (StreamIssuanceRules NewRuleServer).2.
Definition reconciled : RuleServer := UpdateIssuanceRules opened ControllerExample.published.

Definition program : Prog (result unit) :=
  reconcileP map_to_list PolicyReconciler 1 2 (ControllerExample.request "limits").
Definition event : Event := Began KindTokenPolicy PolicyReconciler (ControllerExample.request "limits").

(** The reconciliation begins, gets the policy, updates its status, lists the
    policies and publishes. *)
Lemma policy_trace p0 t :
  controller_trace map_to_list p0 t (Build_ControllerProcess ControllerExample.store opened ∅) →
  controller_trace map_to_list p0
    (calls PolicyReconciler program ControllerExample.store ((event, ControllerExample.store) :: t))
    (Build_ControllerProcess ControllerExample.store' reconciled ∅).
Proof.
  intros Ht.
  assert (controller_trace map_to_list p0 ((event, ControllerExample.store) :: t)
    (Build_ControllerProcess ControllerExample.store opened {[ PolicyReconciler := program ]})) as Hb.
  { eapply trace_next; [exact Ht|apply (reconcile_begins map_to_list _ _ ∅ KindTokenPolicy PolicyReconciler _ 1 2)|done];
      [by left|done]. }
  destruct (undisturbed_trace map_to_list p0 _ _ _ _ PolicyReconciler program Hb) as (res & w' & s' & Hrun & Htr);
    [done|done|]. vm_compute in Hrun. injection Hrun as <- <- <-. exact Htr.
Qed.

(** The states of the cluster, from the opening of the stream on. *)
Definition history : list ApiStore :=
  let w := ControllerExample.store in
  let w' := ControllerExample.store' in [w'; w'; w'; w; w; w; w].

Lemma policy_run :
  controller_run map_to_list start history (Build_ControllerProcess ControllerExample.store' reconciled ∅).
Proof.
  pose proof (policy_trace start [(Silent, ControllerExample.store)]) as Ht. apply trace_run in Ht; [exact Ht|].
  eapply trace_next; [apply trace_start|apply stream_rpc, open_issuance|done].
Qed.

Lemma controller_process_sound_witness :
  fd_rules (iss reconciled) = ControllerExample.published ∧
  synced (onIssuanceResponse map_to_list ControllerExample.client ∅ (StreamIssuanceRules reconciled).1.2).1 = true.
Proof.
  split; [reflexivity|].
  destruct (controller_process_sound map_to_list map_to_list flags ControllerExample.store start history
    (Build_ControllerProcess ControllerExample.store' reconciled ∅) ControllerExample.client ∅) as (_ & _ & Hsync).
  - reflexivity.
  - apply policy_run.
  - simpl. lia.
  - intros m. apply ControllerExample.range_order_refl.
  - eexists. reflexivity.
  - apply Hsync. by left.
Defined.
End ControllerMainExample.
