(* ===== verification/GoHeap.v ===== *)
(** * Go's memory: references, sharing and copying

    Slices, maps and pointers are references to cells of a heap; a struct is
    kept in place.  A slice has the whole of its array.  [same t h1 v1 h2 v2]
    says that [v1], read in [h1], and [v2], read in [h2], are equal values of
    the type [t], as [reflect.DeepEqual] would find them; a value is well-typed
    when it is the same as itself.  A copy is deep when it is the same as the
    original read in the cells the copying allocated, and in these alone. *)

From S2P Require Import Prelude.

(** ** Values, cells and types *)

Definition loc : Type := nat.

Inductive gval : Type :=
  | VString (s : string)
  | VBool (b : bool)
  | VInt (z : Z)
  | VStruct (fields : gmap string gval)
  | VRef (r : option loc).

Inductive cell : Type :=
  | CArray (vs : list gval)
  | CMap (m : gmap string gval)
  | CVal (v : gval).

Abbreviation heap := (gmap loc cell).

Inductive ty : Type :=
  | TString
  | TBool
  | TInt
  | TStruct (fields : list (string * ty))
  | TSlice (t : ty)
  | TMap (t : ty)
  | TPtr (t : ty).

Section ty_ind.
Context (P : ty → Prop).
Context (HString : P TString) (HBool : P TBool) (HInt : P TInt).
Context (HStruct : ∀ fields, Forall (λ ft, P ft.2) fields → P (TStruct fields)).
Context (HSlice : ∀ t, P t → P (TSlice t)) (HMap : ∀ t, P t → P (TMap t)) (HPtr : ∀ t, P t → P (TPtr t)).

Fixpoint ty_rect_fields (t : ty) : P t :=
  match t with
  | TString => HString
  | TBool => HBool
  | TInt => HInt
  | TStruct fields =>
    HStruct fields ((fix go fields : Forall (λ ft, P ft.2) fields :=
      match fields with
      | [] => Forall_nil_2 _
      | ft :: fields => Forall_cons_2 _ ft fields (ty_rect_fields ft.2) (go fields)
      end) fields)
  | TSlice t => HSlice t (ty_rect_fields t)
  | TMap t => HMap t (ty_rect_fields t)
  | TPtr t => HPtr t (ty_rect_fields t)
  end.
End ty_ind.

(** A type without references. *)
Fixpoint flat (t : ty) : bool :=
  match t with
  | TString | TBool | TInt => true
  | TStruct fields => forallb (λ ft, flat ft.2) fields
  | _ => false
  end.

(** ** Equal values *)

(** Equal up to [R] under each key. *)
Definition map_same {A} (R : A → A → Prop) (m1 m2 : gmap string A) : Prop :=
  ∀ k, option_relation R (λ _, False) (λ _, False) (m1 !! k) (m2 !! k).

(** Two references of a kind: both nil, or to cells related by [R]. *)
Definition ref_same (R : cell → cell → Prop) (h1 : heap) (v1 : gval) (h2 : heap) (v2 : gval) : Prop :=
  match v1, v2 with
  | VRef None, VRef None => True
  | VRef (Some l1), VRef (Some l2) => ∃ c1 c2, h1 !! l1 = Some c1 ∧ h2 !! l2 = Some c2 ∧ R c1 c2
  | _, _ => False
  end.

Definition array_same (R : gval → gval → Prop) (c1 c2 : cell) : Prop :=
  match c1, c2 with CArray vs1, CArray vs2 => Forall2 R vs1 vs2 | _, _ => False end.
Definition cmap_same (R : gval → gval → Prop) (c1 c2 : cell) : Prop :=
  match c1, c2 with CMap m1, CMap m2 => map_same R m1 m2 | _, _ => False end.
Definition val_same (R : gval → gval → Prop) (c1 c2 : cell) : Prop :=
  match c1, c2 with CVal v1, CVal v2 => R v1 v2 | _, _ => False end.

Definition field_same (R : gval → gval → Prop) (f : string) (m1 m2 : gmap string gval) : Prop :=
  ∃ x1 x2, m1 !! f = Some x1 ∧ m2 !! f = Some x2 ∧ R x1 x2.

Fixpoint same (t : ty) (h1 : heap) (v1 : gval) (h2 : heap) (v2 : gval) : Prop :=
  match t with
  | TString => ∃ s, v1 = VString s ∧ v2 = VString s
  | TBool => ∃ b, v1 = VBool b ∧ v2 = VBool b
  | TInt => ∃ z, v1 = VInt z ∧ v2 = VInt z
  | TStruct fields =>
    ∃ m1 m2, v1 = VStruct m1 ∧ v2 = VStruct m2 ∧
      (fix go fields : Prop :=
         match fields with
         | [] => True
         | (f, t) :: fields => field_same (λ x1 x2, same t h1 x1 h2 x2) f m1 m2 ∧ go fields
         end) fields
  | TSlice t => ref_same (array_same (λ x1 x2, same t h1 x1 h2 x2)) h1 v1 h2 v2
  | TMap t => ref_same (cmap_same (λ x1 x2, same t h1 x1 h2 x2)) h1 v1 h2 v2
  | TPtr t => ref_same (val_same (λ x1 x2, same t h1 x1 h2 x2)) h1 v1 h2 v2
  end.

Definition has_type (t : ty) (h : heap) (v : gval) : Prop := same t h v h v.

Lemma same_struct fields h1 v1 h2 v2 :
  same (TStruct fields) h1 v1 h2 v2 ↔
  ∃ m1 m2, v1 = VStruct m1 ∧ v2 = VStruct m2 ∧
    Forall (λ ft, field_same (λ x1 x2, same ft.2 h1 x1 h2 x2) ft.1 m1 m2) fields.
Proof.
  simpl. split; intros (m1 & m2 & -> & -> & Hf); exists m1, m2; (split_and!; [done..|]).
  - induction fields as [|[f t] fields IH]; [constructor|]. destruct Hf. constructor; auto.
  - induction Hf as [|[f t] fields]; simpl; auto.
Qed.

(** ** Growing heaps *)

Lemma ref_same_mono (R R' : cell → cell → Prop) h1 h1' v1 h2 h2' v2 :
  h1 ⊆ h1' → h2 ⊆ h2' → (∀ c1 c2, R c1 c2 → R' c1 c2) →
  ref_same R h1 v1 h2 v2 → ref_same R' h1' v1 h2' v2.
Proof.
  intros H1 H2 HR. unfold ref_same. destruct v1 as [| | | |[l1|]], v2 as [| | | |[l2|]]; try done.
  intros (c1 & c2 & Hc1 & Hc2 & Hc). exists c1, c2. split_and!; [by eapply lookup_weaken..|auto].
Qed.

Lemma field_same_impl (R R' : gval → gval → Prop) f m1 m2 :
  (∀ x1 x2, R x1 x2 → R' x1 x2) → field_same R f m1 m2 → field_same R' f m1 m2.
Proof. intros HR (x1 & x2 & ? & ? & ?). exists x1, x2. auto. Qed.

Lemma array_same_impl (R R' : gval → gval → Prop) c1 c2 :
  (∀ x1 x2, R x1 x2 → R' x1 x2) → array_same R c1 c2 → array_same R' c1 c2.
Proof. intros HR. destruct c1, c2; simpl; try done. intros Hf. by eapply Forall2_impl. Qed.

Lemma cmap_same_impl (R R' : gval → gval → Prop) c1 c2 :
  (∀ x1 x2, R x1 x2 → R' x1 x2) → cmap_same R c1 c2 → cmap_same R' c1 c2.
Proof.
  intros HR. destruct c1 as [|m1|], c2 as [|m2|]; simpl; try done. intros Hm k. specialize (Hm k).
  destruct (m1 !! k), (m2 !! k); simpl in *; auto.
Qed.

Lemma val_same_impl (R R' : gval → gval → Prop) c1 c2 :
  (∀ x1 x2, R x1 x2 → R' x1 x2) → val_same R c1 c2 → val_same R' c1 c2.
Proof. intros HR. destruct c1, c2; simpl; try done. apply HR. Qed.

Lemma same_mono t h1 h1' v1 h2 h2' v2 :
  h1 ⊆ h1' → h2 ⊆ h2' → same t h1 v1 h2 v2 → same t h1' v1 h2' v2.
Proof.
  intros H1 H2. revert v1 v2. induction t as [| | |fields IH|t IH|t IH|t IH] using ty_rect_fields;
    intros v1 v2; try done.
  - rewrite !same_struct. intros (m1 & m2 & -> & -> & Hf). exists m1, m2. split_and!; [done..|].
    rewrite Forall_forall in *. intros ft Hin. eapply field_same_impl; [|by apply Hf].
    intros x1 x2. by apply IH.
  - apply ref_same_mono; [done..|]. intros c1 c2. apply array_same_impl. auto.
  - apply ref_same_mono; [done..|]. intros c1 c2. apply cmap_same_impl. auto.
  - apply ref_same_mono; [done..|]. intros c1 c2. apply val_same_impl. auto.
Qed.

(** Values without references are read without the heap. *)
Lemma same_flat t h1 h1' v1 h2 h2' v2 :
  flat t = true → same t h1 v1 h2 v2 → same t h1' v1 h2' v2.
Proof.
  revert v1 v2. induction t as [| | |fields IH|t IH|t IH|t IH] using ty_rect_fields;
    intros v1 v2 Hfl; try done.
  rewrite !same_struct. intros (m1 & m2 & -> & -> & Hf). exists m1, m2. split_and!; [done..|].
  simpl in Hfl. rewrite forallb_forall in Hfl. rewrite Forall_forall in *. intros ft Hin.
  eapply field_same_impl; [|by apply Hf]. intros x1 x2. apply IH; [done|].
  by apply Hfl, list_elem_of_In.
Qed.

(** ** Copying *)

(** What [*out = ...] is given for [*in], with the heap before and after. *)
Definition copier : Type := gval → heap → gval * heap.

Definition alloc (h : heap) (c : cell) : loc * heap :=
  let l := fresh (dom h) in (l, <[l := c]> h).

(** [*out = *in]. *)
Definition copyFlat : copier := λ v h, (v, h).

(** [if in.F != nil { *out = make([]T, len( *in)); copy( *out, *in) }].  A reference
    to a missing cell does not occur in a well-typed heap. *)
Definition copySlice : copier := λ v h,
  match v with
  | VRef (Some l) =>
    match h !! l with
    | Some (CArray vs) => let '(l', h) := alloc h (CArray vs) in (VRef (Some l'), h)
    | _ => (v, h)
    end
  | _ => (v, h)
  end.

(** [( *out)[i] = v]. *)
Definition storeAt (h : heap) (l : loc) (i : nat) (v : gval) : heap :=
  match h !! l with Some (CArray vs) => <[l := CArray (<[i := v]> vs)]> h | _ => h end.

(** The loop [for i := range *in { ( *in)[i].DeepCopyInto(&( *out)[i]) }]. *)
Fixpoint copyElems (c : copier) (l : loc) (i : nat) (vs : list gval) (h : heap) : heap :=
  match vs with
  | [] => h
  | v :: vs => let '(v', h) := c v h in copyElems c l (S i) vs (storeAt h l i v')
  end.

(** The zero value [make] and [new] put in a cell is overwritten before it is read. *)
Definition zeroValue : gval := VRef None.

Definition copySliceWith (c : copier) : copier := λ v h,
  match v with
  | VRef (Some l) =>
    match h !! l with
    | Some (CArray vs) =>
      let '(l', h) := alloc h (CArray (replicate (length vs) zeroValue)) in
      (VRef (Some l'), copyElems c l' 0 vs h)
    | _ => (v, h)
    end
  | _ => (v, h)
  end.

(** [*out = make(map[K]V, len( *in)); for key, val := range *in { ( *out)[key] = val }],
    the entries visited in the order [range] gives. *)
Definition copyMap (range : gmap string gval → list (string * gval)) : copier := λ v h,
  match v with
  | VRef (Some l) =>
    match h !! l with
    | Some (CMap m) =>
      let '(l', h) := alloc h (CMap (foldl (λ out kv, <[kv.1 := kv.2]> out) ∅ (range m))) in
      (VRef (Some l'), h)
    | _ => (v, h)
    end
  | _ => (v, h)
  end.

(** [if in != nil { *out = new(T); ( *in).DeepCopyInto( *out) }]. *)
Definition copyPtr (c : copier) : copier := λ v h,
  match v with
  | VRef (Some l) =>
    match h !! l with
    | Some (CVal x) =>
      let '(l', h) := alloc h (CVal zeroValue) in
      let '(x', h) := c x h in (VRef (Some l'), <[l' := CVal x']> h)
    | _ => (v, h)
    end
  | _ => (v, h)
  end.

(** [*out = *in], then one assignment to a field of [out] after the other. *)
Definition copyField (in_ : gmap string gval) (oh : gmap string gval * heap) (act : string * copier)
  : gmap string gval * heap :=
  match in_ !! act.1 with
  | Some v => let '(v', h) := act.2 v oh.2 in (<[act.1 := v']> oh.1, h)
  | None => oh
  end.
Definition copyStruct (acts : list (string * copier)) : copier := λ v h,
  match v with
  | VStruct m => let '(out, h) := foldl (copyField m) (m, h) acts in (VStruct out, h)
  | _ => (v, h)
  end.

(** ** Deep copies *)

(** Copying keeps the heap and gives a value that is the same as the original in
    the new cells alone.  The original may be any value the argument is the same
    as, in a heap of its own. *)
Definition deep (t : ty) (c : copier) : Prop :=
  ∀ h0 v0 h v, same t h0 v0 h v →
    h ⊆ (c v h).2 ∧ same t h0 v0 ((c v h).2 ∖ h) (c v h).1.

Lemma heap_difference_mono (h h1 h1' h2 : heap) : h1 ⊆ h → h2 ⊆ h1' → h2 ∖ h ⊆ h1' ∖ h1.
Proof.
  intros Hh Hs. apply map_subseteq_spec. intros l c. rewrite !lookup_difference_Some.
  intros [Hc Hn]. split; [by eapply lookup_weaken|]. by eapply lookup_weaken_None.
Qed.

Lemma alloc_fresh (h : heap) : h !! fresh (dom h) = None.
Proof. apply not_elem_of_dom, is_fresh. Qed.

Lemma alloc_sub (h : heap) c : h ⊆ (alloc h c).2.
Proof. apply insert_subseteq, alloc_fresh. Qed.

Lemma alloc_new (h : heap) c : ((alloc h c).2 ∖ h) !! (alloc h c).1 = Some c.
Proof. apply lookup_difference_Some. simpl. split; [apply lookup_insert_eq|apply alloc_fresh]. Qed.

Lemma deep_flat t : flat t = true → deep t copyFlat.
Proof. intros Hf h0 v0 h v Hs. split; [done|]. simpl. by eapply same_flat. Qed.

(** The common part of the copies of references that are flat inside. *)
Lemma ref_copied (R : heap → cell → cell → Prop) h0 v0 h l cl :
  ref_same (R h) h0 v0 h (VRef (Some l)) → h !! l = Some cl → (∀ h' c0, R h c0 cl → R h' c0 cl) →
  let '(l', h') := alloc h cl in ref_same (R (h' ∖ h)) h0 v0 (h' ∖ h) (VRef (Some l')).
Proof.
  unfold ref_same. destruct v0 as [| | | |[l0|]]; try done. intros (c0 & c & Hc0 & Hc & HR) Hl Hflat.
  rewrite Hl in Hc. injection Hc as <-. exists c0, cl. split_and!; [done|apply (alloc_new h cl)|by eapply Hflat].
Qed.

Lemma deep_copySlice t : flat t = true → deep (TSlice t) copySlice.
Proof.
  intros Hf h0 v0 h v Hs. unfold copySlice. pose proof Hs as Hs'. simpl in Hs'. unfold ref_same in Hs'.
  destruct v as [| | | |[l|]], v0 as [| | | |[l0|]]; try done.
  destruct Hs' as (c0 & c & _ & Hc & Hv). rewrite Hc. destruct c0 as [vs0| |], c as [vs| |]; try done.
  split; [apply alloc_sub|].
  apply (ref_copied (λ h, array_same (λ x1 x2, same t h0 x1 h x2)) h0 (VRef (Some l0)) h l (CArray vs) Hs Hc).
  intros h' c0. apply array_same_impl. intros x1 x2. by apply same_flat.
Qed.

Lemma copyMap_id (range : gmap string gval → list (string * gval)) m :
  range_order m (range m) → foldl (λ out kv, <[kv.1 := kv.2]> out) ∅ (range m) = m.
Proof.
  intros Hr. transitivity (list_to_map (reverse (range m)) : gmap string gval).
  - rewrite <-(reverse_involutive (range m)) at 1. induction (reverse (range m)) as [|kv l IH]; [done|].
    rewrite reverse_cons, foldl_app. simpl. rewrite IH. by destruct kv.
  - rewrite (list_to_map_proper _ (map_to_list m)).
    + apply list_to_map_to_list.
    + rewrite fmap_reverse, reverse_Permutation. unfold range_order in Hr. rewrite Hr. apply NoDup_fst_map_to_list.
    + rewrite reverse_Permutation. exact Hr.
Qed.

Lemma deep_copyMap range t : flat t = true → (∀ m, range_order m (range m)) → deep (TMap t) (copyMap range).
Proof.
  intros Hf Hr h0 v0 h v Hs. unfold copyMap. pose proof Hs as Hs'. simpl in Hs'. unfold ref_same in Hs'.
  destruct v as [| | | |[l|]], v0 as [| | | |[l0|]]; try done.
  destruct Hs' as (c0 & c & _ & Hc & Hv). rewrite Hc. destruct c0 as [|m0|], c as [|m|]; try done.
  rewrite copyMap_id by done. split; [apply alloc_sub|].
  apply (ref_copied (λ h, cmap_same (λ x1 x2, same t h0 x1 h x2)) h0 (VRef (Some l0)) h l (CMap m) Hs Hc).
  intros h' c0. apply cmap_same_impl. intros x1 x2. by apply same_flat.
Qed.

Lemma heap_insert_difference (h h1 : heap) l c c' :
  h !! l = None → h1 ∖ (<[l := c]> h) ⊆ (<[l := c']> h1) ∖ h.
Proof.
  intros Hl. apply map_subseteq_spec. intros k x. rewrite !lookup_difference_Some.
  rewrite lookup_insert_None. intros [Hk [Hn Hne]]. by rewrite lookup_insert_ne.
Qed.

Lemma heap_insert_sub (h h1 : heap) l c c' :
  h !! l = None → <[l := c]> h ⊆ h1 → h ⊆ <[l := c']> h1.
Proof.
  intros Hl Hs. apply map_subseteq_spec. intros k x Hk.
  assert (k ≠ l) by congruence. rewrite lookup_insert_ne by done.
  eapply lookup_weaken; [|exact Hs]. by rewrite lookup_insert_ne.
Qed.

Lemma deep_copyPtr t c : deep t c → deep (TPtr t) (copyPtr c).
Proof.
  intros Hd h0 v0 h v Hs. unfold copyPtr. simpl in Hs. unfold ref_same in Hs.
  destruct v as [| | | |[l|]], v0 as [| | | |[l0|]]; try done.
  destruct Hs as (c0 & cl & Hc0 & Hc & Hv). rewrite Hc. destruct c0 as [| |x0], cl as [| |x]; try done.
  unfold alloc. pose proof (alloc_fresh h) as Hfr. set (l' := fresh (dom h)) in *.
  set (h1 := <[l' := CVal zeroValue]> h).
  destruct (Hd h0 x0 h1 x) as [Hsub Hsame].
  { eapply same_mono; [done| |exact Hv]. by apply insert_subseteq. }
  destruct (c x h1) as [x' h2]. simpl in *. split; [by eapply heap_insert_sub|].
  exists (CVal x0), (CVal x'). split_and!; [done| |].
  - apply lookup_difference_Some. by rewrite lookup_insert_eq.
  - eapply same_mono; [done| |exact Hsame]. by apply heap_insert_difference.
Qed.

(** The loop fills the array [l] from index [i] on and leaves the other cells. *)
Lemma copyElems_deep t c l : deep t c → ∀ vs h0 vs0 h i out,
  h !! l = Some (CArray out) → length out = i + length vs →
  Forall2 (λ v0 v, same t h0 v0 (delete l h) v) vs0 vs →
  ∃ vs', copyElems c l i vs h !! l = Some (CArray (take i out ++ vs')) ∧
    delete l h ⊆ delete l (copyElems c l i vs h) ∧
    Forall2 (λ v0 v', same t h0 v0 (delete l (copyElems c l i vs h) ∖ h) v') vs0 vs'.
Proof.
  intros Hd vs. induction vs as [|v vs IH]; intros h0 vs0 h i out Hl Hlen Hvs; simpl in *.
  { apply Forall2_nil_inv_r in Hvs as ->. exists []. rewrite app_nil_r, take_ge by lia. by split_and!. }
  apply Forall2_cons_inv_r in Hvs as (v0 & vs0' & Hv & Hvs & ->).
  destruct (Hd h0 v0 h v) as [Hsub Hsame]; [eapply same_mono; [done|apply delete_subseteq|done]|].
  destruct (c v h) as [v1 h1]. simpl in *. pose proof (lookup_weaken _ _ _ _ Hl Hsub) as Hl1.
  unfold storeAt. rewrite Hl1. set (h2 := <[l := CArray (<[i := v1]> out)]> h1).
  assert (delete l h ⊆ delete l h2) as Hd2.
  { unfold h2. rewrite delete_insert_eq. by apply delete_mono. }
  destruct (IH h0 vs0' h2 (S i) (<[i := v1]> out)) as (vs' & Hres & Hmono & Hall).
  { apply lookup_insert_eq. }
  { rewrite length_insert. lia. }
  { eapply Forall2_impl; [exact Hvs|]. simpl. intros. by eapply same_mono. }
  exists (v1 :: vs'). split_and!.
  - rewrite Hres. f_equal. f_equal. rewrite take_S_r with (x := v1) by (apply list_lookup_insert_eq; lia).
    rewrite take_insert_ge by lia. by rewrite <-app_assoc.
  - by etransitivity.
  - set (hf := copyElems c l (S i) vs h2) in *. constructor.
    + eapply same_mono; [done| |exact Hsame]. apply map_subseteq_spec. intros k x.
      rewrite !lookup_difference_Some. intros [Hk Hn]. split; [|done].
      assert (k ≠ l) by congruence. eapply lookup_weaken; [|exact Hmono].
      unfold h2. by rewrite delete_insert_eq, lookup_delete_ne.
    + eapply Forall2_impl; [exact Hall|]. simpl. intros x0 x Hx. eapply same_mono; [done| |exact Hx].
      apply map_subseteq_spec. intros k y. rewrite !lookup_difference_Some. intros [Hk Hn]. split; [done|].
      unfold h2 in Hn. apply lookup_insert_None in Hn as [Hn _]. by eapply lookup_weaken_None.
Qed.

Lemma deep_copySliceWith t c : deep t c → deep (TSlice t) (copySliceWith c).
Proof.
  intros Hd h0 v0 h v Hs. unfold copySliceWith. simpl in Hs. unfold ref_same in Hs.
  destruct v as [| | | |[l|]], v0 as [| | | |[l0|]]; try done.
  destruct Hs as (c0 & cl & Hc0 & Hc & Hv). rewrite Hc. destruct c0 as [vs0| |], cl as [vs| |]; try done.
  unfold alloc. pose proof (alloc_fresh h) as Hfr. set (l' := fresh (dom h)) in *.
  set (h1 := <[l' := CArray (replicate (length vs) zeroValue)]> h).
  assert (delete l' h1 = h) as Hdel by (unfold h1; rewrite delete_insert_eq; by apply delete_id).
  destruct (copyElems_deep t c l' Hd vs h0 vs0 h1 0 (replicate (length vs) zeroValue))
    as (vs' & Hres & Hmono & Hall).
  { apply lookup_insert_eq. }
  { apply length_replicate. }
  { by rewrite Hdel. }
  rewrite Hdel in Hmono. set (hf := copyElems c l' 0 vs h1) in *. simpl in *. split.
  - etransitivity; [exact Hmono|apply delete_subseteq].
  - exists (CArray vs0), (CArray vs'). split_and!; [done|by apply lookup_difference_Some|].
    simpl. eapply Forall2_impl; [exact Hall|]. simpl. intros x0 x Hx. eapply same_mono; [done| |exact Hx].
    apply heap_difference_mono; [by apply insert_subseteq|apply delete_subseteq].
Qed.

(** What the assignments to the fields of [out] amount to. *)
Definition field_deep (h0 h : heap) (m0 m : gmap string gval) (act : string * copier) (t : ty) : Prop :=
  deep t act.2 ∧ field_same (λ x0 x, same t h0 x0 h x) act.1 m0 m.

Lemma copyFields_deep h0 h m0 m acts : ∀ out hc, h ⊆ hc → NoDup acts.*1 →
  (∀ act, act ∈ acts → ∃ t, field_deep h0 h m0 m act t) →
  hc ⊆ (foldl (copyField m) (out, hc) acts).2 ∧
  (∀ f, f ∉ acts.*1 → (foldl (copyField m) (out, hc) acts).1 !! f = out !! f) ∧
  (∀ act t, act ∈ acts → field_deep h0 h m0 m act t →
     field_same (λ x0 x, same t h0 x0 ((foldl (copyField m) (out, hc) acts).2 ∖ h) x) act.1 m0
       (foldl (copyField m) (out, hc) acts).1).
Proof.
  induction acts as [|act acts IH]; intros out hc Hh Hnd Hacts; simpl.
  { split_and!; [done..|]. by intros act t ?%elem_of_nil. }
  apply NoDup_cons in Hnd as [Hnin Hnd].
  destruct (Hacts act) as (t & Hd & x0 & x & Hx0 & Hx & Hs); [left|]. unfold copyField at 2 4 6 8.
  rewrite Hx. simpl. pose proof (same_mono t _ _ _ _ _ _ (reflexivity h0) Hh Hs) as Hs'.
  destruct (Hd h0 x0 hc x Hs') as [Hsub _]. destruct (act.2 x hc) as [x' h1] eqn:Hc. simpl in Hsub.
  destruct (IH (<[act.1 := x']> out) h1) as (Hmono & Hother & Hdone); [by etransitivity|done| |].
  { intros act' Hin. apply Hacts. by right. }
  split_and!; [by etransitivity| |].
  - intros f [Hne Hf]%not_elem_of_cons. rewrite Hother by done. by rewrite lookup_insert_ne.
  - intros act' t' [->|Hin]%elem_of_cons; [|by apply Hdone].
    intros (Hd' & y0 & y & Hy0 & Hy & Hys). rewrite Hx in Hy. injection Hy as <-.
    destruct (Hd' h0 y0 hc x) as [_ Hnew]; [by eapply same_mono|]. rewrite Hc in Hnew. simpl in Hnew.
    exists y0, x'. split_and!; [done| |].
    + rewrite Hother by done. apply lookup_insert_eq.
    + eapply same_mono; [done| |exact Hnew]. by apply heap_difference_mono.
Qed.

(** The action on a field, if there is one. *)
Definition action (acts : list (string * copier)) (f : string) : option copier :=
  snd <$> find (λ act, String.eqb act.1 f) acts.

(** Each declared field is copied deeply, or left as it is and flat. *)
Definition field_ok (acts : list (string * copier)) (ft : string * ty) : Prop :=
  match action acts ft.1 with Some c => deep ft.2 c | None => flat ft.2 = true end.

Lemma action_elem acts f c : NoDup acts.*1 → (f, c) ∈ acts → action acts f = Some c.
Proof.
  unfold action. induction acts as [|[f' c'] acts IH]; intros Hnd Hin; [by apply elem_of_nil in Hin|].
  apply NoDup_cons in Hnd as [Hnin Hnd]. simpl. apply elem_of_cons in Hin as [[= <- <-]|Hin].
  - by rewrite String.eqb_refl.
  - destruct (String.eqb_spec f' f) as [->|]; [|by apply IH]. exfalso. apply Hnin. simpl.
    apply list_elem_of_fmap. by exists (f, c).
Qed.

Lemma action_None acts f : action acts f = None → f ∉ acts.*1.
Proof.
  unfold action. intros Hn ([f' c] & -> & Hin)%list_elem_of_fmap.
  apply fmap_None in Hn. apply list_elem_of_In in Hin. pose proof (find_none _ _ Hn _ Hin) as Hb.
  simpl in Hb. by rewrite String.eqb_refl in Hb.
Qed.

Lemma action_Some acts f c : action acts f = Some c → (f, c) ∈ acts.
Proof.
  unfold action. intros ([f' c'] & Hf & ->)%fmap_Some. apply find_some in Hf as [Hin Hb].
  apply String.eqb_eq in Hb. simpl in Hb. subst. by apply list_elem_of_In.
Qed.

Lemma deep_copyStruct fields acts :
  NoDup acts.*1 → Forall (λ f, f ∈ fields.*1) acts.*1 → Forall (field_ok acts) fields →
  deep (TStruct fields) (copyStruct acts).
Proof.
  intros Hnd Hsub Hok h0 v0 h v Hs. apply same_struct in Hs as (m0 & m & -> & -> & Hf).
  rewrite Forall_forall in Hsub. rewrite Forall_forall in Hok. rewrite Forall_forall in Hf. unfold copyStruct.
  destruct (copyFields_deep h0 h m0 m acts m h) as (Hmono & Hother & Hdone); [done|done| |].
  { intros [f c] Hin. destruct (list_elem_of_fmap_1 fst fields f) as ([f' t] & -> & Hft).
    { apply Hsub, list_elem_of_fmap. by exists (f, c). }
    exists t. split; [|by apply (Hf (f', t))]. specialize (Hok (f', t) Hft). unfold field_ok in Hok.
    simpl in *. by rewrite (action_elem _ _ _ Hnd Hin) in Hok. }
  destruct (foldl (copyField m) (m, h) acts) as [out hf]. simpl in *. split; [done|].
  apply same_struct. exists m0, out. split_and!; [done..|]. apply Forall_forall. intros [f t] Hft.
  specialize (Hok (f, t) Hft). specialize (Hf (f, t) Hft). unfold field_ok in Hok. simpl in *.
  destruct (action acts f) as [c|] eqn:Ha.
  - apply action_Some in Ha. by apply (Hdone (f, c) t).
  - destruct Hf as (x0 & x & Hx0 & Hx & Hs). exists x0, x. split_and!; [done| |by eapply same_flat].
    rewrite Hother; [done|]. by apply action_None.
Qed.

#[export] Hint Resolve deep_flat deep_copySlice deep_copySliceWith deep_copyMap deep_copyPtr : kontxt.

(** Copies of structs by the fields: declared, distinct, each copied deeply or flat. *)
Ltac deep_struct :=
  apply deep_copyStruct;
  [apply (bool_decide_unpack _); vm_compute; exact I
  |apply (bool_decide_unpack _); vm_compute; exact I
  |repeat apply Forall_cons_2; [..|apply Forall_nil_2]; cbn [field_ok action find String.eqb Ascii.eqb
     Bool.eqb fmap option_fmap option_map fst snd]; auto with kontxt].

(** ** What a deep copy is worth *)

(** Writes to the cells there were do not reach the copy, and writes to the cells
    of the copy do not reach the original. *)
Lemma deep_separate t c h v :
  deep t c → has_type t h v →
  let '(v', h') := c v h in
  h ⊆ h' ∧ same t h v h' v' ∧
  (∀ h'', (∀ l, l ∈ dom h → h'' !! l = h' !! l) → same t h v h'' v) ∧
  (∀ h'', (∀ l, l ∉ dom h → h'' !! l = h' !! l) → same t h v h'' v').
Proof.
  intros Hd Ht. destruct (Hd h v h v Ht) as [Hsub Hs]. destruct (c v h) as [v' h']. simpl in *.
  split_and!; [done|eapply same_mono; [done| |exact Hs]; by apply map_subseteq_difference_l|..].
  - intros h'' Hold. eapply same_mono; [done| |exact Ht]. apply map_subseteq_spec. intros l x Hl.
    rewrite Hold; [by eapply lookup_weaken|]. by apply elem_of_dom.
  - intros h'' Hnew. eapply same_mono; [done| |exact Hs]. apply map_subseteq_spec. intros l x.
    rewrite lookup_difference_Some. intros [Hl Hn]. rewrite Hnew; [done|]. by apply not_elem_of_dom.
Qed.
