(* ===== verification/DeepCopy.v ===== *)
(** * api/v1alpha1: the resources in memory and their deep copies

    [types.go] as the layout of the resources in Go's memory, and
    [zz_generated.deepcopy.go].  The controller's client hands out objects that
    share memory with its cache unless they are copied, and the reconcilers write
    to the status of the objects they get: the copies are what keeps the cache
    intact.  The types of apimachinery's [metav1] and their copies are a
    parameter. *)

From S2P Require Import Prelude GoHeap.

(** ** metav1 *)

Class MetaV1 := {
  TypeMeta_type : ty;
  ObjectMeta_type : ty; ObjectMeta_DeepCopyInto : copier;
  ListMeta_type : ty; ListMeta_DeepCopyInto : copier;
  Condition_type : ty; Condition_DeepCopyInto : copier;
  LabelSelector_type : ty; LabelSelector_DeepCopyInto : copier;
}.

(** The contract of apimachinery's copies; a [TypeMeta] has two strings. *)
Class MetaV1Laws (M : MetaV1) := {
  TypeMeta_flat : flat TypeMeta_type = true;
  ObjectMeta_deep : deep ObjectMeta_type ObjectMeta_DeepCopyInto;
  ListMeta_deep : deep ListMeta_type ListMeta_DeepCopyInto;
  Condition_deep : deep Condition_type Condition_DeepCopyInto;
  LabelSelector_deep : deep LabelSelector_type LabelSelector_DeepCopyInto;
}.
#[export] Hint Resolve TypeMeta_flat ObjectMeta_deep ListMeta_deep Condition_deep LabelSelector_deep : kontxt.

Section resources.
Context `{MetaV1}.

(** ** Layout (types.go) *)

Definition IssuerConfig_type : ty := TStruct [
  ("URL", TString); ("DiscoveryURL", TString); ("Audiences", TSlice TString);
  ("AudienceMatchPolicy", TString)].
Definition ClaimValidationRule_type : ty := TStruct [
  ("Expression", TString); ("Message", TString)].
Definition ClaimOrExpression_type : ty := TStruct [
  ("Claim", TString); ("Expression", TString)].
Definition ExtraMapping_type : ty := TStruct [
  ("Key", TString); ("ValueExpression", TString)].
Definition ClaimMappings_type : ty := TStruct [
  ("Subject", ClaimOrExpression_type); ("Extra", TSlice ExtraMapping_type)].
Definition SubjectTokenAuthenticator_type : ty := TStruct [
  ("Issuer", IssuerConfig_type); ("ClaimValidationRules", TSlice ClaimValidationRule_type);
  ("ClaimMappings", ClaimMappings_type)].
Definition WorkloadAuthConfig_type : ty := TStruct [
  ("Type", TString)].
Definition TokenDefaults_type : ty := TStruct [
  ("TokenLifetime", TString); ("SigningAlgorithm", TString)].
Definition TxTokenConfigSpec_type : ty := TStruct [
  ("TrustDomain", TString); ("Issuer", TString);
  ("SubjectTokens", TSlice SubjectTokenAuthenticator_type);
  ("WorkloadAuth", WorkloadAuthConfig_type); ("Defaults", TokenDefaults_type)].
Definition TxTokenConfigStatus_type : ty := TStruct [
  ("Conditions", TSlice Condition_type)].
Definition TxTokenConfig_type : ty := TStruct [
  ("TypeMeta", TypeMeta_type); ("ObjectMeta", ObjectMeta_type); ("Spec", TxTokenConfigSpec_type);
  ("Status", TxTokenConfigStatus_type)].
Definition TxTokenConfigList_type : ty := TStruct [
  ("TypeMeta", TypeMeta_type); ("ListMeta", ListMeta_type); ("Items", TSlice TxTokenConfig_type)].
Definition EndpointSpec_type : ty := TStruct [
  ("Path", TString); ("Method", TString)].
Definition TctxFieldMapping_type : ty := TStruct [
  ("Source", TString); ("Field", TString); ("Required", TBool)].
Definition TctxEnrichment_type : ty := TStruct [
  ("Field", TString); ("Enricher", TString)].
Definition TransactionTypeSpec_type : ty := TStruct [
  ("Endpoint", EndpointSpec_type); ("Purpose", TString); ("Scope", TString);
  ("TctxMapping", TMap TctxFieldMapping_type); ("TctxEnrichments", TSlice TctxEnrichment_type);
  ("RctxFields", TSlice TString); ("TokenLifetime", TString)].
Definition TransactionTypeStatus_type : ty := TStruct [
  ("Conditions", TSlice Condition_type); ("ProducedTctxFields", TSlice TString);
  ("EffectiveTokenLifetime", TString)].
Definition TransactionType_type : ty := TStruct [
  ("TypeMeta", TypeMeta_type); ("ObjectMeta", ObjectMeta_type); ("Spec", TransactionTypeSpec_type);
  ("Status", TransactionTypeStatus_type)].
Definition TransactionTypeList_type : ty := TStruct [
  ("TypeMeta", TypeMeta_type); ("ListMeta", ListMeta_type); ("Items", TSlice TransactionType_type)].
Definition ServiceReference_type : ty := TStruct [
  ("Name", TString)].
Definition VerificationRule_type : ty := TStruct [
  ("Name", TString); ("CEL", TString); ("Message", TString)].
Definition VerificationSpec_type : ty := TStruct [
  ("RequiredScope", TString); ("RequiredTctxFields", TSlice TString);
  ("Rules", TSlice VerificationRule_type)].
Definition ServiceTokenRequirementSpec_type : ty := TStruct [
  ("ServiceRef", ServiceReference_type); ("Verification", VerificationSpec_type);
  ("ExcludedEndpoints", TSlice EndpointSpec_type); ("AutoNarrow", TBool)].
Definition ServiceTokenRequirementStatus_type : ty := TStruct [
  ("Conditions", TSlice Condition_type); ("ActiveVerificationRules", TInt);
  ("ExcludedEndpointCount", TInt)].
Definition ServiceTokenRequirement_type : ty := TStruct [
  ("TypeMeta", TypeMeta_type); ("ObjectMeta", ObjectMeta_type);
  ("Spec", ServiceTokenRequirementSpec_type); ("Status", ServiceTokenRequirementStatus_type)].
Definition ServiceTokenRequirementList_type : ty := TStruct [
  ("TypeMeta", TypeMeta_type); ("ListMeta", ListMeta_type);
  ("Items", TSlice ServiceTokenRequirement_type)].
Definition NamespaceSelector_type : ty := TStruct [
  ("MatchNames", TSlice TString); ("MatchLabels", TMap TString)].
Definition RequesterRule_type : ty := TStruct [
  ("NamespaceSelector", TPtr LabelSelector_type); ("ServiceAccountNames", TSlice TString)].
Definition PolicyConstraints_type : ty := TStruct [
  ("MaxTokenLifetime", TString); ("MandatoryTctxFields", TSlice TString);
  ("MandatoryRctxFields", TSlice TString); ("DisallowedEnrichers", TSlice TString)].
Definition IssuanceRule_type : ty := TStruct [
  ("Name", TString); ("CEL", TString); ("Message", TString)].
Definition WebhookConfig_type : ty := TStruct [
  ("Enabled", TBool); ("Endpoint", TString); ("FailurePolicy", TString)].
Definition TokenPolicySpec_type : ty := TStruct [
  ("TargetNamespaces", TPtr NamespaceSelector_type);
  ("AuthorizedTransactionNamespaces", TPtr LabelSelector_type);
  ("AuthorizedRequesters", TSlice RequesterRule_type); ("Constraints", PolicyConstraints_type);
  ("IssuanceRules", TSlice IssuanceRule_type); ("AccessEvaluationWebhook", TPtr WebhookConfig_type)].
Definition TokenPolicyStatus_type : ty := TStruct [
  ("Conditions", TSlice Condition_type)].
Definition TokenPolicy_type : ty := TStruct [
  ("TypeMeta", TypeMeta_type); ("ObjectMeta", ObjectMeta_type); ("Spec", TokenPolicySpec_type);
  ("Status", TokenPolicyStatus_type)].
Definition TokenPolicyList_type : ty := TStruct [
  ("TypeMeta", TypeMeta_type); ("ListMeta", ListMeta_type); ("Items", TSlice TokenPolicy_type)].

(** ** Copies (zz_generated.deepcopy.go) *)

(** The order in which [range] visits a map. *)
Context (range : gmap string gval → list (string * gval)).

(** [DeepCopyObject]: a nil pointer becomes a nil interface. *)
Definition asObject (c : copier) : copier := λ v h,
  match c v h with
  | (VRef (Some l), h) => (VRef (Some l), h)
  | (_, h) => (VRef None, h)
  end.

Definition IssuerConfig_DeepCopyInto : copier := copyStruct [
  ("Audiences", copySlice)].
Definition IssuerConfig_DeepCopy : copier := copyPtr IssuerConfig_DeepCopyInto.
Definition ClaimValidationRule_DeepCopyInto : copier := copyFlat.
Definition ClaimValidationRule_DeepCopy : copier := copyPtr ClaimValidationRule_DeepCopyInto.
Definition ClaimOrExpression_DeepCopyInto : copier := copyFlat.
Definition ClaimOrExpression_DeepCopy : copier := copyPtr ClaimOrExpression_DeepCopyInto.
Definition ExtraMapping_DeepCopyInto : copier := copyFlat.
Definition ExtraMapping_DeepCopy : copier := copyPtr ExtraMapping_DeepCopyInto.
Definition ClaimMappings_DeepCopyInto : copier := copyStruct [
  ("Subject", copyFlat); ("Extra", copySlice)].
Definition ClaimMappings_DeepCopy : copier := copyPtr ClaimMappings_DeepCopyInto.
Definition SubjectTokenAuthenticator_DeepCopyInto : copier := copyStruct [
  ("Issuer", IssuerConfig_DeepCopyInto); ("ClaimValidationRules", copySlice);
  ("ClaimMappings", ClaimMappings_DeepCopyInto)].
Definition SubjectTokenAuthenticator_DeepCopy : copier := copyPtr SubjectTokenAuthenticator_DeepCopyInto.
Definition WorkloadAuthConfig_DeepCopyInto : copier := copyFlat.
Definition WorkloadAuthConfig_DeepCopy : copier := copyPtr WorkloadAuthConfig_DeepCopyInto.
Definition TokenDefaults_DeepCopyInto : copier := copyFlat.
Definition TokenDefaults_DeepCopy : copier := copyPtr TokenDefaults_DeepCopyInto.
Definition TxTokenConfigSpec_DeepCopyInto : copier := copyStruct [
  ("SubjectTokens", copySliceWith SubjectTokenAuthenticator_DeepCopyInto);
  ("WorkloadAuth", copyFlat); ("Defaults", copyFlat)].
Definition TxTokenConfigSpec_DeepCopy : copier := copyPtr TxTokenConfigSpec_DeepCopyInto.
Definition TxTokenConfigStatus_DeepCopyInto : copier := copyStruct [
  ("Conditions", copySliceWith Condition_DeepCopyInto)].
Definition TxTokenConfigStatus_DeepCopy : copier := copyPtr TxTokenConfigStatus_DeepCopyInto.
Definition TxTokenConfig_DeepCopyInto : copier := copyStruct [
  ("TypeMeta", copyFlat); ("ObjectMeta", ObjectMeta_DeepCopyInto);
  ("Spec", TxTokenConfigSpec_DeepCopyInto); ("Status", TxTokenConfigStatus_DeepCopyInto)].
Definition TxTokenConfig_DeepCopy : copier := copyPtr TxTokenConfig_DeepCopyInto.
Definition TxTokenConfig_DeepCopyObject : copier := asObject TxTokenConfig_DeepCopy.
Definition TxTokenConfigList_DeepCopyInto : copier := copyStruct [
  ("TypeMeta", copyFlat); ("ListMeta", ListMeta_DeepCopyInto);
  ("Items", copySliceWith TxTokenConfig_DeepCopyInto)].
Definition TxTokenConfigList_DeepCopy : copier := copyPtr TxTokenConfigList_DeepCopyInto.
Definition TxTokenConfigList_DeepCopyObject : copier := asObject TxTokenConfigList_DeepCopy.
Definition EndpointSpec_DeepCopyInto : copier := copyFlat.
Definition EndpointSpec_DeepCopy : copier := copyPtr EndpointSpec_DeepCopyInto.
Definition TctxFieldMapping_DeepCopyInto : copier := copyFlat.
Definition TctxFieldMapping_DeepCopy : copier := copyPtr TctxFieldMapping_DeepCopyInto.
Definition TctxEnrichment_DeepCopyInto : copier := copyFlat.
Definition TctxEnrichment_DeepCopy : copier := copyPtr TctxEnrichment_DeepCopyInto.
Definition TransactionTypeSpec_DeepCopyInto : copier := copyStruct [
  ("Endpoint", copyFlat); ("TctxMapping", copyMap range); ("TctxEnrichments", copySlice);
  ("RctxFields", copySlice)].
Definition TransactionTypeSpec_DeepCopy : copier := copyPtr TransactionTypeSpec_DeepCopyInto.
Definition TransactionTypeStatus_DeepCopyInto : copier := copyStruct [
  ("Conditions", copySliceWith Condition_DeepCopyInto); ("ProducedTctxFields", copySlice)].
Definition TransactionTypeStatus_DeepCopy : copier := copyPtr TransactionTypeStatus_DeepCopyInto.
Definition TransactionType_DeepCopyInto : copier := copyStruct [
  ("TypeMeta", copyFlat); ("ObjectMeta", ObjectMeta_DeepCopyInto);
  ("Spec", TransactionTypeSpec_DeepCopyInto); ("Status", TransactionTypeStatus_DeepCopyInto)].
Definition TransactionType_DeepCopy : copier := copyPtr TransactionType_DeepCopyInto.
Definition TransactionType_DeepCopyObject : copier := asObject TransactionType_DeepCopy.
Definition TransactionTypeList_DeepCopyInto : copier := copyStruct [
  ("TypeMeta", copyFlat); ("ListMeta", ListMeta_DeepCopyInto);
  ("Items", copySliceWith TransactionType_DeepCopyInto)].
Definition TransactionTypeList_DeepCopy : copier := copyPtr TransactionTypeList_DeepCopyInto.
Definition TransactionTypeList_DeepCopyObject : copier := asObject TransactionTypeList_DeepCopy.
Definition ServiceReference_DeepCopyInto : copier := copyFlat.
Definition ServiceReference_DeepCopy : copier := copyPtr ServiceReference_DeepCopyInto.
Definition VerificationRule_DeepCopyInto : copier := copyFlat.
Definition VerificationRule_DeepCopy : copier := copyPtr VerificationRule_DeepCopyInto.
Definition VerificationSpec_DeepCopyInto : copier := copyStruct [
  ("RequiredTctxFields", copySlice); ("Rules", copySlice)].
Definition VerificationSpec_DeepCopy : copier := copyPtr VerificationSpec_DeepCopyInto.
Definition ServiceTokenRequirementSpec_DeepCopyInto : copier := copyStruct [
  ("ServiceRef", copyFlat); ("Verification", VerificationSpec_DeepCopyInto);
  ("ExcludedEndpoints", copySlice)].
Definition ServiceTokenRequirementSpec_DeepCopy : copier := copyPtr ServiceTokenRequirementSpec_DeepCopyInto.
Definition ServiceTokenRequirementStatus_DeepCopyInto : copier := copyStruct [
  ("Conditions", copySliceWith Condition_DeepCopyInto)].
Definition ServiceTokenRequirementStatus_DeepCopy : copier := copyPtr ServiceTokenRequirementStatus_DeepCopyInto.
Definition ServiceTokenRequirement_DeepCopyInto : copier := copyStruct [
  ("TypeMeta", copyFlat); ("ObjectMeta", ObjectMeta_DeepCopyInto);
  ("Spec", ServiceTokenRequirementSpec_DeepCopyInto);
  ("Status", ServiceTokenRequirementStatus_DeepCopyInto)].
Definition ServiceTokenRequirement_DeepCopy : copier := copyPtr ServiceTokenRequirement_DeepCopyInto.
Definition ServiceTokenRequirement_DeepCopyObject : copier := asObject ServiceTokenRequirement_DeepCopy.
Definition ServiceTokenRequirementList_DeepCopyInto : copier := copyStruct [
  ("TypeMeta", copyFlat); ("ListMeta", ListMeta_DeepCopyInto);
  ("Items", copySliceWith ServiceTokenRequirement_DeepCopyInto)].
Definition ServiceTokenRequirementList_DeepCopy : copier := copyPtr ServiceTokenRequirementList_DeepCopyInto.
Definition ServiceTokenRequirementList_DeepCopyObject : copier := asObject ServiceTokenRequirementList_DeepCopy.
Definition NamespaceSelector_DeepCopyInto : copier := copyStruct [
  ("MatchNames", copySlice); ("MatchLabels", copyMap range)].
Definition NamespaceSelector_DeepCopy : copier := copyPtr NamespaceSelector_DeepCopyInto.
Definition RequesterRule_DeepCopyInto : copier := copyStruct [
  ("NamespaceSelector", copyPtr LabelSelector_DeepCopyInto); ("ServiceAccountNames", copySlice)].
Definition RequesterRule_DeepCopy : copier := copyPtr RequesterRule_DeepCopyInto.
Definition PolicyConstraints_DeepCopyInto : copier := copyStruct [
  ("MandatoryTctxFields", copySlice); ("MandatoryRctxFields", copySlice);
  ("DisallowedEnrichers", copySlice)].
Definition PolicyConstraints_DeepCopy : copier := copyPtr PolicyConstraints_DeepCopyInto.
Definition IssuanceRule_DeepCopyInto : copier := copyFlat.
Definition IssuanceRule_DeepCopy : copier := copyPtr IssuanceRule_DeepCopyInto.
Definition WebhookConfig_DeepCopyInto : copier := copyFlat.
Definition WebhookConfig_DeepCopy : copier := copyPtr WebhookConfig_DeepCopyInto.
Definition TokenPolicySpec_DeepCopyInto : copier := copyStruct [
  ("TargetNamespaces", copyPtr NamespaceSelector_DeepCopyInto);
  ("AuthorizedTransactionNamespaces", copyPtr LabelSelector_DeepCopyInto);
  ("AuthorizedRequesters", copySliceWith RequesterRule_DeepCopyInto);
  ("Constraints", PolicyConstraints_DeepCopyInto); ("IssuanceRules", copySlice);
  ("AccessEvaluationWebhook", copyPtr copyFlat)].
Definition TokenPolicySpec_DeepCopy : copier := copyPtr TokenPolicySpec_DeepCopyInto.
Definition TokenPolicyStatus_DeepCopyInto : copier := copyStruct [
  ("Conditions", copySliceWith Condition_DeepCopyInto)].
Definition TokenPolicyStatus_DeepCopy : copier := copyPtr TokenPolicyStatus_DeepCopyInto.
Definition TokenPolicy_DeepCopyInto : copier := copyStruct [
  ("TypeMeta", copyFlat); ("ObjectMeta", ObjectMeta_DeepCopyInto);
  ("Spec", TokenPolicySpec_DeepCopyInto); ("Status", TokenPolicyStatus_DeepCopyInto)].
Definition TokenPolicy_DeepCopy : copier := copyPtr TokenPolicy_DeepCopyInto.
Definition TokenPolicy_DeepCopyObject : copier := asObject TokenPolicy_DeepCopy.
Definition TokenPolicyList_DeepCopyInto : copier := copyStruct [
  ("TypeMeta", copyFlat); ("ListMeta", ListMeta_DeepCopyInto);
  ("Items", copySliceWith TokenPolicy_DeepCopyInto)].
Definition TokenPolicyList_DeepCopy : copier := copyPtr TokenPolicyList_DeepCopyInto.
Definition TokenPolicyList_DeepCopyObject : copier := asObject TokenPolicyList_DeepCopy.

(** Every copying method of the package, with the type it copies. *)
Definition api_copies : list (ty * copier) := [
  (IssuerConfig_type, IssuerConfig_DeepCopy);
  (ClaimValidationRule_type, ClaimValidationRule_DeepCopy);
  (ClaimOrExpression_type, ClaimOrExpression_DeepCopy); (ExtraMapping_type, ExtraMapping_DeepCopy);
  (ClaimMappings_type, ClaimMappings_DeepCopy);
  (SubjectTokenAuthenticator_type, SubjectTokenAuthenticator_DeepCopy);
  (WorkloadAuthConfig_type, WorkloadAuthConfig_DeepCopy);
  (TokenDefaults_type, TokenDefaults_DeepCopy);
  (TxTokenConfigSpec_type, TxTokenConfigSpec_DeepCopy);
  (TxTokenConfigStatus_type, TxTokenConfigStatus_DeepCopy);
  (TxTokenConfig_type, TxTokenConfig_DeepCopy);
  (TxTokenConfigList_type, TxTokenConfigList_DeepCopy); (EndpointSpec_type, EndpointSpec_DeepCopy);
  (TctxFieldMapping_type, TctxFieldMapping_DeepCopy);
  (TctxEnrichment_type, TctxEnrichment_DeepCopy);
  (TransactionTypeSpec_type, TransactionTypeSpec_DeepCopy);
  (TransactionTypeStatus_type, TransactionTypeStatus_DeepCopy);
  (TransactionType_type, TransactionType_DeepCopy);
  (TransactionTypeList_type, TransactionTypeList_DeepCopy);
  (ServiceReference_type, ServiceReference_DeepCopy);
  (VerificationRule_type, VerificationRule_DeepCopy);
  (VerificationSpec_type, VerificationSpec_DeepCopy);
  (ServiceTokenRequirementSpec_type, ServiceTokenRequirementSpec_DeepCopy);
  (ServiceTokenRequirementStatus_type, ServiceTokenRequirementStatus_DeepCopy);
  (ServiceTokenRequirement_type, ServiceTokenRequirement_DeepCopy);
  (ServiceTokenRequirementList_type, ServiceTokenRequirementList_DeepCopy);
  (NamespaceSelector_type, NamespaceSelector_DeepCopy);
  (RequesterRule_type, RequesterRule_DeepCopy);
  (PolicyConstraints_type, PolicyConstraints_DeepCopy); (IssuanceRule_type, IssuanceRule_DeepCopy);
  (WebhookConfig_type, WebhookConfig_DeepCopy); (TokenPolicySpec_type, TokenPolicySpec_DeepCopy);
  (TokenPolicyStatus_type, TokenPolicyStatus_DeepCopy); (TokenPolicy_type, TokenPolicy_DeepCopy);
  (TokenPolicyList_type, TokenPolicyList_DeepCopy);
  (TxTokenConfig_type, TxTokenConfig_DeepCopyObject);
  (TxTokenConfigList_type, TxTokenConfigList_DeepCopyObject);
  (TransactionType_type, TransactionType_DeepCopyObject);
  (TransactionTypeList_type, TransactionTypeList_DeepCopyObject);
  (ServiceTokenRequirement_type, ServiceTokenRequirement_DeepCopyObject);
  (ServiceTokenRequirementList_type, ServiceTokenRequirementList_DeepCopyObject);
  (TokenPolicy_type, TokenPolicy_DeepCopyObject);
  (TokenPolicyList_type, TokenPolicyList_DeepCopyObject)].

(** ** The copies are deep *)

Context `{!MetaV1Laws _} (range_ok : ∀ m, range_order m (range m)).

Lemma IssuerConfig_deep : deep IssuerConfig_type IssuerConfig_DeepCopyInto.
Proof using Type*. deep_struct. Qed.
#[local] Hint Resolve IssuerConfig_deep : kontxt.
Lemma ClaimValidationRule_deep : deep ClaimValidationRule_type ClaimValidationRule_DeepCopyInto.
Proof using Type*. by apply deep_flat. Qed.
#[local] Hint Resolve ClaimValidationRule_deep : kontxt.
Lemma ClaimOrExpression_deep : deep ClaimOrExpression_type ClaimOrExpression_DeepCopyInto.
Proof using Type*. by apply deep_flat. Qed.
#[local] Hint Resolve ClaimOrExpression_deep : kontxt.
Lemma ExtraMapping_deep : deep ExtraMapping_type ExtraMapping_DeepCopyInto.
Proof using Type*. by apply deep_flat. Qed.
#[local] Hint Resolve ExtraMapping_deep : kontxt.
Lemma ClaimMappings_deep : deep ClaimMappings_type ClaimMappings_DeepCopyInto.
Proof using Type*. deep_struct. Qed.
#[local] Hint Resolve ClaimMappings_deep : kontxt.
Lemma SubjectTokenAuthenticator_deep : deep SubjectTokenAuthenticator_type SubjectTokenAuthenticator_DeepCopyInto.
Proof using Type*. deep_struct. Qed.
#[local] Hint Resolve SubjectTokenAuthenticator_deep : kontxt.
Lemma WorkloadAuthConfig_deep : deep WorkloadAuthConfig_type WorkloadAuthConfig_DeepCopyInto.
Proof using Type*. by apply deep_flat. Qed.
#[local] Hint Resolve WorkloadAuthConfig_deep : kontxt.
Lemma TokenDefaults_deep : deep TokenDefaults_type TokenDefaults_DeepCopyInto.
Proof using Type*. by apply deep_flat. Qed.
#[local] Hint Resolve TokenDefaults_deep : kontxt.
Lemma TxTokenConfigSpec_deep : deep TxTokenConfigSpec_type TxTokenConfigSpec_DeepCopyInto.
Proof using Type*. deep_struct. Qed.
#[local] Hint Resolve TxTokenConfigSpec_deep : kontxt.
Lemma TxTokenConfigStatus_deep : deep TxTokenConfigStatus_type TxTokenConfigStatus_DeepCopyInto.
Proof using Type*. deep_struct. Qed.
#[local] Hint Resolve TxTokenConfigStatus_deep : kontxt.
Lemma TxTokenConfig_deep : deep TxTokenConfig_type TxTokenConfig_DeepCopyInto.
Proof using Type*. deep_struct. Qed.
#[local] Hint Resolve TxTokenConfig_deep : kontxt.
Lemma TxTokenConfigList_deep : deep TxTokenConfigList_type TxTokenConfigList_DeepCopyInto.
Proof using Type*. deep_struct. Qed.
#[local] Hint Resolve TxTokenConfigList_deep : kontxt.
Lemma EndpointSpec_deep : deep EndpointSpec_type EndpointSpec_DeepCopyInto.
Proof using Type*. by apply deep_flat. Qed.
#[local] Hint Resolve EndpointSpec_deep : kontxt.
Lemma TctxFieldMapping_deep : deep TctxFieldMapping_type TctxFieldMapping_DeepCopyInto.
Proof using Type*. by apply deep_flat. Qed.
#[local] Hint Resolve TctxFieldMapping_deep : kontxt.
Lemma TctxEnrichment_deep : deep TctxEnrichment_type TctxEnrichment_DeepCopyInto.
Proof using Type*. by apply deep_flat. Qed.
#[local] Hint Resolve TctxEnrichment_deep : kontxt.
Lemma TransactionTypeSpec_deep : deep TransactionTypeSpec_type TransactionTypeSpec_DeepCopyInto.
Proof using Type*. deep_struct. Qed.
#[local] Hint Resolve TransactionTypeSpec_deep : kontxt.
Lemma TransactionTypeStatus_deep : deep TransactionTypeStatus_type TransactionTypeStatus_DeepCopyInto.
Proof using Type*. deep_struct. Qed.
#[local] Hint Resolve TransactionTypeStatus_deep : kontxt.
Lemma TransactionType_deep : deep TransactionType_type TransactionType_DeepCopyInto.
Proof using Type*. deep_struct. Qed.
#[local] Hint Resolve TransactionType_deep : kontxt.
Lemma TransactionTypeList_deep : deep TransactionTypeList_type TransactionTypeList_DeepCopyInto.
Proof using Type*. deep_struct. Qed.
#[local] Hint Resolve TransactionTypeList_deep : kontxt.
Lemma ServiceReference_deep : deep ServiceReference_type ServiceReference_DeepCopyInto.
Proof using Type*. by apply deep_flat. Qed.
#[local] Hint Resolve ServiceReference_deep : kontxt.
Lemma VerificationRule_deep : deep VerificationRule_type VerificationRule_DeepCopyInto.
Proof using Type*. by apply deep_flat. Qed.
#[local] Hint Resolve VerificationRule_deep : kontxt.
Lemma VerificationSpec_deep : deep VerificationSpec_type VerificationSpec_DeepCopyInto.
Proof using Type*. deep_struct. Qed.
#[local] Hint Resolve VerificationSpec_deep : kontxt.
Lemma ServiceTokenRequirementSpec_deep : deep ServiceTokenRequirementSpec_type ServiceTokenRequirementSpec_DeepCopyInto.
Proof using Type*. deep_struct. Qed.
#[local] Hint Resolve ServiceTokenRequirementSpec_deep : kontxt.
Lemma ServiceTokenRequirementStatus_deep : deep ServiceTokenRequirementStatus_type ServiceTokenRequirementStatus_DeepCopyInto.
Proof using Type*. deep_struct. Qed.
#[local] Hint Resolve ServiceTokenRequirementStatus_deep : kontxt.
Lemma ServiceTokenRequirement_deep : deep ServiceTokenRequirement_type ServiceTokenRequirement_DeepCopyInto.
Proof using Type*. deep_struct. Qed.
#[local] Hint Resolve ServiceTokenRequirement_deep : kontxt.
Lemma ServiceTokenRequirementList_deep : deep ServiceTokenRequirementList_type ServiceTokenRequirementList_DeepCopyInto.
Proof using Type*. deep_struct. Qed.
#[local] Hint Resolve ServiceTokenRequirementList_deep : kontxt.
Lemma NamespaceSelector_deep : deep NamespaceSelector_type NamespaceSelector_DeepCopyInto.
Proof using Type*. deep_struct. Qed.
#[local] Hint Resolve NamespaceSelector_deep : kontxt.
Lemma RequesterRule_deep : deep RequesterRule_type RequesterRule_DeepCopyInto.
Proof using Type*. deep_struct. Qed.
#[local] Hint Resolve RequesterRule_deep : kontxt.
Lemma PolicyConstraints_deep : deep PolicyConstraints_type PolicyConstraints_DeepCopyInto.
Proof using Type*. deep_struct. Qed.
#[local] Hint Resolve PolicyConstraints_deep : kontxt.
Lemma IssuanceRule_deep : deep IssuanceRule_type IssuanceRule_DeepCopyInto.
Proof using Type*. by apply deep_flat. Qed.
#[local] Hint Resolve IssuanceRule_deep : kontxt.
Lemma WebhookConfig_deep : deep WebhookConfig_type WebhookConfig_DeepCopyInto.
Proof using Type*. by apply deep_flat. Qed.
#[local] Hint Resolve WebhookConfig_deep : kontxt.
Lemma TokenPolicySpec_deep : deep TokenPolicySpec_type TokenPolicySpec_DeepCopyInto.
Proof using Type*. deep_struct. Qed.
#[local] Hint Resolve TokenPolicySpec_deep : kontxt.
Lemma TokenPolicyStatus_deep : deep TokenPolicyStatus_type TokenPolicyStatus_DeepCopyInto.
Proof using Type*. deep_struct. Qed.
#[local] Hint Resolve TokenPolicyStatus_deep : kontxt.
Lemma TokenPolicy_deep : deep TokenPolicy_type TokenPolicy_DeepCopyInto.
Proof using Type*. deep_struct. Qed.
#[local] Hint Resolve TokenPolicy_deep : kontxt.
Lemma TokenPolicyList_deep : deep TokenPolicyList_type TokenPolicyList_DeepCopyInto.
Proof using Type*. deep_struct. Qed.
#[local] Hint Resolve TokenPolicyList_deep : kontxt.

Lemma asObject_deep t c : deep (TPtr t) c → deep (TPtr t) (asObject c).
Proof using Type.
  intros Hd h0 v0 h v Hs. destruct (Hd h0 v0 h v Hs) as [Hsub Hsame]. unfold asObject.
  destruct (c v h) as [v' h']. simpl in Hsame. unfold ref_same in Hsame.
  destruct v' as [| | | |[l|]], v0 as [| | | |[l0|]]; done.
Qed.

Lemma api_copies_deep : Forall (λ tc, deep (TPtr tc.1) tc.2) api_copies.
Proof using Type*.
  repeat apply Forall_cons_2; [..|apply Forall_nil_2]; cbn [fst snd];
    try apply asObject_deep; apply deep_copyPtr; auto with kontxt.
Qed.

(** C24.  The deep copies of the API types are equal to the originals and share
    nothing with them: whichever of the types a pointer refers to (nil included),
    the method returns a pointer to an equal value, changes no existing cell, and
    afterwards no write to the cells there were before can be seen through the
    copy, and no write to any other cell, those of the copy among them, through
    the original.  In particular a reconciler that writes to the status of its
    copy leaves the client's cache as it was. *)
Theorem deep_copies_separate t c h p :
  (t, c) ∈ api_copies → has_type (TPtr t) h p →
  let '(p', h') := c p h in
  h ⊆ h' ∧ same (TPtr t) h p h' p' ∧
  (∀ h'', (∀ l, l ∈ dom h → h'' !! l = h' !! l) → same (TPtr t) h p h'' p) ∧
  (∀ h'', (∀ l, l ∉ dom h → h'' !! l = h' !! l) → same (TPtr t) h p h'' p').
Proof using Type*.
  intros Hin. apply deep_separate. by apply (proj1 (Forall_forall _ _) api_copies_deep (t, c)).
Qed.
End resources.

Module DeepCopyExample.
#[export] Instance meta : MetaV1 := {|
  TypeMeta_type := TStruct [("Kind", TString); ("APIVersion", TString)];
  ObjectMeta_type := TStruct [("Name", TString); ("Namespace", TString); ("Labels", TMap TString)];
  ObjectMeta_DeepCopyInto := copyStruct [("Labels", copyMap map_to_list)];
  ListMeta_type := TStruct [("ResourceVersion", TString); ("RemainingItemCount", TPtr TInt)];
  ListMeta_DeepCopyInto := copyStruct [("RemainingItemCount", copyPtr copyFlat)];
  Condition_type := TStruct [("Type", TString); ("Status", TString); ("Reason", TString); ("Message", TString)];
  Condition_DeepCopyInto := copyStruct [];
  LabelSelector_type := TStruct [("MatchLabels", TMap TString)];
  LabelSelector_DeepCopyInto := copyStruct [("MatchLabels", copyMap map_to_list)];
|}.

Lemma map_to_list_order (m : gmap string gval) : range_order m (map_to_list m).
Proof. unfold range_order. reflexivity. Qed.
#[local] Hint Resolve map_to_list_order : kontxt.

#[export] Instance meta_laws : MetaV1Laws meta.
Proof. split; [done|deep_struct..]. Qed.

(** A policy for one namespace, at location 0. *)
Definition policy : gval := VStruct {[
  "TypeMeta" := VStruct {[ "Kind" := VString "TokenPolicy"; "APIVersion" := VString "v1alpha1" ]};
  "ObjectMeta" := VStruct {[ "Name" := VString "limits"; "Namespace" := VString ""; "Labels" := VRef None ]};
  "Spec" := VStruct {[
    "TargetNamespaces" := VRef (Some 1); "AuthorizedTransactionNamespaces" := VRef None;
    "AuthorizedRequesters" := VRef None;
    "Constraints" := VStruct {[ "MaxTokenLifetime" := VString "30s"; "MandatoryTctxFields" := VRef None;
      "MandatoryRctxFields" := VRef None; "DisallowedEnrichers" := VRef None ]};
    "IssuanceRules" := VRef None; "AccessEvaluationWebhook" := VRef None ]};
  "Status" := VStruct {[ "Conditions" := VRef (Some 3) ]} ]}.
Definition memory : heap := {[
  0 := CVal policy;
  1 := CVal (VStruct {[ "MatchNames" := VRef (Some 2); "MatchLabels" := VRef None ]});
  2 := CArray [VString "shop"];
  3 := CArray [VStruct {[ "Type" := VString "Ready"; "Status" := VString "True"; "Reason" := VString "";
                          "Message" := VString "" ]}] ]}.

Ltac well_typed :=
  repeat match goal with
  | |- _ ∧ _ => split
  | |- field_same _ _ _ _ => eexists _, _; split; [reflexivity|]; split; [reflexivity|]
  | |- same (TPtr _) _ _ _ _ => cbn [same ref_same]
  | |- same _ _ _ _ _ => cbn [same]
  | |- ref_same _ _ (VRef None) _ (VRef None) => exact I
  | |- ref_same _ _ (VRef (Some _)) _ _ => eexists _, _; split; [reflexivity|]; split; [reflexivity|]
  | |- ∃ _ _ : gmap string gval, _ => eexists _, _; split; [reflexivity|]; split; [reflexivity|]
  | |- ∃ _ : string, _ => eexists; split; reflexivity
  | |- ∃ _ _ : cell, _ => eexists _, _; split; [reflexivity|]; split; [reflexivity|]
  | |- Forall2 _ _ _ => constructor
  | |- True => exact I
  | |- _ => progress simpl
  end.

Lemma memory_typed : has_type (TPtr TokenPolicy_type) memory (VRef (Some 0)).
Proof. unfold has_type. well_typed. Qed.

(** The namespaces of the copy are changed; the original's are not. *)
Lemma deep_copies_separate_witness :
  let '(p', h') := TokenPolicy_DeepCopy map_to_list (VRef (Some 0)) memory in
  p' = VRef (Some 4) ∧ h' !! 6 = Some (CArray [VString "shop"]) ∧
  same (TPtr TokenPolicy_type) memory (VRef (Some 0)) (<[6 := CArray [VString "other"]]> h') (VRef (Some 0)).
Proof.
  pose proof (deep_copies_separate map_to_list map_to_list_order TokenPolicy_type
    (TokenPolicy_DeepCopy map_to_list) memory (VRef (Some 0))) as Hsep.
  destruct (TokenPolicy_DeepCopy map_to_list (VRef (Some 0)) memory) as [p' h'] eqn:Hc.
  split; [by apply (f_equal fst) in Hc; vm_compute in Hc|].
  split; [by apply (f_equal (λ ph, ph.2 !! 6)) in Hc; vm_compute in Hc|].
  destruct Hsep as (_ & _ & Horig & _); [|apply memory_typed|].
  - unfold api_copies. do 33 right. left.
  - apply Horig. intros l Hl. rewrite lookup_insert_ne; [done|]. intros <-. revert Hl. by vm_compute.
Defined.
End DeepCopyExample.
