(* ===== verification/Feeds.v ===== *)
(** * Rule distribution: publications, versions and what a client has seen

    The log of a feed is the list of the sets published on it, oldest first: the
    set of version [v] is the [v]-th, and before the first there are no rules.
    [feed_logged] ties the server's state to the log, [conn_ok] a client's
    connection: the messages it received, those on the wire and those in its
    channel are publications of the log in order.  A move of the feed keeps both,
    with a log that has grown by at most one set. *)

From stdpp Require Import pretty.
From S2P Require Import Prelude Api RulesProto RuleServer RuleServerProps.

Local Open Scope Z_scope.

(** ** Connections *)

(** A client's stream: the subscription while it is open, the messages sent and
    not yet received, and all that was ever received. *)
Record Conn (P : Type) := {
  cn_id : option string;
  cn_wire : list (StreamResponse P);
  cn_received : list (StreamResponse P);
}.
Arguments cn_id {_} _.
Arguments cn_wire {_} _.
Arguments cn_received {_} _.
Arguments Build_Conn {_} _ _ _.

Definition newConn {P} : Conn P := Build_Conn None [] [].

(** The stream opens with a snapshot, takes over a message of the channel, hands
    one to the client, and breaks. *)
Definition conn_open {P} (cn : Conn P) (id : string) (snapshot : StreamResponse P) : Conn P :=
  Build_Conn (Some id) [snapshot] (cn_received cn).
Definition conn_send {P} (cn : Conn P) (m : StreamResponse P) : Conn P :=
  Build_Conn (cn_id cn) (cn_wire cn ++ [m]) (cn_received cn).
Definition conn_deliver {P} (cn : Conn P) (m : StreamResponse P) (wire : list (StreamResponse P)) : Conn P :=
  Build_Conn (cn_id cn) wire (cn_received cn ++ [m]).
Definition conn_break {P} (cn : Conn P) : Conn P := Build_Conn None [] (cn_received cn).

(** ** Logs *)

Section feed.
Context {R P : Type} (toProto : list R → list P) (Q : list R → Prop).
Implicit Types (f : Feed R P) (cn : Conn P) (log : list (list R)) (v : nat).

Definition log_at log v : list R := match v with O => [] | S v => default [] (log !! v) end.

(** The message of a version. *)
Definition publication log v : StreamResponse P :=
  Build_StreamResponse (Some (Snapshot (toProto (log_at log v)))) (pretty (Z.of_nat v)).

(** [ms] are the publications of the versions [vs], of the log. *)
Definition published log (vs : list nat) (ms : list (StreamResponse P)) : Prop :=
  ms = map (publication log) vs ∧ Forall (λ v, v ≤ length log)%nat vs.

Record feed_logged log f : Prop := {
  fl_rules : fd_rules f = log_at log (length log);
  fl_version : fd_version f = Z.of_nat (length log);
  fl_published : Forall Q log;
}.

(** The channel of an open subscription. *)
Definition channel_of f (id : option string) : list (StreamResponse P) :=
  match id with Some id => default [] (fd_subscribers f !! id) | None => [] end.

Definition conn_ok log f cn : Prop :=
  ∃ vr vw vc, published log vr (cn_received cn) ∧ published log vw (cn_wire cn) ∧
    published log vc (channel_of f (cn_id cn)) ∧ StronglySorted Nat.le (vr ++ vw ++ vc).

Definition logged log f cn : Prop := feed_logged log f ∧ conn_ok log f cn.

(** What the server does to a feed. *)
Inductive feed_move : Feed R P → Feed R P → Prop :=
  | move_none f : feed_move f f
  | move_publish f rules : Q rules → feed_move f (broadcast f rules (Snapshot (toProto rules)))
  | move_subscribe f id : feed_move f (subscribe f id)
  | move_take f id m f' : takeMessage f id = Some (m, f') → feed_move f f'
  | move_leave f id : feed_move f (unsubscribe f id).

Lemma log_at_app log rules v : (v ≤ length log)%nat → log_at (log ++ [rules]) v = log_at log v.
Proof. intros Hv. destruct v as [|v]; [done|]. simpl. rewrite lookup_app_l by lia. done. Qed.

Lemma log_at_last log rules : log_at (log ++ [rules]) (length (log ++ [rules])) = rules.
Proof. rewrite length_app, Nat.add_1_r. simpl. by rewrite lookup_app_r, Nat.sub_diag by lia. Qed.

Lemma log_at_Q log v : Forall Q log → log_at log v = [] ∨ Q (log_at log v).
Proof.
  intros Hl. destruct v as [|v]; [by left|]. simpl. destruct (log !! v) as [rules|] eqn:Hv; [right|by left].
  by apply (proj1 (Forall_lookup Q log) Hl v).
Qed.

Lemma published_app log rules vs ms : published log vs ms → published (log ++ [rules]) vs ms.
Proof.
  intros [-> Hvs]. split.
  - apply map_ext_in. intros v Hv%list_elem_of_In. unfold publication.
    rewrite log_at_app; [done|]. by apply (proj1 (Forall_forall _ _) Hvs).
  - eapply Forall_impl; [exact Hvs|]. simpl. intros v. rewrite length_app. lia.
Qed.

Lemma published_nil log : published log [] [].
Proof. by split. Qed.

Lemma published_snoc log vs ms v :
  published log vs ms → (v ≤ length log)%nat → published log (vs ++ [v]) (ms ++ [publication log v]).
Proof.
  intros [-> Hvs] Hv. split; [by rewrite map_app|]. apply Forall_app. split; [done|]. by constructor.
Qed.

Lemma published_cons_inv log vs m ms :
  published log vs (m :: ms) → ∃ v vs', vs = v :: vs' ∧ (v ≤ length log)%nat ∧ m = publication log v ∧
    published log vs' ms.
Proof.
  intros [Hm Hvs]. destruct vs as [|v vs]; [done|]. injection Hm as -> ->.
  apply Forall_cons in Hvs as [Hv Hvs]. by exists v, vs.
Qed.

(** The message an update broadcasts, and the one a stream opens with. *)
Lemma broadcast_publication log f rules :
  feed_logged log f → Z.of_nat (length log) + 1 < 2 ^ 64 →
  Build_StreamResponse (Some (Snapshot (toProto rules))) (pretty (addOne (fd_version f)))
  = publication (log ++ [rules]) (length (log ++ [rules])).
Proof.
  intros [_ Hv _] Hb. unfold publication. rewrite log_at_last, Hv. unfold addOne.
  rewrite Z.mod_small by lia. do 2 f_equal. rewrite length_app. simpl. lia.
Qed.

Lemma snapshot_publication log f :
  feed_logged log f → buildSnapshot toProto f = publication log (length log).
Proof. intros [Hr Hv _]. unfold buildSnapshot, publication. by rewrite Hr, Hv. Qed.

(** ** Moves keep the log *)

Lemma published_suffix log vs ms ms' :
  published log vs ms → ms' `suffix_of` ms → ∃ vs', vs' `suffix_of` vs ∧ published log vs' ms'.
Proof.
  intros [-> Hvs] [ms0 Hms]. exists (drop (length ms0) vs). split.
  { exists (take (length ms0) vs). by rewrite take_drop. }
  split; [|by apply Forall_drop].
  rewrite <-(drop_app_length ms0 ms'), <-Hms. apply skipn_map.
Qed.

Lemma sorted_suffix (l vs vs' : list nat) :
  StronglySorted Nat.le (l ++ vs) → vs' `suffix_of` vs → StronglySorted Nat.le (l ++ vs').
Proof.
  intros Hs [vs0 ->]. rewrite !StronglySorted_app in *. destruct Hs as (Hx & Hl & _ & _ & Hvs').
  split_and!; [|done|done]. intros x1 x2 H1 H2. apply Hx; [done|]. apply elem_of_app. by right.
Qed.

Lemma sorted_snoc (l : list nat) n :
  StronglySorted Nat.le l → Forall (λ v, v ≤ n)%nat l → StronglySorted Nat.le (l ++ [n]).
Proof.
  intros Hs Hb. apply StronglySorted_app_2; [|done|by repeat constructor].
  intros x1 x2 H1 ->%list_elem_of_singleton. by apply (proj1 (Forall_forall _ _) Hb).
Qed.

(** A move other than a publication keeps the set and shortens channels at most. *)
Lemma move_quiet f f' id :
  feed_move f f' →
  (∃ rules, Q rules ∧ f' = broadcast f rules (Snapshot (toProto rules))) ∨
  (fd_rules f' = fd_rules f ∧ fd_version f' = fd_version f ∧
   channel_of f' id `suffix_of` channel_of f id).
Proof.
  intros Hm. destruct Hm as [f|f rules HQ|f id'|f id' m f' Ht|f id']; [by right|by left; eauto|right..].
  - split_and!; [done..|]. destruct id as [id|]; [|done]. simpl.
    destruct (decide (id' = id)) as [->|]; [rewrite lookup_insert_eq; simpl; apply suffix_nil|].
    by rewrite lookup_insert_ne.
  - unfold takeMessage in Ht. destruct (fd_subscribers f !! id') as [[|m' ch]|] eqn:Hid; [done| |done].
    injection Ht as <- <-. split_and!; [done..|]. destruct id as [id|]; [|done]. simpl.
    destruct (decide (id' = id)) as [->|]; [|by rewrite lookup_insert_ne].
    rewrite lookup_insert_eq, Hid. simpl. by apply suffix_cons_r.
  - split_and!; [done..|]. destruct id as [id|]; [|done]. simpl.
    destruct (decide (id' = id)) as [->|]; [rewrite lookup_delete_eq; simpl; apply suffix_nil|].
    by rewrite lookup_delete_ne.
Qed.

Lemma feed_logged_publish log f rules :
  Z.of_nat (length log) + 1 < 2 ^ 64 → Q rules → feed_logged log f →
  feed_logged (log ++ [rules]) (broadcast f rules (Snapshot (toProto rules))).
Proof.
  intros Hb HQ [Hr Hv Hl]. split; simpl.
  - by rewrite log_at_last.
  - unfold addOne. rewrite Hv, Z.mod_small, length_app by lia. simpl. lia.
  - apply Forall_app. by repeat constructor.
Qed.

Lemma published_bound log vs ms : published log vs ms → Forall (λ v, v ≤ length log)%nat vs.
Proof. by intros [_ ?]. Qed.

Lemma conn_ok_publish log f cn rules :
  Z.of_nat (length log) + 1 < 2 ^ 64 → feed_logged log f → conn_ok log f cn →
  conn_ok (log ++ [rules]) (broadcast f rules (Snapshot (toProto rules))) cn.
Proof.
  intros Hb Hl (vr & vw & vc & Hr & Hw & Hc & Hs).
  assert (Forall (λ v, v ≤ length (log ++ [rules]))%nat (vr ++ vw ++ vc)) as Hall.
  { rewrite !Forall_app. by split_and!; (eapply published_bound, published_app). }
  pose proof (published_app log rules _ _ Hr) as Hr'. pose proof (published_app log rules _ _ Hw) as Hw'.
  pose proof (published_app log rules _ _ Hc) as Hc'.
  unfold conn_ok. destruct (cn_id cn) as [id|]; [|by exists vr, vw, vc]. simpl in *.
  rewrite lookup_fmap. destruct (fd_subscribers f !! id) as [ch|]; simpl; [|by exists vr, vw, vc].
  unfold trySend. destruct (_ <? _)%nat; [|by exists vr, vw, vc].
  exists vr, vw, (vc ++ [length (log ++ [rules])]). split_and!; [done..| |].
  - rewrite (broadcast_publication log) by done. by apply published_snoc.
  - rewrite !app_assoc. rewrite <-(app_assoc vr). by apply sorted_snoc.
Qed.

(** One move of the server, seen from the log and a connection. *)
Lemma logged_move log f f' cn :
  Z.of_nat (length log) + 1 < 2 ^ 64 → feed_move f f' → logged log f cn →
  ∃ log', (log' = log ∨ ∃ rules, log' = log ++ [rules]) ∧ logged log' f' cn.
Proof.
  intros Hb Hm [Hl Hc]. destruct (move_quiet f f' (cn_id cn) Hm) as [(rules & HQ & ->)|(Hr & Hv & Hch)].
  - exists (log ++ [rules]). split; [right; by exists rules|].
    split; [by apply feed_logged_publish|by apply conn_ok_publish].
  - exists log. split; [by left|]. split.
    + destruct Hl as [Hr0 Hv0 HQ]. split; [congruence..|done].
    + destruct Hc as (vr & vw & vc & Hpr & Hpw & Hpc & Hs).
      destruct (published_suffix _ _ _ _ Hpc Hch) as (vc' & Hvc & Hpc').
      exists vr, vw, vc'. split_and!; [done..|]. rewrite !app_assoc in *. by eapply sorted_suffix.
Qed.

(** ** The life of a connection *)

Lemma logged_start f : fd_rules f = [] → fd_version f = 0 → logged [] f newConn.
Proof.
  intros Hr Hv. split; [split; [done|done|constructor]|]. exists [], [], [].
  split_and!; [apply published_nil..|constructor].
Qed.

Lemma logged_open log f cn id :
  logged log f cn →
  logged log (subscribe f id) (conn_open cn id (buildSnapshot toProto (subscribe f id))).
Proof.
  intros [[Hr Hv HQ] (vr & vw & vc & Hpr & Hpw & _ & Hs)]. split; [done|].
  exists vr, [length log], []. split_and!; [done| | |].
  - simpl. rewrite (snapshot_publication log) by done. split; [done|]. by repeat constructor.
  - simpl. rewrite lookup_insert_eq. apply published_nil.
  - rewrite app_nil_r. apply sorted_snoc; [by eapply StronglySorted_app_1_l|]. by eapply published_bound.
Qed.

Lemma logged_send log f cn id m f' :
  cn_id cn = Some id → takeMessage f id = Some (m, f') → logged log f cn → logged log f' (conn_send cn m).
Proof.
  intros Hid Ht [[Hr Hv HQ] (vr & vw & vc & Hpr & Hpw & Hpc & Hs)]. unfold takeMessage in Ht.
  rewrite Hid in Hpc. simpl in Hpc.
  destruct (fd_subscribers f !! id) as [[|m' ch]|] eqn:Hch; [done| |done]. injection Ht as <- <-.
  split; [done|]. apply published_cons_inv in Hpc as (v & vc' & -> & Hv' & -> & Hpc).
  exists vr, (vw ++ [v]), vc'. simpl. rewrite Hid. simpl. rewrite lookup_insert_eq.
  split_and!; [done|by apply published_snoc|done|]. by rewrite <-!app_assoc.
Qed.

(** What is delivered is a publication. *)
Lemma logged_deliver log f cn m wire :
  cn_wire cn = m :: wire → logged log f cn →
  logged log f (conn_deliver cn m wire) ∧ ∃ v, (v ≤ length log)%nat ∧ m = publication log v.
Proof.
  intros Hw [Hl (vr & vw & vc & Hpr & Hpw & Hpc & Hs)]. rewrite Hw in Hpw.
  apply published_cons_inv in Hpw as (v & vw' & -> & Hv & -> & Hpw). split; [|by exists v].
  split; [done|]. exists (vr ++ [v]), vw', vc. split_and!; [by apply published_snoc|done..|].
  by rewrite <-app_assoc.
Qed.

Lemma logged_break log f cn : logged log f cn → logged log f (conn_break cn).
Proof.
  intros [Hl (vr & vw & vc & Hpr & _ & _ & Hs)]. split; [done|]. exists vr, [], [].
  split_and!; [done|apply published_nil..|]. rewrite app_nil_r. by eapply StronglySorted_app_1_l.
Qed.

(** What was received: publications, never an older one after a newer one. *)
Lemma logged_received log f cn :
  logged log f cn → ∃ vs, published log vs (cn_received cn) ∧ StronglySorted Nat.le vs.
Proof.
  intros [_ (vr & vw & vc & Hpr & _ & _ & Hs)]. exists vr. split; [done|]. by eapply StronglySorted_app_1_l.
Qed.

Lemma publication_grow log log' v :
  (log' = log ∨ ∃ rules, log' = log ++ [rules]) → (v ≤ length log)%nat →
  log_at log' v = log_at log v ∧ (v ≤ length log')%nat.
Proof.
  intros [->|[rules ->]] Hv; [done|]. rewrite log_at_app, length_app by done. split; [done|lia].
Qed.
End feed.

Lemma logged_mono {R P} (toProto : list R → list P) (Q Q' : list R → Prop) log f cn :
  (∀ l, Q l → Q' l) → logged toProto Q log f cn → logged toProto Q' log f cn.
Proof. intros HQ [[Hr Hv Hl] Hc]. split; [|done]. split; [done..|]. by eapply Forall_impl. Qed.
