(* ===== verification/System.v ===== *)
(** * The whole system: controller, token service and adapter together

    The three processes of [ControllerMain], [TTSMain] and [ExtAuthMain], with
    the streams between them.  A stream is opened by its client, fed by the
    server from the subscriber's channel, and may break at any moment, losing
    what is on the wire; the client then opens another.  A run of the system is
    a run of each of its parts.  The controller may have any number of other
    clients: their streams are among its own steps. *)

From stdpp Require Import relations.
From S2P Require Import Prelude GoStrings GoTime External Token Keys Fetch Issuance Authn LocalVerifier.
From S2P Require Import TTSHandler Instances AuthnProps Api PolicyRules CelVerify Controller GoSort RulesProto.
From S2P Require Import RuleServer RuleServerProps RuleClient Pipeline Feeds TTSRuleClient ControllerProps.
From S2P Require Import SdkVerify SdkClient Identity ExtAuth ExtAuthProps ReconcileSteps TTSServer TTSMain ExtAuthMain ControllerMain.

Local Open Scope Z_scope.

Section system.
Context `{Unicode, !JSON, CEL, Crypto, !JWT, Documents, HttpClient} {W : Type} `{!KubeClient W}.
Context (net : Network).
(** The orders of the ranges over maps: headers, field mappings, rules. *)
Context (hrange : gmap string string → list (string * string)).
Context (frange : gmap string TctxFieldMapping → list (string * TctxFieldMapping)).
Context (grange : gmap ruleKey GenerationRule → list (ruleKey * GenerationRule)).
Context (vrange : gmap ruleKey VerificationRule → list (ruleKey * VerificationRule)).
Context (irange : gmap issuanceKey PublishedIssuanceRule → list (issuanceKey * PublishedIssuanceRule)).

Record System := Build_System {
  sy_ctl : ControllerProcess W;
  sy_tts : TTSProcess;
  sy_adapter : AdapterProcess;
  sy_iss : Conn ProtoIssuanceRule;
  sy_ver : Conn ProtoVerificationRule;
  sy_gen : Conn ProtoGenerationRule;
}.

Inductive system_step : relation System :=
  | sys_control c l c' t a i v g :
      controller_step frange c l c' → system_step (Build_System c t a i v g) (Build_System c' t a i v g)
  | sys_request c t a i v g env path r :
      system_step (Build_System c t a i v g) (Build_System c (processServe net t env path r).2 a i v g)
  | sys_check c t a i v g enet now req :
      system_step (Build_System c t a i v g)
        (Build_System c t (adapterCheck hrange frange enet now a req).2 i v g)
  (* the token service's stream *)
  | sys_iss_open w s rn t a i v g id snapshot s' :
      is_Some (tp_synced t) → tp_pending t = false → StreamIssuanceRules s = (id, snapshot, s') →
      system_step (Build_System (Build_ControllerProcess w s rn) t a i v g)
        (Build_System (Build_ControllerProcess w s' rn) (processConnect t) a (conn_open i id snapshot) v g)
  | sys_iss_send w s rn t a i v g id m f :
      cn_id i = Some id → takeMessage (iss s) id = Some (m, f) →
      system_step (Build_System (Build_ControllerProcess w s rn) t a i v g)
        (Build_System (Build_ControllerProcess w (set_iss s f) rn) t a (conn_send i m) v g)
  | sys_iss_deliver c t a i v g m wire :
      is_Some (tp_synced t) → tp_pending t = false → cn_wire i = m :: wire →
      system_step (Build_System c t a i v g)
        (Build_System c (processMessage irange t m) a (conn_deliver i m wire) v g)
  | sys_iss_store c t a i v g :
      tp_pending t = true → is_Some (tp_synced t) →
      system_step (Build_System c t a i v g) (Build_System c (processStore t) a i v g)
  | sys_iss_break c t a i v g :
      system_step (Build_System c t a i v g) (Build_System c t a (conn_break i) v g)
  (* the streams of the adapter, one in each mode *)
  | sys_ver_open w s rn t a i v g id snapshot s' :
      is_Some (verSet (ap_client a)) → ap_genPending a = false → ap_verPending a = false →
      StreamVerificationRules s = (id, snapshot, s') →
      system_step (Build_System (Build_ControllerProcess w s rn) t a i v g)
        (Build_System (Build_ControllerProcess w s' rn) t (startAdapter (ap_client a)) i (conn_open v id snapshot) g)
  | sys_ver_send w s rn t a i v g id m f :
      cn_id v = Some id → takeMessage (ver s) id = Some (m, f) →
      system_step (Build_System (Build_ControllerProcess w s rn) t a i v g)
        (Build_System (Build_ControllerProcess w (set_ver s f) rn) t a i (conn_send v m) g)
  | sys_ver_deliver c t a i v g m wire :
      is_Some (verSet (ap_client a)) → ap_verPending a = false → cn_wire v = m :: wire →
      system_step (Build_System c t a i v g)
        (Build_System c t (adapterVerification vrange a m) i (conn_deliver v m wire) g)
  | sys_ver_store c t a i v g :
      ap_verPending a = true → system_step (Build_System c t a i v g) (Build_System c t (adapterVerificationStore a) i v g)
  | sys_ver_break c t a i v g :
      system_step (Build_System c t a i v g) (Build_System c t a i (conn_break v) g)
  | sys_gen_open w s rn t a i v g id snapshot s' :
      is_Some (genSet (ap_client a)) → ap_genPending a = false → ap_verPending a = false →
      StreamGenerationRules s = (id, snapshot, s') →
      system_step (Build_System (Build_ControllerProcess w s rn) t a i v g)
        (Build_System (Build_ControllerProcess w s' rn) t (startAdapter (ap_client a)) i v (conn_open g id snapshot))
  | sys_gen_send w s rn t a i v g id m f :
      cn_id g = Some id → takeMessage (gen s) id = Some (m, f) →
      system_step (Build_System (Build_ControllerProcess w s rn) t a i v g)
        (Build_System (Build_ControllerProcess w (set_gen s f) rn) t a i v (conn_send g m))
  | sys_gen_deliver c t a i v g m wire :
      is_Some (genSet (ap_client a)) → ap_genPending a = false → cn_wire g = m :: wire →
      system_step (Build_System c t a i v g)
        (Build_System c t (adapterGeneration grange a m) i v (conn_deliver g m wire))
  | sys_gen_store c t a i v g :
      ap_genPending a = true → system_step (Build_System c t a i v g) (Build_System c t (adapterGenerationStore a) i v g)
  | sys_gen_break c t a i v g :
      system_step (Build_System c t a i v g) (Build_System c t a i v (conn_break g)).

(** A run, with the states of the cluster, the last one first. *)
Inductive system_run (s0 : System) : list W → System → Prop :=
  | sys_start : system_run s0 [cp_cluster (sy_ctl s0)] s0
  | sys_next ws s s' :
      system_run s0 ws s → system_step s s' → system_run s0 (cp_cluster (sy_ctl s') :: ws) s'.

(** A trace of the controller alone. *)
Lemma system_run_control s0 ws c t a i v g tr c' :
  system_run s0 ws (Build_System c t a i v g) → controller_trace frange c tr c' →
  system_run s0 (tr.*2 ++ ws) (Build_System c' t a i v g).
Proof.
  intros Hrun. induction 1 as [|tr p l p' _ IH Hstep]; [done|]. simpl.
  change (cp_cluster p') with (cp_cluster (sy_ctl (Build_System p' t a i v g))).
  eapply sys_next; [exact IH|]. by eapply sys_control.
Qed.

(** ** The runs of the parts *)

Lemma system_step_controller s s' : system_step s s' → ∃ l, controller_step frange (sy_ctl s) l (sy_ctl s').
Proof.
  assert (∀ c : ControllerProcess W, ∃ l, controller_step frange c l c) as Hidle.
  { intros [w0 s1 rn0]. eexists. apply cluster_changes. }
  destruct 1 as [c l c' t a i v g Hc| | |w s rn t a i v g id sn s' _ _ Hs|w s rn t a i v g id m f _ Hm| | |
    |w s rn t a i v g id sn s' _ _ _ Hs|w s rn t a i v g id m f _ Hm| | |
    |w s rn t a i v g id sn s' _ _ _ Hs|w s rn t a i v g id m f _ Hm| | |]; simpl; try apply Hidle; [by exists l|..].
  all: exists Silent; apply stream_rpc.
  - replace s' with (StreamIssuanceRules s).2 by (by rewrite Hs). constructor.
  - by econstructor.
  - replace s' with (StreamVerificationRules s).2 by (by rewrite Hs). constructor.
  - by econstructor.
  - replace s' with (StreamGenerationRules s).2 by (by rewrite Hs). constructor.
  - by econstructor.
Qed.

Lemma system_run_controller s0 ws s : system_run s0 ws s → controller_run frange (sy_ctl s0) ws (sy_ctl s).
Proof.
  induction 1 as [|ws s s' _ IH Hstep]; [constructor|].
  destruct (system_step_controller s s' Hstep) as [l Hl]. by econstructor.
Qed.

(** The messages among what a token service heard. *)
Definition messages (hs : list Heard) : list (StreamResponse ProtoIssuanceRule) :=
  omap (λ h, match h with Opened => None | Received resp => Some resp end) hs.

Lemma system_step_tts s s' :
  system_step s s' →
  (sy_tts s' = sy_tts s ∧ cn_received (sy_iss s') = cn_received (sy_iss s)) ∨
  ∃ h, tts_step net irange (sy_tts s) h (sy_tts s') ∧
       cn_received (sy_iss s') = cn_received (sy_iss s) ++ messages (option_list h).
Proof.
  destruct 1; simpl; try (by left); right; eexists; (split; [by constructor|]); simpl; by rewrite ?app_nil_r.
Qed.

Lemma system_run_tts s0 ws s :
  cn_received (sy_iss s0) = [] → system_run s0 ws s →
  ∃ hs, tts_run net irange (sy_tts s0) hs (sy_tts s) ∧ messages hs = cn_received (sy_iss s).
Proof.
  intros Hrec0. induction 1 as [|ws s s' _ (hs & IH & Hm) Hstep]; [exists []; split; [constructor|by rewrite Hrec0]|].
  destruct (system_step_tts s s' Hstep) as [[-> ->]|(h & Hh & ->)]; [by exists hs|].
  exists (hs ++ option_list h). split; [by eapply tts_next|]. unfold messages in *. by rewrite omap_app, Hm.
Qed.

Lemma system_run_adapter s0 ws s :
  system_run s0 ws s → rtc (adapter_step hrange frange grange vrange) (sy_adapter s0) (sy_adapter s).
Proof.
  induction 1 as [|ws s s' _ IH Hstep]; [done|]. destruct Hstep; simpl in *; try done;
    (eapply rtc_r; [done|]); by constructor.
Qed.

(** ** What the processes run with *)

(** The handler has no rules, and says so. *)
Definition tts_fresh (t : TTSProcess) : Prop :=
  issuanceRules (srv_handler (tp_server t)) = None ∧ tp_synced t ≠ Some true ∧ tp_pending t = false.

(** The handler runs with the compiled form of a set of the controller, and says so
    or is about to. *)
Definition tts_runs (t : TTSProcess) (rules : list PublishedIssuanceRule) : Prop :=
  (tp_synced t = Some true ∨ tp_pending t = true) ∧ ∃ compiled,
    CompileIssuanceRules (map handlerConfig (sortBy issuanceSortKey (irange (rules_map keyFor rules)).*2))
    = Ok compiled ∧ issuanceRules (srv_handler (tp_server t)) = Some compiled.

Definition adapter_verifies (a : AdapterProcess) (rules : list VerificationRule) : Prop :=
  ∃ s, verSet (ap_client a) = Some s ∧
    sv_verificationRules s
    = Some (map (λ r, {| vset_rule := r; vset_programs := compileVerificationRuleCEL r |})
                (sortBy verificationSortKey (vrange (rules_map verificationKey rules)).*2)).

Definition adapter_generates (a : AdapterProcess) (rules : list GenerationRule) : Prop :=
  ∃ s, genSet (ap_client a) = Some s ∧ gs_generationRules s = (grange (rules_map generationKey rules)).*2.

(** A client that has received nothing is as it started; one that has runs with
    the set of the last message it received. *)
Definition follows {R P} (toProto : list R → list P) (log : list (list R)) (cn : Conn P)
    (fresh : Prop) (runs : list R → Prop) : Prop :=
  (cn_received cn = [] ∧ fresh) ∨
  ∃ v, (v ≤ length log)%nat ∧ last (cn_received cn) = Some (publication toProto log v) ∧ runs (log_at log v).

Definition tts_follows (li : list (list PublishedIssuanceRule)) (t : TTSProcess) (cn : Conn ProtoIssuanceRule) : Prop :=
  follows issuanceRulesToProto li cn (tts_fresh t) (tts_runs t).
Definition ver_follows (lv : list (list VerificationRule)) (a : AdapterProcess) (cn : Conn ProtoVerificationRule) : Prop :=
  follows verificationRulesToProto lv cn (∀ s, verSet (ap_client a) = Some s → sv_verificationRules s = None)
    (adapter_verifies a).
Definition gen_follows (lg : list (list GenerationRule)) (a : AdapterProcess) (cn : Conn ProtoGenerationRule) : Prop :=
  follows generationRulesToProto lg cn (∀ s, genSet (ap_client a) = Some s → gs_generationRules s = [])
    (adapter_generates a).

Section follows.
Context {R P : Type} (toProto : list R → list P).
Implicit Types (log : list (list R)) (cn : Conn P) (runs : list R → Prop).

Lemma follows_grow log log' cn fresh runs :
  (log' = log ∨ ∃ rules, log' = log ++ [rules]) →
  follows toProto log cn fresh runs → follows toProto log' cn fresh runs.
Proof using Type.
  intros Hg [Hn|(v & Hv & Hl & Hr)]; [by left|]. right. exists v.
  destruct (publication_grow log log' v Hg Hv) as [Heq Hv']. unfold publication in *. rewrite Heq. done.
Qed.

(** Nothing but a delivery changes what was received. *)
Lemma follows_same log cn cn' (fresh fresh' : Prop) runs (runs' : list R → Prop) :
  cn_received cn' = cn_received cn → (fresh → fresh') → (∀ rules, runs rules → runs' rules) →
  follows toProto log cn fresh runs → follows toProto log cn' fresh' runs'.
Proof using Type.
  intros Hc Hf Hr [[Hn ?]|(v & Hv & Hl & ?)]; [left|right]; rewrite Hc; [by auto|]. exists v. auto.
Qed.

Lemma follows_deliver log cn v wire fresh runs :
  (v ≤ length log)%nat → runs (log_at log v) →
  follows toProto log (conn_deliver cn (publication toProto log v) wire) fresh runs.
Proof using Type. intros Hv Hr. right. exists v. simpl. by rewrite last_snoc. Qed.
End follows.

(** *** The token service *)

Lemma message_applied (t : TTSProcess) log v :
  (∀ m, range_order m (irange m)) → is_Some (tp_synced t) →
  (∀ r, r ∈ log_at log v → issuance_cel_valid (pir_CEL r)) →
  tts_runs (processMessage irange t (publication issuanceRulesToProto log v)) (log_at log v).
Proof using Type.
  intros Hr [flag Hf] Hv. unfold processMessage, tts_runs. rewrite Hf. unfold installIssuance. simpl.
  unfold issuanceRulesToProto. rewrite insertAll_map by apply issuance_roundtrip.
  change (foldl _ ∅ (log_at log v)) with (rules_map keyFor (log_at log v)).
  set (rules := sortBy issuanceSortKey (irange (rules_map keyFor (log_at log v))).*2).
  destruct (HandlerSetter_ok (NewHandlerSetter (srv_handler (tp_server t))) (srv_handler (tp_server t)) rules)
    as (compiled & HC & HS); [done| |].
  { intros r Hin. unfold rules in Hin. rewrite sortBy_Permutation in Hin.
    apply list_elem_of_fmap in Hin as ([k r'] & -> & Hin).
    apply (range_order_elem (rules_map keyFor (log_at log v))) in Hin; [|apply Hr].
    by eapply Hv, rules_map_elem. }
  rewrite HS. simpl. split; [by right|]. eauto.
Qed.

Lemma store_runs t rules : is_Some (tp_synced t) → tts_runs t rules → tts_runs (processStore t) rules.
Proof using Type. intros [flag Hf] [_ Hr]. split; [left; simpl; by rewrite Hf|done]. Qed.

Lemma serve_follows li t cn env path r :
  tts_follows li t cn → tts_follows li (processServe net t env path r).2 cn.
Proof using Type.
  unfold processServe. pose proof (mux_rules net (tp_server t) env (processReady t) path r) as Hm.
  destruct (mux net _ _ _ _ _) as [reply s]. simpl in *. apply follows_same; unfold tts_fresh, tts_runs; simpl;
    [done|by rewrite Hm..].
Qed.

(** A store follows a message, so the set stays in force and is now announced. *)
Lemma store_follows li t cn :
  tp_pending t = true → is_Some (tp_synced t) → tts_follows li t cn → tts_follows li (processStore t) cn.
Proof using Type.
  intros Hp Hs. apply follows_same; [done| |].
  - intros (_ & _ & Hp'). congruence.
  - intros rules. by apply store_runs.
Qed.

(** *** The adapter *)

Lemma Check_rules enet now s req :
  sv_verificationRules (Check hrange enet now s req).2 = sv_verificationRules s.
Proof using Type.
  unfold Check. destruct (cr_Http req) as [hr|]; [|done]. destruct (isExcluded _ _ _); [done|].
  destruct (bool_decide _); [done|]. destruct (sdk_Verify _ _ _ _) as [[claims|e] vf]; [|by destruct e].
  destruct (checkVerificationRules _ _ _ _ _ _) as [u|e]; [|by destruct e]. by destruct (negb _).
Qed.

(** A check changes neither mode's rules. *)
Lemma check_servers enet now a req :
  genSet (ap_client (adapterCheck hrange frange enet now a req).2) = genSet (ap_client a) ∧
  (verSet (ap_client (adapterCheck hrange frange enet now a req).2) ≫= sv_verificationRules
   = verSet (ap_client a) ≫= sv_verificationRules) ∧
  (is_Some (verSet (ap_client (adapterCheck hrange frange enet now a req).2)) ↔ is_Some (verSet (ap_client a))).
Proof using Type.
  unfold adapterCheck. destruct (verSet (ap_client a)) as [s|] eqn:Hv.
  - pose proof (Check_rules enet now s req) as Hr. destruct (Check _ _ _ _ _) as [resp s']. simpl in *.
    rewrite Hr. by split_and!.
  - destruct (genSet (ap_client a)) eqn:Hg; simpl; rewrite Hv, Hg; by split_and!.
Qed.

Lemma ver_follows_same lv a a' cn cn' :
  cn_received cn' = cn_received cn →
  (verSet (ap_client a') ≫= sv_verificationRules = verSet (ap_client a) ≫= sv_verificationRules) →
  (is_Some (verSet (ap_client a')) ↔ is_Some (verSet (ap_client a))) →
  ver_follows lv a cn → ver_follows lv a' cn'.
Proof using Type.
  intros Hc Hr Hs. apply follows_same; [done|..].
  - intros Hf s Hv. rewrite Hv in Hr, Hs. destruct (proj1 Hs) as [s' Hs']; [by eexists|].
    rewrite Hs' in Hr. simpl in Hr. rewrite Hr. by apply Hf.
  - intros rules (s & Hv & Hrules). rewrite Hv in Hr, Hs. destruct (proj2 Hs) as [s' Hs']; [by eexists|].
    exists s'. split; [done|]. rewrite Hs' in Hr. simpl in Hr. congruence.
Qed.

Lemma gen_follows_same lg a a' cn cn' :
  cn_received cn' = cn_received cn → genSet (ap_client a') = genSet (ap_client a) →
  gen_follows lg a cn → gen_follows lg a' cn'.
Proof using Type.
  intros Hc Hs. unfold gen_follows, adapter_generates. rewrite Hs. apply follows_same; done.
Qed.

Lemma verification_applied a log v :
  is_Some (verSet (ap_client a)) →
  adapter_verifies (adapterVerification vrange a (publication verificationRulesToProto log v)) (log_at log v).
Proof using Type.
  intros [s Hs]. unfold adapter_verifies, adapterVerification, installVerification. simpl. rewrite Hs. simpl.
  unfold verificationRulesToProto. rewrite insertAll_map by apply verification_roundtrip. by eexists.
Qed.

Lemma generation_applied a log v :
  is_Some (genSet (ap_client a)) →
  adapter_generates (adapterGeneration grange a (publication generationRulesToProto log v)) (log_at log v).
Proof using Type.
  intros [s Hs]. unfold adapter_generates, adapterGeneration, installGeneration. simpl. rewrite Hs. simpl.
  unfold generationRulesToProto. rewrite insertAll_map by apply generation_roundtrip. by eexists.
Qed.

(** ** One kind of rules along a run *)

Section kind.
Context {R P : Type} (toProto : list R → list P) (Q : list W → list R → Prop).
Context (Qmono : ∀ w ws l, Q ws l → Q (w :: ws) l).

(** There is a log that the server, the stream and the client agree with. *)
Definition kind_ok (ws : list W) (f : Feed R P) (cn : Conn P) (fresh : Prop) (runs : list R → Prop) : Prop :=
  ∃ log, logged toProto (Q ws) log f cn ∧ (length log < length ws)%nat ∧ follows toProto log cn fresh runs.

Implicit Types (f : Feed R P) (cn : Conn P) (fresh : Prop) (runs : list R → Prop).

Lemma kind_step w ws f f' cn cn' fresh fresh' runs runs' :
  (∀ log, logged toProto (Q ws) log f cn → logged toProto (Q ws) log f' cn') →
  cn_received cn' = cn_received cn → (fresh → fresh') → (∀ rules, runs rules → runs' rules) →
  kind_ok ws f cn fresh runs → kind_ok (w :: ws) f' cn' fresh' runs'.
Proof using Qmono.
  intros Hl Hc Hf Hr (log & Hlog & Hlen & Hfol). exists log. split_and!.
  - eapply logged_mono; [by apply Qmono|]. by apply Hl.
  - simpl. lia.
  - by eapply follows_same.
Qed.

Lemma kind_stay w ws f cn fresh fresh' runs runs' :
  (fresh → fresh') → (∀ rules, runs rules → runs' rules) →
  kind_ok ws f cn fresh runs → kind_ok (w :: ws) f cn fresh' runs'.
Proof using Qmono. intros. eapply kind_step; [| | | |done]; auto. Qed.

Lemma kind_move w ws f f' cn fresh runs :
  Z.of_nat (length ws) < 2 ^ 64 → feed_move toProto (Q (w :: ws)) f f' →
  kind_ok ws f cn fresh runs → kind_ok (w :: ws) f' cn fresh runs.
Proof using Qmono.
  intros Hb Hm (log & Hlog & Hlen & Hfol).
  apply (logged_mono _ _ (Q (w :: ws))) in Hlog; [|apply Qmono].
  destruct (logged_move toProto (Q (w :: ws)) log f f' cn) as (log' & Hg & Hlog'); [lia|done|done|].
  exists log'. split_and!; [done| |by eapply follows_grow].
  destruct Hg as [->|[rules ->]]; rewrite ?length_app; simpl; lia.
Qed.

Lemma kind_deliver w ws f cn m wire fresh runs fresh' runs' :
  cn_wire cn = m :: wire → kind_ok ws f cn fresh runs →
  (∀ log v, m = publication toProto log v → log_at log v = [] ∨ Q ws (log_at log v) → runs' (log_at log v)) →
  kind_ok (w :: ws) f (conn_deliver cn m wire) fresh' runs'.
Proof using Qmono.
  intros Hw (log & Hlog & Hlen & _) Hrun.
  destruct (logged_deliver toProto (Q ws) log f cn m wire Hw Hlog) as [Hlog' (v & Hv & ->)].
  exists log. split_and!; [eapply logged_mono; [by apply Qmono|done]|simpl; lia|].
  apply follows_deliver; [done|]. apply Hrun; [done|]. apply log_at_Q. by destruct Hlog as [[]].
Qed.
End kind.

(** A step of the controller moves each of its feeds. *)
Lemma controller_feeds ws0 p l p' :
  controller_step frange p l p' → running_ok (cp_cluster p :: ws0) p →
  let ws := cp_cluster p' :: cp_cluster p :: ws0 in
  feed_move issuanceRulesToProto (published_policies ws) (iss (cp_server p)) (iss (cp_server p')) ∧
  feed_move verificationRulesToProto (published_requirements ws) (ver (cp_server p)) (ver (cp_server p')) ∧
  feed_move generationRulesToProto (published_types ws) (gen (cp_server p)) (gen (cp_server p')).
Proof using Type.
  intros Hstep Hok. destruct (controller_step_cases frange ws0 p l p' Hstep Hok) as [_ Hc]. cbv zeta.
  destruct Hc as [(r & pub & _ & Hp & ->)|(_ & [->|Hst])]; [|split_and!; constructor|].
  - apply (pub_ok_mono r [cp_cluster p']) in Hp. destruct r, pub; try done; split_and!; by constructor.
  - destruct Hst; split_and!; by econstructor.
Qed.

(** ** The invariant *)

Definition iss_ok (ws : list W) (s : RuleServer) (t : TTSProcess) (i : Conn ProtoIssuanceRule) : Prop :=
  kind_ok issuanceRulesToProto published_policies ws (iss s) i (tts_fresh t) (tts_runs t).
Definition ver_ok (ws : list W) (s : RuleServer) (a : AdapterProcess) (v : Conn ProtoVerificationRule) : Prop :=
  kind_ok verificationRulesToProto published_requirements ws (ver s) v
    (∀ sv, verSet (ap_client a) = Some sv → sv_verificationRules sv = None) (adapter_verifies a).
Definition gen_ok (ws : list W) (s : RuleServer) (a : AdapterProcess) (g : Conn ProtoGenerationRule) : Prop :=
  kind_ok generationRulesToProto published_types ws (gen s) g
    (∀ gs, genSet (ap_client a) = Some gs → gs_generationRules gs = []) (adapter_generates a).

Definition system_ok (ws : list W) (sys : System) : Prop :=
  (running_ok ws (sy_ctl sys) ∧ ∃ ws0, ws = cp_cluster (sy_ctl sys) :: ws0) ∧
  iss_ok ws (cp_server (sy_ctl sys)) (sy_tts sys) (sy_iss sys) ∧
  ver_ok ws (cp_server (sy_ctl sys)) (sy_adapter sys) (sy_ver sys) ∧
  gen_ok ws (cp_server (sy_ctl sys)) (sy_adapter sys) (sy_gen sys).

(** A step that leaves the feed and the connection. *)
Lemma iss_ok_stay w ws s t i : iss_ok ws s t i → iss_ok (w :: ws) s t i.
Proof using Type. by apply kind_stay; [intros ?; apply (published_policies_mono [_])|..]. Qed.
Lemma ver_ok_stay w ws s a v : ver_ok ws s a v → ver_ok (w :: ws) s a v.
Proof using Type. by apply kind_stay; [intros ?; apply (published_requirements_mono [_])|..]. Qed.
Lemma gen_ok_stay w ws s a g : gen_ok ws s a g → gen_ok (w :: ws) s a g.
Proof using Type. by apply kind_stay; [intros ?; apply (published_types_mono [_])|..]. Qed.
#[local] Hint Resolve iss_ok_stay ver_ok_stay gen_ok_stay : kontxt.

Lemma ver_ok_adapter ws s a a' v :
  (verSet (ap_client a') ≫= sv_verificationRules = verSet (ap_client a) ≫= sv_verificationRules) →
  (is_Some (verSet (ap_client a')) ↔ is_Some (verSet (ap_client a))) →
  ver_ok ws s a v → ver_ok ws s a' v.
Proof using Type. intros Hr Hs (log & Hl & Hb & Hf). exists log. split_and!; [done..|]. by eapply ver_follows_same. Qed.

Lemma gen_ok_adapter ws s a a' g :
  genSet (ap_client a') = genSet (ap_client a) → gen_ok ws s a g → gen_ok ws s a' g.
Proof using Type. intros Hs (log & Hl & Hb & Hf). exists log. split_and!; [done..|]. by eapply gen_follows_same. Qed.

Context (irange_ok : ∀ m, range_order m (irange m)).

(** A step of the connection of a kind. *)
Ltac conn_step mono H := eapply kind_step; [intros ?; apply (mono [_])| | | | |exact H]; [|done..]; intros log.

Lemma system_step_running ws sys sys' :
  system_step sys sys' → (running_ok ws (sy_ctl sys) ∧ ∃ ws0, ws = cp_cluster (sy_ctl sys) :: ws0) →
  running_ok (cp_cluster (sy_ctl sys') :: ws) (sy_ctl sys') ∧
  ∃ ws0, cp_cluster (sy_ctl sys') :: ws = cp_cluster (sy_ctl sys') :: ws0.
Proof using Type.
  intros [l Hl]%system_step_controller [Hok [ws0 ->]]. split; [|by eexists].
  by eapply controller_step_cases.
Qed.

Lemma system_step_ok ws sys sys' :
  Z.of_nat (length ws) < 2 ^ 64 → system_step sys sys' → system_ok ws sys →
  system_ok (cp_cluster (sy_ctl sys') :: ws) sys'.
Proof using irange_ok.
  intros Hb Hstep [Hrun Hkinds]. split; [by eapply system_step_running|].
  destruct Hstep as [c l c' t a i v g Hc|c t a i v g env path r|c t a i v g enet now req
    |w s rn t a i v g id sn s' _ _ Hs|w s rn t a i v g id m f Hid Hm|c t a i v g m wire Ht _ Hw|c t a i v g Hp Hsy|c t a i v g
    |w s rn t a i v g id sn s' _ _ _ Hs|w s rn t a i v g id m f Hid Hm|c t a i v g m wire Ha _ Hw|c t a i v g Hp|c t a i v g
    |w s rn t a i v g id sn s' _ _ _ Hs|w s rn t a i v g id m f Hid Hm|c t a i v g m wire Ha _ Hw|c t a i v g Hp|c t a i v g];
    destruct Hkinds as (Hi & Hv & Hg); cbn [sy_ctl sy_tts sy_adapter sy_iss sy_ver sy_gen cp_server cp_cluster] in *.
  - destruct Hrun as [Hok [ws0 ->]]. destruct (controller_feeds ws0 c l c' Hc Hok) as (Mi & Mv & Mg).
    split_and!; (eapply kind_move; [intros ?|done|done|done]).
    + apply (published_policies_mono [_]).
    + apply (published_requirements_mono [_]).
    + apply (published_types_mono [_]).
  - split_and!; [|auto with kontxt..]. apply iss_ok_stay. destruct Hi as (log & Hl & Hlen & Hf).
    exists log. split_and!; [done..|]. by apply serve_follows.
  - destruct (check_servers enet now a req) as (Hcg & Hcv & Hcs). split_and!; [auto with kontxt|..].
    + apply ver_ok_stay. by eapply ver_ok_adapter.
    + apply gen_ok_stay. by eapply gen_ok_adapter.
  - injection Hs as <- <- <-. split_and!; [|auto with kontxt..].
    conn_step published_policies_mono Hi. apply (logged_open issuanceRulesToProto).
  - split_and!; [|auto with kontxt..]. conn_step published_policies_mono Hi. by eapply logged_send.
  - split_and!; [|auto with kontxt..].
    eapply kind_deliver; [intros ?; apply (published_policies_mono [_])|done|exact Hi|].
    intros log n -> HQ. apply message_applied; [done|done|]. intros r.
    destruct HQ as [->|HQ]; [by intros ?%elem_of_nil|]. by eapply published_policies_valid.
  - split_and!; [|auto with kontxt..]. apply iss_ok_stay. destruct Hi as (log & Hl & Hlen & Hf).
    exists log. split_and!; [done..|]. by apply store_follows.
  - split_and!; [|auto with kontxt..]. conn_step published_policies_mono Hi. apply logged_break.
  - injection Hs as <- <- <-. split_and!; [auto with kontxt| |auto with kontxt].
    conn_step published_requirements_mono Hv. apply (logged_open verificationRulesToProto).
  - split_and!; [auto with kontxt| |auto with kontxt].
    conn_step published_requirements_mono Hv. by eapply logged_send.
  - split_and!; [auto with kontxt| |].
    + eapply kind_deliver; [intros ?; apply (published_requirements_mono [_])|done|exact Hv|].
      intros log n -> _. by apply verification_applied.
    + apply gen_ok_stay. by eapply gen_ok_adapter.
  - split_and!; auto with kontxt.
  - split_and!; [auto with kontxt| |auto with kontxt].
    conn_step published_requirements_mono Hv. apply logged_break.
  - injection Hs as <- <- <-. split_and!; [auto with kontxt|auto with kontxt|].
    conn_step published_types_mono Hg. apply (logged_open generationRulesToProto).
  - split_and!; [auto with kontxt|auto with kontxt|].
    conn_step published_types_mono Hg. by eapply logged_send.
  - split_and!; [auto with kontxt| |].
    + apply ver_ok_stay. by eapply ver_ok_adapter.
    + eapply kind_deliver; [intros ?; apply (published_types_mono [_])|done|exact Hg|].
      intros log n -> _. by apply generation_applied.
  - split_and!; auto with kontxt.
  - split_and!; [auto with kontxt|auto with kontxt|].
    conn_step published_types_mono Hg. apply logged_break.
Qed.

Lemma kind_ok_start {R P} (toProto : list R → list P) (Q : list W → list R → Prop) w (fresh : Prop) runs :
  fresh → kind_ok toProto Q [w] emptyFeed newConn fresh runs.
Proof using Type. intros Hf. exists []. split_and!; [by apply logged_start|simpl; lia|by left]. Qed.

Lemma system_run_ok c w0 p0 read decode generated tflags t0 listen aflags a0 ws sys :
  controllerMain c w0 = Serving p0 → ttsMain read decode generated tflags = Serving t0 →
  extauthMain listen aflags = Serving a0 →
  system_run (Build_System p0 t0 a0 newConn newConn newConn) ws sys → Z.of_nat (length ws) < 2 ^ 64 →
  system_ok ws sys.
Proof using irange_ok.
  intros Hc Ht Ha Hrun. induction Hrun as [|ws s s' Hrun IH Hstep]; intros Hb.
  - apply controllerMain_start in Hc as ->. split; [split; [by intros r prog ?|by eexists]|].
    simpl. split_and!; apply kind_ok_start.
    + destruct (ttsMain_ok irange _ _ _ _ _ Ht) as (cfg & k & _ & _ & [_ _ _ He Hr _]). split; [done|].
      assert (¬ (tp_synced t0 = Some true ∨ tp_pending t0 = true)) as Hno by (rewrite Hr; by intros [? ?]).
      split; [tauto|]. destruct (tp_pending t0); [|done]. destruct Hno. by right.
    + destruct (extauthMain_start _ _ _ Ha) as [(_ & s & Hs & _)|(_ & s & _ & Hs & _)]; rewrite Hs; [|done].
      unfold extauthMain in Ha. repeat (case_match; simplify_eq/=; try done). by intros sv [= <-].
    + destruct (extauthMain_start _ _ _ Ha) as [(_ & s & _ & Hs & _)|(_ & s & Hs & _)]; rewrite Hs; [done|].
      unfold extauthMain in Ha. repeat (case_match; simplify_eq/=; try done). by intros gs [= <-].
  - simpl in Hb. apply (system_step_ok ws s); [lia|done|]. apply IH. lia.
Qed.
End system.

(** ** The system serves one history *)

(** The messages a client received are publications of the log, in order. *)
Definition received_in_order {R P} (toProto : list R → list P) (log : list (list R)) (cn : Conn P) : Prop :=
  ∃ vs, published toProto log vs (cn_received cn) ∧ StronglySorted Nat.le vs.

Lemma kind_ok_log {W R P} (toProto : list R → list P) (Q : list W → list R → Prop) ws f cn fresh runs :
  kind_ok toProto Q ws f cn fresh runs →
  ∃ log, Forall (Q ws) log ∧ fd_rules f = log_at log (length log) ∧ received_in_order toProto log cn ∧
    follows toProto log cn fresh runs.
Proof.
  intros (log & Hl & _ & Hf). exists log. pose proof (logged_received _ _ _ _ _ Hl).
  destruct Hl as [[Hr _ HQ] _]. by split_and!.
Qed.

Section theorem.
Context `{Unicode, !JSON, CEL, Crypto, !JWT, Documents, HttpClient} {W : Type} `{!KubeClient W}.
Context (net : Network) (hrange : gmap string string → list (string * string)).
Context (frange : gmap string TctxFieldMapping → list (string * TctxFieldMapping)).
Context (grange : gmap ruleKey GenerationRule → list (ruleKey * GenerationRule)).
Context (vrange : gmap ruleKey VerificationRule → list (ruleKey * VerificationRule)).
Context (irange : gmap issuanceKey PublishedIssuanceRule → list (issuanceKey * PublishedIssuanceRule)).

(** C5.  The system enforces one history of the cluster.  In every state a
    controller, a token service and an adapter reach together, through
    reconciliations that overlap with each other and with changes of the cluster,
    requests, checks, and streams that open, lose what is on the wire and open
    again, there is for each kind of rules a log of the sets published such that:
    every set of the log is made of all the requirements, or all the policies, of
    the cluster at one moment of the run, or of all the TransactionTypes at one
    moment with lifetimes capped by the policies of that moment or later ones; the
    server holds the last set of the log, and none when the log is empty; the
    messages a client received carry sets of the log under their versions (version
    0 being the empty set before the first), never an older one after a newer one,
    also across reconnections; and the client runs with the compiled form of
    exactly the last set it received, or, having received nothing, with none.  Each
    part of the run is a run of that part, the token service having heard exactly
    the messages its stream delivered. *)
Theorem system_consistent c (w0 : W) p0 read decode generated tflags t0 listen aflags a0 ws sys :
  (∀ m, range_order m (irange m)) →
  controllerMain c w0 = Serving p0 → ttsMain read decode generated tflags = Serving t0 →
  extauthMain listen aflags = Serving a0 →
  system_run net hrange frange grange vrange irange (Build_System p0 t0 a0 newConn newConn newConn) ws sys →
  Z.of_nat (length ws) < 2 ^ 64 →
  (controller_run frange p0 ws (sy_ctl sys) ∧
   (∃ hs, tts_run net irange t0 hs (sy_tts sys) ∧ messages hs = cn_received (sy_iss sys)) ∧
   rtc (adapter_step hrange frange grange vrange) a0 (sy_adapter sys)) ∧
  (∃ log, Forall (published_policies ws) log ∧
     fd_rules (iss (cp_server (sy_ctl sys))) = log_at log (length log) ∧
     received_in_order issuanceRulesToProto log (sy_iss sys) ∧ tts_follows irange log (sy_tts sys) (sy_iss sys)) ∧
  (∃ log, Forall (published_requirements ws) log ∧
     fd_rules (ver (cp_server (sy_ctl sys))) = log_at log (length log) ∧
     received_in_order verificationRulesToProto log (sy_ver sys) ∧
     ver_follows vrange log (sy_adapter sys) (sy_ver sys)) ∧
  (∃ log, Forall (published_types ws) log ∧
     fd_rules (gen (cp_server (sy_ctl sys))) = log_at log (length log) ∧
     received_in_order generationRulesToProto log (sy_gen sys) ∧
     gen_follows grange log (sy_adapter sys) (sy_gen sys)).
Proof.
  intros Hr Hc Ht Ha Hrun Hb.
  destruct (system_run_ok net hrange frange grange vrange irange Hr _ _ _ _ _ _ _ _ _ _ _ _ _ Hc Ht Ha Hrun Hb)
    as (_ & Hi & Hv & Hg).
  split_and!; [exact (system_run_controller _ _ _ _ _ _ _ _ _ Hrun)
    |exact (system_run_tts _ _ _ _ _ _ (Build_System p0 t0 a0 newConn newConn newConn) _ _ eq_refl Hrun)
    |exact (system_run_adapter _ _ _ _ _ _ _ _ _ Hrun)|by eapply kind_ok_log..].
Qed.
End theorem.

Module SystemExample.
#[local] Existing Instance OIDCExample.docs.
#[local] Existing Instance OIDCExample.jwt.
#[local] Existing Instance ExtAuthExample.http.

Definition ctl0 : ControllerProcess ApiStore := ControllerMainExample.start.
Definition tts0 : TTSProcess :=
  match TTSMainExample.start "controller:9090" with
  | Serving p => p
  | Exited _ _ => {| tp_server := {| srv_handler := NewHandler [] ControllerExample.manager "" "" 0 |};
                     tp_synced := None; tp_rules := ∅; tp_pending := false |}
  end.
Definition adapter0 : AdapterProcess :=
  startAdapter (SetVerificationSetter NewRuleClient (NewServer (NewVerifier "https://tts/jwks" "prod"))).

Definition step (s s' : System) : Prop :=
  system_step OIDCExample.net map_to_list map_to_list map_to_list map_to_list map_to_list s s'.

(** The token service connects, a policy is reconciled, and both messages arrive. *)
Definition snapshot : StreamResponse ProtoIssuanceRule := (StreamIssuanceRules NewRuleServer).1.2.
Definition update : StreamResponse ProtoIssuanceRule :=
  Build_StreamResponse (Some (Snapshot (issuanceRulesToProto ControllerExample.published))) "1".
Definition taken : RuleServer :=
  set_iss ControllerMainExample.reconciled
    (Build_Feed ControllerExample.published 1 {[ "iss-1" := [] ]}).

Definition sys0 : System := Build_System ctl0 tts0 adapter0 newConn newConn newConn.
Definition sys1 : System :=
  Build_System (Build_ControllerProcess ControllerExample.store ControllerMainExample.opened ∅)
    (processConnect tts0) adapter0 (Build_Conn (Some "iss-1") [snapshot] []) newConn newConn.
Definition sys2 : System :=
  Build_System (Build_ControllerProcess ControllerExample.store' ControllerMainExample.reconciled ∅)
    (processConnect tts0) adapter0 (Build_Conn (Some "iss-1") [snapshot] []) newConn newConn.
Definition ctl3 : ControllerProcess ApiStore := Build_ControllerProcess ControllerExample.store' taken ∅.
Definition sys3 : System :=
  Build_System ctl3 (processConnect tts0) adapter0 (Build_Conn (Some "iss-1") [snapshot; update] []) newConn newConn.
Definition tts4 : TTSProcess := processStore (processMessage map_to_list (processConnect tts0) snapshot).
Definition sys4 : System :=
  Build_System ctl3 tts4 adapter0 (Build_Conn (Some "iss-1") [update] [snapshot]) newConn newConn.
Definition sys5 : System :=
  Build_System ctl3 (processStore (processMessage map_to_list tts4 update))
    adapter0 (Build_Conn (Some "iss-1") [] [snapshot; update]) newConn newConn.

Definition clusters : list ApiStore :=
  replicate 5 ControllerExample.store' ++ ControllerMainExample.history.

Lemma run5 :
  system_run OIDCExample.net map_to_list map_to_list map_to_list map_to_list map_to_list sys0
    clusters sys5.
Proof.
  assert (∀ ws s s' w, system_run OIDCExample.net map_to_list map_to_list map_to_list map_to_list map_to_list sys0 ws s →
    step s s' → cp_cluster (sy_ctl s') = w →
    system_run OIDCExample.net map_to_list map_to_list map_to_list map_to_list map_to_list sys0 (w :: ws) s') as Hnext.
  { intros ws s s' w Hrun Hstep <-. by econstructor. }
  assert (step sys0 sys1) as H1.
  { apply sys_iss_open; [by eexists|reflexivity|reflexivity]. }
  assert (step sys2 sys3) as H3.
  { apply (sys_iss_send _ _ _ _ _ _ ControllerExample.store' ControllerMainExample.reconciled ∅ _ _
      (Build_Conn (Some "iss-1") [snapshot] []) _ _ "iss-1" update); reflexivity. }
  pose proof (sys_iss_deliver OIDCExample.net map_to_list map_to_list map_to_list map_to_list map_to_list ctl3
    (processConnect tts0) adapter0 (Build_Conn (Some "iss-1") [snapshot; update] []) newConn newConn snapshot [update]
    ltac:(by eexists) eq_refl eq_refl) as H4.
  pose proof (sys_iss_deliver OIDCExample.net map_to_list map_to_list map_to_list map_to_list map_to_list ctl3
    tts4 adapter0 (Build_Conn (Some "iss-1") [update] [snapshot]) newConn newConn update []
    ltac:(by eexists) eq_refl eq_refl) as H5.
  eapply Hnext; [|apply sys_iss_store; [reflexivity|by eexists]|reflexivity].
  eapply Hnext; [|exact H5|reflexivity].
  eapply Hnext; [|apply (sys_iss_store _ _ _ _ _ _ _ (processMessage map_to_list (processConnect tts0) snapshot));
    [reflexivity|by eexists]|reflexivity].
  eapply Hnext; [|exact H4|reflexivity]. eapply Hnext; [|exact H3|reflexivity].
  assert (system_run OIDCExample.net map_to_list map_to_list map_to_list map_to_list map_to_list sys0
    [ControllerExample.store; ControllerExample.store] sys1) as R1.
  { eapply Hnext; [apply sys_start|exact H1|reflexivity]. }
  exact (system_run_control _ _ _ _ _ _ _ _ _ _ _ _ _ _ _ _ R1
    (ControllerMainExample.policy_trace _ [] (trace_start map_to_list _))).
Qed.

Lemma system_consistent_witness :
  ∃ log, received_in_order issuanceRulesToProto log (sy_iss sys5) ∧ tts_follows map_to_list log (sy_tts sys5) (sy_iss sys5) ∧
    log_at log (length log) = ControllerExample.published.
Proof.
  destruct (system_consistent OIDCExample.net map_to_list map_to_list map_to_list map_to_list map_to_list
    ControllerMainExample.flags ControllerExample.store ctl0 TTSMainExample.read (λ _, Ok ServerExample.config)
    (Ok ServerExample.first_key) (TTSMainExample.flags "controller:9090") tts0 None
    (ExtAuthMainExample.flags "verify") adapter0 clusters sys5) as (_ & (log & _ & Hrules & Hrec & Hfol) & _).
  - intros m. apply ControllerExample.range_order_refl.
  - reflexivity.
  - reflexivity.
  - reflexivity.
  - apply run5.
  - simpl. lia.
  - exists log. split; [exact Hrec|]. split; [exact Hfol|]. symmetry. exact Hrules.
Defined.
End SystemExample.
