(* ===== verification/Watches.v ===== *)
(** * internal/controller: how old the published rules are

    Each reconciler is started for the objects of its own kind only
    ([SetupWithManager], in [ControllerMain]), and publishes only the rules of that
    kind.  A trace of the controller says which reconciliations began and ended:
    the rules of a kind are those of the last one that ended well. *)

From stdpp Require Import relations.
From S2P Require Import Prelude External Api PolicyRules CelVerify Controller RulesProto RuleServer.
From S2P Require Import ControllerProps ReconcileSteps TTSMain ControllerMain Instances.

Local Open Scope Z_scope.

(** The rules the server holds for the objects of a kind. *)
Definition rulesOf (k : Kind) (s : RuleServer) : Publication :=
  match k with
  | KindTransactionType => PublishGeneration (fd_rules (gen s))
  | KindServiceTokenRequirement => PublishVerification (fd_rules (ver s))
  | KindTokenPolicy => PublishIssuance (fd_rules (iss s))
  end.

Section watches.
Context `{CEL} {W : Type} `{!KubeClient W}.
Context (frange : gmap string TctxFieldMapping → list (string * TctxFieldMapping)).
Implicit Types (p : ControllerProcess W) (ws : list W) (t : list (Event * W)).

(** They are made of all the objects of the kind in a history of the cluster. *)
Definition made_of (k : Kind) ws (pub : Publication) : Prop :=
  match k, pub with
  | KindTransactionType, PublishGeneration rules => published_types ws rules
  | KindServiceTokenRequirement, PublishVerification rules => published_requirements ws rules
  | KindTokenPolicy, PublishIssuance rules => published_policies ws rules
  | _, _ => False
  end.

(** A reconciler publishes the rules of the kind it is registered for. *)
Lemma publish_own k r ws s pub :
  called k = [r] → pub_ok r ws pub → made_of k ws (rulesOf k (publish s pub)).
Proof. by destruct k; intros [= <-]; destruct pub. Qed.

Lemma publish_foreign k r r' ws s pub :
  called k = [r] → r' ≠ r → pub_ok r' ws pub → rulesOf k (publish s pub) = rulesOf k s.
Proof. by destruct k; intros [= <-]; destruct r', pub. Qed.

Lemma takeMessage_rules {R P} (f : Feed R P) id m f' : takeMessage f id = Some (m, f') → fd_rules f' = fd_rules f.
Proof. unfold takeMessage. destruct (fd_subscribers f !! id) as [[|]|]; [done| |done]. by intros [= _ <-]. Qed.

Lemma stream_rules k s s' : stream_step s s' → rulesOf k s' = rulesOf k s.
Proof. destruct 1; destruct k; simpl; try done; f_equal; by eapply takeMessage_rules. Qed.

Lemma trace_running ws0 p t p' :
  controller_trace frange p t p' → running_ok (cp_cluster p :: ws0) p → ∃ ws', running_ok (cp_cluster p' :: ws') p'.
Proof.
  induction 1 as [|t q l q' Ht IH Hstep]; [by eauto|]. intros [ws' Hok]%IH.
  destruct (controller_step_cases frange ws' q l q' Hstep Hok) as [Hok' _]. by eexists.
Qed.

(** While no reconciliation of its own ends well, the rules of a kind stay. *)
Lemma rules_kept k r ws0 p t p' :
  called k = [r] → running_ok (cp_cluster p :: ws0) p → controller_trace frange p t p' →
  (∀ res, Ended r res ∈ t.*1 → is_ok res = false) → rulesOf k (cp_server p') = rulesOf k (cp_server p).
Proof.
  intros Hk Hok. induction 1 as [|t q l q' Ht IH Hstep]; [done|]. simpl. intros Hres.
  rewrite <-IH by (intros res Hin; apply Hres; by right).
  destruct (trace_running ws0 p t q Ht Hok) as [ws' Hq].
  destruct (controller_step_cases frange ws' q l q' Hstep Hq) as [_ [(r' & pub & -> & Hp & ->)|[_ [->|Hst]]]].
  - eapply publish_foreign; [done| |exact Hp]. intros ->. by specialize (Hres _ (list_elem_of_here _ _)).
  - done.
  - by apply stream_rules.
Qed.

(** A reconciliation that has not ended is still running, soundly. *)
Lemma still_running r prog p t p' :
  cp_running p !! r = Some prog → sound r [cp_cluster p] prog → controller_trace frange p t p' →
  (∀ res, Ended r res ∉ t.*1) →
  ∃ prog' ws0, cp_running p' !! r = Some prog' ∧ clusters p t = cp_cluster p' :: ws0 ∧ sound r (clusters p t) prog'.
Proof.
  intros Hr Hs. induction 1 as [|t q l q' Ht IH Hstep]; [by exists prog, []|]. intros Hres.
  destruct IH as (prog1 & ws0 & Hr1 & Hws & Hs1); [intros res Hin; apply (Hres res); by right|].
  change (clusters p ((l, cp_cluster q') :: t)) with (cp_cluster q' :: clusters p t). rewrite Hws in *.
  destruct (step_running frange ws0 r prog1 q l q' Hstep Hr1 Hs1) as [(prog' & Hr' & Hs' & _)|[_ Hend]].
  - by exists prog', (cp_cluster q :: ws0).
  - exfalso. destruct Hend as [(res & -> & _)|[-> _]]; eapply Hres; by left.
Qed.

(** C18.  The rules of a kind are as old as the last reconciliation of that kind
    that succeeded.  In every trace of the controller, take a reconciliation begun
    for an object of the kind, which ended well, such that every later one of the
    kind ended with an error or has not ended: the server then holds, for that
    kind, the set made of the objects of the cluster during that reconciliation
    (between its begin and its publication), whatever happened to the cluster and
    to the other kinds since.  So the generation rules of TransactionTypes, whose
    lifetimes are capped by TokenPolicies, are not published again when a policy
    changes. *)
Theorem rules_of_last_event c (w0 : W) p0 k r req t1 w1 t2 w2 t3 p :
  controllerMain c w0 = Serving p0 → called k = [r] →
  controller_trace frange p0 (t3 ++ (Ended r (Ok tt), w2) :: t2 ++ (Began k r req, w1) :: t1) p →
  (∀ res, Ended r res ∉ t2.*1) → (∀ res, Ended r res ∈ t3.*1 → is_ok res = false) →
  made_of k (t2.*2 ++ [w1]) (rulesOf k (cp_server p)).
Proof.
  intros ->%controllerMain_start Hk Ht H2 H3.
  set (p0 := Build_ControllerProcess w0 NewRuleServer ∅) in *.
  assert (running_ok [cp_cluster p0] p0) as Hok0 by (by intros r' prog ?).
  rewrite app_comm_cons, app_assoc in Ht. apply trace_split in Ht as (pB & HtB & Ht).
  apply trace_split in Ht as (pD & HtD & Ht3).
  simpl in HtD. inversion HtD as [|tt2 pC lC pD' Ht2 HstepC]; subst.
  inversion HtB as [|tt1 pA lA pB' Ht1 HstepA]; subst.
  destruct (trace_running [] p0 _ pB HtB Hok0) as [wsB HokB].
  assert (∃ prog, cp_running pB !! r = Some prog ∧ sound r [cp_cluster pB] prog) as (prog & Hr & Hs).
  { remember (Began k r req) as l eqn:Hl. clear -Hl HstepA.
    destruct HstepA as [w s rn k1 r1 req1 now1 now2 _ _|w s rn r1 B c k1 b w' _ _|w s rn r1 pub q _| |]; simpl in *;
      [|by destruct (k1 b)|by destruct q|done..].
    injection Hl as -> -> ->. rewrite lookup_insert_eq. eexists. split; [done|]. apply reconcileP_sound. }
  destruct (still_running r prog pB t2 pC Hr Hs Ht2 H2) as (prog' & ws0 & Hr' & Hws & Hs').
  unfold clusters in Hws, Hs'. rewrite Hws in Hs'.
  destruct (trace_running wsB pB _ pD HtD HokB) as [wsD HokD].
  rewrite (rules_kept k r wsD pD t3 p Hk HokD Ht3 H3).
  destruct (step_running frange ws0 r prog' pC _ pD HstepC Hr' Hs') as [(? & _ & _ & Hl)|[_ Hend]];
    [by destruct (Hl (Ok tt))|].
  destruct Hend as [(res & [= <-] & Hf & _)|(_ & pub & Hp & ->)]; [done|]. rewrite Hws.
  by eapply publish_own.
Qed.
End watches.

Module WatchesExample.
(** The policy of the cluster allows 30 seconds; it is then cut to ten. *)
Definition strict : TokenPolicy :=
  {| tp_ObjectMeta := tp_ObjectMeta ControllerExample.policy;
     tp_Spec := {| tps_TargetNamespaces := None; tps_AuthorizedTransactionNamespaces := None;
                   tps_AuthorizedRequesters := [];
                   tps_Constraints := {| pc_MaxTokenLifetime := "10s"; pc_MandatoryTctxFields := [];
                                         pc_MandatoryRctxFields := []; pc_DisallowedEnrichers := [] |};
                   tps_IssuanceRules := []; tps_AccessEvaluationWebhook := None |};
     tp_Status := {| tpst_Conditions := [] |} |}.
Definition store : ApiStore := ControllerExample.store.
Definition cut : ApiStore :=
  {| st_types := [ControllerExample.orders]; st_requirements := []; st_policies := [strict] |}.

(** A TransactionType is deleted, the policy is cut, and it is reconciled. *)
Definition typeEvent : Event := Began KindTransactionType TypeReconciler (ControllerExample.request "gone").
Definition policyEvent : Event := Began KindTokenPolicy PolicyReconciler (ControllerExample.request "limits").
Definition typeProgram : Prog (result unit) :=
  reconcileP map_to_list TypeReconciler 1 2 (ControllerExample.request "gone").
Definition policyProgram : Prog (result unit) :=
  reconcileP map_to_list PolicyReconciler 3 4 (ControllerExample.request "limits").
Definition during : list (Event * ApiStore) := [(Silent, store); (Silent, store); (Silent, store)].
Definition after : list (Event * ApiStore) :=
  calls PolicyReconciler policyProgram cut [(policyEvent, cut); (Silent, cut)].

Lemma two_events :
  ∃ p, controller_trace map_to_list ControllerMainExample.start
         (after ++ (Ended TypeReconciler (Ok tt), store) :: during ++ [(typeEvent, store)]) p ∧
       rulesOf KindTransactionType (cp_server p)
       = PublishGeneration [generationRule store ControllerExample.orders].
Proof.
  assert (controller_trace map_to_list ControllerMainExample.start [(typeEvent, store)]
    (Build_ControllerProcess store NewRuleServer {[ TypeReconciler := typeProgram ]})) as H1.
  { eapply trace_next; [apply trace_start|apply (reconcile_begins _ _ _ ∅ KindTransactionType TypeReconciler _ 1 2)|done];
      [by left|done]. }
  destruct (undisturbed_trace map_to_list _ _ _ _ _ TypeReconciler typeProgram H1) as (res & w1 & s1 & Hrun1 & H2);
    [done|done|]. injection Hrun1 as <- <- <-.
  assert (controller_trace map_to_list ControllerMainExample.start
    ((policyEvent, cut) :: (Silent, cut) :: calls TypeReconciler typeProgram store [(typeEvent, store)])
    (Build_ControllerProcess cut (UpdateGenerationRules NewRuleServer [generationRule store ControllerExample.orders])
       {[ PolicyReconciler := policyProgram ]})) as H3.
  { eapply trace_next; [|apply (reconcile_begins _ _ _ ∅ KindTokenPolicy PolicyReconciler _ 3 4)|done]; [|by left|done].
    eapply trace_next; [exact H2|apply cluster_changes|done]. }
  destruct (undisturbed_trace map_to_list _ _ _ _ _ PolicyReconciler policyProgram H3) as (res & w' & s' & Hrun2 & H4);
    [done|done|]. eexists. split; [exact H4|]. vm_compute in Hrun2. injection Hrun2 as _ _ <-. reflexivity.
Qed.

(** The rule still has the lifetime of the old policy. *)
Lemma rules_of_last_event_witness :
  (∃ p : ControllerProcess ApiStore,
        rulesOf KindTransactionType (cp_server p) = PublishGeneration [generationRule store ControllerExample.orders] ∧
        made_of KindTransactionType [store; store; store; store] (rulesOf KindTransactionType (cp_server p))) ∧
  gr_TokenLifetime (generationRule store ControllerExample.orders) = "30s" ∧
  gr_TokenLifetime (generationRule cut ControllerExample.orders) = "10s".
Proof.
  split; [|split; vm_compute; reflexivity]. destruct two_events as (p & Htr & Hp). exists p. split; [exact Hp|].
  apply (rules_of_last_event map_to_list ControllerMainExample.flags store ControllerMainExample.start
    KindTransactionType TypeReconciler (ControllerExample.request "gone") [] store during store after p).
  - reflexivity.
  - reflexivity.
  - exact Htr.
  - intros res Hin. apply list_elem_of_fmap in Hin as (e & He & Hin). revert Hin.
    unfold during. rewrite !elem_of_cons, elem_of_nil. intros [->|[->|[->|[]]]]; discriminate He.
  - assert (after.*1 = [Ended PolicyReconciler (Ok tt); Silent; Silent; Silent; policyEvent; Silent]) as ->
      by reflexivity.
    intros res. rewrite !elem_of_cons, elem_of_nil. naive_solver.
Defined.
End WatchesExample.
