(* ===== verification/MockIdp.v ===== *)
(** * examples/agents/mock-idp: an identity provider for subject tokens

    The provider signs access tokens with a key manager of pkg/keys and serves
    the discovery document and the keys the OIDC authenticator of pkg/authn
    reads.  [IdpReply] has what each route writes: the documents as the values
    that are encoded, other bodies as text. *)

From S2P Require Import Prelude GoStrings GoValue GoTime External Token Keys Fetch LocalVerifier Authn Instances.

Local Open Scope Z_scope.

Record idpRequest := { ireq_Email : string; ireq_Scope : string }.

(** [json.NewDecoder(r.Body).Decode(&req)]. *)
Class IdpDocuments := { decode_idpRequest : string → result idpRequest }.

Inductive IdpReply : Type :=
  | IdpText (status : Z) (body : string)
  | IdpDiscovery (issuer jwks_uri : string)
  | IdpKeys (status : Z) (keys : option (list PublicKey))
  | IdpToken (access_token token_type : string).

Section idp.
Context `{IdpDocuments, Crypto, !JWT}.

Record MockIdp := { idp_issuer : string; idp_keyMgr : Manager }.

(** [main] up to serving; an error is fatal. *)
Definition newMockIdp (issuer : string) (generated : result RsaPrivateKey) : result MockIdp :=
  try! keyMgr := map_err (wrapf "failed to create key manager: %v" []) (NewManager 2048 (24 * Hour) generated) in
  Ok {| idp_issuer := issuer; idp_keyMgr := keyMgr |}.

Definition idpClaims (p : MockIdp) (req : idpRequest) (now : Z) : gmap string any :=
  {[ "iss" := AString (idp_issuer p); "sub" := AString (ireq_Email req);
     "email" := AString (ireq_Email req); "aud" := AString "demo-app";
     "scope" := AString (ireq_Scope req); "iat" := AInt64 (Unix now);
     "exp" := AInt64 (Unix (Add now (1 * Hour))) ]}.

(** The unsigned token: the library's header with [kid] set. *)
Definition idpUnsigned (p : MockIdp) (req : idpRequest) (now : Z) : JwtToken :=
  let tok := jwt_NewWithClaims (idpClaims p req now) in
  {| jwt_Header := <["kid" := AString (SigningKey (idp_keyMgr p)).2]> (jwt_Header tok);
     jwt_MapClaims := jwt_MapClaims tok; jwt_RSA := jwt_RSA tok |}.

Definition withDefaultScope (req : idpRequest) : idpRequest :=
  if bool_decide (ireq_Scope req = "")
  then {| ireq_Email := ireq_Email req; ireq_Scope := "read:docs analyze:data" |} else req.

(** The handler of [POST /token]. *)
Definition idpToken (p : MockIdp) (now : Z) (body : string) : IdpReply :=
  match decode_idpRequest body with
  | Err _ => IdpText 400 "invalid request body"
  | Ok req =>
    if bool_decide (ireq_Email req = "") then IdpText 400 "email is required" else
    let req := withDefaultScope req in
    match jwt_SignedString (idpUnsigned p req now) (SigningKey (idp_keyMgr p)).1 with
    | Err _ => IdpText 500 "failed to sign token"
    | Ok signed => IdpToken signed "Bearer"
    end
  end.

Definition discoveryPath : string := "/.well-known/openid-configuration".
Definition jwksPath : string := "/.well-known/jwks.json".

(** [http.ServeMux] on the four patterns, for a clean path. *)
Definition idpMux (p : MockIdp) (now : Z) (method path body : string) : IdpReply :=
  let get := bool_decide (method = "GET") || bool_decide (method = "HEAD") in
  if bool_decide (path = discoveryPath) then
    if get then IdpDiscovery (idp_issuer p) (idp_issuer p +:+ jwksPath)
    else IdpText 405 "Method Not Allowed"
  else if bool_decide (path = jwksPath) then
    if get then let '(status, _, keys) := JWKSHandler (idp_keyMgr p) method in IdpKeys status keys
    else IdpText 405 "Method Not Allowed"
  else if bool_decide (path = "/token") then
    if bool_decide (method = "POST") then idpToken p now body else IdpText 405 "Method Not Allowed"
  else if bool_decide (path = "/healthz") then
    if get then IdpText 200 "" else IdpText 405 "Method Not Allowed"
  else IdpText 404 "404 page not found".
End idp.
Arguments MockIdp {_}.

(** ** The provider as the network shows it *)

Section network.
Context `{IdpDocuments, !JSON, !JSONLaws _, CEL, Crypto, !JWT, !JWTLaws _, Documents}.

(** [body] is read as the document of a reply. *)
Definition body_of (body : string) (reply : IdpReply) : Prop :=
  match reply with
  | IdpDiscovery issuer uri => decode_Discovery body = Ok (issuer, uri)
  | IdpKeys _ (Some keys) => decode_JWKS body = Ok keys
  | _ => False
  end.

(** The two documents are at the provider's URLs. *)
Definition idp_serves (net : Network) (p : MockIdp) : Prop :=
  ∀ now path, path ∈ [discoveryPath; jwksPath] →
    ∃ body, net (idp_issuer p +:+ path) = Ok {| StatusCode := 200; Body := body |} ∧
            body_of body (idpMux p now "GET" path "").

Lemma idp_serves_discovery net p :
  idp_serves net p → ∃ body,
    net (idp_issuer p +:+ discoveryPath) = Ok {| StatusCode := 200; Body := body |} ∧
    decode_Discovery body = Ok (idp_issuer p, idp_issuer p +:+ jwksPath).
Proof using Type. intros Hs. destruct (Hs 0 discoveryPath) as (body & Hb & Hd); [by constructor|]. by exists body. Qed.

Lemma idp_serves_keys net p :
  idp_serves net p → ∃ body,
    net (idp_issuer p +:+ jwksPath) = Ok {| StatusCode := 200; Body := body |} ∧
    decode_JWKS body = Ok (PublicKeys (idp_keyMgr p)).
Proof using Type. intros Hs. destruct (Hs 0 jwksPath) as (body & Hb & Hd); [by repeat constructor|]. by exists body. Qed.

(** ** An authenticator of the provider's tokens *)

(** What stays true of an authenticator configured for the provider: its rules
    are those it was made with, it has discovered nothing else, and it has no
    key but the provider's. *)
Record knows_idp (p : MockIdp) (a0 a : OIDCAuthenticator) : Prop := {
  ki_rules : same_rules a0 a;
  ki_discovery : discoveryURL a = discoveryURL a0;
  ki_jwks : jwksURL a = "" ∨ jwksURL a = idp_issuer p +:+ jwksPath;
  ki_keys : ∀ id k, keys a !! id = Some k →
    id = kid (current (idp_keyMgr p)) ∧ k = private_PublicKey (privateKey (current (idp_keyMgr p)));
}.

(** Authentications of any tokens, one after the other. *)
Definition authentications (net : Network) (a : OIDCAuthenticator) (calls : list (Z * string)) : OIDCAuthenticator :=
  foldl (λ a c, (OIDC_Authenticate net c.1 a c.2).2) a calls.

Context (net : Network) (p : MockIdp) (a0 : OIDCAuthenticator).
Context (Hserves : idp_serves net p) (Hissuer : issuerURL a0 = idp_issuer p).
Context (Hdiscovery : discoveryURL a0 = idp_issuer p +:+ discoveryPath).
Context (Hfresh : previous (idp_keyMgr p) = None).
Context (Hrange : key_in_range (private_PublicKey (privateKey (current (idp_keyMgr p))))).

Lemma cacheKeys_idp ks :
  fold_left cacheKey (PublicKeys (idp_keyMgr p)) ks
  = <[kid (current (idp_keyMgr p)) := private_PublicKey (privateKey (current (idp_keyMgr p)))]> ks.
Proof using Hfresh Hrange.
  unfold PublicKeys. rewrite Hfresh. simpl. unfold cacheKey. simpl.
  change (jwkToRSAPublicKey ?k) with (RSAPublicKey k). by rewrite RSAPublicKey_newPublicKey.
Qed.

(** Fetching always succeeds, and leaves the provider's key in the cache. *)
Lemma fetchJWKS_idp a :
  knows_idp p a0 a → ∃ a', fetchJWKS net a = (None, a') ∧ knows_idp p a0 a' ∧
    keys a' !! kid (current (idp_keyMgr p)) = Some (private_PublicKey (privateKey (current (idp_keyMgr p)))).
Proof using All.
  intros [Hr Hd Hj Hk]. destruct (idp_serves_discovery net p Hserves) as (db & Hdb & Hdd).
  destruct (idp_serves_keys net p Hserves) as (kb & Hkb & Hkd).
  assert ((if bool_decide (jwksURL a = "") then discoverJWKSURL net a else Ok (jwksURL a))
          = Ok (idp_issuer p +:+ jwksPath)) as HU.
  { case_bool_decide as He; [|destruct Hj; congruence]. unfold discoverJWKSURL. destruct Hr as (_ & Hi & _).
    rewrite Hd, Hdiscovery, Hdb. cbn [map_err StatusCode Body]. rewrite bool_decide_true by done. cbn [negb].
    rewrite Hdd. cbn [map_err]. rewrite Hi, Hissuer, bool_decide_true by done. cbn [negb].
    by rewrite bool_decide_false by by apply str_app_ne_r. }
  unfold fetchJWKS. rewrite HU, Hkb. cbn [StatusCode Body]. rewrite bool_decide_true, Hkd by done. cbn [negb].
  rewrite cacheKeys_idp. eexists. split; [done|].
  split; [|by simpl; case_bool_decide; rewrite lookup_insert_eq].
  split.
  - by case_bool_decide.
  - by case_bool_decide.
  - case_bool_decide as He; simpl; [by right|done].
  - intros id k. simpl. assert (keys (if bool_decide (jwksURL a = "") then set_jwksURL a (idp_issuer p +:+ jwksPath)
      else a) = keys a) as -> by (by case_bool_decide).
    rewrite lookup_insert_Some. intros [[<- <-]|[_ ?]]; [done|by apply Hk].
Qed.

Lemma keyFunc_idp a t :
  knows_idp p a0 a → knows_idp p a0 (OIDC_keyFunc net t a).2 ∧
  (jwt_RSA t = true → jwt_Header t !! "kid" = Some (AString (kid (current (idp_keyMgr p)))) →
   (OIDC_keyFunc net t a).1 = Ok (private_PublicKey (privateKey (current (idp_keyMgr p))))).
Proof using All.
  intros Hk. unfold OIDC_keyFunc. destruct (jwt_RSA t); [|done]. cbn [negb].
  destruct (fetchJWKS_idp a Hk) as (a' & -> & Hk' & Hkey).
  destruct (as_string _) as [id|] eqn:Hid.
  - destruct (keys a !! id) as [k|] eqn:Hlook.
    + split; [done|]. intros _ _. simpl. f_equal. by apply (ki_keys _ _ _ Hk id).
    + destruct (keys a' !! id) as [k|] eqn:Hlook'; (split; [done|]); intros _ Hh; simpl.
      * f_equal. by apply (ki_keys _ _ _ Hk' id).
      * rewrite Hh in Hid. simpl in Hid. injection Hid as <-. congruence.
  - split; [done|]. intros _ Hh. by rewrite Hh in Hid.
Qed.

Lemma authentications_idp calls a : knows_idp p a0 a → knows_idp p a0 (authentications net a calls).
Proof using All.
  revert a. induction calls as [|[now s] calls IH]; intros a Hk; [done|]. apply IH. cbn [fst snd].
  unfold OIDC_Authenticate.
  pose proof (jwt_Parse_calls OIDCAuthenticator (WithIssuer (issuerURL a)) now s (OIDC_keyFunc net) a) as Hc.
  destruct (jwt_Parse _ _ _ _ _) as [r a1]. cbn [snd] in Hc.
  assert (knows_idp p a0 a1) as Hk1 by (destruct Hc as [->|[t ->]]; [done|by apply keyFunc_idp]).
  destruct r as [t|e]; [|done]. cbn [map_err]. by destruct (jwt_MapClaims t).
Qed.
End network.

Section tokens.
Context `{IdpDocuments, !JSON, !JSONLaws _, CEL, Crypto, !JWT, !JWTLaws _, Documents}.
Implicit Types p : MockIdp.

Lemma idpToken_signed p now body tok typ :
  idpToken p now body = IdpToken tok typ →
  ∃ req, decode_idpRequest body = Ok req ∧ ireq_Email req ≠ "" ∧
    jwt_signed tok (json_token (idpUnsigned p (withDefaultScope req) now))
      (private_PublicKey (privateKey (current (idp_keyMgr p)))).
Proof.
  unfold idpToken. destruct (decode_idpRequest body) as [req|]; [|done]. case_bool_decide as Hne; [done|].
  destruct (jwt_SignedString _ _) as [s|] eqn:Hs; [|done]. intros [= <- _]. exists req. split_and!; [done..|].
  destruct (jwt_NewWithClaims_fields (idpClaims p (withDefaultScope req) now)) as (Hm & _ & Hh).
  eapply jwt_SignedString_signed; [exact Hm| | |exact Hs].
  - by apply ascii_keys_insert.
  - unfold idpClaims. repeat (apply ascii_keys_insert; [done|]). apply map_Forall_empty.
Qed.

Lemma withDefaultScope_email req : ireq_Email (withDefaultScope req) = ireq_Email req.
Proof. unfold withDefaultScope. by case_bool_decide. Qed.

Lemma idpClaims_valid p req now now' :
  json_text (idp_issuer p) → small_time (Unix (Add now (1 * Hour))) →
  now' < Unix (Add now (1 * Hour)) * Second →
  jwt_valid (WithIssuer (idp_issuer p)) now' (json_norm <$> idpClaims p req now).
Proof.
  intros Hi Hs Hn. eapply (jwt_valid_issuer _ _ _ (float64_of_Z (Unix (Add now (1 * Hour))))).
  - rewrite lookup_fmap. unfold idpClaims. simplify_map_eq. by rewrite Hi.
  - rewrite lookup_fmap. unfold idpClaims. simplify_map_eq. by rewrite json_norm_int.
  - by apply float64_trunc_of_Z.
  - done.
  - rewrite lookup_fmap. unfold idpClaims. by simplify_map_eq.
Qed.

Lemma NewOIDCAuthenticator_fields cfg a :
  NewOIDCAuthenticator cfg = Ok a →
  config a = cfg ∧ issuerURL a = URL (ac_Issuer cfg) ∧
  discoveryURL a = (if bool_decide (DiscoveryURL (ac_Issuer cfg) = "")
                    then TrimSuffix (URL (ac_Issuer cfg)) "/" +:+ discoveryPath else DiscoveryURL (ac_Issuer cfg)) ∧
  audiences a = list_to_set (Audiences (ac_Issuer cfg)) ∧
  (cm_Extra (ac_ClaimMappings cfg) = [] → extraMappings a = []) ∧ jwksURL a = "" ∧ keys a = ∅.
Proof.
  unfold NewOIDCAuthenticator. destruct newCELEnv as [env|]; [|done]. simpl.
  destruct (compileValidationRules _ _); [|done]. simpl. destruct (compileSubjectMapping _ _); [|done]. simpl.
  destruct (compileExtraMappings _ _) as [extra|] eqn:Hx; [|done]. intros [= <-]. split_and!; try done.
  intros He. rewrite He in Hx. by injection Hx as <-.
Qed.

(** The claims give the e-mail address as the subject. *)
Lemma subjectOf_idp p (a : OIDCAuthenticator) req now :
  "demo-app" ∈ audiences a → coe_Claim (cm_Subject (ac_ClaimMappings (config a))) ∈ ["sub"; "email"] →
  extraMappings a = [] → json_text (ireq_Email req) →
  (∀ rule, rule ∈ validationRules a → validation_holds (json_norm <$> idpClaims p req now) rule) →
  subjectOf a (json_norm <$> idpClaims p req now) = Ok {| si_Subject := ireq_Email req; si_Extra := None |}.
Proof.
  intros Ha Hc Hx He Hv. unfold subjectOf, validateAudience.
  rewrite (jwt_GetAudience_string _ "demo-app").
  2: { rewrite lookup_fmap. unfold idpClaims. simplify_map_eq. f_equal. by apply json_norm_ascii. }
  cbn [map_err existsb]. rewrite bool_decide_true by done. cbn [orb].
  rewrite (proj2 (evaluateValidationRules_ok _ _) Hv). unfold evaluateSubjectMapping.
  unfold json_text in He.
  assert (∃ claim, coe_Claim (cm_Subject (ac_ClaimMappings (config a))) = claim ∧ claim ≠ "" ∧
    (json_norm <$> idpClaims p req now) !! claim = Some (AString (ireq_Email req))) as (claim & -> & Hne & Hl).
  { eexists. split; [done|]. rewrite lookup_fmap. unfold idpClaims.
    apply elem_of_cons in Hc as [->|Hc%list_elem_of_singleton]; [|rewrite Hc]; simplify_map_eq; by rewrite He. }
  rewrite bool_decide_false, Hl by done. cbn [negb map_err]. by rewrite Hx.
Qed.
End tokens.

Section theorem.
Context `{IdpDocuments, !JSON, !JSONLaws _, CEL, Crypto, !JWT, !JWTLaws _, Documents}.

(** C15.  The provider's tokens authenticate: a token its token route hands out
    for an e-mail address is accepted, until it expires an hour later, by every
    OIDC authenticator that is configured with the provider's issuer URL, the
    audience [demo-app] and a subject taken from [sub] or [email], after whatever
    authentications it has done before; it discovers the keys itself, and the
    subject is the address. *)
Theorem idp_token_authenticated (net : Network) cfg a0 iss generated p calls body now req tok typ now' :
  newMockIdp iss generated = Ok p → idp_serves net p →
  NewOIDCAuthenticator cfg = Ok a0 → URL (ac_Issuer cfg) = iss → DiscoveryURL (ac_Issuer cfg) = "" →
  TrimSuffix iss "/" = iss → "demo-app" ∈ Audiences (ac_Issuer cfg) →
  coe_Claim (cm_Subject (ac_ClaimMappings cfg)) ∈ ["sub"; "email"] → cm_Extra (ac_ClaimMappings cfg) = [] →
  key_in_range (private_PublicKey (privateKey (current (idp_keyMgr p)))) →
  json_text (kid (current (idp_keyMgr p))) → json_text iss → json_text (ireq_Email req) →
  decode_idpRequest body = Ok req → idpMux p now "POST" "/token" body = IdpToken tok typ →
  (∀ rule, rule ∈ validationRules a0 →
     validation_holds (json_norm <$> idpClaims p (withDefaultScope req) now) rule) →
  small_time (Unix (Add now (1 * Hour))) → now' < Unix (Add now (1 * Hour)) * Second →
  ∃ a', OIDC_Authenticate net now' (authentications net a0 calls) tok
        = (Ok {| si_Subject := ireq_Email req; si_Extra := None |}, a').
Proof.
  intros Hp Hserves Ha0 Hu Hd Htrim Haud Hclaim Hext Hrange Hkid Hiss Hemail Hdec Htok Hval Hs Hn.
  assert (idp_issuer p = iss ∧ previous (idp_keyMgr p) = None) as [<- Hfresh].
  { unfold newMockIdp, NewManager in Hp. destruct (generateKey generated); [|done]. by injection Hp as <-. }
  apply idpToken_signed in Htok as (req' & Hdec' & _ & Hsig).
  assert (req' = req) as -> by congruence.
  destruct (NewOIDCAuthenticator_fields cfg a0 Ha0) as (Hc0 & Hi0 & Hd0 & Hau0 & Hx0 & Hj0 & Hk0).
  assert (knows_idp p a0 (authentications net a0 calls)) as Hk.
  { apply authentications_idp; [done|congruence| |done|done|].
    - rewrite Hd0, Hd, Hu, Htrim. by rewrite bool_decide_true.
    - split; [done|done|by left|]. by rewrite Hk0. }
  set (a := authentications net a0 calls) in *. destruct (ki_rules _ _ _ Hk) as (Hc & Hi & Hau & Hv & _ & Hx).
  destruct (keyFunc_idp net p a0 Hserves) with (a := a)
    (t := json_token (idpUnsigned p (withDefaultScope req) now)) as [Hk' Hkf]; [congruence| |done..|].
  { rewrite Hd0, Hd, Hu, Htrim. by rewrite bool_decide_true. }
  destruct (jwt_NewWithClaims_fields (idpClaims p (withDefaultScope req) now)) as (Hm & HR & _).
  destruct (OIDC_keyFunc net _ a) as [r a'] eqn:HK. cbn [fst snd] in *.
  rewrite Hkf in HK; [|exact HR|].
  2: { unfold json_token, idpUnsigned. cbn [jwt_Header]. rewrite lookup_fmap, lookup_insert_eq. simpl. f_equal. exact Hkid. }
  unfold OIDC_Authenticate.
  erewrite (jwt_Parse_complete _ _ _ _ _ _ _ _ _ (json_norm <$> idpClaims p (withDefaultScope req) now));
    [|exact HK|exact Hsig| |].
  - cbn [map_err]. exists a'. unfold json_token, idpUnsigned. cbn [jwt_MapClaims]. rewrite Hm. cbn [fmap option_fmap option_map].
    f_equal. rewrite <-(withDefaultScope_email req).
    destruct (ki_rules _ _ _ Hk') as (Hc' & _ & Hau' & Hv' & _ & Hx').
    apply subjectOf_idp.
    + rewrite Hau', Hau0. set_solver.
    + by rewrite Hc', Hc0.
    + by rewrite Hx', Hx0.
    + by rewrite withDefaultScope_email.
    + by rewrite Hv'.
  - unfold json_token, idpUnsigned. cbn [jwt_MapClaims]. by rewrite Hm.
  - replace (issuerURL a) with (idp_issuer p) by congruence. by apply idpClaims_valid.
Qed.
End theorem.

Module MockIdpExample.
Definition key : @RsaPrivateKey toyCrypto := toy_key.
Definition idp : MockIdp :=
  {| idp_issuer := "http://idp";
     idp_keyMgr := {| current := {| privateKey := key; kid := computeKid key |}; previous := None;
                      keySize := 2048; lifetime := 24 * Hour |} |}.
Definition alice : idpRequest := {| ireq_Email := "alice@example.com"; ireq_Scope := "" |}.

#[local] Instance idpDocuments : IdpDocuments := {| decode_idpRequest _ := Ok alice |}.
#[local] Instance documents : Documents :=
  {| decode_JWKS _ := Ok (PublicKeys (idp_keyMgr idp));
     decode_Discovery _ := Ok ("http://idp", "http://idp/.well-known/jwks.json") |}.

Definition unsigned : JwtToken :=
  {| jwt_Header := {[ "kid" := AString (computeKid key); "alg" := AString "RS256" ]};
     jwt_MapClaims := Some (idpClaims idp (withDefaultScope alice) (100 * Second)); jwt_RSA := true |}.
#[local] Instance jwt : JWT := toyJWT [("h.p.s", unsigned)].
#[local] Instance jwt_laws : JWTLaws jwt := toyJWTLaws [("h.p.s", unsigned)].

Definition net : Network := λ _, Ok {| StatusCode := 200; Body := "{}" |}.
Definition cfg : AuthenticatorConfig :=
  {| ac_Issuer := {| URL := "http://idp"; DiscoveryURL := ""; Audiences := ["demo-app"]; AudienceMatchPolicy := "" |};
     ac_ClaimValidationRules := [{| cvr_Expression := "true"; cvr_Message := "" |}];
     ac_ClaimMappings := {| cm_Subject := {| coe_Claim := "email"; coe_Expression := "" |}; cm_Extra := [] |} |}.
Definition auth : OIDCAuthenticator :=
  {| config := cfg; issuerURL := "http://idp"; discoveryURL := "http://idp/.well-known/openid-configuration";
     audiences := {[ "demo-app" ]}; matchAny := true;
     validationRules := [{| cr_program := "true" : CelProgram; cr_message := "" |}];
     subjectProgram := None; extraMappings := []; jwksURL := ""; keys := ∅ |}.

Lemma idp_token_authenticated_witness :
  ∃ a', OIDC_Authenticate net (200 * Second) (authentications net auth [(0, "garbage")]) "h.p.s"
        = (Ok {| si_Subject := "alice@example.com"; si_Extra := None |}, a').
Proof.
  apply (idp_token_authenticated net cfg auth "http://idp" (Ok key) idp [(0, "garbage")] "{}" (100 * Second)
           alice "h.p.s" "Bearer"); try reflexivity.
  - intros now path [->|H%list_elem_of_singleton]%elem_of_cons; [|subst path]; exists "{}"; split; reflexivity.
  - by apply list_elem_of_singleton.
  - by right; apply list_elem_of_singleton.
  - split; vm_compute; [discriminate|split; discriminate].
  - intros rule H%list_elem_of_singleton. subst rule. reflexivity.
Defined.
End MockIdpExample.
