(* ===== verification/Demo.v ===== *)
(** * examples/demo: three services and one transaction

    Service A exchanges the caller's access token for a TxToken and calls
    service B with it; B verifies it and calls C, which verifies it again.  A
    service keeps its verifier and what it logged.  A call goes through
    [PropagateTransport] to [do], the rest of the HTTP client and the server at
    the other end; a handler that panics (a request that could not be made is
    nil, and [client.Do] reads it) has no reply. *)

From S2P Require Import Prelude GoStrings GoValue GoTime External GoUrl Token Keys Fetch LocalVerifier SdkVerify.
From S2P Require Import Authn TTSHandler TTSProps SdkClient SdkProps Instances.

Local Open Scope Z_scope.

(** ** Messages *)

(** A body: a text, the text of an error, an encoded JSON value, or a prefix and
    a body that was read. *)
Inductive DemoBody : Type :=
  | BodyText (text : string)
  | BodyError (e : error)
  | BodyJSON (v : any)
  | BodyRelayed (prefix : string) (body : DemoBody).

Record DemoReply := { dr_Status : Z; dr_Body : DemoBody }.

(** [http.Error(w, text, status)]. *)
Definition httpError (status : Z) (text : string) : DemoReply := {| dr_Status := status; dr_Body := BodyText text |}.

(** [json.NewEncoder(w).Encode(v)], with the implicit status. *)
Definition encodeReply (v : any) : DemoReply := {| dr_Status := 200; dr_Body := BodyJSON v |}.
Definition statusReply (status : string) : DemoReply :=
  encodeReply (AMap (Some {[ "status" := AString status ]})).

(** A request as the base transport gets it. *)
Record OutRequest := { out_Method : string; out_URL : string; out_Header : Header; out_Body : DemoBody }.

(** What a service logs of a transaction; [service-b] leaves the context out. *)
Record LogEntry := { le_txn : string; le_sub : string; le_scope : string; le_tctx : option gomap }.

Record Service := { svc_verifier : Verifier; svc_log : list LogEntry }.

Definition newService (jwksURL trustDomain : string) : Service :=
  {| svc_verifier := NewVerifier jwksURL trustDomain; svc_log := [] |}.

Definition logEntry (claims : Claims) : LogEntry :=
  {| le_txn := TransactionID claims; le_sub := Subject claims; le_scope := Scope claims; le_tctx := None |}.
Definition logFull (claims : Claims) : LogEntry :=
  {| le_txn := TransactionID claims; le_sub := Subject claims; le_scope := Scope claims;
     le_tctx := Some (TransactionContext claims) |}.

(** ** The services *)

Section services.
Context `{!Crypto, !JWT, !Documents} (net : Network) (now : Z).

Section caller.
(** The HTTP client: whether [http.NewRequestWithContext(ctx, method, url, body)]
    succeeds, and the exchange below the propagating transport. *)
Context {S : Type} (canRequest : string → string → bool) (do : OutRequest → S → result DemoReply * S).

(** [client.Do(req)] of a request made in [ctx]; [None] is a panic. *)
Definition propagate (method url : string) (header : Header) (body : DemoBody) (ctx : Ctx) (s : S)
  : option (result DemoReply) * S :=
  if negb (canRequest method url) then (None, s) else
  let '(r, s) := do {| out_Method := method; out_URL := url; out_Header := RoundTrip header (Some ctx);
                       out_Body := body |} s in (Some r, s).

(** The handler behind [middleware.VerifyTxToken]. *)
Definition verified {T} (svc : Service) (header : Header)
    (next : Ctx → Service → option DemoReply * T) (keep : Service → T) : option DemoReply * T :=
  match VerifyTxToken net now (svc_verifier svc) header (Some Background) with
  | (MiddlewarePanic, v) => (None, keep {| svc_verifier := v; svc_log := svc_log svc |})
  | (VerifyError e, v) =>
    (Some {| dr_Status := 401; dr_Body := BodyError e |}, keep {| svc_verifier := v; svc_log := svc_log svc |})
  | (Next ctx, v) => next ctx {| svc_verifier := v; svc_log := svc_log svc |}
  end.

Definition addLog (svc : Service) (e : LogEntry) : Service :=
  {| svc_verifier := svc_verifier svc; svc_log := svc_log svc ++ [e] |}.

(** The exchange service A asks for. *)
Definition analyzeExchange (accessToken remoteAddr : string) : ExchangeRequest :=
  {| xr_SubjectToken := accessToken; xr_SubjectTokenType := SubjectTokenTypeAccessToken;
     xr_Scope := "read:data";
     xr_RequestDetails := Some {[ "action" := AString "analyze"; "datasetId" := AString "ds-1234" ]};
     xr_RequestContext := Some {[ "req_ip" := AString remoteAddr; "authn" := AString "oidc" ]} |}.

(** [POST /api/analyze] of service A. *)
Definition serviceA `{!JSON, !HttpClient} (ttsClient : Client) (serviceBURL : string) (header : Header)
    (remoteAddr : string) (s : S) : option DemoReply * S :=
  let auth := Header_Get header "Authorization" in
  if (String.length auth <? 8)%nat then (Some (httpError 401 "missing Authorization header"), s) else
  let accessToken := drop_str 7 auth in
  match (Exchange ttsClient (analyzeExchange accessToken remoteAddr)).1 with
  | Err _ => (Some (httpError 500 "token exchange failed"), s)
  | Ok txToken =>
    let ctx := withToken (Some Background) txToken in
    match propagate "GET" (serviceBURL +:+ "/api/process") ∅ (BodyText "") ctx s with
    | (None, s) => (None, s)
    | (Some (Err _), s) => (Some (httpError 502 "failed to call service-b"), s)
    | (Some (Ok _), s) => (Some (statusReply "analyzed"), s)
    end
  end.

(** [GET /api/process] of service B. *)
Definition serviceB (serviceCURL : string) (header : Header) (st : Service * S)
  : option DemoReply * (Service * S) :=
  let '(svc, s) := st in
  verified svc header
    (λ ctx svc,
       match ClaimsFromContext (Some ctx) with
       | None => (None, (svc, s))
       | Some claims =>
         let svc := addLog svc (logEntry claims) in
         match propagate "GET" (serviceCURL +:+ "/api/store") ∅ (BodyText "") ctx s with
         | (None, s) => (None, (svc, s))
         | (Some (Err _), s) => (Some (httpError 502 "failed to call service-c"), (svc, s))
         | (Some (Ok _), s) => (Some (statusReply "processed"), (svc, s))
         end
       end)
    (λ svc, (svc, s)).

(** [GET /api/store] of service C. *)
Definition serviceC (header : Header) (svc : Service) : option DemoReply * Service :=
  verified svc header
    (λ ctx svc,
       match ClaimsFromContext (Some ctx) with
       | None => (None, svc)
       | Some claims => (Some (statusReply "stored"), addLog svc (logFull claims))
       end)
    id.
End caller.

(** ** The deployed chain *)

(** A server seen by the client of another: a panic closes the connection. *)
Definition answered {T} (r : option DemoReply * T) : result DemoReply * T :=
  match r with
  | (Some reply, s) => (Ok reply, s)
  | (None, s) => (Err (errorf "EOF" []), s)
  end.

Definition unreachable : error := errorf "connection refused" [].

(** The listeners at the two URLs. *)
Definition atC (serviceCURL : string) (q : OutRequest) (c : Service) : result DemoReply * Service :=
  if bool_decide (out_Method q = "GET") && bool_decide (out_URL q = serviceCURL +:+ "/api/store")
  then answered (serviceC (out_Header q) c) else (Err unreachable, c).
Definition atB (canRequest : string → string → bool) (serviceBURL serviceCURL : string) (q : OutRequest)
    (st : Service * Service) : result DemoReply * (Service * Service) :=
  if bool_decide (out_Method q = "GET") && bool_decide (out_URL q = serviceBURL +:+ "/api/process")
  then answered (serviceB canRequest (atC serviceCURL) serviceCURL (out_Header q) st) else (Err unreachable, st).
End services.

(** ** Following one token *)

Section lemmas.
Context `{!JSON, !JSONLaws _, !CEL, !Crypto, !JWT, !JWTLaws _, !Documents}.

(** [live km c lt iat uuid tok now]: the manager's key signed [c] as [tok], and
    it can be read back at [now]. *)
Record live (km : Manager) (c : Claims) (lt iat : Z) (uuid tok : string) (now : Z) : Prop := {
  lv_signed : New c (privateKey (current km)) (kid (current km)) lt iat uuid = Ok tok;
  lv_keys : publishable km;
  lv_audience : Audience c ≠ "";
  lv_claims : json_claims c;
  lv_uuid : json_text uuid;
  lv_iat : small_time (Unix iat);
  lv_exp : small_time (Unix (Add iat lt));
  lv_now : now < Unix (Add iat lt) * Second;
}.

(** The service accepts tokens of the manager for the audience. *)
Definition accepts (net : Network) (km : Manager) (aud : string) (svc : Service) : Prop :=
  trusts net (svc_verifier svc) km ∧ vf_audience (svc_verifier svc) = aud.

Lemma live_nonempty km c lt iat uuid tok now : live km c lt iat uuid tok now → tok ≠ "".
Proof. intros [HN _ _ _ _ _ _ _]. apply New_signed in HN as [_ Hs]. by eapply jwt_signed_nonempty. Qed.

(** The handler behind the middleware runs with the claims that were signed. *)
Lemma verified_live {T} net km c lt iat uuid tok now svc header next (keep : Service → T) :
  live km c lt iat uuid tok now → accepts net km (Audience c) svc → Header_Get header HeaderName = tok →
  ∃ v', verified net now svc header next keep
    = next (withToken (Some (withClaims (Some Background) (issuedClaims c iat uuid lt))) tok)
           {| svc_verifier := v'; svc_log := svc_log svc |}.
Proof.
  intros [HN Hk Hane Hc Hu Hi He Hn] [Ht Ha] Hh.
  destruct (VerifyTxToken_issued km c lt iat uuid tok net (svc_verifier svc) now header (Some Background))
    as (_ & v' & HV); [done..|]. exists v'. unfold verified. by rewrite HV.
Qed.

Lemma serviceC_live net km c lt iat uuid tok now svc header :
  live km c lt iat uuid tok now → accepts net km (Audience c) svc → Header_Get header HeaderName = tok →
  ∃ svc', serviceC net now header svc = (Some (statusReply "stored"), svc') ∧
    svc_log svc' = svc_log svc ++ [logFull (issuedClaims c iat uuid lt)].
Proof.
  intros Hl Ha Hh. unfold serviceC. destruct (verified_live net km c lt iat uuid tok now svc header
    (λ ctx svc, match ClaimsFromContext (Some ctx) with
       | None => (None, svc) | Some claims => (Some (statusReply "stored"), addLog svc (logFull claims)) end) id)
    as [v' ->]; [done..|]. eexists. by split.
Qed.

Lemma serviceB_live net km c lt iat uuid tok now canRequest cURL (b d : Service) header :
  live km c lt iat uuid tok now → accepts net km (Audience c) b → accepts net km (Audience c) d →
  canRequest "GET" (cURL +:+ "/api/store") = true → Header_Get header HeaderName = tok →
  ∃ b' d', serviceB net now canRequest (atC net now cURL) cURL header (b, d)
           = (Some (statusReply "processed"), (b', d')) ∧
    svc_log b' = svc_log b ++ [logEntry (issuedClaims c iat uuid lt)] ∧
    svc_log d' = svc_log d ++ [logFull (issuedClaims c iat uuid lt)].
Proof.
  intros Hl Hb Hd Hreq Hh. unfold serviceB. cbv beta iota.
  edestruct (verified_live (T := Service * Service) net km c lt iat uuid tok now b header) as [v' ->]; [done..|].
  cbn [ClaimsFromContext withToken ctx_claims withClaims default id]. unfold propagate. rewrite Hreq. cbn [negb].
  unfold atC. cbn [out_Method out_URL out_Header]. rewrite !bool_decide_true by done. cbn [andb].
  edestruct (serviceC_live net km c lt iat uuid tok now d) as (d' & -> & Hd'); [done|done| |].
  { apply RoundTrip_token; [by eapply live_nonempty|done]. }
  cbn [answered]. eexists _, d'. split; [done|]. by split.
Qed.
End lemmas.

Section chain.
Context `{!JSON, !JSONLaws _, !CEL, !Crypto, !JWT, !JWTLaws _, !Documents, !HttpClient}.
Context {A : Type} `{!Authenticator A}.
Implicit Types h : Handler A localVerifier.

(** Service A reports success whatever service B answered: only a failed call
    makes a difference. *)
Lemma serviceA_any_status {S} canRequest (do : OutRequest → S → result DemoReply * S) client bURL header remote s tok reply s' :
  (8 ≤ String.length (Header_Get header "Authorization"))%nat →
  (Exchange client (analyzeExchange (drop_str 7 (Header_Get header "Authorization")) remote)).1 = Ok tok →
  canRequest "GET" (bURL +:+ "/api/process") = true →
  do {| out_Method := "GET"; out_URL := bURL +:+ "/api/process";
        out_Header := RoundTrip ∅ (Some (withToken (Some Background) tok)); out_Body := BodyText "" |} s
    = (Ok reply, s') →
  serviceA canRequest do client bURL header remote s = (Some (statusReply "analyzed"), s').
Proof using Type.
  intros Hlen HE Hc Hd. unfold serviceA. rewrite (proj2 (Nat.ltb_ge _ _)) by lia. rewrite HE.
  unfold propagate. by rewrite Hc, Hd.
Qed.

(** A token in the reply to an exchange of an access token. *)
Lemma ServeHTTP_exchange h env r form req reply h' resp :
  ServeHTTP h env r = (Some reply, h') → reply_Body reply = TokenBody resp →
  req_Method r = "POST" → req_Form r = Ok form → parseRequest form = Ok req →
  ter_SubjectTokenType req ≠ SubjectTokenTypeTxnToken →
  ∃ info rt, Router_Authenticate (env_VerifyTime env) (router h) (ter_SubjectToken req) = (Ok info, rt) ∧
    reply_Status reply = 200 ∧
    New (issuanceClaims h req (si_Subject info) (identifyWorkload r)) (privateKey (current (keyManager h)))
        (kid (current (keyManager h))) (h_lifetime h) (env_SignTime env) (env_UUID env) = Ok (AccessToken resp).
Proof using Type.
  intros Hs Hb Hm Hf Hp Ht. unfold ServeHTTP in Hs. rewrite Hm, Hf, Hp in Hs. simpl in Hs.
  rewrite bool_decide_false in Hs by done.
  destruct (Router_Authenticate _ _ _) as [[info|e] rt]; [|by destruct e; simplify_eq/=].
  destruct (checkIssuance _ _ _ _) as [[]|e]; [|by destruct e; simplify_eq/=].
  injection Hs as <- <-. exists info, rt. split; [done|]. split; [|exact (signAndRespond_token _ _ _ _ Hb)].
  unfold signAndRespond in *. simpl in *. by destruct (New _ _ _ _ _ _).
Qed.

(** The client reads the token out of the reply. *)
Lemma Exchange_reply ttsEndpoint req form body er tok :
  let url := cl_endpoint (NewClient ttsEndpoint) +:+ "/token_endpoint" in
  xr_SubjectToken req ≠ "" → xr_Scope req ≠ "" → xr_SubjectTokenType req ≠ "" → exchangeForm req = Ok form →
  http_NewRequest url = None → http_Do url (Encode form) = Ok (200, Ok body) →
  decode_exchangeResponse body = Ok er → er_AccessToken er = tok → tok ≠ "" →
  (Exchange (NewClient ttsEndpoint) req).1 = Ok tok.
Proof using Type.
  intros url Ht Hs Hty Hf Hn Hd He Htok Hne. unfold Exchange. rewrite !bool_decide_false by done.
  cbn [fst]. rewrite Hf. fold url. rewrite Hn, Hd. cbn [map_err]. unfold exchangeResult.
  rewrite bool_decide_true, He by done. cbn [negb map_err]. by rewrite Htok, bool_decide_false.
Qed.

Lemma received_context_json (m : gomap) : json_context (received_context m).
Proof.
  destruct m as [m|]; [|done]. simpl. destruct (json_norm_map m) as [m' Hm].
  unfold received_context, json_context. rewrite Hm, <-Hm. apply json_norm_idem.
Qed.

Lemma issuanceClaims_json h req subject wl details rctx :
  ter_RequestDetails req = received_context details → ter_RequestContext req = received_context rctx →
  json_text (issuer h) → json_text (trustDomain h) → json_text subject → is_ascii (ter_Scope req) = true →
  is_ascii wl = true → json_claims (issuanceClaims h req subject wl).
Proof.
  intros Hd Hr Hi Ht Hs Hsc Hw. split; simpl; rewrite ?Hd, ?Hr; try done; try by apply json_norm_ascii.
  all: apply received_context_json.
Qed.

Lemma drop_bearer (t : string) : drop_str 7 ("Bearer " +:+ t) = t.
Proof using Type. done. Qed.

(** C6.  One transaction, end to end.  When service A is called with a bearer
    token, and the TTS answers the form A posts with a token, then A answers 200,
    and services B and C, whatever they served before, have each verified that
    token and logged the same transaction: the identifier the TTS drew, the
    subject its authenticators found in the bearer token, the scope A asked for,
    and (at C) the context A sent. *)
Theorem demo_transaction_end_to_end h env reply h' resp form body er net now canRequest tts bURL cURL
    header remote accessToken (b c : Service) :
  let req := analyzeExchange accessToken remote in
  let url := cl_endpoint (NewClient tts) +:+ "/token_endpoint" in
  let km := keyManager h in
  let exp := Unix (Add (env_SignTime env) (h_lifetime h)) in
  Header_Get header "Authorization" = "Bearer " +:+ accessToken → accessToken ≠ "" →
  (* the exchange *)
  exchangeForm req = Ok form →
  ServeHTTP h env {| req_Method := "POST"; req_Form := ParseQuery (Encode form);
                     req_Header := Header_Set ∅ "Content-Type" "application/x-www-form-urlencoded" |}
    = (Some reply, h') → reply_Body reply = TokenBody resp →
  http_NewRequest url = None → http_Do url (Encode form) = Ok (reply_Status reply, Ok body) →
  decode_exchangeResponse body = Ok er → er_AccessToken er = AccessToken resp →
  (* the services *)
  canRequest "GET" (bURL +:+ "/api/process") = true → canRequest "GET" (cURL +:+ "/api/store") = true →
  accepts net km (trustDomain h) b → accepts net km (trustDomain h) c → publishable km →
  (* text and times *)
  json_text (issuer h) → json_text (trustDomain h) → trustDomain h ≠ "" → json_text (env_UUID env) →
  (∀ info rt, Router_Authenticate (env_VerifyTime env) (router h) accessToken = (Ok info, rt) →
     json_text (si_Subject info)) →
  small_time (Unix (env_SignTime env)) → small_time exp → now < exp * Second →
  ∃ info b' c',
    (Router_Authenticate (env_VerifyTime env) (router h) accessToken).1 = Ok info ∧
    serviceA canRequest (atB net now canRequest bURL cURL) (NewClient tts) bURL header remote (b, c)
    = (Some (statusReply "analyzed"), (b', c')) ∧
    svc_log b' = svc_log b ++ [{| le_txn := env_UUID env; le_sub := si_Subject info; le_scope := "read:data";
                                  le_tctx := None |}] ∧
    svc_log c' = svc_log c ++ [{| le_txn := env_UUID env; le_sub := si_Subject info; le_scope := "read:data";
                                  le_tctx := Some (received_context (xr_RequestDetails req)) |}].
Proof.
  intros req url km exp Hauth Hne Hform Hserve Hbody Hnew Hdo Hdec Her HreqB HreqC Hb Hc Hkm Hi Ht Htne Hu Hsub Hiat Hexp Hnow.
  destruct (exchangeForm_parsed req form) as (parsed & Hpq & Hpr); [done..|]. rewrite Hpq in Hserve.
  destruct (ServeHTTP_exchange _ _ _ _ _ _ _ _ Hserve Hbody eq_refl eq_refl Hpr ltac:(discriminate))
    as (info & rt & HR & Hst & HN). rewrite Hst in Hdo. cbn in HR.
  assert (live km (issuanceClaims h {|
    ter_GrantType := GrantType; ter_SubjectToken := accessToken; ter_SubjectTokenType := SubjectTokenTypeAccessToken;
    ter_RequestedTokenType := RequestedTokenType; ter_Audience := ""; ter_Scope := "read:data";
    ter_RequestDetails := received_context (xr_RequestDetails req);
    ter_RequestContext := received_context (xr_RequestContext req) |} (si_Subject info) "unknown")
    (h_lifetime h) (env_SignTime env) (env_UUID env) (AccessToken resp) now) as Hl.
  { split; [exact HN|done|done| |done..]. eapply issuanceClaims_json; try done. by apply (Hsub info rt). }
  edestruct (serviceB_live net km) with (canRequest := canRequest) (cURL := cURL) (b := b) (d := c)
    (header := RoundTrip ∅ (Some (withToken (Some Background) (AccessToken resp))))
    as (b' & c' & HB & Hlb & Hlc); [exact Hl|exact Hb|exact Hc|done| |].
  { apply RoundTrip_token; [by eapply live_nonempty|done]. }
  exists info, b', c'. rewrite HR. split; [done|]. unfold serviceA. rewrite Hauth.
  rewrite (proj2 (Nat.ltb_ge _ _)) by (destruct accessToken; [done|simpl; lia]).
  rewrite drop_bearer. fold req.
  rewrite (Exchange_reply tts req form body er (AccessToken resp)) by (done || by eapply live_nonempty).
  unfold propagate. rewrite HreqB. cbn [negb]. unfold atB at 1. cbn [out_Method out_URL out_Header].
  rewrite !bool_decide_true by done. cbn [andb]. rewrite HB. done.
Qed.
End chain.

Module DemoExample.
Definition claims : Claims :=
  {| Issuer := "https://tts"; Audience := "prod"; Subject := "alice"; Scope := "read:data";
     RequestingWorkload := "unknown"; TransactionID := ""; IssuedAt := 0; ExpiresAt := 0;
     TransactionContext := xr_RequestDetails (analyzeExchange "" "10.0.0.1");
     RequesterContext := xr_RequestContext (analyzeExchange "" "10.0.0.1") |}.
Definition table : list (string * JwtToken) := [("a.b.c", TTSExample.unsigned claims "u1")].
#[local] Instance jwt : JWT := toyJWT table.
#[local] Instance jwt_laws : JWTLaws jwt := toyJWTLaws table.
#[local] Instance documents : Documents :=
  {| decode_JWKS _ := Ok (PublicKeys TTSExample.manager); decode_Discovery _ := Ok ("", "") |}.
#[local] Instance http : HttpClient :=
  {| http_NewRequest _ := None; http_Do _ _ := Ok (200, Ok "{}");
     decode_exchangeResponse _ := Ok {| er_AccessToken := "a.b.c"; er_IssuedTokenType := RequestedTokenType;
                                        er_TokenType := "N_A"; er_Error := ""; er_ErrorDesc := "" |} |}.

Definition network : Network := λ _, Ok {| StatusCode := 200; Body := "{}" |}.
Definition handler : Handler fixedAuthenticator localVerifier :=
  NewHandler [{| fa_issuer := "https://idp"; fa_subject := "alice" |}] TTSExample.manager
             "https://tts" "prod" (60 * Second).
Definition service : Service := newService "http://tts/jwks" "prod".
Definition header : Header := Header_Set ∅ "Authorization" "Bearer h.e30.s".
Definition form : gmap string (list string) :=
  match exchangeForm (analyzeExchange "h.e30.s" "10.0.0.1") with Ok form => form | Err _ => ∅ end.
Definition resp : TokenExchangeResponse :=
  {| AccessToken := "a.b.c"; IssuedTokenType := RequestedTokenType; TokenType := "N_A" |}.

Lemma demo_transaction_end_to_end_witness :
  ∃ b' c', serviceA (λ _ _, true) (atB network (120 * Second) (λ _ _, true) "http://b" "http://c")
             (NewClient "http://tts/") "http://b" header "10.0.0.1" (service, service)
           = (Some (statusReply "analyzed"), (b', c')) ∧
    svc_log b' = [{| le_txn := "u1"; le_sub := "alice"; le_scope := "read:data"; le_tctx := None |}] ∧
    svc_log c' = [{| le_txn := "u1"; le_sub := "alice"; le_scope := "read:data";
                     le_tctx := Some (TransactionContext claims) |}].
Proof.
  destruct (demo_transaction_end_to_end handler (TTSExample.environment "u1") (TTSExample.token_reply "a.b.c")
    handler resp form "{}" {| er_AccessToken := "a.b.c"; er_IssuedTokenType := RequestedTokenType;
                              er_TokenType := "N_A"; er_Error := ""; er_ErrorDesc := "" |}
    network (120 * Second) (λ _ _, true) "http://tts/" "http://b" "http://c" header "10.0.0.1" "h.e30.s"
    service service) as (info & b' & c' & HR & HA & Hb & Hc);
    [reflexivity|discriminate|vm_compute; reflexivity|vm_compute; reflexivity|reflexivity..| | | | | | | | | | | |].
  - split; [split; [exists "{}"; split; reflexivity|discriminate]|reflexivity].
  - split; [split; [exists "{}"; split; reflexivity|discriminate]|reflexivity].
  - split_and!; [split; vm_compute; [discriminate|split; discriminate]|discriminate|reflexivity|discriminate].
  - reflexivity.
  - reflexivity.
  - discriminate.
  - reflexivity.
  - intros info rt _. reflexivity.
  - reflexivity.
  - reflexivity.
  - reflexivity.
  - vm_compute in HR. injection HR as <-. exists b', c'. split; [exact HA|]. split; [exact Hb|exact Hc].
Defined.
End DemoExample.
