(* ===== verification/Agents.v ===== *)
(** * examples/agents: the research assistant

    The orchestrator takes a research request, to which the adapter has added a
    TxToken, calls the retriever for documents and the analyzer for an analysis,
    and answers with both.  The retriever and the analyzer verify the token.
    Bodies, transports, verification and logs are those of [Demo]. *)

From stdpp Require Import pretty.
From S2P Require Import Prelude GoStrings GoValue GoTime External GoUrl Token Keys Fetch LocalVerifier SdkVerify.
From S2P Require Import Authn TTSHandler TTSProps SdkClient SdkProps Demo Instances.

Local Open Scope Z_scope.

Record researchRequest := { rreq_Company : string; rreq_Period : string; rreq_Question : string }.
Record analyzeRequest := {
  areq_Company : string; areq_Period : string; areq_Question : string; areq_Documents : option (list string);
}.

(** What [json.NewDecoder(body).Decode] makes of a body in each place; where the
    error is dropped, the fields after it.  [None] is the nil slice. *)
Class AgentDocuments := {
  decode_research : DemoBody → result researchRequest;
  decode_documents : DemoBody → option (list string);
  decode_analyze : DemoBody → result analyzeRequest;
  decode_analysis : DemoBody → string;
}.

(** A [[]string] in an interface or a field, as it is encoded. *)
Definition encodeStrings (l : option (list string)) : any :=
  match l with Some l => ASlice (map AString l) | None => ANil end.

(** The documents for a company. *)
Definition mockDocuments (company : string) : list string :=
  [company +:+ " Annual Report 2024 - Revenue grew 15% YoY to $4.2B";
   company +:+ " Q3 Earnings Call Transcript - CEO highlighted strong cloud growth";
   company +:+ " SEC Filing 10-K - Operating margins expanded to 22%"].

Definition mockAnalysis (n : nat) (company period : string) : string :=
  "Based on " +:+ pretty n +:+ " documents for " +:+ company +:+ " (" +:+ period +:+
  "): Revenue grew 15% YoY driven by cloud expansion. Operating margins improved to 22%. " +:+
  "Management guidance suggests continued momentum into next quarter with expected 12-15% growth.".

(** [r.URL.Query()]: what could be parsed, errors dropped. *)
Definition URL_Query (rawQuery : string) : gmap string (list string) :=
  (foldl parseSegment (∅, None) (SplitByte rawQuery "&")).1.

Definition analyzerBody (req : researchRequest) (docs : option (list string)) : any :=
  AMap (Some {[ "company" := AString (rreq_Company req); "period" := AString (rreq_Period req);
                "question" := AString (rreq_Question req); "documents" := encodeStrings docs ]}).

Definition researchResponse (req : researchRequest) (docs : option (list string)) (analysis : string) : any :=
  AMap (Some {[ "company" := AString (rreq_Company req); "period" := AString (rreq_Period req);
                "question" := AString (rreq_Question req); "documents" := encodeStrings docs;
                "analysis" := AString analysis ]}).

(** ** The services *)

Section agents.
Context `{!Crypto, !JWT, !Documents, !AgentDocuments} (net : Network) (now : Z).

(** [GET /api/retrieve]. *)
Definition retriever (header : Header) (rawQuery : string) (svc : Service) : option DemoReply * Service :=
  verified net now svc header
    (λ ctx svc,
       match ClaimsFromContext (Some ctx) with
       | None => (None, svc)
       | Some claims =>
         let company := Values_Get (URL_Query rawQuery) "company" in
         let company := if bool_decide (company = "") then "ACME" else company in
         (Some (encodeReply (AMap (Some {[ "documents" := encodeStrings (Some (mockDocuments company)) ]}))),
          addLog svc (logFull claims))
       end)
    id.

(** [POST /api/analyze]. *)
Definition analyzer (header : Header) (body : DemoBody) (svc : Service) : option DemoReply * Service :=
  verified net now svc header
    (λ ctx svc,
       match ClaimsFromContext (Some ctx) with
       | None => (None, svc)
       | Some claims =>
         let svc := addLog svc (logFull claims) in
         match decode_analyze body with
         | Err _ => (Some (httpError 400 "invalid request body"), svc)
         | Ok req =>
           (Some (encodeReply (AMap (Some {[ "analysis" := AString
              (mockAnalysis (length (default [] (areq_Documents req))) (areq_Company req) (areq_Period req)) ]}))),
            svc)
         end
       end)
    id.

Section orchestrator.
Context {S : Type} (canRequest : string → string → bool) (do : OutRequest → S → result DemoReply * S).

(** What the orchestrator does with the reply of a service: go on with its body,
    or answer itself. *)
Definition relay {T} (name : string) (r : option (result DemoReply) * S)
    (next : DemoBody → S → option DemoReply * T) (keep : S → T) : option DemoReply * T :=
  match r with
  | (None, s) => (None, keep s)
  | (Some (Err _), s) => (Some (httpError 502 (name +:+ " call failed")), keep s)
  | (Some (Ok resp), s) =>
    if negb (bool_decide (dr_Status resp = 200)) then
      (Some {| dr_Status := dr_Status resp; dr_Body := BodyRelayed (name +:+ " error: ") (dr_Body resp) |}, keep s)
    else next (dr_Body resp) s
  end.

(** The context of the outgoing calls: with the token of the request, if any. *)
Definition inboundContext (header : Header) : Ctx :=
  let txToken := Header_Get header HeaderName in
  if negb (bool_decide (txToken = "")) then withToken (Some Background) txToken else Background.

(** [POST /api/research]. *)
Definition orchestrator (retrieverURL analyzerURL : string) (header : Header) (body : DemoBody) (s : S)
  : option DemoReply * S :=
  let ctx := inboundContext header in
  match decode_research body with
  | Err _ => (Some (httpError 400 "invalid request body"), s)
  | Ok req =>
    relay "retriever"
      (propagate canRequest do "GET" (retrieverURL +:+ "/api/retrieve?company=" +:+ rreq_Company req) ∅
                 (BodyText "") ctx s)
      (λ reply s,
         let docs := decode_documents reply in
         relay "analyzer"
           (propagate canRequest do "POST" (analyzerURL +:+ "/api/analyze")
                      (Header_Set ∅ "Content-Type" "application/json") (BodyJSON (analyzerBody req docs)) ctx s)
           (λ reply s, (Some (encodeReply (researchResponse req docs (decode_analysis reply))), s))
           id)
      id
  end.
End orchestrator.

(** ** The deployment *)

(** The query of a request as it is put on the request line: what follows the
    question mark, without the fragment, unescaped. *)
Definition sentQuery (rest : string) : string := hd "" (SplitByte rest "#").

(** The listeners of the retriever and the analyzer.  A blank in the query ends
    the target of the request line early: the server finds no HTTP version after
    it and answers 400 before any handler.  (A control character is an error of
    [http.NewRequest], [canRequest].) *)
Definition atAgents (retrieverURL analyzerURL : string) (q : OutRequest) (st : Service * Service)
  : result DemoReply * (Service * Service) :=
  let '(r, a) := st in
  let path := retrieverURL +:+ "/api/retrieve?" in
  if bool_decide (out_Method q = "GET") && HasPrefix (out_URL q) path then
    let query := sentQuery (TrimPrefix (out_URL q) path) in
    if ContainsByte query " " then (Ok (httpError 400 "400 Bad Request"), st) else
    let '(reply, r) := answered (retriever (out_Header q) query r) in (reply, (r, a))
  else if bool_decide (out_Method q = "POST") && bool_decide (out_URL q = analyzerURL +:+ "/api/analyze") then
    let '(reply, a) := answered (analyzer (out_Header q) (out_Body q) a) in (reply, (r, a))
  else (Err unreachable, st).
End agents.

(** ** Verified on every hop *)

(** What encoding a value and decoding it again gives. *)
Class AgentDocumentsLaws `{!JSON} (D : AgentDocuments) : Prop := {
  decode_documents_encoded : ∀ ds, Forall json_text ds →
    decode_documents (BodyJSON (AMap (Some {[ "documents" := encodeStrings (Some ds) ]}))) = Some ds;
  decode_analyze_encoded : ∀ req ds,
    json_text (rreq_Company req) → json_text (rreq_Period req) → json_text (rreq_Question req) →
    Forall json_text ds →
    decode_analyze (BodyJSON (analyzerBody req (Some ds)))
    = Ok {| areq_Company := rreq_Company req; areq_Period := rreq_Period req;
            areq_Question := rreq_Question req; areq_Documents := Some ds |};
  decode_analysis_encoded : ∀ s, json_text s →
    decode_analysis (BodyJSON (AMap (Some {[ "analysis" := AString s ]}))) = s;
}.

Lemma is_ascii_app s t : is_ascii (s +:+ t) = is_ascii s && is_ascii t.
Proof. unfold is_ascii. induction s as [|a s IH]; [done|]. rewrite str_app_cons. simpl. by rewrite IH, andb_assoc. Qed.

(** Letters, digits and a few marks go through a query unescaped. *)
Lemma QueryEscape_unreserved s : string_forallb unreserved s = true → QueryEscape s = s.
Proof.
  induction s as [|c s IH]; [done|]. simpl. intros [Hc Hs]%andb_true_iff. unfold escape_byte.
  rewrite Hc, IH by done. done.
Qed.

Lemma unreserved_ascii s : string_forallb unreserved s = true → is_ascii s = true.
Proof.
  unfold is_ascii. induction s as [|c s IH]; [done|]. simpl. intros [Hc Hs]%andb_true_iff.
  rewrite IH, andb_true_r by done. by destruct c as [[] [] [] [] [] [] [] []].
Qed.

Lemma URL_Query_company c :
  string_forallb unreserved c = true → Values_Get (URL_Query ("company=" +:+ c)) "company" = c.
Proof.
  intros Hc. replace ("company=" +:+ c) with (JoinByte "&" (map encode_segment [("company", c)])).
  - unfold URL_Query. rewrite SplitByte_join; [|done|].
    + cbn [map foldl]. rewrite parseSegment_encode. done.
    + intros s ->%list_elem_of_singleton. by apply IndexByte_segment.
  - cbn [map JoinByte]. unfold encode_segment. cbn [fst snd]. by rewrite (QueryEscape_unreserved c).
Qed.

(** They have neither blanks nor marks that end the query. *)
Lemma sentQuery_company c :
  string_forallb unreserved c = true →
  sentQuery ("company=" +:+ c) = "company=" +:+ c ∧ ContainsByte ("company=" +:+ c) " " = false.
Proof.
  intros Hc. assert (∀ b, unreserved b = false → IndexByte c b = None) as Hno.
  { intros b Hb. apply IndexByte_None. revert Hc. induction c as [|x c IH]; [done|]. simpl.
    intros [Hx Hc]%andb_true_iff. rewrite IH, andb_true_r by done. apply negb_true_iff, bool_decide_false.
    intros ->. congruence. }
  unfold sentQuery, ContainsByte. rewrite SplitByte_single by (by apply IndexByte_append, Hno).
  split; [done|]. by rewrite IndexByte_append by (done || by apply Hno).
Qed.

(** A reply that is not a 200. *)
Ltac bad_status := intros [= <- <-]; simpl; discriminate.

Section lemmas.
Context `{!Crypto, !JWT, !Documents, !AgentDocuments} (net : Network) (now : Z).

(** A call of the orchestrator carries the token it was called with, or none. *)
Lemma RoundTrip_inbound header out :
  Header_Get out HeaderName = "" →
  Header_Get (RoundTrip out (Some (inboundContext header))) HeaderName = Header_Get header HeaderName.
Proof using Type.
  intros Hout. unfold inboundContext. case_bool_decide as He; cbn [negb]; [|by apply RoundTrip_token].
  unfold RoundTrip. rewrite Hout, bool_decide_true by done. simpl. congruence.
Qed.

Lemma Header_Get_ContentType : Header_Get (Header_Set ∅ "Content-Type" "application/json") HeaderName = "".
Proof using Type. vm_compute. reflexivity. Qed.

(** Behind the middleware a 200 is a 200 of the handler, for verified claims. *)
Lemma verified_ok {T} (svc : Service) header next (keep : Service → T) reply st :
  verified net now svc header next keep = (Some reply, st) → dr_Status reply = 200 →
  ∃ claims v', sdk_Verify net now (svc_verifier svc) (Header_Get header HeaderName) = (Ok claims, v') ∧
    next (withToken (Some (withClaims (Some Background) claims)) (Header_Get header HeaderName))
         {| svc_verifier := v'; svc_log := svc_log svc |} = (Some reply, st).
Proof using Type.
  unfold verified, VerifyTxToken. case_bool_decide; [bad_status|].
  destruct (sdk_Verify _ _ _ _) as [[claims|e] v']; [|destruct e; (done || bad_status)].
  intros Hn _. by exists claims, v'.
Qed.

Lemma retriever_ok header rawQuery (svc svc' : Service) reply :
  retriever net now header rawQuery svc = (Some reply, svc') → dr_Status reply = 200 →
  ∃ claims, (sdk_Verify net now (svc_verifier svc) (Header_Get header HeaderName)).1 = Ok claims ∧
    svc_log svc' = svc_log svc ++ [logFull claims].
Proof using Type.
  intros Hr Hs. apply verified_ok in Hr as (claims & v' & HV & Hn); [|done]. exists claims. rewrite HV. split; [done|].
  simpl in Hn. by injection Hn as _ <-.
Qed.

Lemma analyzer_ok header body (svc svc' : Service) reply :
  analyzer net now header body svc = (Some reply, svc') → dr_Status reply = 200 →
  ∃ claims, (sdk_Verify net now (svc_verifier svc) (Header_Get header HeaderName)).1 = Ok claims ∧
    svc_log svc' = svc_log svc ++ [logFull claims].
Proof using Type.
  intros Hr Hs. apply verified_ok in Hr as (claims & v' & HV & Hn); [|done]. exists claims. rewrite HV. split; [done|].
  simpl in Hn. by destruct (decode_analyze body); injection Hn as _ <-.
Qed.

(** The orchestrator answers 200 only when the call it relays did. *)
Lemma relay_ok {S T} name (r : option (result DemoReply) * S) next (keep : S → T) reply st :
  relay name r next keep = (Some reply, st) → dr_Status reply = 200 →
  ∃ resp s, r = (Some (Ok resp), s) ∧ dr_Status resp = 200 ∧ next (dr_Body resp) s = (Some reply, st).
Proof using Type.
  unfold relay. destruct r as [[[resp|e]|] s]; [|bad_status|done].
  case_bool_decide as Hst; cbn [negb]; [|intros [= <- <-] ?; simpl in *; congruence]. intros Hn _. by exists resp, s.
Qed.

Lemma atAgents_retrieve rURL aURL header company (r a : Service) :
  atAgents net now rURL aURL {| out_Method := "GET"; out_URL := rURL +:+ "/api/retrieve?company=" +:+ company;
                                out_Header := header; out_Body := BodyText "" |} (r, a)
  = let query := sentQuery ("company=" +:+ company) in
    if ContainsByte query " " then (Ok (httpError 400 "400 Bad Request"), (r, a)) else
    let '(reply, r') := answered (retriever net now header query r) in (reply, (r', a)).
Proof using Type.
  unfold atAgents. cbn [out_Method out_URL out_Header].
  replace (rURL +:+ "/api/retrieve?company=" +:+ company)
    with ((rURL +:+ "/api/retrieve?") +:+ ("company=" +:+ company)) by (by rewrite str_app_assoc).
  rewrite HasPrefix_app, TrimPrefix_app. done.
Qed.

Lemma atAgents_analyze rURL aURL header body (r a : Service) :
  atAgents net now rURL aURL {| out_Method := "POST"; out_URL := aURL +:+ "/api/analyze";
                                out_Header := header; out_Body := body |} (r, a)
  = let '(reply, a') := answered (analyzer net now header body a) in (reply, (r, a')).
Proof using Type. unfold atAgents. cbn [out_Method out_URL out_Header out_Body]. simpl. by rewrite bool_decide_true. Qed.

Lemma answered_ok {T} (r : option DemoReply * T) reply s : answered r = (Ok reply, s) → r = (Some reply, s).
Proof using Type. destruct r as [[]?]; by intros [= <- <-]. Qed.

Lemma propagate_ok {S} canRequest (do : OutRequest → S → result DemoReply * S) method url header body ctx s resp s' :
  propagate canRequest do method url header body ctx s = (Some (Ok resp), s') →
  do {| out_Method := method; out_URL := url; out_Header := RoundTrip header (Some ctx); out_Body := body |} s
  = (Ok resp, s').
Proof using Type. unfold propagate. destruct (canRequest method url); [|done]. simpl. by destruct (do _ _); intros [= <- <-]. Qed.

(** A 200 of the orchestrator: both services verified the token it was called
    with and logged its claims. *)
Lemma orchestrator_ok canRequest rURL aURL header body (r a r' a' : Service) reply :
  orchestrator canRequest (atAgents net now rURL aURL) rURL aURL header body (r, a) = (Some reply, (r', a')) →
  dr_Status reply = 200 →
  ∃ cr ca, (sdk_Verify net now (svc_verifier r) (Header_Get header HeaderName)).1 = Ok cr ∧
    (sdk_Verify net now (svc_verifier a) (Header_Get header HeaderName)).1 = Ok ca ∧
    svc_log r' = svc_log r ++ [logFull cr] ∧ svc_log a' = svc_log a ++ [logFull ca].
Proof using Type.
  unfold orchestrator. destruct (decode_research body) as [req|]; [|intros [= <- <- <-]; simpl; discriminate].
  intros Hk Hst. apply relay_ok in Hk as (resp1 & [r1 a1] & Hp1%propagate_ok & Hs1 & Hk); [|done].
  apply relay_ok in Hk as (resp2 & [r2 a2] & Hp2%propagate_ok & Hs2 & Hk); [|done].
  injection Hk as _ <- <-. rewrite atAgents_retrieve in Hp1. rewrite atAgents_analyze in Hp2.
  cbv zeta in Hp1. destruct (ContainsByte _ _); [by injection Hp1 as <- _|].
  destruct (answered (retriever _ _ _ _ _)) as [rep1 r3] eqn:E1. injection Hp1 as -> <- <-.
  destruct (answered (analyzer _ _ _ _ _)) as [rep2 a3] eqn:E2. injection Hp2 as -> <- <-.
  apply answered_ok, retriever_ok in E1 as (cr & HVr & Hlr); [|done].
  apply answered_ok, analyzer_ok in E2 as (ca & HVa & Hla); [|done].
  rewrite RoundTrip_inbound in HVr by done. rewrite RoundTrip_inbound in HVa by apply Header_Get_ContentType.
  by exists cr, ca.
Qed.
End lemmas.

Section theorem.
Context `{!JSON, !JSONLaws _, !CEL, !Crypto, !JWT, !JWTLaws _, !Documents, !AgentDocuments, !AgentDocumentsLaws _}.
Context (net : Network) (now : Z) (km : Manager) (c : Claims) (lt iat : Z) (uuid tok : string).

Lemma retriever_live header company svc :
  live km c lt iat uuid tok now → accepts net km (Audience c) svc → Header_Get header HeaderName = tok →
  string_forallb unreserved company = true → company ≠ "" →
  ∃ svc', retriever net now header ("company=" +:+ company) svc
    = (Some (encodeReply (AMap (Some {[ "documents" := encodeStrings (Some (mockDocuments company)) ]}))), svc') ∧
    svc_log svc' = svc_log svc ++ [logFull (issuedClaims c iat uuid lt)].
Proof.
  intros Hl Ha Hh Hc Hne. unfold retriever.
  edestruct (verified_live (T := Service) net km c lt iat uuid tok now svc header) as [v' ->]; [done..|].
  cbn -[encodeStrings]. rewrite URL_Query_company, bool_decide_false by done. eexists. by split.
Qed.

Lemma analyzer_live header body req svc :
  live km c lt iat uuid tok now → accepts net km (Audience c) svc → Header_Get header HeaderName = tok →
  decode_analyze body = Ok req →
  ∃ svc', analyzer net now header body svc
    = (Some (encodeReply (AMap (Some {[ "analysis" := AString
         (mockAnalysis (length (default [] (areq_Documents req))) (areq_Company req) (areq_Period req)) ]}))), svc') ∧
    svc_log svc' = svc_log svc ++ [logFull (issuedClaims c iat uuid lt)].
Proof.
  intros Hl Ha Hh Hd. unfold analyzer.
  edestruct (verified_live (T := Service) net km c lt iat uuid tok now svc header) as [v' ->]; [done..|].
  cbn -[mockAnalysis]. rewrite Hd. eexists. by split.
Qed.

Lemma mockDocuments_text company : is_ascii company = true → Forall json_text (mockDocuments company).
Proof using JSONLaws0. intros Hc. repeat constructor; apply json_norm_ascii; by rewrite is_ascii_app, Hc. Qed.

Lemma mockAnalysis_text company period :
  is_ascii company = true → is_ascii period = true → json_text (mockAnalysis 3 company period).
Proof using JSONLaws0.
  intros Hc Hp. apply json_norm_ascii. unfold mockAnalysis. rewrite !is_ascii_app, Hc, Hp. done.
Qed.

(** A call that is answered with a 200 is relayed. *)
Lemma relay_live {S} name canRequest (do : OutRequest → S → result DemoReply * S) method url header body ctx s v s'
    (next : DemoBody → S → option DemoReply * S) :
  canRequest method url = true →
  do {| out_Method := method; out_URL := url; out_Header := RoundTrip header (Some ctx); out_Body := body |} s
    = (Ok (encodeReply v), s') →
  relay name (propagate canRequest do method url header body ctx s) next id = next (BodyJSON v) s'.
Proof using Type. intros Hc Hd. unfold propagate. rewrite Hc, Hd. done. Qed.

Lemma orchestrator_live canRequest rURL aURL header body req (r a : Service) :
  live km c lt iat uuid tok now → accepts net km (Audience c) r → accepts net km (Audience c) a →
  Header_Get header HeaderName = tok → decode_research body = Ok req →
  string_forallb unreserved (rreq_Company req) = true → rreq_Company req ≠ "" →
  is_ascii (rreq_Period req) = true → json_text (rreq_Question req) →
  canRequest "GET" (rURL +:+ "/api/retrieve?company=" +:+ rreq_Company req) = true →
  canRequest "POST" (aURL +:+ "/api/analyze") = true →
  ∃ r' a', orchestrator canRequest (atAgents net now rURL aURL) rURL aURL header body (r, a)
    = (Some (encodeReply (researchResponse req (Some (mockDocuments (rreq_Company req)))
               (mockAnalysis 3 (rreq_Company req) (rreq_Period req)))), (r', a')) ∧
    svc_log r' = svc_log r ++ [logFull (issuedClaims c iat uuid lt)] ∧
    svc_log a' = svc_log a ++ [logFull (issuedClaims c iat uuid lt)].
Proof.
  intros Hl Hr Ha Hh Hd Hco Hne Hpe Hq Hcr Hca. destruct (sentQuery_company _ Hco) as [Hsq Hsp]. pose proof (unreserved_ascii _ Hco) as Hasc.
  destruct (retriever_live (RoundTrip ∅ (Some (inboundContext header))) (rreq_Company req) r) as (r' & HR & Hlr);
    [done|done|by rewrite RoundTrip_inbound|done..|].
  assert (Forall json_text (mockDocuments (rreq_Company req))) as Hdocs by (by apply mockDocuments_text).
  assert (Header_Get (RoundTrip (Header_Set ∅ "Content-Type" "application/json") (Some (inboundContext header)))
            HeaderName = tok) as Hout.
  { rewrite RoundTrip_inbound; [done|apply Header_Get_ContentType]. }
  pose proof (decode_analyze_encoded req _ (json_norm_ascii _ Hasc) (json_norm_ascii _ Hpe) Hq Hdocs) as Hdec.
  destruct (analyzer_live _ _ _ a Hl Ha Hout Hdec) as (a' & HA & Hla).
  exists r', a'. split; [|done]. unfold orchestrator. rewrite Hd.
  erewrite relay_live; [|apply Hcr|rewrite atAgents_retrieve; cbv zeta; rewrite Hsq, Hsp, HR; reflexivity].
  cbv zeta. rewrite (decode_documents_encoded _ Hdocs).
  erewrite relay_live; [|apply Hca|rewrite atAgents_analyze, HA; reflexivity].
  cbn [default id areq_Documents areq_Company areq_Period length mockDocuments].
  by rewrite decode_analysis_encoded by by apply mockAnalysis_text.
Qed.
End theorem.

(** C16.  Research needs the token at both services, and with it succeeds.  For
    every state of the retriever and the analyzer, the orchestrator answers 200
    only when each of them verified the token it was itself called with, and then
    each has logged the claims it verified.  And when that token was signed by the
    TTS for the audience of both and has not expired, the company is named, with
    letters, digits and the marks [-_.~] only (it is put in a URL unescaped), the
    period is ASCII and the question UTF-8, and the two requests can be made, then
    the answer has the retriever's documents for the company and the analyzer's
    analysis of them, and both logged the claims that were signed. *)
Theorem research_verified
    `{!JSON, !JSONLaws _, !CEL, !Crypto, !JWT, !JWTLaws _, !Documents, !AgentDocuments, !AgentDocumentsLaws _}
    net now canRequest rURL aURL header body (r a : Service) :
  let run := orchestrator canRequest (atAgents net now rURL aURL) rURL aURL header body (r, a) in
  (∀ reply r' a', run = (Some reply, (r', a')) → dr_Status reply = 200 →
     ∃ cr ca, (sdk_Verify net now (svc_verifier r) (Header_Get header HeaderName)).1 = Ok cr ∧
       (sdk_Verify net now (svc_verifier a) (Header_Get header HeaderName)).1 = Ok ca ∧
       svc_log r' = svc_log r ++ [logFull cr] ∧ svc_log a' = svc_log a ++ [logFull ca]) ∧
  (∀ km c lt iat uuid req,
     live km c lt iat uuid (Header_Get header HeaderName) now →
     accepts net km (Audience c) r → accepts net km (Audience c) a → decode_research body = Ok req →
     string_forallb unreserved (rreq_Company req) = true → rreq_Company req ≠ "" →
     is_ascii (rreq_Period req) = true → json_text (rreq_Question req) →
     canRequest "GET" (rURL +:+ "/api/retrieve?company=" +:+ rreq_Company req) = true →
     canRequest "POST" (aURL +:+ "/api/analyze") = true →
     ∃ r' a', run = (Some (encodeReply (researchResponse req (Some (mockDocuments (rreq_Company req)))
                        (mockAnalysis 3 (rreq_Company req) (rreq_Period req)))), (r', a')) ∧
       svc_log r' = svc_log r ++ [logFull (issuedClaims c iat uuid lt)] ∧
       svc_log a' = svc_log a ++ [logFull (issuedClaims c iat uuid lt)]).
Proof.
  intros run. split.
  - intros reply r' a'. apply orchestrator_ok.
  - intros km c lt iat uuid req Hl Hr Ha Hd Hc Hne Hp Hq Hcr Hca.
    by apply (orchestrator_live net now km c lt iat uuid (Header_Get header HeaderName)).
Qed.

Module AgentsExample.
#[local] Existing Instance TTSExample.jwt.
#[local] Existing Instance TTSExample.jwt_laws.
#[local] Existing Instance SdkExample.documents.

Definition text_of (v : option any) : string := match v with Some (AString s) => s | _ => "" end.
Definition texts_of (v : option any) : option (list string) :=
  match v with Some (ASlice l) => Some (map (λ x, text_of (Some x)) l) | _ => None end.
Definition fields (b : DemoBody) : gmap string any := match b with BodyJSON (AMap (Some m)) => m | _ => ∅ end.

(** A decoder that finds the fields by their names. *)
#[local] Instance agentDocuments : AgentDocuments :=
  {| decode_research b := Ok {| rreq_Company := text_of (fields b !! "company");
                                rreq_Period := text_of (fields b !! "period");
                                rreq_Question := text_of (fields b !! "question") |};
     decode_documents b := texts_of (fields b !! "documents");
     decode_analyze b := Ok {| areq_Company := text_of (fields b !! "company");
                               areq_Period := text_of (fields b !! "period");
                               areq_Question := text_of (fields b !! "question");
                               areq_Documents := texts_of (fields b !! "documents") |};
     decode_analysis b := text_of (fields b !! "analysis") |}.

Lemma texts_of_encoded ds : texts_of (Some (encodeStrings (Some ds))) = Some ds.
Proof. simpl. f_equal. induction ds as [|d ds IH]; [done|]. simpl. by rewrite IH. Qed.

#[local] Instance agentDocumentsLaws : AgentDocumentsLaws agentDocuments.
Proof.
  split.
  - intros ds _. cbn -[encodeStrings texts_of lookup]. rewrite lookup_singleton_eq. apply texts_of_encoded.
  - intros req ds _ _ _ _. cbn -[encodeStrings texts_of lookup]. simplify_map_eq. do 2 f_equal.
    apply texts_of_encoded.
  - intros s _. cbn -[lookup]. by rewrite lookup_singleton_eq.
Qed.

(** The orchestrator does not escape the company: a separator or a number sign cuts
    it short, and with a blank the call fails. *)
Example company_cut :
  Values_Get (URL_Query (sentQuery ("company=" +:+ "A&B"))) "company" = "A" ∧
  Values_Get (URL_Query (sentQuery ("company=" +:+ "A#B"))) "company" = "A" ∧
  ContainsByte (sentQuery ("company=" +:+ "A B")) " " = true.
Proof. vm_compute. done. Qed.

Definition service : Service := newService "https://tts/jwks" "prod".
Definition question : DemoBody :=
  BodyJSON (AMap (Some {[ "company" := AString "Globex"; "period" := AString "Q3"; "question" := AString "growth?" ]})).

Lemma research_verified_witness :
  ∃ r' a', orchestrator (λ _ _, true) (atAgents SdkExample.network (120 * Second) "http://r" "http://a") "http://r" "http://a"
    SdkExample.inbound question (service, service)
  = (Some (encodeReply (researchResponse {| rreq_Company := "Globex"; rreq_Period := "Q3"; rreq_Question := "growth?" |}
      (Some (mockDocuments "Globex")) (mockAnalysis 3 "Globex" "Q3"))), (r', a')) ∧
    le_sub <$> svc_log r' = ["alice"] ∧ le_sub <$> svc_log a' = ["alice"].
Proof.
  destruct (research_verified SdkExample.network (120 * Second) (λ _ _, true) "http://r" "http://a"
    SdkExample.inbound question service service) as [_ Hrun].
  destruct (Hrun TTSExample.manager TTSExample.first (60 * Second) (100 * Second) "u1"
    {| rreq_Company := "Globex"; rreq_Period := "Q3"; rreq_Question := "growth?" |}) as (r' & a' & HR & Hr & Ha);
    [| | |reflexivity|reflexivity|discriminate|reflexivity|reflexivity|reflexivity|reflexivity|].
  - split; [vm_compute; reflexivity| |discriminate|by split|reflexivity..].
    split_and!; [split; vm_compute; [discriminate|split; discriminate]|discriminate|reflexivity|discriminate].
  - split; [split; [exists "{}"; split; reflexivity|discriminate]|reflexivity].
  - split; [split; [exists "{}"; split; reflexivity|discriminate]|reflexivity].
  - exists r', a'. split; [exact HR|]. rewrite Hr, Ha. split; reflexivity.
Defined.
End AgentsExample.
